(* ===== verification/_CoqProject ===== *)
-Q . S2P
Prelude.v
Extern.v
RowIndex.v
Variant.v
CameraStore.v
DeviceStore.v
ServerStatusStore.v
Alarm.v
Protocol.v
Crypt.v
UdpSession.v
TcpSession.v
SecureChannel.v
Handshake.v
MessageProcessor.v
NetworkService.v
ThreadPool.v
PoolQueue.v
CameraModel.v
CameraIds.v
DeviceModel.v
UserModel.v
ListModels.v
Settings.v
AppController.v
AiImageModel.v
ServerStatusModel.v
NetworkBridge.v
Auth.v
Video.v
VideoWorker.v
VideoManager.v
VideoStream.v
FrameExchange.v
VideoWiring.v
Core.v
Gui.v
System.v
Application.v
Failures.v
Connection.v
SecureLogin.v
SessionEngine.v
EntryPoint.v
