(* ===== verification/Prelude.v ===== *)
(** * AnoMap (withBoost): a verification development

    AnoMap is a camera monitor: a Qt client of a server that announces cameras,
    device states, AI events and pictures.  This library models the C++ under
    src/ layer by layer and proves what makes each part correct, and, where the
    code does not do what it means to, the behaviour it has instead.  QML, the
    build files and third-party libraries are not modelled.

    ** The program and its parts

    - Domain (src/Src/Domain): stores that parse the server's JSON and keep the
      newest data.  [CameraStore.v] models Camera.cpp, [DeviceStore.v] Device.cpp,
      [ServerStatusStore.v] ServerStatus.cpp, [Alarm.v] Alarm.cpp with the queue of
      AlarmController.cpp.  A method is a function in the state and exception monad
      [SE] of this file: the state at a throw is kept, since the code's objects
      keep it.
    - Thread (src/Src/Thread): [ThreadPool.v] models the pool as a step relation
      ([pool_exec]) on its queue, its workers and the pending notifications of the
      condition variable; wakeups may be spurious and go to any waiting worker.
      [PoolQueue.v] is its specification, a queue of tasks with a number of workers,
      which is how [System.v] runs tasks.
    - Crypt (src/Src/Crypt): [Crypt.v] models the TLS, DTLS and MediaDTLS session
      wrappers over a parameter [OpenSSL] with the documented laws [OpenSSLLaws],
      and gives the network layer the interface [SecureSession] with its laws.
      [SecureChannel.v] joins two TLS sessions at the ends of a connection: OpenSSL's
      part of it is the class [OpenSSLPeers], what a [TcpSession] relies on the class
      [SecureChannel].
    - Network (src/Src/Network): [Protocol.v] has the message types and packed
      headers of Protocol.hpp, [TcpSession.v] and [UdpSession.v] the two sessions,
      [Handshake.v] the fold over frames that a [TcpSession] computes, and whole
      handshakes,
      [MessageProcessor.v] the dispatch, [NetworkService.v] the service with its
      [io_context].  Handlers of one object run one at a time on its strand, so a
      session is a function from events to states; what another party may
      interleave (bytes in any chunks, outstanding writes, timers, posted
      handlers) is a sequence of events.
    - Qt models (src/Qt/Back/Models): [CameraModel.v] the grid of cameras with its
      splits, merges and store updates, [DeviceModel.v] the device rows with their
      index, [CameraIds.v] which cameras have rows, [UserModel.v] the user list, [AiImageModel.v] the queues of pictures.
      An operation returns the new model and the signals it emits.  [RowIndex.v] has
      the index from keys to rows that two models keep, [ListModels.v] the interface
      the views read (data(), roleNames(), rowCount()) as the class [ListModel] with
      the cameras, devices and users as instances.
    - Qt services and controllers: [NetworkBridge.v] turns commands into messages
      and callbacks into signals and debounces device states, [Auth.v] has the
      login and sign-up controllers, [ServerStatusModel.v] the status properties,
      [Settings.v] SettingsController.cpp over a store of variants ([Variant.v]) and
      a settings file, [AppController.v] navigation and the detached windows.
    - Video: [Video.v] models the decode thread of Video.cpp, [VideoWorker.v] the
      copy of a picture into a Qt frame, [VideoManager.v] the workers of all cameras
      in a heap, [VideoStream.v] an item of the UI that shows one of them; the last
      three are the classes of VideoStream.cpp.  [FrameExchange.v] takes the hand-over
      of the newest frame between the decode thread and the timers apart, access by
      access, with the spin lock and the count.
    - Core.cpp: [Core.v] connects stores to models through the pool and the GUI
      thread ([bindStoreToModel] over the interface [Bound]), and has the META, AI
      and IMAGE tasks and the order of shutdown.  [VideoWiring.v] connects the signals
      of the camera model to the video manager, and [Gui.v] composes the GUI thread:
      the objects of [constructLayer2], their events ([gui_exec]) and the slots of a
      logout.  [System.v] adds the rest of [wireSignals]: packets, the tasks they become,
      the stores and the queue of the GUI thread, as one step relation.  A task that
      holds the lock of a store for its whole update is one step; the loops of
      [CameraStore::updateFromJson] and of the META and AI tasks, which take it anew in
      each round, are one step per round ([access]), and give what [CameraStore.v] and
      [Core.v] say when nothing comes between ([alone_camera], [alone_meta], [alone_ai]).
      There the GUI thread never waits: its runs are a superset of the program's, and only
      what holds of all of them is claimed of them.
    - The program: [Application.v] puts the network service and the bridge under the
      running system ([App], [app_exec]): the service's thread and its callbacks, the
      calls on the service in which the GUI thread waits, a logout that clears nothing
      before its first [disconnect] has returned, QML's commands to the bridge, and the
      end of [main].  [Connection.v] follows a connection through it and
      [SecureLogin.v] a login over TLS; [Failures.v] has the packets that end the process.
      [EntryPoint.v] has the URL interceptor of App.cpp.
    - Out of the build: [SessionEngine.v] models SessionEngine.hpp, an earlier session
      manager, with the application state and the observable of Config.hpp.

    [Extern.v] lists what is taken from nlohmann::json and Qt, as classes whose
    instances are arguments of the definitions; laws are separate classes, named
    by the theorems that use them.  [RefJson], [RefText], [RefHash], [RefMap],
    [RefQtJson], [RefParse], [RefVariant], [RefFiles], [RefVideo] and, in [Crypt.v],
    [RefSSL] are concrete instances for witnesses.

    ** Correspondence

    Definitions keep the names of the code: [splitSlotAtIndex] is
    [CameraModel::_splitSlotAtIndex], [tcp_handle] runs the handlers
    TcpSession.hpp passes to asio, and so on.  Fields have the members' names; where
    two records of a file clash, a short prefix tells them apart ([cd_], [de_],
    [ds_]).  A callback or signal is a value of an output type, in the order of
    emission.  Logging is left out everywhere.

    Integers are [Z]; those of 8 and 32 bits are wrapped where the code can
    wrap ([wrap8], [wrap32]).  The slot and group ids of the grid are not: an [int] of
    the code overflows after 2^31 splits.  Doubles are the Standard Library's binary64
    [spec_float].  A [std::string] is a string of bytes, a [QString] the text it
    holds, with the conversions as parameters.  A [std::map] or [QHash] is a [gmap];
    where the iteration order shows, it is a parameter.

    A decode thread runs beside everything else.  What FFmpeg answers it, the times
    it reads and the points where it sees the stop flag are one list ([LoopStep]), and
    a join takes the list of what the thread went through: [None] says that it has
    not returned.  [then_stop] appends what a set flag shows, and [video_stop_ends]
    proves that the join then returns.  A worker is an address in a heap, so a use
    after a [delete] is a lookup that gives [None]; a plane of pixels is a partial
    function from offsets, so a read out of range is [None] too, as is an overflow
    of an [int] ([int_mul]).

    ** What the theorems show

    - The whole: the bytes of a CAMERA message reach the grid and the decoders under
      every interleaving with workers, GUI thread and user ([wire_to_decoders]), as does
      any CAMERA packet the service calls back ([packet_reaches_decoders]), and the
      decoders get the URLs that such packets gave for their cameras; all that is
      queued can be finished, unless the GUI thread comes to wait in a [disconnect]
      ([app_drains]); the application refines the running
      system, with the callbacks handled once and in order ([app_refines_system]);
      whatever happens on the GUI thread, the decoders follow the grid with the URLs of
      the camera store ([gui_video_follows]); what a logout clears, and what an update that was
      queued before it brings back ([gui_logout]).
    - Connections: a login reaches the server with its credentials, over TLS after the
      handshake ([login_over_tls]) and without ([login_reaches_server]), connections go to the configured server only
      ([connects_to_settings]); a logout returns when no UDP session is left
      ([logout_returns]), and freezes the program when one is ([logout_freezes]) or
      when a connection comes too late ([late_connection_hangs]); a failed attempt is
      never reported ([failed_attempt_waits]).
    - Failures: only a host that does not resolve or a packet with a field of the
      wrong type ends the process, and each such packet does ([crashes_accounted]).
    - Stores: every branch of an update ([camera_update_spec], [status_update]),
      the merge of CAMERA and AVAILABLE packets and the bounded history
      ([device_camera_update], [device_available_history]), camera ids
      ([camera_id_format]), the alarm queue ([alarm_queue_fifo], [alarm_dispatch]).
    - Pool: it refines a queue of tasks, and a free worker is never forgotten
      ([pool_refines_queue]); order and accounting of tasks, no lost wakeup, drain and termination
      at shutdown, and what an exception does ([pool_fifo], [pool_no_lost_wakeup],
      [pool_shutdown], [pool_exceptions]).
    - Wire: a session does with any chunks of bytes what a fold over the frames says,
      during a handshake and after it ([session_reads], [handshake_runs]); messages
      survive framing ([tcp_roundtrip]), and encryption between two finished
      handshakes ([tls_roundtrip]); callbacks run once ([tcp_callbacks_once]), nothing passes before the handshakes
      ([tcp_tls_gate], [udp_handshake_gate]), fragments in any order give the
      picture ([udp_reassembles]) and missing ones are requested
      ([udp_requests_missing]); decryption reads everything and terminates
      ([decrypt_reads_everything]); received messages reach the callbacks of their
      types and commands the wire ([net_receives], [net_send]).
    - Models: the grid invariant over all operations, the signals as a faithful
      account of the rows, splits undone by merges, exact tilings
      ([camera_model_invariant], [camera_rows_replay], [camera_split_merge],
      [camera_crop_tiling], [camera_store_update]); the device rows as a map that
      agrees with the store ([device_model_lookup], [device_model_agrees]); the
      newest events per camera and samples ([ai_events_newest],
      [server_model_history]); the user list ([user_model_lists]); what
      the views read by which name, and its types ([model_data_typed]).
    - Video: what the decoder acquires it releases once and does not use afterwards
      ([video_resources]), frames are spaced by the limit ([video_throttle]), a stop
      ends the thread ([video_stop_ends]); the optimised copy of a picture is the
      byte-by-byte one ([frame_copy_equiv]) and stays in range ([frame_delivered]);
      workers are neither lost, shared nor used after their deletion
      ([manager_invariant]) and are made and announced once per camera
      ([manager_registers]); a stream shows each new frame once when a timer runs by
      itself ([stream_timer]), and between the steps of the decode thread no torn and
      no older one, at most three times ([frames_whole]), the newest for certain once
      that thread rests ([frame_gets_through]); the steps refine the operations
      ([exchange_refines]).
    - Commands: [bridge_json], [bridge_debounce], [login_requests].
    - Settings and windows: [settings_roundtrip], [settings_file], [app_windows].
    - Wiring: updates reach the model in order with one worker ([core_updates]),
      sensor data reach the cameras of an address ([core_meta]).
    - Entry point and engine: [intercept_lowers]; [engine_never_reads],
      [engine_dispatch], [observable_changes].
    - Behaviour the code hardly intends: [tcp_writes_interleave],
      [udp_redelivers], [udp_missing_diverges], [net_join_never_returns],
      [signup_never_completes], [core_update_race], [core_shutdown_dangles],
      [core_image], [video_reconnects] (a stream that ends is reopened without a
      pause), [stream_attaches_once] (an item that finds no worker at first never
      attaches), and parts of the theorems above.

    ** Fuel

    Two loops are bounded by fuel and return [None] without enough.  The read
    loops of [Crypt.v] need one step per buffer the library still holds, and
    [decrypt_reads_everything] proves that any fuel above the length of the
    pending data suffices.  [missing_loop] of [UdpSession.v] needs the highest sequence number
    plus two steps when that number is below 255 ([udp_requests_missing]), and has
    no answer for any fuel when it is 255, where the code's loop does not end
    ([udp_missing_diverges]).

    ** Not modelled

    The registration of the QML context and the Qt set-up in [main] (graphics API,
    icon, type registrations) keep no state of the program; the methods
    SessionEngine.hpp declares and nothing defines; QML.  FFmpeg, Qt, asio and
    OpenSSL are parameters or steps of the environment (that a TLS handshake, once
    finished, leaves a channel between its ends is a hypothesis, [SecureChannel]); so is what FFmpeg and the
    network answer, and when.  The order in which asio runs two outstanding
    operations of one stream is left open, as its documentation leaves it.  The frames
    a decode thread delivers are steps of their own in the composed files; what those
    steps hide is in [FrameExchange.v], whose interleavings take the memory orders of
    the code for granted.  In [Application.v] the calls on the service of an event other
    than a logout follow the rest of the event (the answer to a login or a signup
    disconnects before it sets an error text and emits its last signals), and the
    destruction of the objects after the last call is in [Core.v] and [ThreadPool.v].

    The laws about libraries are few and named: what OpenSSL's documentation says of a
    read and a write ([OpenSSLLaws]), that a handshake stays finished on records that
    decrypt ([OpenSSLStays], for the theorems about sessions only), that a mapped frame
    has at least the lines the code needs or the copy is undefined ([QtVideoLaws],
    [chroma_fits]), and that texts out of a JSON document are UTF-8 ([Utf8Texts]). *)

From Stdlib Require Export ZArith Lia Ascii.
From Stdlib Require Export Floats.SpecFloat.
From stdpp Require Export base tactics numbers list gmap sets strings pretty.

#[export] Set Default Goal Selector "!".

Declare Scope anomap_scope.
Delimit Scope anomap_scope with anomap.
Create HintDb anomap discriminated.

(** Closes a decidable closed goal by evaluating its decision procedure. *)
Ltac by_decide := apply (bool_decide_unpack _); vm_compute; exact I.

(** ** Machine integers

    The C++ integers of the code are [Z] with their width written where
    arithmetic can wrap. *)

Definition wrap8 (z : Z) : Z := (z mod 2 ^ 8)%Z.
Definition wrap32 (z : Z) : Z := (z mod 2 ^ 32)%Z.
Definition is_u8 (z : Z) : Prop := (0 ≤ z < 2 ^ 8)%Z.
Definition is_u32 (z : Z) : Prop := (0 ≤ z < 2 ^ 32)%Z.

Lemma wrap8_id z : is_u8 z → wrap8 z = z.
Proof. intros ?. by apply Z.mod_small. Qed.

Lemma wrap8_range z : is_u8 (wrap8 z).
Proof. apply Z.mod_pos_bound. lia. Qed.

Lemma wrap32_id z : is_u32 z → wrap32 z = z.
Proof. intros ?. by apply Z.mod_small. Qed.

Lemma wrap32_range z : is_u32 (wrap32 z).
Proof. apply Z.mod_pos_bound. lia. Qed.

#[export] Hint Resolve wrap8_range wrap32_range : anomap.

(** ** Bounded FIFO buffers

    [while (q.size() > max) q.pop_front();] *)
Fixpoint trim_front {A} (max : nat) (l : list A) : list A :=
  match l with
  | [] => []
  | x :: l' => if decide (max < length l) then trim_front max l' else l
  end.

Lemma trim_front_drop {A} max (l : list A) :
  trim_front max l = drop (length l - max) l.
Proof.
  induction l as [|x l IH]; [by rewrite drop_nil|].
  cbn [trim_front]. case_decide as Hlt; cbn in Hlt |- *.
  - rewrite IH. by replace (S (length l) - max) with (S (length l - max)) by lia.
  - by replace (S (length l) - max) with 0 by lia.
Qed.

Lemma trim_front_length {A} max (l : list A) : length (trim_front max l) ≤ max.
Proof. rewrite trim_front_drop, length_drop. lia. Qed.

Lemma trim_front_suffix {A} max (l : list A) : trim_front max l `suffix_of` l.
Proof.
  rewrite trim_front_drop. exists (take (length l - max) l). by rewrite take_drop.
Qed.

Lemma trim_front_snoc {A} n (l1 l2 : list A) x :
  l1 = trim_front n l2 → trim_front n (l1 ++ [x]) = trim_front n (l2 ++ [x]).
Proof.
  intros ->. rewrite !trim_front_drop, !length_app, length_drop. cbn.
  destruct (decide (length l2 ≤ n)) as [Hle|Hgt].
  - by replace (length l2 - n) with 0 by lia; rewrite drop_0, Nat.sub_0_r.
  - destruct n as [|n].
    + rewrite !drop_ge; [done|..]; rewrite ?length_app, ?length_drop; cbn; lia.
    + rewrite (drop_app_le _ [x]) by (rewrite length_drop; lia).
      rewrite (drop_app_le l2) by lia. rewrite drop_drop. do 2 f_equal. lia.
Qed.

#[export] Hint Resolve trim_front_length trim_front_suffix : anomap.

(** ** Replacing one element of a list *)
Lemma split_at {A} (l : list A) i x :
  l !! i = Some x →
  l = take i l ++ x :: drop (S i) l ∧
  ∀ y, <[i := y]> l = take i l ++ y :: drop (S i) l.
Proof.
  intros H. split; [by rewrite take_drop_middle|].
  intros y. apply insert_take_drop. by eapply lookup_lt_Some.
Qed.

Lemma insert_swap_Permutation {A} (l : list A) i x y :
  l !! i = Some x → x :: <[i := y]> l ≡ₚ y :: l.
Proof.
  intros H. destruct (split_at l i x H) as [Hl Hi]. rewrite Hi. rewrite Hl at 3.
  solve_Permutation.
Qed.

Lemma NoDup_submseteq_l {A} (l k : list A) : l ⊆+ k → NoDup k → NoDup l.
Proof. intros [k' ->]%submseteq_Permutation Hk. by apply NoDup_app in Hk as [? _]. Qed.

(** ** Linear search: [for (i...) if (p(l[i])) return i; return -1;] *)
Fixpoint index_where {A} (p : A → bool) (l : list A) : option nat :=
  match l with
  | [] => None
  | x :: l' => if p x then Some 0 else S <$> index_where p l'
  end.

(** The [int] the C++ loop returns. *)
Definition index_z (o : option nat) : Z :=
  match o with Some i => Z.of_nat i | None => (-1)%Z end.

Lemma index_where_Some {A} (p : A → bool) l i :
  index_where p l = Some i ↔
  ∃ x, l !! i = Some x ∧ p x = true ∧ ∀ j y, j < i → l !! j = Some y → p y = false.
Proof.
  revert i. induction l as [|x l IH]; intros i; cbn.
  { split; [done|]. intros (y & ? & _). done. }
  destruct (p x) eqn:Hp.
  - split.
    + intros [= <-]. exists x. split_and!; [done|done|]. intros; lia.
    + intros (y & Hy & Hpy & Hlt). destruct i as [|i]; [done|].
      specialize (Hlt 0 x ltac:(lia) eq_refl). congruence.
  - rewrite fmap_Some. split.
    + intros (k & (y & Hy & Hpy & Hlt)%IH & ->). exists y. split_and!; [done|done|].
      intros [|j] z Hj Hz; cbn in Hz; [congruence|]. eapply Hlt; [|done]. lia.
    + intros (y & Hy & Hpy & Hlt). destruct i as [|i]; cbn in Hy; [congruence|].
      exists i. split; [|done]. apply IH. exists y. split_and!; [done|done|].
      intros j z Hj Hz. apply (Hlt (S j)); [lia|done].
Qed.

Lemma index_where_None {A} (p : A → bool) l :
  index_where p l = None ↔ Forall (λ x, p x = false) l.
Proof.
  induction l as [|x l IH]; cbn; [done|].
  rewrite Forall_cons. destruct (p x) eqn:Hp.
  - split; [done|]. intros [? _]. congruence.
  - rewrite fmap_None, IH. split; [by intros|by intros [_ H]].
Qed.

Lemma index_where_lt {A} (p : A → bool) l i : index_where p l = Some i → i < length l.
Proof. intros (x & Hx & _)%index_where_Some. by eapply lookup_lt_Some. Qed.

Lemma index_z_nonneg o : (0 <=? index_z o)%Z = bool_decide (is_Some o).
Proof. destruct o; cbn; [|done]. by rewrite Zle_imp_le_bool by lia. Qed.

(** ** A state and exception monad

    C++ code that mutates an object and may throw: the state at the throw is
    kept. *)
Inductive outcome (E A : Type) : Type :=
| Ret (a : A)
| Throw (e : E).
Arguments Ret {E A} _.
Arguments Throw {E A} _.

Definition SE (S E A : Type) : Type := S → outcome E A * S.

#[export] Instance outcome_ret E : MRet (outcome E) := λ A a, Ret a.
#[export] Instance outcome_bind E : MBind (outcome E) := λ A B f m,
  match m with Ret a => f a | Throw e => Throw e end.

#[export] Instance SE_ret S E : MRet (SE S E) := λ A a s, (Ret a, s).
#[export] Instance SE_bind S E : MBind (SE S E) := λ A B f m s,
  match m s with
  | (Ret a, s') => f a s'
  | (Throw e, s') => (Throw e, s')
  end.

Definition se_throw {S E A} (e : E) : SE S E A := λ s, (Throw e, s).
Definition se_get {S E} : SE S E S := λ s, (Ret s, s).
Definition se_modify {S E} (f : S → S) : SE S E unit := λ s, (Ret tt, f s).
Definition se_lift {S E A} (o : outcome E A) : SE S E A := λ s, (o, s).

(** [for (const auto &x : l) acc = body(x, acc);] *)
Fixpoint se_fold {S E A B} (body : A → B → SE S E B) (l : list A) (acc : B) : SE S E B :=
  match l with
  | [] => mret acc
  | x :: l' => body x acc ≫= se_fold body l'
  end.

Fixpoint outcome_fold {E A B} (body : A → B → outcome E B) (l : list A) (acc : B)
  : outcome E B :=
  match l with
  | [] => mret acc
  | x :: l' => body x acc ≫= outcome_fold body l'
  end.

(** Every run of [m], returning or throwing, relates its two states by [R]. *)
Definition respects {S E A} (R : relation S) (m : SE S E A) : Prop :=
  ∀ s, R s (m s).2.

Section respects.
Context {S E : Type} (R : relation S) `{!PreOrder R}.

Lemma respects_ret {A} (a : A) : respects (E:=E) R (mret a).
Proof. intros s. cbn. reflexivity. Qed.

Lemma respects_throw {A} (e : E) : respects (A:=A) R (se_throw e).
Proof. intros s. cbn. reflexivity. Qed.

Lemma respects_lift {A} (o : outcome E A) : respects R (se_lift o).
Proof. intros s. cbn. reflexivity. Qed.

Lemma respects_get : respects (E:=E) R se_get.
Proof. intros s. cbn. reflexivity. Qed.

Lemma respects_modify f : (∀ s, R s (f s)) → respects (E:=E) R (se_modify f).
Proof. intros H s. apply H. Qed.

Lemma respects_bind {A B} (m : SE S E A) (k : A → SE S E B) :
  respects R m → (∀ a, respects R (k a)) → respects R (m ≫= k).
Proof.
  intros Hm Hk s. unfold mbind, SE_bind. specialize (Hm s).
  destruct (m s) as [[a|e] s1]; cbn in *; [|done].
  etransitivity; [done|]. apply Hk.
Qed.

Lemma respects_fold {A B} (body : A → B → SE S E B) l acc :
  (∀ x b, respects R (body x b)) → respects R (se_fold body l acc).
Proof.
  intros Hb. revert acc. induction l as [|x l IH]; intros acc; cbn.
  - apply respects_ret.
  - apply respects_bind; [done|]. intros a. apply IH.
Qed.
End respects.

(** An invariant as a preorder: [I] before implies [I] after. *)
Definition keeps {S} (I : S → Prop) : relation S := λ s s', I s → I s'.

#[export] Instance keeps_preorder {S} (I : S → Prop) : PreOrder (keeps I).
Proof.
  split; [by intros s H|].
  intros s1 s2 s3 H12 H23 H. by apply H23, H12.
Qed.

#[export] Hint Resolve respects_ret respects_throw respects_lift respects_get
  respects_fold respects_bind respects_modify : anomap.

Lemma se_bind_Ret {S E A B} (m : SE S E A) (k : A → SE S E B) s b s' :
  (m ≫= k) s = (Ret b, s') ↔ ∃ a s1, m s = (Ret a, s1) ∧ k a s1 = (Ret b, s').
Proof.
  unfold mbind, SE_bind.
  destruct (m s) as [[a|e] s1]; (split; [intros H|intros (a' & s1' & Ha & H)]).
  - by exists a, s1.
  - by injection Ha as -> ->.
  - done.
  - done.
Qed.

Lemma outcome_bind_Ret {E A B} (m : outcome E A) (k : A → outcome E B) b :
  m ≫= k = Ret b ↔ ∃ a, m = Ret a ∧ k a = Ret b.
Proof.
  unfold mbind, outcome_bind. destruct m as [a|e]; (split; [intros H|intros (a' & Ha & H)]).
  - by exists a.
  - by injection Ha as ->.
  - done.
  - done.
Qed.

(** Splits a successful run of a sequence of monadic steps into its steps. *)
Ltac invert_run :=
  repeat match goal with
  | H : (_ ≫= _) _ = (Ret _, _) |- _ =>
      let a := fresh "a" in let s := fresh "s" in let Ha := fresh "Hrun" in
      apply se_bind_Ret in H as (a & s & Ha & H)
  | H : _ ≫= _ = Ret _ |- _ =>
      let a := fresh "a" in let Ha := fresh "Hrun" in
      apply outcome_bind_Ret in H as (a & Ha & H)
  | H : mret _ _ = (Ret _, _) |- _ => injection H as <- <-
  | H : mret _ = Ret _ |- _ => injection H as <-
  | H : se_modify _ _ = (Ret _, _) |- _ => injection H as <- <-
  | H : se_get _ = (Ret _, _) |- _ => injection H as <- <-
  | H : se_lift ?o _ = (Ret _, _) |- _ =>
      unfold se_lift in H; injection H as H <-
  end.

(** ** Doubles

    [double] and [qreal] are IEEE-754 binary64, given by the Standard
    Library's executable specification. *)
Definition double : Type := spec_float.
Definition d_add : double → double → double := SFadd 53 1024.
Definition d_sub : double → double → double := SFsub 53 1024.
Definition d_mul : double → double → double := SFmul 53 1024.
Definition d_div : double → double → double := SFdiv 53 1024.
Definition d_of_Z (z : Z) : double := binary_normalize 53 1024 z 0 false.
Definition d_zero : double := S754_zero false.
Definition d_one : double := d_of_Z 1.
Definition d_half : double := d_div d_one (d_of_Z 2).

#[export] Instance spec_float_eq_dec : EqDecision spec_float.
Proof. solve_decision. Defined.

(** ** Strings

    A [std::string] is a Rocq [string] of bytes; [index], [substring] and
    [prefix] of the Standard Library are [find], [substr] and
    [rfind(p, 0) == 0]. *)
Definition starts_with (s p : string) : bool := String.prefix p s.

(** The double quote, as a character and as a string. *)
Definition quote : Ascii.ascii := Ascii.Ascii false true false false false true false false.
Definition dq : string := String quote "".

Definition str_empty (s : string) : bool := bool_decide (s = "").

Lemma str_empty_true s : str_empty s = true ↔ s = "".
Proof. apply bool_decide_eq_true. Qed.

Lemma str_empty_false s : str_empty s = false ↔ s ≠ "".
Proof. apply bool_decide_eq_false. Qed.

Lemma app_string_cons c (s1 s2 : string) : String c s1 +:+ s2 = String c (s1 +:+ s2).
Proof. done. Qed.

Lemma app_string_nil_l (s : string) : "" +:+ s = s.
Proof. done. Qed.

Lemma app_string_assoc (s1 s2 s3 : string) : (s1 +:+ s2) +:+ s3 = s1 +:+ (s2 +:+ s3).
Proof.
  induction s1 as [|c s1 IH]; [done|]. rewrite !app_string_cons. cbn. by rewrite IH.
Qed.

Lemma app_string_nil_r (s : string) : s +:+ "" = s.
Proof. induction s as [|c s IH]; [done|]. by rewrite app_string_cons, IH. Qed.

Lemma app_string_length (s1 s2 : string) :
  String.length (s1 +:+ s2) = String.length s1 + String.length s2.
Proof.
  induction s1 as [|c s1 IH]; [done|]. rewrite !app_string_cons. cbn. by rewrite IH.
Qed.

Lemma string_cons_app c s : String c s = String c "" +:+ s.
Proof. done. Qed.

Lemma starts_with_iff s p : starts_with s p = true ↔ ∃ t, s = p +:+ t.
Proof.
  unfold starts_with. revert s. induction p as [|c p IH]; intros s.
  - split; [by exists s|]. intros _. by destruct s.
  - destruct s as [|d s]; cbn.
    + split; [done|]. by intros [t Ht].
    + destruct (Ascii.ascii_dec c d) as [->|Hne].
      * rewrite IH. split; intros [t Ht]; exists t; [by subst|]. by injection Ht.
      * split; [done|]. intros [t Ht]. by injection Ht as -> _.
Qed.

Fixpoint str_mem (c : Ascii.ascii) (s : string) : bool :=
  match s with
  | EmptyString => false
  | String d s' => if Ascii.ascii_dec c d then true else str_mem c s'
  end.

#[global] Arguments str_mem c%_char_scope s%_stdpp_scope.

Lemma str_mem_app c s1 s2 : str_mem c (s1 +:+ s2) = str_mem c s1 || str_mem c s2.
Proof.
  induction s1 as [|d s1 IH]; [done|]. rewrite app_string_cons. cbn.
  by destruct (Ascii.ascii_dec c d).
Qed.

Lemma prefix_app p s : String.prefix p (p +:+ s) = true.
Proof. apply starts_with_iff. by exists s. Qed.

(** [index] past a known prefix of the searched string. *)
Lemma index_shift p pre s :
  String.index (String.length pre) p (pre +:+ s)
  = (λ k, String.length pre + k) <$> String.index 0 p s.
Proof.
  induction pre as [|c pre IH].
  - cbn [String.length]. rewrite app_string_nil_l. by destruct (String.index 0 p s).
  - rewrite app_string_cons. cbn. rewrite IH. by destruct (String.index 0 p s).
Qed.

Lemma index_char_app c pre post :
  str_mem c pre = false →
  String.index 0 (String c "") (pre +:+ String c post) = Some (String.length pre).
Proof.
  induction pre as [|d pre IH]; intros Hno.
  - rewrite app_string_nil_l. cbn.
    destruct (Ascii.ascii_dec c c); [by destruct post|done].
  - rewrite app_string_cons. cbn in Hno |- *.
    destruct (Ascii.ascii_dec c d); [done|]. by rewrite IH.
Qed.

Lemma index_0_cons p c s :
  String.index 0 p (String c s)
  = if String.prefix p (String c s) then Some 0 else S <$> String.index 0 p s.
Proof. done. Qed.

Lemma index_S_cons n p c s :
  String.index (S n) p (String c s) = S <$> String.index n p s.
Proof. done. Qed.

Lemma index_0_empty s : String.index 0 "" s = Some 0.
Proof. by destruct s. Qed.

Lemma app_string_ne_empty_r (s1 s2 : string) : s2 ≠ "" → s1 +:+ s2 ≠ "".
Proof. intros H. destruct s1; [done|]. by rewrite app_string_cons. Qed.

Lemma app_string_ne_empty_l (s1 s2 : string) : s1 ≠ "" → s1 +:+ s2 ≠ "".
Proof. intros H. destruct s1; [done|]. by rewrite app_string_cons. Qed.

Lemma index_Some n p s m :
  String.index n p s = Some m →
  n ≤ m ∧ ∃ pre post, s = pre +:+ p +:+ post ∧ String.length pre = m.
Proof.
  revert n m. induction s as [|c s IH]; intros n m H.
  - destruct n as [|n]; [|done]. destruct p; [|done]. injection H as <-.
    split; [done|]. by exists "", "".
  - destruct n as [|n]; [rewrite index_0_cons in H|rewrite index_S_cons in H].
    + destruct (String.prefix p (String c s)) eqn:Hp.
      * injection H as <-. split; [done|].
        apply starts_with_iff in Hp as [t Ht]. by exists "", t.
      * apply fmap_Some in H as (k & Hk & ->).
        split; [lia|]. destruct (IH _ _ Hk) as (_ & pre & post & -> & <-).
        by exists (String c pre), post.
    + apply fmap_Some in H as (k & Hk & ->).
      destruct (IH _ _ Hk) as (Hle & pre & post & -> & <-). split; [lia|].
      by exists (String c pre), post.
Qed.

(** No occurrence of the character before the index found. *)
Lemma index_char_between n c s m :
  String.index n (String c "") s = Some m →
  str_mem c (String.substring n (m - n) s) = false.
Proof.
  revert n m. induction s as [|d s IH]; intros n m H.
  - by destruct n.
  - destruct n as [|n]; cbn in H.
    + destruct (Ascii.ascii_dec c d) as [->|Hne].
      * replace (String.prefix "" s) with true in H by (by destruct s).
        by injection H as <-.
      * destruct (String.index 0 (String c "") s) as [k|] eqn:Hk; [|done].
        injection H as <-. cbn. destruct (Ascii.ascii_dec c d); [done|].
        rewrite <-(Nat.sub_0_r k). by apply IH.
    + destruct (String.index n (String c "") s) as [k|] eqn:Hk; [|done].
      injection H as <-. cbn. by apply IH.
Qed.

Lemma substring_shift n pre s :
  String.substring (String.length pre) n (pre +:+ s) = String.substring 0 n s.
Proof. induction pre as [|c pre IH]; [done|]. rewrite app_string_cons. apply IH. Qed.

Lemma substring_app s1 s2 : String.substring 0 (String.length s1) (s1 +:+ s2) = s1.
Proof.
  induction s1 as [|c s1 IH]; [by destruct s2|].
  rewrite app_string_cons. cbn. by rewrite IH.
Qed.
