(* ===== verification/Extern.v ===== *)
(** * Interfaces to code that is not under src/

    What the program takes from nlohmann::json and from Qt, as classes whose
    instances are arguments of every definition that uses them.  Laws are
    separate classes that state documented behaviour; a theorem that needs one
    names it.  [RefJson] and [RefText] are small concrete instances, used by
    the witnesses only. *)

From S2P Require Import Prelude.

(** ** nlohmann::json *)

(** What the library throws: [json::type_error] (a member of the wrong type, or
    [value] on a non-object) and [json::parse_error] (the throwing [parse]). *)
Inductive exn : Type :=
| json_type_error
| json_parse_error.

#[export] Instance exn_eq_dec : EqDecision exn.
Proof. solve_decision. Defined.

Class Json : Type := {
  json : Type;
  json_parse : string → json;                 (* parse(s, nullptr, false) *)
  json_parse_throw : string → outcome exn json; (* parse(s) *)
  is_object : json → bool;
  is_array : json → bool;
  elements : json → list json;                (* range-for over an array *)
  contains : json → string → bool;
  member : json → string → json;              (* operator[] on a present key *)
  value_string : json → string → string → outcome exn string;
  value_bool : json → string → bool → outcome exn bool;
  value_double : json → string → double → outcome exn double;
  value_int : json → string → Z → outcome exn Z;
  value_i64 : json → string → Z → outcome exn Z
}.

(** [j.value(key, default)] returns the default when an object lacks the key
    and throws [type_error.306] when [j] is not an object; a value is not both
    an object and an array. *)
Class JsonLaws (J : Json) : Prop := {
  object_not_array j : is_object j = true → is_array j = false;
  value_string_absent j k d :
    is_object j = true → contains j k = false → value_string j k d = Ret d;
  value_string_nonobject j k d :
    is_object j = false → value_string j k d = Throw json_type_error
}.

(** ** Qt text and containers *)

(** A [QString] is represented by the text it holds. *)
Abbreviation QString := string (only parsing).

Class QtText : Type := {
  fromStdString : string → QString;
  toStdString : QString → string
}.

(** [QHash] iteration visits every item once, in an unspecified order. *)
Class QtHash : Type := {
  qhash_items : ∀ {V}, gmap string V → list (string * V);
  qhash_items_perm : ∀ {V} (m : gmap string V), qhash_items m ≡ₚ map_to_list m
}.

(** [QMap] iteration visits every item once (in the order of its keys, which the
    code does not rely on). *)
Class QtMap : Type := {
  qmap_items : ∀ {V}, gmap string V → list (string * V);
  qmap_items_perm : ∀ {V} (m : gmap string V), qmap_items m ≡ₚ map_to_list m
}.

(** [QJsonDocument::fromJson(q.toUtf8())] when it is an object, and the members of
    an object: [toString] is empty and [toBool(false)] false on another type; an
    array member ([toArray], empty on another type) gives its elements as
    objects ([toObject], empty on another type) or as strings. *)
Class QtJson : Type := {
  qobject : Type;
  qjson_object : QString → option qobject;
  qobject_empty : qobject;
  q_contains : qobject → string → bool;
  q_string : qobject → string → QString;
  q_bool : qobject → string → bool;
  q_objects : qobject → string → list qobject;
  q_strings : qobject → string → list QString
}.

(** [QDateTime]: the milliseconds since the epoch, [None] when it is not valid;
    [fromString] with [Qt::ISODateWithMs] and with a format, and [QString::toInt],
    0 for what is not a number. *)
Definition QDateTime : Type := option Z.

Class QtParse : Type := {
  date_iso : QString → QDateTime;
  date_format : QString → QString → QDateTime;
  to_int : QString → Z
}.

(** ** Concrete instances for the witnesses *)

Inductive jval : Type :=
| JDiscarded
| JNull
| JBool (b : bool)
| JInt (z : Z)
| JFloat (d : double)
| JStr (s : string)
| JArr (l : list jval)
| JObj (l : list (string * jval)).

Fixpoint jfind {A} (k : string) (l : list (string * A)) : option A :=
  match l with
  | [] => None
  | (k', v) :: l' => if decide (k = k') then Some v else jfind k l'
  end.

Definition jvalue {A} (get : jval → outcome exn A) (j : jval) (k : string) (d : A)
  : outcome exn A :=
  match j with
  | JObj l => match jfind k l with Some v => get v | None => Ret d end
  | _ => Throw json_type_error
  end.

Definition jtrunc (d : double) : Z :=
  match d with
  | S754_finite s m e =>
      let a := if (0 <=? e)%Z then (Zpos m * 2 ^ e)%Z else (Zpos m / 2 ^ (- e))%Z in
      if s then (- a)%Z else a
  | _ => 0%Z
  end.

Definition signed (bits z : Z) : Z :=
  ((z + 2 ^ (bits - 1)) mod 2 ^ bits - 2 ^ (bits - 1))%Z.

Definition jget_int (bits : Z) (v : jval) : outcome exn Z :=
  match v with
  | JInt z => Ret (signed bits z)
  | JFloat d => Ret (signed bits (jtrunc d))
  | JBool b => Ret (if b then 1 else 0)%Z
  | _ => Throw json_type_error
  end.

(** Parsing is a table of the documents a witness uses. *)
Definition RefJson (docs : list (string * jval)) : Json := {|
  json := jval;
  json_parse s := default JDiscarded (jfind s docs);
  json_parse_throw s :=
    match jfind s docs with Some v => Ret v | None => Throw json_parse_error end;
  is_object j := match j with JObj _ => true | _ => false end;
  is_array j := match j with JArr _ => true | _ => false end;
  elements j := match j with JArr l => l | _ => [] end;
  contains j k := match j with JObj l => bool_decide (is_Some (jfind k l)) | _ => false end;
  member j k := match j with JObj l => default JNull (jfind k l) | _ => JNull end;
  value_string := jvalue (λ v, match v with JStr s => Ret s | _ => Throw json_type_error end);
  value_bool := jvalue (λ v, match v with JBool b => Ret b | _ => Throw json_type_error end);
  value_double := jvalue (λ v, match v with
    | JFloat d => Ret d | JInt z => Ret (d_of_Z z) | _ => Throw json_type_error end);
  value_int := jvalue (jget_int 32);
  value_i64 := jvalue (jget_int 64)
|}.

#[export] Instance RefJson_laws docs : JsonLaws (RefJson docs).
Proof.
  split.
  - by intros [].
  - intros [] k def; cbn; try done. intros _ H%bool_decide_eq_false.
    destruct (jfind k l) as [v|]; [|done]. destruct H. by eexists.
  - by intros [] k def.
Qed.

Definition RefText : QtText := {| fromStdString s := s; toStdString s := s |}.

Definition RefHash : QtHash :=
  {| qhash_items V m := map_to_list m; qhash_items_perm V m := Permutation_refl _ |}.

Definition RefMap : QtMap :=
  {| qmap_items V m := map_to_list m; qmap_items_perm V m := Permutation_refl _ |}.

(** Documents as a table of objects, an object as its members. *)
Definition RefQtJson (docs : list (string * list (string * jval))) : QtJson := {|
  qobject := list (string * jval);
  qjson_object s := jfind s docs;
  qobject_empty := [];
  q_contains o k := bool_decide (is_Some (jfind k o));
  q_string o k := match jfind k o with Some (JStr s) => s | _ => "" end;
  q_bool o k := match jfind k o with Some (JBool b) => b | _ => false end;
  q_objects o k := match jfind k o with
    | Some (JArr l) => (λ v, match v with JObj o' => o' | _ => [] end) <$> l
    | _ => []
    end;
  q_strings o k := match jfind k o with
    | Some (JArr l) => (λ v, match v with JStr s => s | _ => "" end) <$> l
    | _ => []
    end
|}.

(** Parsing as tables of the texts a witness uses. *)
Definition RefParse (iso : list (string * Z)) (formatted : list (string * Z)) (ints : list (string * Z)) : QtParse := {|
  date_iso s := jfind s iso;
  date_format s f := jfind s formatted;
  to_int s := default 0%Z (jfind s ints)
|}.
