(* ===== verification/RowIndex.v ===== *)
(** * Indices from keys to rows

    The list models keep, next to their rows, a [QHash] from a key of the row to its
    number; it is filled by one pass over the rows, so of several rows with the
    same key the last one is found. *)

From S2P Require Import Prelude.

Section row_index.
Context {A : Type} (key : A → string).

(** [byKey.clear(); for (i...) byKey[rows[i].key] = i;] *)
Definition row_index (l : list A) : gmap string nat :=
  foldl (λ h p, <[key p.2 := p.1]> h) ∅ (imap pair l).

Lemma row_index_snoc l e : row_index (l ++ [e]) = <[key e := length l]> (row_index l).
Proof.
  unfold row_index. rewrite imap_app, foldl_app. cbn. by rewrite Nat.add_0_r.
Qed.

(** The index holds, for each key, the last row with that key. *)
Lemma row_index_lookup l a i :
  row_index l !! a = Some i ↔
  (∃ e, l !! i = Some e ∧ key e = a) ∧ ∀ j e, i < j → l !! j = Some e → key e ≠ a.
Proof.
  revert i. induction l as [|e l IH] using rev_ind; intros i.
  { split; [done|]. by intros [(e & H & _) _]. }
  rewrite row_index_snoc. destruct (decide (key e = a)) as [<-|Hne].
  - rewrite lookup_insert_eq. split.
    + intros [= <-]. split; [by exists e; rewrite list_lookup_middle|].
      intros j e' Hj H%lookup_lt_Some. rewrite length_app in H. cbn in H. lia.
    + intros [(e' & He' & Heq) Hmax]. f_equal.
      pose proof (lookup_lt_Some _ _ _ He') as Hlt. rewrite length_app in Hlt. cbn in Hlt.
      destruct (decide (i = length l)) as [->|Hi]; [done|]. exfalso.
      apply (Hmax (length l) e); [lia|by rewrite list_lookup_middle|done].
  - rewrite lookup_insert_ne, IH by done. split; intros [(e' & He' & Heq) Hmax].
    + split; [exists e'; split; [by apply lookup_app_l_Some|done]|].
      intros j e'' Hj [H|[Hle H]]%lookup_app_Some; [by eapply Hmax|].
      destruct (j - length l) as [|?]; [by injection H as <-|done].
    + pose proof (lookup_lt_Some _ _ _ He') as Hlt. rewrite length_app in Hlt. cbn in Hlt.
      destruct (decide (i = length l)) as [->|Hi].
      { rewrite list_lookup_middle in He' by done. by injection He' as ->. }
      split.
      * exists e'. by rewrite lookup_app_l in He' by lia.
      * intros j e'' Hj He''. apply (Hmax j); [done|by apply lookup_app_l_Some].
Qed.

Lemma row_index_None l a : row_index l !! a = None ↔ a ∉ key <$> l.
Proof.
  induction l as [|e l IH] using rev_ind; [by split; [intros _ H%not_elem_of_nil|]|].
  rewrite row_index_snoc, lookup_insert_None, IH, fmap_app, elem_of_app. cbn.
  rewrite list_elem_of_singleton. split; [by intros [? ?] [?| ->]|].
  intros H. split; [by intros ?; apply H; left|by intros <-; apply H; right].
Qed.

Lemma row_index_entry l a :
  (row_index l !! a ≫= λ i, l !! i) = last (filter (λ e, key e = a) l).
Proof.
  induction l as [|e l IH] using rev_ind; [done|].
  rewrite row_index_snoc, filter_app, last_app. cbn. case_decide as Hea; cbn.
  - rewrite Hea, lookup_insert_eq. cbn. by rewrite list_lookup_middle.
  - rewrite lookup_insert_ne by done. rewrite <-IH.
    destruct (row_index l !! a) as [i|] eqn:Hi; [|done]. cbn.
    apply row_index_lookup in Hi as [(e' & He' & _) _]. rewrite lookup_app_l; [done|].
    by eapply lookup_lt_Some.
Qed.

Lemma row_index_keys l l' : key <$> l = key <$> l' → row_index l = row_index l'.
Proof.
  revert l'. induction l as [|e l IH] using rev_ind; intros l' H.
  - by destruct l'.
  - rewrite fmap_app in H. cbn in H.
    destruct l' as [|e' l' _] using rev_ind; [by destruct (key <$> l)|].
    rewrite fmap_app in H. cbn in H. apply app_inj_tail in H as [H He].
    rewrite !row_index_snoc, He, (IH l') by done.
    apply (f_equal length) in H. rewrite !length_fmap in H. by rewrite H.
Qed.

End row_index.
