(* ===== verification/Variant.v ===== *)
(** * Variants

    [QVariant] with the types the program puts into it, and the conversions it
    takes out. *)

From S2P Require Import Prelude Extern.

Record QRectF : Type := { rx : double; ry : double; rw : double; rh : double }.

#[export] Instance QRectF_eq_dec : EqDecision QRectF.
Proof. solve_decision. Defined.

Inductive QVariant : Type :=
| QVInvalid
| QVBool (b : bool)
| QVInt (z : Z)
| QVDouble (d : double)
| QVString (s : QString)
| QVRectF (r : QRectF)
| QVDateTime (d : QDateTime).

Inductive qtype : Type := TBool | TInt | TDouble | TString | TRectF | TDateTime.

#[export] Instance qtype_eq_dec : EqDecision qtype.
Proof. solve_decision. Defined.

Definition type_of (v : QVariant) : option qtype :=
  match v with
  | QVInvalid => None
  | QVBool _ => Some TBool
  | QVInt _ => Some TInt
  | QVDouble _ => Some TDouble
  | QVString _ => Some TString
  | QVRectF _ => Some TRectF
  | QVDateTime _ => Some TDateTime
  end.

(** [toBool], [toInt] and [toString], and what a variant written to a [QSettings]
    store is read back as, in this process or a later one: the native formats
    keep the value, not always the type. *)
Class QtVariant : Type := {
  v_toBool : QVariant → bool;
  v_toInt : QVariant → Z;
  v_toString : QVariant → QString;
  persisted : QVariant → QVariant
}.

Class QtVariantLaws (V : QtVariant) : Prop := {
  toBool_bool b : v_toBool (QVBool b) = b;
  toInt_int z : v_toInt (QVInt z) = z;
  toString_string s : v_toString (QVString s) = s;
  persisted_bool b : v_toBool (persisted (QVBool b)) = b;
  persisted_int z : v_toInt (persisted (QVInt z)) = z;
  persisted_string s : v_toString (persisted (QVString s)) = s
}.

(** A store that keeps booleans as text, as some formats do. *)
Definition RefVariant : QtVariant := {|
  v_toBool v := match v with QVBool b => b | QVInt z => negb (z =? 0)%Z | QVString s => bool_decide (s = "true") | _ => false end;
  v_toInt v := match v with QVInt z => z | QVBool b => if b then 1%Z else 0%Z | _ => 0%Z end;
  v_toString v := match v with QVString s => s | _ => "" end;
  persisted v := match v with QVBool b => QVString (if b then "true" else "false") | _ => v end
|}.

#[export] Instance RefVariant_laws : QtVariantLaws RefVariant.
Proof. by split; try done; intros []. Qed.
