(* ===== verification/CameraStore.v ===== *)
(** * The camera store (src/Src/Domain/Camera.hpp, Camera.cpp)

    [CameraStore] keeps the latest CAMERA list ([data_]) and a table of
    per-camera structures ([table_]) that META and AI packets update. *)

From S2P Require Import Prelude Extern.

(** ** Data *)

Record DeviceInfo : Type := {
  hum : double;
  light : double;
  tilt : double;
  tmp : double
}.

Definition DeviceInfo0 : DeviceInfo :=
  {| hum := d_zero; light := d_zero; tilt := d_zero; tmp := d_zero |}.

Record CameraData : Type := {
  cd_title : string;
  cd_cameraType : string;
  cd_isOnline : bool;
  cd_cameraId : string;
  cd_deviceInfo : DeviceInfo
}.

Definition CameraData0 : CameraData :=
  {| cd_title := ""; cd_cameraType := ""; cd_isOnline := false; cd_cameraId := "";
     cd_deviceInfo := DeviceInfo0 |}.

Record AiInfo : Type := { Img : list string; personCount : list Z }.

Record CameraStruct : Type := {
  cs_deviceInfo : DeviceInfo;
  cs_aiInfo : AiInfo;
  cs_sourceUrl : string
}.

Definition CameraStruct0 : CameraStruct :=
  {| cs_deviceInfo := DeviceInfo0;
     cs_aiInfo := {| Img := []; personCount := [] |};
     cs_sourceUrl := "" |}.

Record CameraStore : Type := {
  data_ : list CameraData;
  table_ : gmap string CameraStruct
}.

Definition CameraStore0 : CameraStore := {| data_ := []; table_ := ∅ |}.

Definition set_sourceUrl (u : string) (c : CameraStruct) : CameraStruct :=
  {| cs_deviceInfo := cs_deviceInfo c; cs_aiInfo := cs_aiInfo c; cs_sourceUrl := u |}.
Definition set_deviceInfo (i : DeviceInfo) (c : CameraStruct) : CameraStruct :=
  {| cs_deviceInfo := i; cs_aiInfo := cs_aiInfo c; cs_sourceUrl := cs_sourceUrl c |}.
Definition set_aiInfo (i : AiInfo) (c : CameraStruct) : CameraStruct :=
  {| cs_deviceInfo := cs_deviceInfo c; cs_aiInfo := i; cs_sourceUrl := cs_sourceUrl c |}.

(** [table_[id].field = v]: [operator[]] default-constructs a missing entry. *)
Definition table_set (f : CameraStruct → CameraStruct) (id : string)
    (t : gmap string CameraStruct) : gmap string CameraStruct :=
  <[id := f (default CameraStruct0 (t !! id))]> t.

(** ** The camera id of an item: "ip/streamNum" from [source_url] *)
Definition camera_id_from_url (sourceUrl ip : string) : string :=
  if str_empty sourceUrl then ""
  else match String.index 0 ip sourceUrl with
  | None => ""
  | Some pos =>
    match String.index (pos + String.length ip) "/" sourceUrl with
    | None => ""
    | Some slashPos =>
      if decide (slashPos + 1 < String.length sourceUrl) then
        match String.index (slashPos + 1) "/" sourceUrl with
        | None => ""
        | Some nextSlash =>
            ip +:+ "/" +:+
              String.substring (slashPos + 1) (nextSlash - slashPos - 1) sourceUrl
        end
      else ""
    end
  end.

Definition camera_id (sourceUrl ip : string) : string :=
  let cid := camera_id_from_url sourceUrl ip in
  if str_empty cid && negb (str_empty ip) then ip +:+ "/0" else cid.

Section store.
Context `{J : Json}.

(** One iteration of the loop of [updateFromJson]: the entry is appended to
    [newData] and the table is updated under its own lock. *)
Definition update_item (item : json) (newData : list CameraData)
    : SE CameraStore exn (list CameraData) :=
  if is_object item then
    sourceUrl ← se_lift (value_string item "source_url" "");
    cameraType ← se_lift (value_string item "type" "");
    isOnline ← se_lift (value_bool item "is_online" false);
    ip ← se_lift (value_string item "ip" "");
    let cameraId := camera_id sourceUrl ip in
    if str_empty cameraId then mret newData
    else
      let d := {| cd_title := ip +:+ " (" +:+ cameraType +:+ ")";
                  cd_cameraType := cameraType; cd_isOnline := isOnline;
                  cd_cameraId := cameraId; cd_deviceInfo := DeviceInfo0 |} in
      _ ← se_modify (λ st,
        {| data_ := data_ st;
           table_ :=
             let t := match table_ st !! cameraId with
                      | None => <[cameraId := CameraStruct0]> (table_ st)
                      | Some _ => table_ st
                      end in
             table_set (set_sourceUrl sourceUrl) cameraId t |});
      mret (newData ++ [d])
  else mret newData.

(** [updateFromJson]; the result is what the callback receives, [None] when
    it is not called. *)
Definition updateFromJson (s : string) (cb : bool)
    : SE CameraStore exn (option (list CameraData)) :=
  let parsed := json_parse s in
  if is_array parsed then
    newData ← se_fold update_item (elements parsed) [];
    _ ← se_modify (λ st, {| data_ := newData; table_ := table_ st |});
    mret (if cb then Some newData else None)
  else mret None.
End store.

Definition with_table_info (t : gmap string CameraStruct) (d : CameraData) : CameraData :=
  match t !! cd_cameraId d with
  | Some c => {| cd_title := cd_title d; cd_cameraType := cd_cameraType d;
                 cd_isOnline := cd_isOnline d; cd_cameraId := cd_cameraId d;
                 cd_deviceInfo := cs_deviceInfo c |}
  | None => d
  end.

Definition snapshot (st : CameraStore) : list CameraData :=
  map (with_table_info (table_ st)) (data_ st).

Definition updateDeviceInfo (id : string) (info : DeviceInfo) (st : CameraStore)
    : CameraStore :=
  {| data_ := data_ st; table_ := table_set (set_deviceInfo info) id (table_ st) |}.

Definition updateAiInfo (id : string) (info : AiInfo) (st : CameraStore) : CameraStore :=
  {| data_ := data_ st; table_ := table_set (set_aiInfo info) id (table_ st) |}.

Definition getCameraStruct (id : string) (st : CameraStore) : CameraStruct :=
  default CameraStruct0 (table_ st !! id).

Definition clear (st : CameraStore) : CameraStore := {| data_ := []; table_ := ∅ |}.

(** ** The camera id *)

Lemma camera_id_from_url_parse pre mid seg post ip :
  String.index 0 ip (pre +:+ ip +:+ mid +:+ "/" +:+ seg +:+ "/" +:+ post)
    = Some (String.length pre) →
  str_mem "/" mid = false → str_mem "/" seg = false →
  camera_id_from_url (pre +:+ ip +:+ mid +:+ "/" +:+ seg +:+ "/" +:+ post) ip
  = ip +:+ "/" +:+ seg.
Proof.
  intros Hip Hmid Hseg. unfold camera_id_from_url.
  set (u := pre +:+ ip +:+ mid +:+ "/" +:+ seg +:+ "/" +:+ post) in *.
  assert (Hu1 : u = (pre +:+ ip) +:+ mid +:+ String "/"%char (seg +:+ "/" +:+ post)).
  { unfold u. by rewrite app_string_assoc. }
  assert (Hu2 : u = (pre +:+ ip +:+ mid +:+ "/") +:+ seg +:+ String "/"%char post).
  { unfold u. by rewrite !app_string_assoc. }
  assert (Hlen : String.length u = String.length pre + String.length ip
    + String.length mid + 1 + String.length seg + 1 + String.length post).
  { unfold u. rewrite !app_string_length. cbn. lia. }
  replace (str_empty u) with false.
  2:{ symmetry. apply str_empty_false. intros E. rewrite E in Hlen. cbn in Hlen. lia. }
  rewrite Hip.
  assert (String.index (String.length pre + String.length ip) "/" u
    = Some (String.length pre + String.length ip + String.length mid)) as ->.
  { rewrite Hu1, <-app_string_length, index_shift, index_char_app by done. done. }
  rewrite decide_True by lia.
  assert (String.length pre + String.length ip + String.length mid + 1
    = String.length (pre +:+ ip +:+ mid +:+ "/")) as ->.
  { rewrite !app_string_length. cbn. lia. }
  assert (String.index (String.length (pre +:+ ip +:+ mid +:+ "/")) "/" u
    = Some (String.length (pre +:+ ip +:+ mid +:+ "/") + String.length seg)) as ->.
  { rewrite Hu2, index_shift, index_char_app by done. done. }
  do 2 f_equal.
  replace (String.length (pre +:+ ip +:+ mid +:+ "/") + String.length seg
    - (String.length pre + String.length ip + String.length mid) - 1)
    with (String.length seg) by (rewrite !app_string_length; cbn; lia).
  by rewrite Hu2, substring_shift, substring_app.
Qed.

Lemma camera_id_from_url_cases u ip :
  camera_id_from_url u ip = "" ∨
  ∃ seg, camera_id_from_url u ip = ip +:+ "/" +:+ seg ∧ str_mem "/" seg = false.
Proof.
  unfold camera_id_from_url. destruct (str_empty u); [by left|].
  destruct (String.index 0 ip u) as [pos|]; [|by left].
  destruct (String.index (pos + _) "/" u) as [slash|]; [|by left].
  case_decide; [|by left].
  destruct (String.index (slash + 1) "/" u) as [next|] eqn:Hnext; [|by left].
  right. eexists. split; [done|].
  replace (next - slash - 1) with (next - (slash + 1)) by lia.
  by apply index_char_between.
Qed.

Lemma camera_id_cases u ip :
  ip ≠ "" → ∃ seg, camera_id u ip = ip +:+ "/" +:+ seg ∧ str_mem "/" seg = false.
Proof.
  intros Hip. unfold camera_id. rewrite (proj2 (str_empty_false ip)) by done.
  destruct (camera_id_from_url_cases u ip) as [->|(seg & -> & Hseg)].
  - by exists "0".
  - exists seg. split; [|done].
    by rewrite (proj2 (str_empty_false _)) by (by apply app_string_ne_empty_l).
Qed.

(** ** The abstract specification of a CAMERA update *)

Lemma table_set_missing f id (t : gmap string CameraStruct) :
  table_set f id (match t !! id with
                  | None => <[id := CameraStruct0]> t
                  | Some _ => t
                  end) = table_set f id t.
Proof.
  unfold table_set. destruct (t !! id) as [c|] eqn:Hid; [by rewrite Hid|].
  by rewrite lookup_insert_eq, insert_insert_eq.
Qed.

Lemma table_set_lookup f id id' (t : gmap string CameraStruct) :
  table_set f id t !! id'
  = if decide (id = id') then Some (f (default CameraStruct0 (t !! id))) else t !! id'.
Proof. unfold table_set. apply lookup_insert. Qed.

Definition add_source (t : gmap string CameraStruct) (e : string * CameraData)
    : gmap string CameraStruct :=
  table_set (set_sourceUrl e.1) (cd_cameraId e.2) t.

Section spec.
Context `{J : Json}.

(** What one item of the array denotes: nothing, or a source URL with the
    entry it makes. *)
Definition parse_item (item : json) : outcome exn (option (string * CameraData)) :=
  if is_object item then
    sourceUrl ← value_string item "source_url" "";
    cameraType ← value_string item "type" "";
    isOnline ← value_bool item "is_online" false;
    ip ← value_string item "ip" "";
    mret (if str_empty (camera_id sourceUrl ip) then None
          else Some (sourceUrl,
                 {| cd_title := ip +:+ " (" +:+ cameraType +:+ ")";
                    cd_cameraType := cameraType; cd_isOnline := isOnline;
                    cd_cameraId := camera_id sourceUrl ip;
                    cd_deviceInfo := DeviceInfo0 |}))
  else mret None.

(** The entries before the first item that throws, and what it throws. *)
Fixpoint parse_items (items : list json) : list (string * CameraData) * option exn :=
  match items with
  | [] => ([], None)
  | i :: items' =>
      match parse_item i with
      | Throw e => ([], Some e)
      | Ret o => let r := parse_items items' in (option_list o ++ r.1, r.2)
      end
  end.

Lemma update_item_parse item nd st :
  update_item item nd st =
  match parse_item item with
  | Throw e => (Throw e, st)
  | Ret o => (Ret (nd ++ map snd (option_list o)),
              {| data_ := data_ st;
                 table_ := foldl add_source (table_ st) (option_list o) |})
  end.
Proof.
  unfold update_item, parse_item, mbind, SE_bind, outcome_bind, se_lift, mret,
    SE_ret, outcome_ret.
  destruct (is_object item); [|cbn; rewrite app_nil_r; by destruct st].
  destruct (value_string item "source_url" "") as [u|e]; [|done].
  destruct (value_string item "type" "") as [ty|e]; [|done].
  destruct (value_bool item "is_online" false) as [on|e]; [|done].
  destruct (value_string item "ip" "") as [ip|e]; [|done].
  destruct (str_empty (camera_id u ip)); cbn.
  - rewrite app_nil_r. by destruct st.
  - unfold add_source; cbn. by rewrite table_set_missing.
Qed.

Lemma update_items_parse items nd st :
  se_fold update_item items nd st =
  let r := parse_items items in
  let st' := {| data_ := data_ st; table_ := foldl add_source (table_ st) r.1 |} in
  match r.2 with
  | None => (Ret (nd ++ map snd r.1), st')
  | Some e => (Throw e, st')
  end.
Proof.
  revert nd st. induction items as [|i items IH]; intros nd st.
  - cbn. rewrite app_nil_r. by destruct st.
  - cbn [se_fold parse_items]. unfold mbind at 1, SE_bind at 1.
    rewrite update_item_parse. destruct (parse_item i) as [o|e]; [|by destruct st].
    rewrite IH. cbn. rewrite map_app, app_assoc, foldl_app. done.
Qed.
End spec.

Lemma add_sources_keep_info (es : list (string * CameraData)) t id c :
  t !! id = Some c →
  ∃ c', foldl add_source t es !! id = Some c' ∧
    cs_deviceInfo c' = cs_deviceInfo c ∧ cs_aiInfo c' = cs_aiInfo c.
Proof.
  revert t c. induction es as [|e es IH]; intros t c Hc; [by exists c|].
  cbn. destruct (decide (cd_cameraId e.2 = id)) as [He|He].
  - destruct (IH (add_source t e) (set_sourceUrl e.1 c)) as (c' & ? & Hd & Ha).
    { unfold add_source. rewrite table_set_lookup, decide_True by done.
      by rewrite He, Hc. }
    exists c'. by rewrite Hd, Ha.
  - apply IH. unfold add_source. by rewrite table_set_lookup, decide_False.
Qed.

Lemma add_sources_dom (es : list (string * CameraData)) t e :
  e ∈ es → is_Some (foldl add_source t es !! cd_cameraId e.2).
Proof.
  revert t. induction es as [|e' es IH]; intros t He; [by apply not_elem_of_nil in He|].
  cbn. apply elem_of_cons in He as [->|He]; [|by apply IH].
  destruct (add_sources_keep_info es (add_source t e') (cd_cameraId e'.2)
    (set_sourceUrl e'.1 (default CameraStruct0 (t !! cd_cameraId e'.2)))) as (c' & H & _).
  { unfold add_source. by rewrite table_set_lookup, decide_True. }
  by exists c'.
Qed.

(** ** Reachable states *)

Section reach.
Context `{J : Json}.

(** One completed call of a store operation. *)
Inductive store_step : CameraStore → CameraStore → Prop :=
| step_update s cb st : store_step st (updateFromJson s cb st).2
| step_device id info st : store_step st (updateDeviceInfo id info st)
| step_ai id info st : store_step st (updateAiInfo id info st)
| step_clear st : store_step st (clear st).

Definition data_in_table (st : CameraStore) : Prop :=
  ∀ d, d ∈ data_ st → is_Some (table_ st !! cd_cameraId d).

Lemma camera_updateFromJson_result s cb st :
  updateFromJson s cb st =
  if is_array (json_parse s) then
    let r := parse_items (elements (json_parse s)) in
    let t := foldl add_source (table_ st) r.1 in
    match r.2 with
    | None => (Ret (if cb then Some (map snd r.1) else None),
               {| data_ := map snd r.1; table_ := t |})
    | Some e => (Throw e, {| data_ := data_ st; table_ := t |})
    end
  else (Ret None, st).
Proof.
  unfold updateFromJson. destruct (is_array _); [|done].
  unfold mbind at 1, SE_bind at 1. rewrite update_items_parse.
  by destruct (parse_items _) as [es [e|]].
Qed.

Lemma updateFromJson_table s cb st :
  ∃ es, table_ (updateFromJson s cb st).2 = foldl add_source (table_ st) es ∧
    (data_ (updateFromJson s cb st).2 = data_ st ∨
     data_ (updateFromJson s cb st).2 = map snd es).
Proof.
  rewrite camera_updateFromJson_result. destruct (is_array _).
  - exists (parse_items (elements (json_parse s))).1.
    destruct (parse_items _) as [es [e|]]; cbn; auto.
  - exists []. by split; [|left].
Qed.

Lemma store_step_data_in_table st st' :
  store_step st st' → data_in_table st → data_in_table st'.
Proof.
  intros Hstep Hinv. destruct Hstep as [s cb st|id info st|id info st|st].
  - destruct (updateFromJson_table s cb st) as (es & Ht & Hd).
    intros d Hdin. rewrite Ht. destruct Hd as [Hd|Hd]; rewrite Hd in Hdin.
    + destruct (Hinv d Hdin) as [c Hc].
      destruct (add_sources_keep_info es _ _ c Hc) as (c' & ? & _). by exists c'.
    + apply list_elem_of_fmap in Hdin as (e & -> & He). by apply add_sources_dom.
  - intros d Hd. cbn. rewrite table_set_lookup. case_decide; [done|by apply Hinv].
  - intros d Hd. cbn. rewrite table_set_lookup. case_decide; [done|by apply Hinv].
  - intros d Hd. by apply not_elem_of_nil in Hd.
Qed.
End reach.

(** ** Properties *)

(** For an item with an ip the camera id is always "ip/" followed by a
    segment without a slash; it is the first path segment after the ip when the
    source URL has one that is closed by a slash. *)
Theorem camera_id_format (u ip : string) :
  ip ≠ "" →
  (∃ seg, camera_id u ip = ip +:+ "/" +:+ seg ∧ str_mem "/" seg = false) ∧
  (∀ pre mid seg post,
    u = pre +:+ ip +:+ mid +:+ "/" +:+ seg +:+ "/" +:+ post →
    String.index 0 ip u = Some (String.length pre) →
    str_mem "/" mid = false → str_mem "/" seg = false →
    camera_id u ip = ip +:+ "/" +:+ seg).
Proof.
  intros Hip. split; [by apply camera_id_cases|].
  intros pre mid seg post -> Hidx Hmid Hseg. unfold camera_id.
  rewrite camera_id_from_url_parse by done.
  by rewrite (proj2 (str_empty_false _)) by (by apply app_string_ne_empty_l).
Qed.

Lemma camera_id_format_witness :
  camera_id "rtsp://admin:pw@192.168.0.17:554/0/profile2/media.smp" "192.168.0.17"
  = "192.168.0.17/0".
Proof.
  apply (proj2 (camera_id_format
    "rtsp://admin:pw@192.168.0.17:554/0/profile2/media.smp" "192.168.0.17" ltac:(done))
    "rtsp://admin:pw@" ":554" "0" "profile2/media.smp"); reflexivity.
Defined.

(** An item that names no ip but has a source URL "scheme://..." is not
    skipped: it is stored under the camera id "/". *)
Theorem camera_id_without_ip (scheme rest : string) :
  str_mem "/" scheme = false → camera_id (scheme +:+ "//" +:+ rest) "" = "/".
Proof.
  intros Hs. unfold camera_id, camera_id_from_url.
  assert (Hu : scheme +:+ "//" +:+ rest
    = scheme +:+ String "/"%char (String "/"%char rest)) by done.
  assert (He : str_empty (scheme +:+ String "/"%char (String "/"%char rest)) = false)
    by (by apply str_empty_false, app_string_ne_empty_r).
  rewrite Hu, He.
  rewrite index_0_empty.
  cbn [String.length Nat.add]. rewrite index_char_app by done.
  rewrite decide_True by (rewrite app_string_length; cbn; lia).
  assert (Hu2 : scheme +:+ String "/"%char (String "/"%char rest)
    = (scheme +:+ "/") +:+ "" +:+ String "/"%char rest) by (by rewrite app_string_assoc).
  rewrite Hu2. replace (String.length scheme + 1) with (String.length (scheme +:+ "/"))
    by (by rewrite app_string_length).
  rewrite index_shift, index_char_app by done. cbn.
  rewrite substring_shift, app_string_length. cbn.
  replace (_ - _ - 1) with 0 by lia. by destruct rest.
Qed.

Lemma camera_id_without_ip_witness :
  camera_id "rtsp://10.0.0.9:554/0/main" "" = "/".
Proof. apply (camera_id_without_ip "rtsp:" "10.0.0.9:554/0/main"). reflexivity. Defined.

(** C22. A CAMERA update equals its specification on every branch: a document
    that is not an array changes nothing and calls nothing back; otherwise the
    table receives the source URL of every entry before the first item that
    throws, and the entry list is replaced (and handed to the callback) only
    when no item throws. *)
Theorem camera_update_spec `{J : Json} (s : string) (cb : bool) (st : CameraStore) :
  updateFromJson s cb st =
  if is_array (json_parse s) then
    let (es, err) := parse_items (elements (json_parse s)) in
    let t := foldl add_source (table_ st) es in
    match err with
    | None => (Ret (if cb then Some (map snd es) else None),
               {| data_ := map snd es; table_ := t |})
    | Some e => (Throw e, {| data_ := data_ st; table_ := t |})
    end
  else (Ret None, st).
Proof. rewrite camera_updateFromJson_result. by destruct (parse_items _). Qed.

(** Whatever the document, and whether or not parsing throws, a CAMERA
    update loses no sensor value and no person count of a known camera. *)
Theorem camera_update_keeps_info `{J : Json} (s : string) (cb : bool)
    (st : CameraStore) (id : string) (c : CameraStruct) :
  table_ st !! id = Some c →
  ∃ c', table_ (updateFromJson s cb st).2 !! id = Some c' ∧
    cs_deviceInfo c' = cs_deviceInfo c ∧ cs_aiInfo c' = cs_aiInfo c.
Proof.
  intros Hc. destruct (updateFromJson_table s cb st) as (es & -> & _).
  by apply add_sources_keep_info.
Qed.

Definition demo_docs : list (string * jval) :=
  [("cams", JArr [JObj [("ip", JStr "10.0.0.1"); ("is_online", JBool true);
                        ("source_url", JStr "rtsp://10.0.0.1:554/0/main");
                        ("type", JStr "HANWHA")];
                  JInt 3;
                  JObj [("ip", JStr "10.0.0.2"); ("type", JStr "SUB_PI")]]);
   ("bad", JArr [JObj [("ip", JStr "10.0.0.9"); ("type", JStr "SUB_PI")];
                 JObj [("ip", JInt 7)]])].

Definition demo_store : CameraStore :=
  updateDeviceInfo "10.0.0.1/0"
    {| hum := d_one; light := d_zero; tilt := d_zero; tmp := d_half |} CameraStore0.

Lemma camera_update_keeps_info_witness :
  ∃ c', table_ (updateFromJson (J:=RefJson demo_docs) "cams" true demo_store).2
          !! "10.0.0.1/0" = Some c' ∧ hum (cs_deviceInfo c') = d_one ∧
        cs_sourceUrl c' = "rtsp://10.0.0.1:554/0/main".
Proof.
  destruct (camera_update_keeps_info (J:=RefJson demo_docs) "cams" true demo_store
    "10.0.0.1/0" (default CameraStruct0 (table_ demo_store !! "10.0.0.1/0")))
    as (c' & Hc' & Hd & _); [by vm_compute|].
  exists c'. split; [done|]. rewrite Hd. split; [by vm_compute|].
  revert Hc'. vm_compute. by intros [= <-].
Defined.

(** In every state reachable from the empty store through completed calls,
    throwing ones included, each listed camera has an entry in the table. *)
Theorem camera_data_in_table `{J : Json} (st : CameraStore) :
  rtc store_step CameraStore0 st → data_in_table st.
Proof.
  intros Hr. assert (data_in_table CameraStore0) as H0.
  { intros d Hd. by apply not_elem_of_nil in Hd. }
  revert H0. induction Hr as [st|st1 st2 st3 Hstep _ IH]; [done|].
  intros H0. apply IH. by apply (store_step_data_in_table st1).
Qed.

Lemma camera_data_in_table_witness :
  data_in_table (updateFromJson (J:=RefJson demo_docs) "cams" true demo_store).2 ∧
  length (data_ (updateFromJson (J:=RefJson demo_docs) "cams" true demo_store).2) = 2.
Proof.
  split; [|by vm_compute].
  apply (camera_data_in_table (J:=RefJson demo_docs)).
  eapply rtc_l; [apply (step_device (J:=RefJson demo_docs) "10.0.0.1/0")|].
  apply rtc_once, (step_update (J:=RefJson demo_docs)).
Defined.

(** After a sensor update a snapshot shows the new values in every entry of
    that camera, leaves every other entry as it was, and keeps the order. *)
Theorem camera_snapshot_after_sensor (st : CameraStore) (id : string) (info : DeviceInfo) :
  Forall2 (λ d d', cd_title d' = cd_title d ∧ cd_cameraId d' = cd_cameraId d ∧
                   cd_isOnline d' = cd_isOnline d ∧ cd_cameraType d' = cd_cameraType d ∧
                   (cd_cameraId d = id → cd_deviceInfo d' = info) ∧
                   (cd_cameraId d ≠ id → d' = d))
    (snapshot st) (snapshot (updateDeviceInfo id info st)).
Proof.
  unfold snapshot. cbn [updateDeviceInfo data_ table_].
  induction (data_ st) as [|d l IH]; cbn; constructor; [|done].
  unfold with_table_info. rewrite table_set_lookup.
  destruct (decide (id = cd_cameraId d)) as [->|Hne].
  - destruct (table_ st !! cd_cameraId d); cbn; naive_solver.
  - destruct (table_ st !! cd_cameraId d); cbn; naive_solver.
Qed.
