(* ===== verification/DeviceStore.v ===== *)
(** * The device store (src/Src/Domain/Device.hpp, Device.cpp)

    [DeviceStore] merges the static information of CAMERA packets with the
    dynamic information of AVAILABLE packets, one entry per device, and keeps
    a bounded history per device. *)

From S2P Require Import Prelude Extern CameraStore.

(** ** Data *)

Record DeviceSnapshot : Type := {
  sn_timestamp : Z;
  sn_cpu : double;
  sn_memory : double;
  sn_temp : double;
  sn_uptime : Z
}.

Record DeviceIntegrated : Type := {
  ip : string;
  cameraId : string;
  type : string;
  isOnline : bool;
  cpu : double;
  memory : double;
  temp : double;
  uptime : Z;
  lastUpdate : Z;
  hasMotor : bool;
  hasIr : bool;
  hasHeater : bool;
  history : list DeviceSnapshot
}.

Definition DeviceIntegrated0 : DeviceIntegrated :=
  {| ip := ""; cameraId := ""; type := ""; isOnline := false; cpu := d_zero;
     memory := d_zero; temp := d_zero; uptime := 0; lastUpdate := 0; hasMotor := true;
     hasIr := false; hasHeater := false; history := [] |}.

Definition MAX_HISTORY : nat := 60.

Record DeviceStore : Type := { devices_ : list DeviceIntegrated }.

Definition DeviceStore0 : DeviceStore := {| devices_ := [] |}.

(** Field assignments. *)
Definition set_ip (v : string) (d : DeviceIntegrated) : DeviceIntegrated :=
  {| ip := v; cameraId := cameraId d; type := type d; isOnline := isOnline d; cpu := cpu d;
     memory := memory d; temp := temp d; uptime := uptime d; lastUpdate := lastUpdate d;
     hasMotor := hasMotor d; hasIr := hasIr d; hasHeater := hasHeater d;
     history := history d |}.
Definition set_camera_info (cid ty : string) (on : bool) (d : DeviceIntegrated)
    : DeviceIntegrated :=
  {| ip := ip d; cameraId := cid; type := ty; isOnline := on; cpu := cpu d;
     memory := memory d; temp := temp d; uptime := uptime d; lastUpdate := lastUpdate d;
     hasMotor := bool_decide (ty = "SUB_PI"); hasIr := false; hasHeater := false;
     history := history d |}.
Definition set_offline (d : DeviceIntegrated) : DeviceIntegrated :=
  {| ip := ip d; cameraId := cameraId d; type := type d; isOnline := false; cpu := cpu d;
     memory := memory d; temp := temp d; uptime := uptime d; lastUpdate := lastUpdate d;
     hasMotor := hasMotor d; hasIr := hasIr d; hasHeater := hasHeater d;
     history := history d |}.
(** The dynamic fields, set together or one at a time. *)
Definition set_dynamic (c m t : double) (u lu : Z) (h : list DeviceSnapshot)
    (d : DeviceIntegrated) : DeviceIntegrated :=
  {| ip := ip d; cameraId := cameraId d; type := type d; isOnline := isOnline d; cpu := c;
     memory := m; temp := t; uptime := u; lastUpdate := lu;
     hasMotor := hasMotor d; hasIr := hasIr d; hasHeater := hasHeater d; history := h |}.
Definition set_cpu c d := set_dynamic c (memory d) (temp d) (uptime d) (lastUpdate d) (history d) d.
Definition set_memory m d := set_dynamic (cpu d) m (temp d) (uptime d) (lastUpdate d) (history d) d.
Definition set_temp t d := set_dynamic (cpu d) (memory d) t (uptime d) (lastUpdate d) (history d) d.
Definition set_uptime u d := set_dynamic (cpu d) (memory d) (temp d) u (lastUpdate d) (history d) d.
Definition set_lastUpdate l d := set_dynamic (cpu d) (memory d) (temp d) (uptime d) l (history d) d.

(** [addSnapshot]. *)
Definition addSnapshot (s : DeviceSnapshot) (d : DeviceIntegrated) : DeviceIntegrated :=
  set_dynamic (cpu d) (memory d) (temp d) (uptime d) (lastUpdate d)
    (trim_front MAX_HISTORY (history d ++ [s])) d.

(** ** Lookups *)

Definition has_ip (a : string) (d : DeviceIntegrated) : bool := bool_decide (ip d = a).

Definition findIndexByIp (a : string) (st : DeviceStore) : Z :=
  index_z (index_where (has_ip a) (devices_ st)).

Definition hasDevice (a : string) (st : DeviceStore) : bool :=
  (0 <=? findIndexByIp a st)%Z.

Definition cameraIdByIp (a : string) (st : DeviceStore) : string :=
  match index_where (has_ip a) (devices_ st) with
  | Some i => from_option cameraId "" (devices_ st !! i)
  | None => ""
  end.

Definition getHistory (a : string) (st : DeviceStore) : list DeviceSnapshot :=
  match index_where (has_ip a) (devices_ st) with
  | Some i => from_option history [] (devices_ st !! i)
  | None => []
  end.

Definition snapshot (st : DeviceStore) : list DeviceIntegrated := devices_ st.
Definition clear (st : DeviceStore) : DeviceStore := {| devices_ := [] |}.

(** [updateFromJson] (deprecated): hands the current snapshot to the callback. *)
Definition updateFromJson (s : string) (cb : bool) (st : DeviceStore)
    : option (list DeviceIntegrated) :=
  if cb then Some (snapshot st) else None.

(** The camera id of Device.cpp: a copy of the search of Camera.cpp, with its
    own fallback. *)
Definition device_camera_id (sourceUrl ip : string) : string :=
  let cid := camera_id_from_url sourceUrl ip in
  if str_empty cid then ip +:+ "/0" else cid.

Section store.
Context `{J : Json}.

(** ** CAMERA packets *)

Definition camera_item (devices : list DeviceIntegrated) (item : json)
    (merged : list DeviceIntegrated) : outcome exn (list DeviceIntegrated) :=
  if is_object item then
    a ← value_string item "ip" "";
    if str_empty a then mret merged
    else
      let device :=
        match list_find (λ d, ip d = a) devices with
        | Some (_, d) => d
        | None => set_ip a DeviceIntegrated0
        end in
      sourceUrl ← value_string item "source_url" "";
      ty ← value_string item "type" "";
      on ← value_bool item "is_online" false;
      mret (merged ++ [set_camera_info (device_camera_id sourceUrl a) ty on device])
  else mret merged.

(** The second loop: an old device that is not in [merged] yet is kept,
    offline. *)
Definition keep_absent (merged : list DeviceIntegrated) (old : DeviceIntegrated)
    : list DeviceIntegrated :=
  if existsb (has_ip (ip old)) merged then merged else merged ++ [set_offline old].

Definition updateFromCameraJson (s : string) (cb : bool)
    : SE DeviceStore exn (option (list DeviceIntegrated)) :=
  let parsed := json_parse s in
  if is_array parsed then
    st ← se_get;
    listed ← se_lift (outcome_fold (camera_item (devices_ st)) (elements parsed) []);
    let merged := foldl keep_absent listed (devices_ st) in
    _ ← se_modify (λ _, {| devices_ := merged |});
    mret (if cb then Some merged else None)
  else mret None.

(** ** AVAILABLE packets *)

(** [device->field = value;] through the pointer into the vector. *)
Definition at_device (i : nat) (f : DeviceIntegrated → DeviceIntegrated)
    : SE DeviceStore exn unit :=
  se_modify (λ st, {| devices_ := alter f i (devices_ st) |}).

(** The entry of the ip, created at the end when missing. *)
Definition device_slot (a : string) : SE DeviceStore exn nat :=
  st ← se_get;
  match index_where (has_ip a) (devices_ st) with
  | Some i => mret i
  | None =>
      _ ← se_modify (λ st, {| devices_ := devices_ st ++ [set_ip a DeviceIntegrated0] |});
      mret (length (devices_ st))
  end.

Definition available_item (timestamp : Z) (item : json) (u : unit)
    : SE DeviceStore exn unit :=
  if is_object item then
    a ← se_lift (value_string item "ip" "");
    if str_empty a then mret tt
    else
      i ← device_slot a;
      c ← se_lift (value_double item "cpu" d_zero);
      _ ← at_device i (set_cpu c);
      m ← se_lift (value_double item "memory" d_zero);
      _ ← at_device i (set_memory m);
      t ← se_lift (value_double item "temp" d_zero);
      _ ← at_device i (set_temp t);
      up ← se_lift (value_int item "uptime" 0);
      _ ← at_device i (set_uptime up);
      _ ← at_device i (set_lastUpdate timestamp);
      at_device i (addSnapshot {| sn_timestamp := timestamp; sn_cpu := c;
                                  sn_memory := m; sn_temp := t; sn_uptime := up |})
  else mret tt.

(** [now]: the clock read, in milliseconds. *)
Definition updateFromAvailableJson (now : Z) (s : string) (cb : bool)
    : SE DeviceStore exn (option (list DeviceIntegrated)) :=
  let parsed := json_parse s in
  if is_object parsed then
    _ ← (if contains parsed "devices" && is_array (member parsed "devices") then
           se_fold (available_item now) (elements (member parsed "devices")) tt
         else mret tt);
    st ← se_get;
    mret (if cb then Some (devices_ st) else None)
  else mret None.
End store.

(** ** Lemmas *)

Definition ips (st : DeviceStore) : list string := ip <$> devices_ st.

Definition dynamic (d : DeviceIntegrated) :=
  (cpu d, memory d, temp d, uptime d, lastUpdate d, history d).

Definition history_ok (st : DeviceStore) : Prop :=
  Forall (λ d, length (history d) ≤ MAX_HISTORY) (devices_ st).

Lemma existsb_has_ip a l : existsb (has_ip a) l = true ↔ a ∈ ip <$> l.
Proof.
  rewrite existsb_exists, list_elem_of_fmap. split.
  - intros (d & Hd & Ha%bool_decide_eq_true). exists d. by rewrite list_elem_of_In.
  - intros (d & -> & Hd). exists d. rewrite <-list_elem_of_In. split; [done|].
    by apply bool_decide_eq_true.
Qed.

Lemma index_where_has_ip_None a l : index_where (has_ip a) l = None ↔ a ∉ ip <$> l.
Proof.
  rewrite index_where_None, Forall_forall, list_elem_of_fmap. split.
  - intros H (d & -> & Hd). specialize (H d Hd).
    by apply bool_decide_eq_false in H.
  - intros H d Hd. apply bool_decide_eq_false. intros <-. apply H. by exists d.
Qed.

Lemma alter_fmap_same {A B} (g : A → B) (f : A → A) i (l : list A) :
  (∀ x, g (f x) = g x) → g <$> alter f i l = g <$> l.
Proof.
  intros Hg. revert i. induction l as [|x l IH]; intros [|i]; cbn; [done..| |].
  - by rewrite Hg.
  - by rewrite IH.
Qed.

Lemma Forall_alter_any {A} (P : A → Prop) f i (l : list A) :
  (∀ x, P x → P (f x)) → Forall P l → Forall P (alter f i l).
Proof. intros Hf Hl. apply Forall_alter; [done|]. intros x _. auto. Qed.

Lemma keep_absent_fold listed kept devs :
  NoDup (ip <$> devs) → (∀ d, d ∈ devs → ip d ∉ ip <$> kept) →
  foldl keep_absent (listed ++ kept) devs
  = listed ++ kept ++ (set_offline <$> filter (λ d, ip d ∉ ip <$> listed) devs).
Proof.
  revert kept. induction devs as [|d devs IH]; intros kept Hnd Hk.
  { cbn. by rewrite app_nil_r. }
  cbn in Hnd. apply NoDup_cons in Hnd as [Hd Hnd]. cbn [foldl].
  unfold keep_absent at 2. rewrite filter_cons.
  destruct (existsb (has_ip (ip d)) (listed ++ kept)) eqn:Hex.
  - apply existsb_has_ip in Hex. rewrite fmap_app in Hex.
    apply elem_of_app in Hex as [Hex|Hex].
    + rewrite decide_False by naive_solver. apply IH; [done|].
      intros d' Hd'. apply Hk. by apply elem_of_cons; right.
    + exfalso. apply (Hk d); [by apply elem_of_cons; left|done].
  - assert (¬ ip d ∈ ip <$> listed ++ kept) as Hnin.
    { intros H%existsb_has_ip. congruence. }
    rewrite fmap_app, elem_of_app in Hnin.
    rewrite decide_True by tauto. rewrite <-app_assoc, IH.
    + cbn. by rewrite <-app_assoc.
    + done.
    + intros d' Hd'. rewrite fmap_app, elem_of_app. cbn. intros [H|H].
      * revert H. apply Hk. by apply elem_of_cons; right.
      * apply list_elem_of_singleton in H. apply Hd. rewrite <-H.
        by apply list_elem_of_fmap_2.
Qed.

Section camera.
Context `{J : Json}.

(** What the entry of a listed item satisfies. *)
Definition listed_ok (devs : list DeviceIntegrated) (d : DeviceIntegrated) : Prop :=
  ip d ≠ "" ∧ hasMotor d = bool_decide (type d = "SUB_PI") ∧
  dynamic d = match list_find (λ d', ip d' = ip d) devs with
              | Some (_, d') => dynamic d'
              | None => dynamic DeviceIntegrated0
              end.

Lemma camera_items_listed devs items acc res :
  outcome_fold (camera_item devs) items acc = Ret res →
  ∃ listed, res = acc ++ listed ∧ Forall (listed_ok devs) listed ∧
    length listed ≤ length items.
Proof.
  revert acc. induction items as [|i items IH]; intros acc H; cbn in H.
  { injection H as <-. exists []. by rewrite app_nil_r. }
  apply outcome_bind_Ret in H as (acc' & Hi & H).
  destruct (IH _ H) as (listed & -> & Hl & Hlen).
  unfold camera_item in Hi. destruct (is_object i); invert_run.
  2:{ exists listed. cbn. auto with lia. }
  destruct (str_empty a) eqn:Ha; invert_run.
  { exists listed. cbn. auto with lia. }
  apply str_empty_false in Ha.
  eexists (_ :: listed). split; [by rewrite <-app_assoc|].
  split; [|cbn; lia]. constructor; [|done]. unfold listed_ok.
  destruct (list_find (λ d, ip d = a) devs) as [[k d]|] eqn:Hf; cbn.
  - pose proof (proj1 (list_find_Some _ _ _ _) Hf) as (_ & Hd & _).
    rewrite Hd, Hf. done.
  - rewrite Hf. done.
Qed.
End camera.

Lemma list_find_history_ok a devs k d :
  Forall (λ d, length (history d) ≤ MAX_HISTORY) devs →
  list_find (λ d', ip d' = a) devs = Some (k, d) → length (history d) ≤ MAX_HISTORY.
Proof.
  intros Hf (Hk & _)%list_find_Some. by eapply (Forall_lookup_1 _ _ _ _ Hf Hk).
Qed.

Lemma listed_ok_history devs d :
  Forall (λ d, length (history d) ≤ MAX_HISTORY) devs →
  listed_ok devs d → length (history d) ≤ MAX_HISTORY.
Proof.
  intros Hf (_ & _ & Hdyn). unfold dynamic in Hdyn.
  destruct (list_find _ devs) as [[k d']|] eqn:Hfind; injection Hdyn as _ _ _ _ _ ->.
  - by eapply list_find_history_ok.
  - cbn. unfold MAX_HISTORY. lia.
Qed.

Lemma keep_absent_Forall (P : DeviceIntegrated → Prop) merged devs :
  (∀ d, P d → P (set_offline d)) →
  Forall P merged → Forall P devs → Forall P (foldl keep_absent merged devs).
Proof.
  intros HP. revert merged. induction devs as [|d devs IH]; intros merged Hm Hd; [done|].
  apply Forall_cons in Hd as [? ?]. cbn. apply IH; [|done].
  unfold keep_absent. destruct (existsb _ _); [done|].
  apply Forall_app_2; [done|]. by apply Forall_singleton, HP.
Qed.

(** ** AVAILABLE: preserved facts *)

Section available.
Context `{J : Json}.

(** The rows keep their identity and order, and new rows are appended with
    fresh, distinct ips. *)
Definition extends (st st' : DeviceStore) : Prop :=
  ∃ new, ips st' = ips st ++ new ∧ NoDup new ∧ ∀ a, a ∈ new → a ∉ ips st.

#[export] Instance extends_preorder : PreOrder extends.
Proof.
  split.
  - intros st. exists []. rewrite app_nil_r. split_and!; [done|constructor|].
    intros a H. by apply not_elem_of_nil in H.
  - intros st1 st2 st3 (n1 & H1 & Hn1 & Hf1) (n2 & H2 & Hn2 & Hf2).
    exists (n1 ++ n2). rewrite H2, H1, <-app_assoc. split_and!; [done| |].
    + apply NoDup_app. split_and!; [done| |done].
      intros a Ha1 Ha2. apply (Hf2 a Ha2). rewrite H1. by apply elem_of_app; right.
    + intros a [Ha|Ha]%elem_of_app Hst; [by apply (Hf1 a)|].
      apply (Hf2 a Ha). rewrite H1. by apply elem_of_app; left.
Qed.

Lemma at_device_extends i f :
  (∀ d, ip (f d) = ip d) → respects extends (at_device i f).
Proof.
  intros Hf st. exists []. cbn. rewrite app_nil_r. split_and!; [|constructor|].
  - unfold ips. cbn. by apply alter_fmap_same.
  - intros a H. by apply not_elem_of_nil in H.
Qed.

Lemma device_slot_extends a : respects extends (device_slot a).
Proof.
  intros st. unfold device_slot, mbind, SE_bind, se_get.
  destruct (index_where _ _) eqn:Hi; cbn; [reflexivity|].
  apply index_where_has_ip_None in Hi. exists [a]. split_and!.
  - unfold ips. cbn. by rewrite fmap_app.
  - apply NoDup_singleton.
  - intros b ->%list_elem_of_singleton. done.
Qed.

Lemma at_device_history i f :
  (∀ d, length (history d) ≤ MAX_HISTORY → length (history (f d)) ≤ MAX_HISTORY) →
  respects (keeps history_ok) (at_device i f).
Proof. intros Hf st Hst. unfold history_ok. cbn. by apply Forall_alter_any. Qed.

Lemma device_slot_history a : respects (keeps history_ok) (device_slot a).
Proof.
  intros st Hst. unfold device_slot, mbind, SE_bind, se_get.
  destruct (index_where _ _); cbn; [done|]. unfold history_ok. cbn.
  apply Forall_app_2; [done|]. apply Forall_singleton. cbn. unfold MAX_HISTORY. lia.
Qed.

(** Both relations are preserved by an item, whatever it throws. *)
Lemma available_item_respects (R : relation DeviceStore) `{!PreOrder R} now item u :
  (∀ a, respects R (device_slot a)) →
  (∀ i c, respects R (at_device i (set_cpu c))) →
  (∀ i c, respects R (at_device i (set_memory c))) →
  (∀ i c, respects R (at_device i (set_temp c))) →
  (∀ i c, respects R (at_device i (set_uptime c))) →
  (∀ i c, respects R (at_device i (set_lastUpdate c))) →
  (∀ i c, respects R (at_device i (addSnapshot c))) →
  respects R (available_item now item u).
Proof.
  intros. unfold available_item. destruct (is_object item); [|auto with anomap].
  apply respects_bind; [done|auto with anomap|]. intros a.
  destruct (str_empty a); [auto with anomap|].
  repeat (apply respects_bind; [done|auto with anomap|intros ?]). auto.
Qed.

Lemma available_extends now s cb :
  respects extends (updateFromAvailableJson now s cb).
Proof.
  unfold updateFromAvailableJson. destruct (is_object _); [|auto with anomap typeclass_instances].
  apply respects_bind; [apply _| |].
  - destruct (_ && _); [|apply respects_ret, _].
    apply respects_fold; [apply _|]. intros item u.
    apply available_item_respects; [apply _|apply device_slot_extends|..];
      intros; by apply at_device_extends.
  - intros _. apply respects_bind; [apply _|apply respects_get, _|].
    intros st. apply respects_ret, _.
Qed.

Lemma available_history now s cb :
  respects (keeps history_ok) (updateFromAvailableJson now s cb).
Proof.
  unfold updateFromAvailableJson. destruct (is_object _); [|apply respects_ret, _].
  apply respects_bind; [apply _| |].
  - destruct (_ && _); [|apply respects_ret, _].
    apply respects_fold; [apply _|]. intros item u.
    apply available_item_respects; [apply _|apply device_slot_history|..];
      intros; apply at_device_history; intros d Hd; cbn; [done..|].
    apply trim_front_length.
  - intros _. apply respects_bind; [apply _|apply respects_get, _|].
    intros st. apply respects_ret, _.
Qed.
End available.

(** ** AVAILABLE: the specification *)

(** One update of the entry of an ip, all fields at once. *)
Definition record_sample (e : string * DeviceSnapshot) (st : DeviceStore) : DeviceStore :=
  let s := e.2 in
  let f d := addSnapshot s (set_dynamic (sn_cpu s) (sn_memory s) (sn_temp s) (sn_uptime s)
                              (sn_timestamp s) (history d) d) in
  match index_where (has_ip e.1) (devices_ st) with
  | Some i => {| devices_ := alter f i (devices_ st) |}
  | None => {| devices_ := devices_ st ++ [f (set_ip e.1 DeviceIntegrated0)] |}
  end.

Section available_spec.
Context `{J : Json}.

(** What one item of "devices" denotes. *)
Definition parse_sample (now : Z) (item : json)
    : outcome exn (option (string * DeviceSnapshot)) :=
  if is_object item then
    a ← value_string item "ip" "";
    if str_empty a then mret None
    else
      c ← value_double item "cpu" d_zero;
      m ← value_double item "memory" d_zero;
      t ← value_double item "temp" d_zero;
      up ← value_int item "uptime" 0;
      mret (Some (a, {| sn_timestamp := now; sn_cpu := c; sn_memory := m; sn_temp := t;
                        sn_uptime := up |}))
  else mret None.

Fixpoint parse_samples (now : Z) (items : list json)
    : outcome exn (list (string * DeviceSnapshot)) :=
  match items with
  | [] => mret []
  | i :: items' =>
      o ← parse_sample now i;
      es ← parse_samples now items';
      mret (option_list o ++ es)
  end.

Lemma alter_app_last {A} (f : A → A) l x :
  alter f (length l) (l ++ [x]) = l ++ [f x].
Proof. by rewrite alter_app_r_alt, Nat.sub_diag by done. Qed.

Lemma available_item_ok now item st :
  match parse_sample now item with
  | Ret o => available_item now item tt st = (Ret tt, foldr record_sample st (option_list o))
  | Throw e => (available_item now item tt st).1 = Throw e
  end.
Proof.
  unfold parse_sample, available_item, mbind, SE_bind, outcome_bind, se_lift,
    mret, SE_ret, outcome_ret.
  destruct (is_object item); [|done].
  destruct (value_string item "ip" "") as [a|e]; [|done].
  destruct (str_empty a); [done|].
  unfold device_slot, mbind, SE_bind, se_get, at_device, se_modify, mret, SE_ret.
  destruct (index_where (has_ip a) (devices_ st)) as [i|] eqn:Hi.
  - destruct (value_double item "cpu" d_zero) as [c|e]; [|done].
    destruct (value_double item "memory" d_zero) as [m|e]; [|done].
    destruct (value_double item "temp" d_zero) as [t|e]; [|done].
    destruct (value_int item "uptime" 0) as [up|e]; [|done].
    cbn. unfold record_sample. cbn. rewrite Hi. cbn.
    by rewrite !list_alter_alter_eq.
  - destruct (value_double item "cpu" d_zero) as [c|e]; [|done].
    destruct (value_double item "memory" d_zero) as [m|e]; [|done].
    destruct (value_double item "temp" d_zero) as [t|e]; [|done].
    destruct (value_int item "uptime" 0) as [up|e]; [|done].
    cbn. unfold record_sample. cbn. rewrite Hi.
    by rewrite !list_alter_alter_eq, alter_app_last.
Qed.

Lemma available_items_ok now items st :
  match parse_samples now items with
  | Ret es => se_fold (available_item now) items tt st
              = (Ret tt, foldl (flip record_sample) st es)
  | Throw e => (se_fold (available_item now) items tt st).1 = Throw e
  end.
Proof.
  revert st. induction items as [|i items IH]; intros st; [done|].
  cbn [parse_samples se_fold]. unfold mbind, SE_bind, outcome_bind, mret, outcome_ret in *.
  pose proof (available_item_ok now i st) as Hi.
  destruct (parse_sample now i) as [o|e].
  - rewrite Hi. specialize (IH (foldr record_sample st (option_list o))).
    destruct (parse_samples now items) as [es|e].
    + rewrite IH, foldl_app. by destruct o.
    + done.
  - by destruct (available_item now i tt st) as [[u|e'] st'].
Qed.
End available_spec.

(** The history of a device after a list of samples. *)
Lemma getHistory_record a e st :
  getHistory a (record_sample e st) =
  if decide (e.1 = a) then trim_front MAX_HISTORY (getHistory a st ++ [e.2])
  else getHistory a st.
Proof.
  unfold getHistory, record_sample. destruct e as [b s]. cbn.
  set (f := λ d, addSnapshot s _).
  assert (Hip : ∀ l i c, index_where (has_ip c) (alter f i l) = index_where (has_ip c) l).
  { intros l i c. revert i. induction l as [|d l IH]; intros [|i]; cbn; [done..|].
    by rewrite IH. }
  destruct (index_where (has_ip b) (devices_ st)) as [i|] eqn:Hi; cbn.
  - rewrite Hip. apply index_where_Some in Hi as Hi'.
    destruct Hi' as (d & Hd & Hdb & _).
    destruct (index_where (has_ip a) (devices_ st)) as [j|] eqn:Hj.
    + apply index_where_Some in Hj as Hj'.
      destruct Hj' as (d' & Hd' & Hda & _).
      case_decide as Hab.
      * subst b. rewrite Hi in Hj. injection Hj as <-.
        by rewrite list_lookup_alter, decide_True, Hd by done.
      * rewrite list_lookup_alter, decide_False; [done|].
        intros <-. apply bool_decide_eq_true in Hda, Hdb. congruence.
    + case_decide as Hab; [|done]. subst b. congruence.
  - apply index_where_has_ip_None in Hi as Hnin.
    assert (Happ : ∀ x, index_where (has_ip a) (devices_ st ++ [x])
      = match index_where (has_ip a) (devices_ st) with
        | Some k => Some k
        | None => if has_ip a x then Some (length (devices_ st)) else None
        end).
    { intros x. induction (devices_ st) as [|d l IH]; cbn; [by destruct (has_ip a x)|].
      destruct (has_ip a d); [done|]. rewrite IH.
      + by destruct (index_where (has_ip a) l), (has_ip a x).
      + cbn in Hi. by destruct (has_ip b d), (index_where (has_ip b) l).
      + cbn in Hnin. intros H. apply Hnin. by apply elem_of_cons; right. }
    rewrite Happ. case_decide as Hab.
    + subst b. rewrite Hi. unfold has_ip at 1. cbn. rewrite bool_decide_true by done.
      rewrite lookup_app_r, Nat.sub_diag by done. done.
    + destruct (index_where (has_ip a) (devices_ st)) as [j|] eqn:Hj.
      * apply index_where_lt in Hj as Hlt. by rewrite lookup_app_l by done.
      * unfold has_ip. cbn. by rewrite bool_decide_false by done.
Qed.

Lemma getHistory_records a es st :
  length (getHistory a st) ≤ MAX_HISTORY →
  getHistory a (foldl (flip record_sample) st es)
  = trim_front MAX_HISTORY
      (getHistory a st ++ map snd (filter (λ e, e.1 = a) es)).
Proof.
  intros Hst. induction es as [|e es IH] using rev_ind.
  { cbn. rewrite app_nil_r, trim_front_drop.
    by replace (_ - MAX_HISTORY) with 0 by lia. }
  rewrite foldl_app. cbn [foldl flip]. rewrite getHistory_record, filter_app, map_app.
  rewrite filter_cons. cbn [filter list_filter]. case_decide as He.
  - cbn. rewrite app_assoc. by apply trim_front_snoc.
  - cbn. by rewrite app_nil_r.
Qed.

(** ** Reachable states *)

Section reach.
Context `{J : Json}.

(** One completed call, returning or throwing. *)
Inductive device_step : DeviceStore → DeviceStore → Prop :=
| step_camera s cb st : device_step st (updateFromCameraJson s cb st).2
| step_available now s cb st : device_step st (updateFromAvailableJson now s cb st).2
| step_clear st : device_step st (clear st).

(** A CAMERA update on each branch. *)
Lemma updateFromCameraJson_result s cb st :
  updateFromCameraJson s cb st =
  if is_array (json_parse s) then
    match outcome_fold (camera_item (devices_ st)) (elements (json_parse s)) [] with
    | Throw e => (Throw e, st)
    | Ret listed =>
        let merged := foldl keep_absent listed (devices_ st) in
        (Ret (if cb then Some merged else None), {| devices_ := merged |})
    end
  else (Ret None, st).
Proof.
  unfold updateFromCameraJson. destruct (is_array _); [|done].
  unfold mbind, SE_bind, se_get, se_lift. by destruct (outcome_fold _ _ _).
Qed.

Lemma camera_history s cb : respects (keeps history_ok) (updateFromCameraJson s cb).
Proof.
  intros st Hst. rewrite updateFromCameraJson_result. destruct (is_array _); [|done].
  destruct (outcome_fold _ _ _) as [res|e] eqn:Hf; [|done].
  apply camera_items_listed in Hf as (listed & -> & Hl & _).
  unfold history_ok. cbn. apply keep_absent_Forall; [done| |done].
  rewrite Forall_forall in Hl |- *. intros d Hd.
  eapply listed_ok_history; [|by apply Hl]. done.
Qed.

Lemma device_step_history st st' :
  device_step st st' → history_ok st → history_ok st'.
Proof.
  intros [s cb st1|now s cb st1|st1] H.
  - by apply camera_history.
  - by apply available_history.
  - constructor.
Qed.
End reach.

(** ** Properties *)

(** A CAMERA update that returns, on a store whose ips are distinct, yields
    the listed devices in list order, each with the dynamic fields and the
    history its ip had before (the defaults for a new ip) and a motor exactly
    when it is a SUB_PI, followed by every device that is not listed, unchanged
    but offline. *)
Theorem device_camera_update `{J : Json} (s : string) (cb : bool) (st st' : DeviceStore)
    (r : option (list DeviceIntegrated)) :
  NoDup (ips st) → is_array (json_parse s) = true →
  updateFromCameraJson s cb st = (Ret r, st') →
  ∃ listed, Forall (listed_ok (devices_ st)) listed ∧
    devices_ st' = listed ++
      (set_offline <$> filter (λ d, ip d ∉ ip <$> listed) (devices_ st)) ∧
    r = if cb then Some (devices_ st') else None.
Proof.
  intros Hnd Harr. rewrite updateFromCameraJson_result, Harr.
  destruct (outcome_fold _ _ _) as [res|e] eqn:Hf; [|done].
  apply camera_items_listed in Hf as (listed & -> & Hl & _).
  intros [= <- <-]. exists listed. split; [done|]. cbn.
  pose proof (keep_absent_fold listed [] (devices_ st) Hnd) as Hk.
  rewrite app_nil_r in Hk. rewrite Hk; [done|].
  intros d _ H. by apply not_elem_of_nil in H.
Qed.

Definition demo_docs : list (string * jval) :=
  [("cams", JArr [JObj [("ip", JStr "10.0.0.1"); ("is_online", JBool true);
                        ("source_url", JStr "rtsp://10.0.0.1:554/0/main");
                        ("type", JStr "SUB_PI")]]);
   ("avail", JObj [("devices", JArr
      [JObj [("ip", JStr "10.0.0.1"); ("cpu", JInt 1); ("uptime", JInt 90730)];
       JObj [("ip", JStr "10.0.0.2"); ("cpu", JFloat d_half)];
       JObj [("ip", JStr "10.0.0.1"); ("uptime", JInt 90735)]])]);
   ("bad", JArr [JObj [("ip", JStr "10.0.0.1"); ("type", JStr "JETSON")];
                 JObj [("ip", JInt 7)]])].

Definition demo_store : DeviceStore :=
  (updateFromAvailableJson (J:=RefJson demo_docs) 1000 "avail" true DeviceStore0).2.

Lemma device_camera_update_witness :
  ∃ listed, devices_ (updateFromCameraJson (J:=RefJson demo_docs) "cams" true demo_store).2
    = listed ++ (set_offline <$>
        filter (λ d, ip d ∉ ip <$> listed) (devices_ demo_store)).
Proof.
  destruct (device_camera_update (J:=RefJson demo_docs) "cams" true demo_store
    (updateFromCameraJson (J:=RefJson demo_docs) "cams" true demo_store).2
    (Some (devices_ (updateFromCameraJson (J:=RefJson demo_docs) "cams" true demo_store).2)))
    as (listed & _ & H & _).
  - apply (bool_decide_unpack _). vm_compute. exact I.
  - reflexivity.
  - vm_compute. reflexivity.
  - by exists listed.
Defined.

(** A CAMERA update that throws changes nothing. *)
Theorem device_camera_throw_atomic `{J : Json} (s : string) (cb : bool)
    (st st' : DeviceStore) (e : exn) :
  updateFromCameraJson s cb st = (Throw e, st') → st' = st.
Proof.
  rewrite updateFromCameraJson_result. destruct (is_array _); [|done].
  destruct (outcome_fold _ _ _) as [res|e']; [done|]. by intros [= _ <-].
Qed.

Lemma device_camera_throw_atomic_witness :
  (updateFromCameraJson (J:=RefJson demo_docs) "bad" true demo_store).2 = demo_store ∧
  (updateFromCameraJson (J:=RefJson demo_docs) "bad" true demo_store).1
    = Throw json_type_error.
Proof.
  split; [|by vm_compute].
  apply (device_camera_throw_atomic (J:=RefJson demo_docs) "bad" true demo_store _
    json_type_error). by vm_compute.
Defined.

(** An AVAILABLE update, also one that throws half way, keeps every device
    at its row and appends new devices with fresh, pairwise distinct ips; so
    distinct ips stay distinct. *)
Theorem device_available_extends `{J : Json} (now : Z) (s : string) (cb : bool)
    (st : DeviceStore) :
  extends st (updateFromAvailableJson now s cb st).2 ∧
  (NoDup (ips st) → NoDup (ips (updateFromAvailableJson now s cb st).2)).
Proof.
  pose proof (available_extends now s cb st) as H. split; [done|].
  destruct H as (new & -> & Hnew & Hfresh). intros Hnd.
  apply NoDup_app. split_and!; [done| |done]. intros a Ha Hn. by apply (Hfresh a Hn).
Qed.

(** In every reachable state every history is within its bound. *)
Lemma reachable_history `{J : Json} (st : DeviceStore) : rtc device_step DeviceStore0 st → history_ok st.
Proof.
  assert (history_ok DeviceStore0) as H0 by constructor. intros Hr. revert H0.
  induction Hr as [st|st1 st2 st3 Hstep _ IH]; [done|]. intros H0. apply IH. by apply (device_step_history st1).
Qed.

Lemma getHistory_bounded a st : history_ok st → length (getHistory a st) ≤ MAX_HISTORY.
Proof.
  unfold getHistory, history_ok. rewrite Forall_forall. intros H.
  destruct (index_where (has_ip a) (devices_ st)) as [i|]; [|cbn; lia]. cbn.
  destruct (devices_ st !! i) as [d|] eqn:Hd; [|cbn; lia]. cbn. eapply H, list_elem_of_lookup_2, Hd.
Qed.

(** The samples of a document: those of its "devices", if that is an array. *)
Definition document_samples `{J : Json} (now : Z) (doc : json) : outcome exn (list (string * DeviceSnapshot)) :=
  if is_object doc && (contains doc "devices" && is_array (member doc "devices"))
  then parse_samples now (elements (member doc "devices")) else Ret [].

(** C26. Any AVAILABLE update of a reachable store that returns appends to the history of
    every device the samples the document has for it, in order and stamped with the
    clock read, and keeps the newest [MAX_HISTORY] of them; a document that is no
    object, or has no array of devices, changes no history.  [MAX_HISTORY] is the
    constant of the code, 60; the comments beside it that say 20 are out of date. *)
Theorem device_available_history `{J : Json} (now : Z) (s : string) (cb : bool)
    (st st' : DeviceStore) (r : option (list DeviceIntegrated)) (a : string) :
  rtc device_step DeviceStore0 st →
  updateFromAvailableJson now s cb st = (Ret r, st') →
  ∃ es, document_samples now (json_parse s) = Ret es ∧
    getHistory a st' = trim_front MAX_HISTORY (getHistory a st ++ map snd (filter (λ e, e.1 = a) es)) ∧
    length (getHistory a st') ≤ MAX_HISTORY.
Proof.
  intros Hst%reachable_history. apply (getHistory_bounded a) in Hst as Hh.
  unfold updateFromAvailableJson, document_samples.
  assert (getHistory a st = trim_front MAX_HISTORY (getHistory a st ++ map snd (filter (λ e, e.1 = a) []))) as Hsame.
  { cbn. rewrite app_nil_r, trim_front_drop. by replace (_ - _) with 0 by lia. }
  destruct (is_object _); cbn [andb].
  2:{ intros [= _ <-]. exists []. split; [done|]. by split. }
  unfold mbind, SE_bind. destruct (_ && _).
  - pose proof (available_items_ok now (elements (member (json_parse s) "devices")) st) as Hi.
    destruct (parse_samples _ _) as [es|e].
    + rewrite Hi. cbn. intros [= _ <-]. exists es. split; [done|].
      rewrite getHistory_records by done. split; [done|]. apply trim_front_length.
    + destruct (se_fold _ _ _ st) as [o st1]. cbn in Hi. by subst o.
  - cbn. intros [= _ <-]. exists []. split; [done|]. by split.
Qed.

Lemma device_available_history_witness :
  ∃ es, getHistory "10.0.0.1"
          (updateFromAvailableJson (J:=RefJson demo_docs) 2000 "avail" true demo_store).2
        = trim_front MAX_HISTORY
            (getHistory "10.0.0.1" demo_store ++ map snd (filter (λ e, e.1 = "10.0.0.1") es)) ∧
        length es = 3.
Proof.
  destruct (device_available_history (J:=RefJson demo_docs) 2000 "avail" true demo_store
    (updateFromAvailableJson (J:=RefJson demo_docs) 2000 "avail" true demo_store).2
    (Some (devices_
      (updateFromAvailableJson (J:=RefJson demo_docs) 2000 "avail" true demo_store).2))
    "10.0.0.1") as (es & Hes & H & _).
  - apply rtc_once, (step_available (J:=RefJson demo_docs)).
  - vm_compute. reflexivity.
  - exists es. split; [done|]. revert Hes. vm_compute. by intros [= <-].
Defined.

(** In every reachable state, whatever documents arrived and whichever
    calls threw, no device holds more than 60 history entries (the header
    comments speak of 20). *)
Theorem device_history_bounded `{J : Json} (st : DeviceStore) :
  rtc device_step DeviceStore0 st →
  Forall (λ d, length (history d) ≤ 60) (devices_ st).
Proof. intros Hr. change 60 with MAX_HISTORY. by apply reachable_history. Qed.

Lemma device_history_bounded_witness :
  Forall (λ d, length (history d) ≤ 60) (devices_ demo_store) ∧
  length (devices_ demo_store) = 2.
Proof.
  split; [|by vm_compute].
  apply (device_history_bounded (J:=RefJson demo_docs)).
  apply rtc_once, (step_available (J:=RefJson demo_docs)).
Defined.
