(* ===== verification/ServerStatusStore.v ===== *)
(** * The server status store (src/Src/Domain/ServerStatus.hpp, ServerStatus.cpp)

    [ServerStatusStore] keeps the last AVAILABLE status and, for admins, a
    history of the last ten server samples. *)

From S2P Require Import Prelude Extern.

Record DeviceStatusData : Type := {
  ds_ip : string;
  ds_cpu : double;
  ds_memory : double;
  ds_temp : double;
  ds_uptime : Z;
  ds_pendingEvents : Z
}.

Record ServerStatusData : Type := {
  ss_cpu : double;
  ss_memory : double;
  ss_temp : double;
  ss_uptime : Z;
  ss_available : bool;
  ss_timestamp : Z;
  ss_devices : list DeviceStatusData
}.

Definition ServerStatusData0 : ServerStatusData :=
  {| ss_cpu := d_zero; ss_memory := d_zero; ss_temp := d_zero; ss_uptime := 0;
     ss_available := false; ss_timestamp := 0; ss_devices := [] |}.

Record ServerStatusStore : Type := {
  status_ : ServerStatusData;
  history_ : list ServerStatusData
}.

Definition ServerStatusStore0 : ServerStatusStore :=
  {| status_ := ServerStatusData0; history_ := [] |}.

Section store.
Context `{J : Json}.

(** One element of "devices": unlike [DeviceStore], no test that it is an
    object. *)
Definition status_item (item : json) (devices : list DeviceStatusData)
    : outcome exn (list DeviceStatusData) :=
  a ← value_string item "ip" "";
  c ← value_double item "cpu" d_zero;
  m ← value_double item "memory" d_zero;
  t ← value_double item "temp" d_zero;
  up ← value_int item "uptime" 0;
  pe ← value_int item "pending_events" 0;
  mret (devices ++ [{| ds_ip := a; ds_cpu := c; ds_memory := m; ds_temp := t;
                       ds_uptime := up; ds_pendingEvents := pe |}]).

(** The local [s] of [updateFromJson]; [now] is the clock read. *)
Definition parse_status (now : Z) (parsed : json) : outcome exn ServerStatusData :=
  devices ← (if contains parsed "devices" && is_array (member parsed "devices") then
               outcome_fold status_item (elements (member parsed "devices")) []
             else mret []);
  if contains parsed "server" && is_object (member parsed "server") then
    let srv := member parsed "server" in
    c ← value_double srv "cpu" d_zero;
    m ← value_double srv "memory" d_zero;
    t ← value_double srv "temp" d_zero;
    up ← value_int srv "uptime" 0;
    mret {| ss_cpu := c; ss_memory := m; ss_temp := t; ss_uptime := up;
            ss_available := true; ss_timestamp := now; ss_devices := devices |}
  else mret {| ss_cpu := d_zero; ss_memory := d_zero; ss_temp := d_zero; ss_uptime := 0;
               ss_available := false; ss_timestamp := 0; ss_devices := devices |}.

Definition updateFromJson (now : Z) (s : string) (cb : bool)
    : SE ServerStatusStore exn (option ServerStatusData) :=
  let parsed := json_parse s in
  if is_object parsed then
    d ← se_lift (parse_status now parsed);
    _ ← se_modify (λ st,
      let h := if ss_available d then
                 let h := history_ st ++ [d] in
                 if decide (10 < length h) then tail h else h
               else history_ st in
      {| status_ := d; history_ := h |});
    mret (if cb then Some d else None)
  else mret None.
End store.

Definition snapshot (st : ServerStatusStore) : ServerStatusData := status_ st.
Definition getHistory (st : ServerStatusStore) : list ServerStatusData := history_ st.
Definition clear (st : ServerStatusStore) : ServerStatusStore := ServerStatusStore0.

(** ** Reachable states *)

Section reach.
Context `{J : Json}.

(** One completed call, returning or throwing. *)
Inductive status_step : ServerStatusStore → ServerStatusStore → Prop :=
| step_update now s cb st : status_step st (updateFromJson now s cb st).2
| step_clear st : status_step st (clear st).

Definition history_inv (st : ServerStatusStore) : Prop :=
  length (history_ st) ≤ 10 ∧
  Forall (λ d, ss_available d = true) (history_ st) ∧
  (ss_available (status_ st) = true → last (history_ st) = Some (status_ st)).

(** [history_.push_back(s); if (history_.size() > 10) history_.erase(begin);] *)
Definition push10 (d : ServerStatusData) (h : list ServerStatusData)
    : list ServerStatusData :=
  if decide (10 < length (h ++ [d])) then tail (h ++ [d]) else h ++ [d].

Lemma push10_trim d h : length h ≤ 10 → push10 d h = trim_front 10 (h ++ [d]).
Proof.
  intros Hh. unfold push10. rewrite trim_front_drop, length_app. cbn [length].
  case_decide as Hd.
  - replace (length h + 1 - 10) with 1 by lia. by destruct h.
  - by replace (length h + 1 - 10) with 0 by lia.
Qed.

Lemma status_updateFromJson_result now s cb st :
  updateFromJson now s cb st =
  if is_object (json_parse s) then
    match parse_status now (json_parse s) with
    | Throw e => (Throw e, st)
    | Ret d => (Ret (if cb then Some d else None),
        {| status_ := d;
           history_ := if ss_available d then push10 d (history_ st)
                       else history_ st |})
    end
  else (Ret None, st).
Proof.
  unfold updateFromJson. destruct (is_object _); [|done].
  unfold mbind, SE_bind, se_lift. by destruct (parse_status _ _).
Qed.

Lemma push10_inv d h :
  length h ≤ 10 → Forall (λ d, ss_available d = true) h → ss_available d = true →
  length (push10 d h) ≤ 10 ∧ Forall (λ d, ss_available d = true) (push10 d h) ∧
  last (push10 d h) = Some d.
Proof.
  intros Hlen Hall Hd. unfold push10. rewrite length_app. cbn [length].
  case_decide as Hlt.
  - destruct h as [|x h]; [cbn in Hlt; lia|]. cbn in Hlen |- *.
    apply Forall_cons in Hall as [_ Hall]. split_and!.
    + rewrite length_app. cbn. lia.
    + apply Forall_app_2; [done|]. by apply Forall_singleton.
    + apply last_snoc.
  - split_and!.
    + rewrite length_app. cbn. lia.
    + apply Forall_app_2; [done|]. by apply Forall_singleton.
    + apply last_snoc.
Qed.

Lemma status_step_inv st st' : status_step st st' → history_inv st → history_inv st'.
Proof.
  intros [now s cb st1|st1] (Hlen & Hall & Hlast).
  - rewrite status_updateFromJson_result. destruct (is_object _); [|done].
    destruct (parse_status _ _) as [d|e]; [|done]. cbn.
    destruct (ss_available d) eqn:Hd.
    + destruct (push10_inv d (history_ st1) Hlen Hall Hd) as (? & ? & ?).
      split_and!; [done|done|]. intros _. done.
    + split_and!; [done|done|]. cbn. congruence.
  - split_and!; cbn; [lia|constructor|done].
Qed.
End reach.

(** ** Properties *)

(** The whole of [updateFromJson]: an object replaces the status by what it
    parses to and, when it has a "server" object, appends it to the history of
    the last ten; a document that is not an object, and one whose parse throws,
    change nothing. *)
Theorem status_update `{J : Json} (now : Z) (s : string) (cb : bool)
    (st : ServerStatusStore) :
  length (history_ st) ≤ 10 →
  updateFromJson now s cb st =
  if is_object (json_parse s) then
    match parse_status now (json_parse s) with
    | Throw e => (Throw e, st)
    | Ret d => (Ret (if cb then Some d else None),
        {| status_ := d;
           history_ := if ss_available d then trim_front 10 (history_ st ++ [d])
                       else history_ st |})
    end
  else (Ret None, st).
Proof.
  intros Hlen. rewrite status_updateFromJson_result. destruct (is_object _); [|done].
  destruct (parse_status _ _) as [d|e]; [|done].
  destruct (ss_available d); [|done]. by rewrite push10_trim.
Qed.

Definition demo_docs : list (string * jval) :=
  [("admin", JObj [("server", JObj [("cpu", JFloat d_half); ("uptime", JInt 5)]);
                   ("devices", JArr [JObj [("ip", JStr "10.0.0.1")]])]);
   ("user", JObj [("devices", JArr [JObj [("ip", JStr "10.0.0.1")]; JInt 3])])].

Lemma status_update_witness :
  (updateFromJson (J:=RefJson demo_docs) 7 "admin" true ServerStatusStore0).2
    = (updateFromJson (J:=RefJson demo_docs) 7 "admin" false ServerStatusStore0).2 ∧
  (updateFromJson (J:=RefJson demo_docs) 7 "user" true ServerStatusStore0)
    = (Throw json_type_error, ServerStatusStore0).
Proof.
  split; [reflexivity|].
  rewrite (status_update (J:=RefJson demo_docs) 7 "user" true ServerStatusStore0)
    by (cbn; lia).
  reflexivity.
Defined.

(** In every reachable state the history holds at most ten samples, all of
    them admin samples, and when the current status is an admin sample it is
    the newest history entry. *)
Theorem status_history_inv `{J : Json} (st : ServerStatusStore) :
  rtc status_step ServerStatusStore0 st → history_inv st.
Proof.
  intros Hr. assert (history_inv ServerStatusStore0) as H0.
  { split_and!; cbn; [lia|constructor|done]. }
  revert H0. induction Hr as [st|st1 st2 st3 Hstep _ IH]; [done|].
  intros H0. apply IH. by apply (status_step_inv st1).
Qed.

Lemma status_history_inv_witness :
  history_inv (updateFromJson (J:=RefJson demo_docs) 7 "admin" true ServerStatusStore0).2.
Proof.
  apply (status_history_inv (J:=RefJson demo_docs)).
  apply rtc_once, (step_update (J:=RefJson demo_docs)).
Defined.
