(* ===== verification/Alarm.v ===== *)
(** * Alarms (src/Src/Domain/Alarm.hpp, Alarm.cpp,
      src/Qt/Back/Controllers/AlarmController.hpp, AlarmController.cpp,
      src/Qt/Back/Services/AlarmManager.hpp, AlarmManager.cpp)

    [AlarmDispatcher::dispatch] turns an AI message into an [AlarmEvent] on the
    thread pool; [AlarmController] keeps the visible queue of at most twenty
    alarms.  [AlarmManager] only converts an event into a signal. *)

From S2P Require Import Prelude Extern.

(** ** The dispatcher *)

Record AlarmEvent : Type := {
  ev_title : string;
  ev_detail : string;
  ev_severity : Z
}.

Section dispatcher.
Context `{J : Json}.

(** The submitted task: the event handed to the callback, if any.  What it
    throws ends in the promise of [ThreadPool::Submit]. *)
Definition dispatch_task (s : string) : outcome exn (option AlarmEvent) :=
  let parsed := json_parse s in
  if negb (is_object parsed) then mret None
  else
    ty ← value_string parsed "type" "";
    if negb (bool_decide (ty = "alarm")) then mret None
    else
      title ← value_string parsed "title" "AI Alert";
      detail ← value_string parsed "detail" "Anomaly detected";
      severity ← value_int parsed "severity" 1;
      mret (Some {| ev_title := title; ev_detail := detail; ev_severity := severity |}).

(** [dispatch]: no task without a callback. *)
Definition dispatch (s : string) (cb : bool)
    : option (outcome exn (option AlarmEvent)) :=
  if cb then Some (dispatch_task s) else None.
End dispatcher.

(** ** The controller *)

Record AlarmEntry : Type := {
  al_id : Z;
  al_title : QString;
  al_detail : QString;
  al_severity : Z
}.

Inductive alarm_signal : Type :=
| alarmsChanged
| alarmTriggered (title detail : QString) (severity : Z).

Definition kMaxAlarms : nat := 20.

(** Every slot returns the new [alarms_] and the signals it emits. *)
Definition dismiss (id : Z) (alarms : list AlarmEntry)
    : list AlarmEntry * list alarm_signal :=
  match index_where (λ e, bool_decide (al_id e = id)) alarms with
  | Some i => (delete i alarms, [alarmsChanged])
  | None => (alarms, [])
  end.

Definition clearAll (alarms : list AlarmEntry) : list AlarmEntry * list alarm_signal :=
  match alarms with
  | [] => (alarms, [])
  | _ => ([], [alarmsChanged])
  end.

Section controller.
Context `{T : QtText}.

(** [now]: [QDateTime::currentMSecsSinceEpoch()]. *)
Definition onAlarm (now : Z) (ev : AlarmEvent) (alarms : list AlarmEntry)
    : list AlarmEntry * list alarm_signal :=
  let alarms := if decide (kMaxAlarms ≤ length alarms) then tail alarms else alarms in
  (alarms ++ [{| al_id := now; al_title := fromStdString (ev_title ev);
                 al_detail := fromStdString (ev_detail ev);
                 al_severity := ev_severity ev |}],
   [alarmsChanged]).

(** [AlarmManager::onAlarm]. *)
Definition manager_onAlarm (ev : AlarmEvent) : list alarm_signal :=
  [alarmTriggered (fromStdString (ev_title ev)) (fromStdString (ev_detail ev))
     (ev_severity ev)].

(** One slot call. *)
Inductive alarm_step : list AlarmEntry → list AlarmEntry → Prop :=
| step_alarm now ev l : alarm_step l (onAlarm now ev l).1
| step_dismiss id l : alarm_step l (dismiss id l).1
| step_clear l : alarm_step l (clearAll l).1.
End controller.

(** ** Lemmas *)

Section lemmas.
Context `{T : QtText}.

Definition entry_of (now : Z) (ev : AlarmEvent) : AlarmEntry :=
  {| al_id := now; al_title := fromStdString (ev_title ev);
     al_detail := fromStdString (ev_detail ev); al_severity := ev_severity ev |}.

Lemma onAlarm_trim now ev l :
  length l ≤ kMaxAlarms →
  (onAlarm now ev l).1 = trim_front kMaxAlarms (l ++ [entry_of now ev]).
Proof.
  intros Hl. unfold onAlarm, kMaxAlarms in *. cbn.
  rewrite trim_front_drop, length_app. cbn [length].
  case_decide as Hd.
  - replace (length l + 1 - 20) with 1 by lia. by destruct l; [cbn in Hd; lia|].
  - by replace (length l + 1 - 20) with 0 by lia.
Qed.

Lemma alarm_step_bounded l l' :
  alarm_step l l' → length l ≤ kMaxAlarms → length l' ≤ kMaxAlarms.
Proof.
  intros [now ev l1|id l1|l1] Hl.
  - rewrite onAlarm_trim by done. apply trim_front_length.
  - unfold dismiss. destruct (index_where _ _) as [i|] eqn:Hi; [|done]. cbn.
    apply index_where_lt in Hi. rewrite length_delete; [lia|].
    by apply lookup_lt_is_Some.
  - destruct l1; cbn; [done|]. unfold kMaxAlarms. lia.
Qed.
End lemmas.

(** ** Properties *)

(** The queue never exceeds twenty alarms, and a burst of alarms that starts
    with a legal queue leaves the newest twenty, oldest first. *)
Theorem alarm_queue_fifo `{T : QtText} (l : list AlarmEntry)
    (evs : list (Z * AlarmEvent)) :
  rtc alarm_step [] l →
  length l ≤ 20 ∧
  foldl (λ q e, (onAlarm e.1 e.2 q).1) l evs
  = trim_front 20 (l ++ map (λ e, entry_of e.1 e.2) evs).
Proof.
  intros Hr.
  assert (length l ≤ kMaxAlarms) as Hl.
  { assert (length ([] : list AlarmEntry) ≤ kMaxAlarms) as H0 by (cbn; lia).
    revert H0. induction Hr as [l|l1 l2 l3 Hs _ IH]; [done|].
    intros H0. apply IH. by apply (alarm_step_bounded l1). }
  split; [done|]. change 20 with kMaxAlarms.
  induction evs as [|e evs IH] using rev_ind.
  { cbn. rewrite app_nil_r, trim_front_drop.
    by replace (length l - kMaxAlarms) with 0 by lia. }
  rewrite foldl_app, IH. cbn [foldl].
  rewrite onAlarm_trim by apply trim_front_length.
  rewrite map_app. cbn [map]. rewrite app_assoc. by apply trim_front_snoc.
Qed.

Lemma alarm_queue_fifo_witness :
  length (foldl (λ q e, (onAlarm (T:=RefText) e.1 e.2 q).1)
    (onAlarm (T:=RefText) 1 {| ev_title := "a"; ev_detail := ""; ev_severity := 1 |} []).1
    (replicate 25 (2%Z, {| ev_title := "b"; ev_detail := ""; ev_severity := 0 |}))) = 20.
Proof.
  rewrite (proj2 (alarm_queue_fifo (T:=RefText) _ _ (rtc_once _ _
    (step_alarm (T:=RefText) 1 {| ev_title := "a"; ev_detail := ""; ev_severity := 1 |} [])))).
  reflexivity.
Defined.

(** Dismissing an id removes exactly the oldest alarm that carries it and
    signals the change; an unknown id changes nothing and signals nothing. *)
Theorem alarm_dismiss (id : Z) (l : list AlarmEntry) :
  match dismiss id l with
  | (l', sigs) =>
      (∃ pre e post, l = pre ++ e :: post ∧ l' = pre ++ post ∧ al_id e = id ∧
         Forall (λ x, al_id x ≠ id) pre ∧ sigs = [alarmsChanged]) ∨
      (Forall (λ x, al_id x ≠ id) l ∧ l' = l ∧ sigs = [])
  end.
Proof.
  unfold dismiss. destruct (index_where _ _) as [i|] eqn:Hi.
  - apply index_where_Some in Hi as (e & He & Hid%bool_decide_eq_true & Hlt). left.
    exists (take i l), e, (drop (S i) l). split_and!; [| |done| |done].
    + symmetry. by apply take_drop_middle.
    + apply delete_take_drop.
    + apply Forall_lookup. intros j x Hj. apply lookup_take_Some in Hj as [Hj Hji].
      by eapply bool_decide_eq_false, Hlt.
  - apply index_where_None in Hi. right. split_and!; [|done|done].
    eapply Forall_impl; [done|]. by intros x ?%bool_decide_eq_false.
Qed.

(** An AI document raises an alarm exactly when it is an object whose "type"
    is the string "alarm"; missing texts get the code's defaults; a document
    whose members have the wrong type raises none. *)
Theorem alarm_dispatch `{J : Json} (s : string) (ev : AlarmEvent) :
  dispatch s true = Some (Ret (Some ev)) ↔
  is_object (json_parse s) = true ∧
  value_string (json_parse s) "type" "" = Ret "alarm" ∧
  value_string (json_parse s) "title" "AI Alert" = Ret (ev_title ev) ∧
  value_string (json_parse s) "detail" "Anomaly detected" = Ret (ev_detail ev) ∧
  value_int (json_parse s) "severity" 1 = Ret (ev_severity ev).
Proof.
  unfold dispatch, dispatch_task, mbind, outcome_bind, mret, outcome_ret.
  destruct (is_object (json_parse s)); cbn [negb].
  2:{ split; [done|]. by intros (? & _). }
  destruct (value_string (json_parse s) "type" "") as [ty|e].
  2:{ split; [done|]. by intros (_ & ? & _). }
  destruct (decide (ty = "alarm")) as [->|Hty]; cbn [negb].
  2:{ rewrite bool_decide_false by done. cbn. split; [done|].
      intros (_ & [= ->] & _). done. }
  rewrite bool_decide_true by done. cbn [negb].
  destruct (value_string _ "title" _) as [t|e]; [|split; [done|]; by intros (_ & _ & ? & _)].
  destruct (value_string _ "detail" _) as [d|e]; [|split; [done|]; by intros (_ & _ & _ & ? & _)].
  destruct (value_int _ _ _) as [v|e]; [|split; [done|]; by intros (_ & _ & _ & _ & ?)].
  split; [by intros [= <-]|]. intros (_ & _ & [= ->] & [= ->] & [= ->]). by destruct ev.
Qed.
