(* ===== verification/Protocol.v ===== *)
(** * The wire protocol (src/Src/Network/Protocol.hpp)

    Message types and the packed headers: one type byte, four length bytes in
    the little-endian order of the x64 target ([memcpy] of a [uint32_t]), and
    for UDP image segments three more bytes. *)

From Stdlib Require Export Init.Byte Strings.Byte.
From S2P Require Import Prelude.

(** ** Bytes *)

#[export] Instance byte_eq_decision : EqDecision byte := Byte.byte_eq_dec.

Definition byte_to_Z (b : byte) : Z := Z.of_N (Byte.to_N b).
Definition byte_of_Z (z : Z) : byte :=
  match Byte.of_N (Z.to_N (wrap8 z)) with Some b => b | None => x00 end.

Lemma byte_to_Z_range b : is_u8 (byte_to_Z b).
Proof. unfold is_u8, byte_to_Z. pose proof (Byte.to_N_bounded b). lia. Qed.

Lemma byte_to_of_Z z : byte_to_Z (byte_of_Z z) = wrap8 z.
Proof.
  unfold byte_to_Z, byte_of_Z. pose proof (wrap8_range z) as Hr. unfold is_u8 in Hr.
  destruct (Byte.of_N (Z.to_N (wrap8 z))) as [b|] eqn:Hb.
  - apply Byte.to_of_N in Hb. rewrite Hb. lia.
  - apply Byte.of_N_None_iff in Hb. lia.
Qed.

Lemma byte_of_to_Z b : byte_of_Z (byte_to_Z b) = b.
Proof.
  unfold byte_of_Z. rewrite wrap8_id by apply byte_to_Z_range.
  unfold byte_to_Z. by rewrite N2Z.id, Byte.of_to_N.
Qed.

(** A [uint32_t] as four bytes, least significant first. *)
Definition le32 (z : Z) : list byte :=
  [byte_of_Z z; byte_of_Z (Z.shiftr z 8); byte_of_Z (Z.shiftr z 16);
   byte_of_Z (Z.shiftr z 24)].

Definition le32_decode (l : list byte) : Z :=
  foldr (λ b acc, Z.lor (byte_to_Z b) (Z.shiftl acc 8)) 0%Z l.

Lemma land_u8_shiftl a b : is_u8 a → Z.land a (Z.shiftl b 8) = 0%Z.
Proof.
  intros Ha. apply Z.bits_inj_iff'. intros n Hn. rewrite Z.land_spec, Z.bits_0.
  destruct (Z.ltb_spec n 8) as [Hlt|Hge].
  - rewrite Z.shiftl_spec_low by lia. by rewrite andb_false_r.
  - assert (a = a mod 2 ^ 8)%Z as -> by (symmetry; by apply wrap8_id).
    by rewrite Z.mod_pow2_bits_high by lia.
Qed.

Lemma lor_shiftl_add a b : is_u8 a → Z.lor a (Z.shiftl b 8) = (a + b * 256)%Z.
Proof.
  intros Ha. pose proof (Z.add_lor_land a (Z.shiftl b 8)) as H.
  rewrite land_u8_shiftl in H by done.
  rewrite Z.shiftl_mul_pow2 in H |- * by lia. change (2 ^ 8)%Z with 256%Z in *. lia.
Qed.

Lemma le32_decode_cons b l : le32_decode (b :: l) = (byte_to_Z b + le32_decode l * 256)%Z.
Proof. apply lor_shiftl_add, byte_to_Z_range. Qed.

Lemma le32_roundtrip z : le32_decode (le32 z) = wrap32 z.
Proof.
  unfold le32. rewrite !le32_decode_cons, !byte_to_of_Z. unfold wrap8, wrap32.
  cbn [le32_decode foldr]. rewrite !Z.shiftr_div_pow2 by lia.
  change (2 ^ 8)%Z with 256%Z. change (2 ^ 16)%Z with (256 * 256)%Z.
  change (2 ^ 24)%Z with (256 * 256 * 256)%Z.
  change (2 ^ 32)%Z with (256 * 256 * 256 * 256)%Z.
  rewrite <-!Z.div_div by lia. Z.div_mod_to_equations. lia.
Qed.

Lemma le32_decode_range b0 b1 b2 b3 : is_u32 (le32_decode [b0; b1; b2; b3]).
Proof.
  rewrite !le32_decode_cons. cbn [le32_decode foldr].
  pose proof (byte_to_Z_range b0). pose proof (byte_to_Z_range b1).
  pose proof (byte_to_Z_range b2). pose proof (byte_to_Z_range b3).
  unfold is_u8, is_u32 in *. lia.
Qed.

(** ** Message types *)

Inductive MessageType : Type :=
| LOGIN | SUCCESS | FAIL | DEVICE | AVAILABLE | AI | CAMERA | ASSIGN | META | IMAGE
| TLS_HANDSHAKE.

#[export] Instance MessageType_eq_dec : EqDecision MessageType.
Proof. solve_decision. Defined.

Definition mt_value (t : MessageType) : Z :=
  match t with
  | LOGIN => 1 | SUCCESS => 2 | FAIL => 3 | DEVICE => 4 | AVAILABLE => 5 | AI => 6
  | CAMERA => 7 | ASSIGN => 8 | META => 9 | IMAGE => 10 | TLS_HANDSHAKE => 11
  end.

(** [static_cast<MessageType>(v)], with the values outside the enumerators as
    [None]. *)
Definition mt_of_value (v : Z) : option MessageType :=
  match v with
  | 1 => Some LOGIN | 2 => Some SUCCESS | 3 => Some FAIL | 4 => Some DEVICE
  | 5 => Some AVAILABLE | 6 => Some AI | 7 => Some CAMERA | 8 => Some ASSIGN
  | 9 => Some META | 10 => Some IMAGE | 11 => Some TLS_HANDSHAKE | _ => None
  end%Z.

Lemma mt_of_value_value t : mt_of_value (mt_value t) = Some t.
Proof. by destruct t. Qed.

Lemma mt_of_value_Some v t : mt_of_value v = Some t → v = mt_value t.
Proof.
  unfold mt_of_value. intros H. destruct v as [|p|p]; [done| |done].
  do 4 (destruct p as [p|p|]; simplify_eq/=; try done).
Qed.

(** ** Messages and headers *)

Record Message : Type := {
  msg_type : Z;               (* uint8_t *)
  msg_length : Z;             (* uint32_t *)
  msg_payload : list byte
}.

Record ImageHeader : Type := {
  ih_type : Z;                (* PacketHeader::type *)
  ih_length : Z;              (* PacketHeader::length *)
  FrameNumber : Z;
  SequenceNumber : Z;
  MaxSequenceNumber : Z
}.

Definition sizeof_PacketHeader : nat := 5.
Definition sizeof_ImageHeader : nat := 8.

(** The packed bytes of a header. *)
Definition packet_header (type length : Z) : list byte := byte_of_Z type :: le32 length.

Definition image_header (h : ImageHeader) : list byte :=
  packet_header (ih_type h) (ih_length h) ++
  [byte_of_Z (FrameNumber h); byte_of_Z (SequenceNumber h); byte_of_Z (MaxSequenceNumber h)].

(** Reading a header from the start of a buffer (the reinterpret_cast). *)
Definition read_packet_header (buf : list byte) : option (Z * Z) :=
  match buf with
  | t :: b0 :: b1 :: b2 :: b3 :: _ => Some (byte_to_Z t, le32_decode [b0; b1; b2; b3])
  | _ => None
  end.

Definition read_image_header (buf : list byte) : option ImageHeader :=
  match buf with
  | t :: b0 :: b1 :: b2 :: b3 :: f :: s :: m :: _ =>
      Some {| ih_type := byte_to_Z t; ih_length := le32_decode [b0; b1; b2; b3];
              FrameNumber := byte_to_Z f; SequenceNumber := byte_to_Z s;
              MaxSequenceNumber := byte_to_Z m |}
  | _ => None
  end.

Lemma length_packet_header t n : length (packet_header t n) = 5.
Proof. done. Qed.

Lemma read_packet_header_app t n rest :
  read_packet_header (packet_header t n ++ rest) = Some (wrap8 t, wrap32 n).
Proof. cbn. rewrite byte_to_of_Z. do 2 f_equal. apply le32_roundtrip. Qed.

Lemma read_image_header_app h rest :
  is_u8 (ih_type h) → is_u32 (ih_length h) → is_u8 (FrameNumber h) →
  is_u8 (SequenceNumber h) → is_u8 (MaxSequenceNumber h) →
  read_image_header (image_header h ++ rest) = Some h.
Proof.
  destruct h as [t n f s m]. intros Ht Hn Hf Hs Hm. cbn in Ht, Hn, Hf, Hs, Hm.
  unfold read_image_header.
  change (Some {| ih_type := byte_to_Z (byte_of_Z t); ih_length := le32_decode (le32 n);
                  FrameNumber := byte_to_Z (byte_of_Z f);
                  SequenceNumber := byte_to_Z (byte_of_Z s);
                  MaxSequenceNumber := byte_to_Z (byte_of_Z m) |}
          = Some {| ih_type := t; ih_length := n; FrameNumber := f;
                    SequenceNumber := s; MaxSequenceNumber := m |}).
  by rewrite le32_roundtrip, !byte_to_of_Z, !wrap8_id, wrap32_id by done.
Qed.
