(* ===== verification/Crypt.v ===== *)
(** * The security layer (src/Src/Crypt)

    [TLS.hpp], [DTLS.hpp] and [MediaDTLS.hpp] wrap an OpenSSL session around two
    memory BIOs.  OpenSSL itself is not under src/: class [OpenSSL] lists the
    calls the wrappers make and [OpenSSLLaws] the documented behaviour they rely
    on.  Each wrapper is a Module with one definition per method.  The class
    [SecureSession] is what the network layer uses of a wrapper; the instances at
    the end discharge its laws for [MediaDTLS] and [TLS]. *)

From S2P Require Import Prelude Protocol.

(** ** OpenSSL

    An [SSL] value is the SSL object together with its read and write BIO, which
    it owns after [SSL_set_bio].  [SSL_read] gives the bytes put in the buffer,
    none when it returns a value [<= 0]. *)
Class OpenSSL : Type := {
  SSL_CTX : Type;
  SSL : Type;
  SSL_new : option SSL_CTX → option SSL;
  SSL_set_bio : SSL → SSL;
  SSL_set_accept_state : SSL → SSL;
  SSL_set_connect_state : SSL → SSL;
  DTLS_set_link_mtu : SSL → Z → SSL;
  SSL_is_init_finished : SSL → bool;
  SSL_do_handshake : SSL → Z * SSL;
  SSL_read : SSL → nat → list byte * SSL;
  SSL_write : SSL → list byte → Z * SSL;
  SSL_current_cipher : SSL → option string;
  readBio_write : SSL → list byte → Z * SSL;  (* BIO_write(readBio, ...) *)
  writeBio_pending : SSL → nat;               (* BIO_pending(writeBio) *)
  writeBio_read : SSL → nat → list byte * SSL (* BIO_read(writeBio, ...) *)
}.

(** [unread] is the decrypted application data not yet read, [outgoing] the
    content of the write BIO.  The laws are those of sessions without
    renegotiation. *)
Class OpenSSLLaws (O : OpenSSL) : Type := {
  unread : SSL → list byte;
  outgoing : SSL → list byte;
  SSL_read_spec s n bs s' :
    SSL_is_init_finished s = true → 0 < n → SSL_read s n = (bs, s') →
    unread s = bs ++ unread s' ∧ (bs = [] → unread s = []) ∧
    (bs ≠ [] → SSL_is_init_finished s' = true);
  writeBio_pending_spec s : writeBio_pending s = length (outgoing s);
  writeBio_read_spec s n :
    (writeBio_read s n).1 = take n (outgoing s) ∧
    outgoing (writeBio_read s n).2 = drop n (outgoing s) ∧
    unread (writeBio_read s n).2 = unread s ∧
    SSL_is_init_finished (writeBio_read s n).2 = SSL_is_init_finished s;
  readBio_write_finished s b :
    SSL_is_init_finished (readBio_write s b).2 = SSL_is_init_finished s;
  SSL_write_finished s b :
    SSL_is_init_finished s = true → SSL_is_init_finished (SSL_write s b).2 = true
}.

(** No read is a fatal failure, after which the library is no longer ready: so with
    DTLS, which discards a record it cannot read; with TLS as long as no record is
    rejected. *)
Class OpenSSLStays (O : OpenSSL) : Prop := {
  SSL_read_finished s n : SSL_is_init_finished s = true → SSL_is_init_finished (SSL_read s n).2 = true
}.

(** ** Contexts: the configuration calls made on an [SSL_CTX]. *)
Inductive ctx_method : Type := TLS_server | TLS_client | DTLS_server | DTLS_client.

Inductive ctx_call : Type :=
| SSL_CTX_set_ciphersuites (l : string)
| SSL_CTX_set_cipher_list (l : string)
| SSL_CTX_use_certificate_file (f : string)
| SSL_CTX_use_PrivateKey_file (f : string)
| SSL_CTX_check_private_key
| SSL_CTX_set_verify (peer fail_if_no_cert : bool)
| SSL_CTX_load_verify_locations (f : string)
| SSL_CTX_set_cookie_cbs
| SSL_CTX_set_options_COOKIE_EXCHANGE.

(** [if (f) call(f)] for a nullable file name. *)
Definition on_file (f : option string) (call : string → ctx_call) : list ctx_call :=
  match f with Some x => [call x] | None => [] end.

Definition check_key (certfile keyfile : option string) : list ctx_call :=
  match certfile, keyfile with Some _, Some _ => [SSL_CTX_check_private_key] | _, _ => [] end.

Definition verify_calls (fail_if_no_cert : bool) (cafile : option string) : list ctx_call :=
  match cafile with
  | Some f => [SSL_CTX_set_verify true fail_if_no_cert; SSL_CTX_load_verify_locations f]
  | None => [SSL_CTX_set_verify false false]
  end.

(** The verification mode in force after the calls: the last one set;
    [SSL_VERIFY_NONE] initially. *)
Definition verify_mode (l : list ctx_call) : bool * bool :=
  foldl (λ m c, match c with SSL_CTX_set_verify p f => (p, f) | _ => m end) (false, false) l.

Definition trusted_ca (l : list ctx_call) : list string :=
  omap (λ c, match c with SSL_CTX_load_verify_locations f => Some f | _ => None end) l.

Definition BufferSize : nat := Nat.pow 2 12.
#[global] Arguments BufferSize : simpl never.

Lemma BufferSize_pos : 0 < BufferSize.
Proof. apply Nat.ltb_lt. vm_compute. reflexivity. Qed.

(** ** TLS.hpp *)
Module TLS.
Definition ServerContext (m_ok : bool) (certfile keyfile cafile : option string)
    : option (ctx_method * list ctx_call) :=
  if m_ok then
    Some (TLS_server,
          on_file certfile SSL_CTX_use_certificate_file ++
          on_file keyfile SSL_CTX_use_PrivateKey_file ++
          check_key certfile keyfile ++ verify_calls true cafile)
  else None.

Definition ClientContext (m_ok : bool) (certfile keyfile cafile : option string)
    : option (ctx_method * list ctx_call) :=
  if m_ok then
    Some (TLS_client,
          on_file certfile SSL_CTX_use_certificate_file ++
          on_file keyfile SSL_CTX_use_PrivateKey_file ++
          check_key certfile keyfile ++ verify_calls false cafile)
  else None.

Section session.
Context `{O : OpenSSL}.

(** [ssl], with the BIO pointers null exactly when it is. *)
Record Session : Type := { ssl : option SSL }.

Definition cleanup (s : Session) : Session := {| ssl := None |}.

Definition flushWriteBio (ssl : SSL) : list byte * SSL :=
  let pending := writeBio_pending ssl in
  if decide (0 < pending) then writeBio_read ssl pending else ([], ssl).

(** [bio_ok] says whether each [BIO_new] succeeded. *)
Definition Session_ctor (ctx : option SSL_CTX) (isServer : bool) (bio_ok : bool * bool)
    : Session :=
  match ctx with
  | None => {| ssl := None |}
  | Some _ =>
      match SSL_new ctx with
      | None => {| ssl := None |}
      | Some s =>
          if bio_ok.1 && bio_ok.2 then
            let s := SSL_set_bio s in
            {| ssl := Some (if isServer then SSL_set_accept_state s
                            else SSL_set_connect_state s) |}
          else {| ssl := None |}
      end
  end.

(** Move construction: the new session and what is left of [other]. *)
Definition move_ctor (other : Session) : Session * Session :=
  ({| ssl := ssl other |}, {| ssl := None |}).

Definition move_assign (this other : Session) : Session * Session :=
  let _ := cleanup this in ({| ssl := ssl other |}, {| ssl := None |}).

Definition isValid (s : Session) : bool := bool_decide (is_Some (ssl s)).

Definition isHandshakeDone (s : Session) : bool :=
  match ssl s with Some p => SSL_is_init_finished p | None => false end.

Definition Handshake (s : Session) : list byte * Session :=
  match ssl s with
  | None => ([], s)
  | Some p =>
      let p := if SSL_is_init_finished p then p else (SSL_do_handshake p).2 in
      let '(out, p) := flushWriteBio p in (out, {| ssl := Some p |})
  end.

(** [while (true) { int n = SSL_read(...); if (n > 0) append else break; }] *)
Fixpoint read_loop (fuel : nat) (p : SSL) (plainText : list byte)
    : option (list byte * SSL) :=
  match fuel with
  | 0 => None
  | S fuel =>
      match SSL_read p BufferSize with
      | ([], p') => Some (plainText, p')
      | (bs, p') => read_loop fuel p' (plainText ++ bs)
      end
  end.

Definition decrypt (fuel : nat) (s : Session) (buffer : list byte)
    : option (list byte * Session) :=
  match ssl s with
  | None => Some ([], s)
  | Some p =>
      let '(written, p) := readBio_write p buffer in
      if (written <=? 0)%Z then Some ([], {| ssl := Some p |})
      else
        let p := if SSL_is_init_finished p then p else (SSL_do_handshake p).2 in
        if SSL_is_init_finished p then
          '(plain, p) ← read_loop fuel p []; Some (plain, {| ssl := Some p |})
        else Some ([], {| ssl := Some p |})
  end.

Definition encrypt (s : Session) (buffer : list byte) : list byte * Session :=
  match ssl s with
  | None => ([], s)
  | Some p =>
      if SSL_is_init_finished p then
        let '(written, p) := SSL_write p buffer in
        if (written <=? 0)%Z then ([], {| ssl := Some p |})
        else let '(out, p) := flushWriteBio p in (out, {| ssl := Some p |})
      else ([], s)
  end.

Definition getHandshakeData (s : Session) : list byte * Session :=
  match ssl s with
  | None => ([], s)
  | Some p => let '(out, p) := flushWriteBio p in (out, {| ssl := Some p |})
  end.
End session.
End TLS.

(** ** DTLS.hpp *)
Module DTLS.
(** [HMAC(EVP_sha256(), key, msg)] is OpenSSL's. *)
Section cookie.
Context (HMAC_sha256 : list byte → list byte → list byte).
Context (SecretCookie : list byte).

Definition GenerateCookieWithPeer (peer : list byte) : Z * list byte :=
  (1%Z, HMAC_sha256 SecretCookie peer).

Definition VerifyCookieWithPeer (peer cookie : list byte) : Z :=
  let result := HMAC_sha256 SecretCookie peer in
  if decide (length cookie = length result ∧ cookie = result) then 1%Z else 0%Z.
End cookie.

(** [SecretCookie] and [cookie_flag], initialised once from [RAND_bytes]
    ([None] when it fails). *)
Record cookie_state : Type := { SecretCookie : list byte; cookie_flag : bool }.

Definition cookie_initial : cookie_state :=
  {| SecretCookie := replicate 32 x00; cookie_flag := false |}.

Definition InitCookie (rand : option (list byte)) (c : cookie_state) : cookie_state :=
  if cookie_flag c then c
  else {| SecretCookie := default (SecretCookie c) rand; cookie_flag := true |}.

Definition ServerContext (m_ok : bool) (certfile keyfile cafile : option string)
    : option (ctx_method * list ctx_call) :=
  if m_ok then
    Some (DTLS_server,
          on_file certfile SSL_CTX_use_certificate_file ++
          on_file keyfile SSL_CTX_use_PrivateKey_file ++
          check_key certfile keyfile ++ verify_calls true cafile ++
          [SSL_CTX_set_cookie_cbs; SSL_CTX_set_options_COOKIE_EXCHANGE])
  else None.

Definition ClientContext (m_ok : bool) (certfile keyfile cafile : option string)
    : option (ctx_method * list ctx_call) :=
  if m_ok then
    Some (DTLS_client,
          on_file certfile SSL_CTX_use_certificate_file ++
          on_file keyfile SSL_CTX_use_PrivateKey_file ++
          check_key certfile keyfile ++ verify_calls false cafile)
  else None.

Definition getCID (data : list byte) : list byte :=
  if decide (length data < 8) then [] else take 8 data.

Section session.
Context `{O : OpenSSL} (HMAC_sha256 : list byte → list byte → list byte).

Record Session : Type := { ssl : option SSL; peer : list byte }.

(** The context callbacks: the session's [peer] is not consulted. *)
Definition GenerateCookie (key : list byte) (s : Session) : Z * list byte :=
  GenerateCookieWithPeer HMAC_sha256 key [].

Definition VerifyCookie (key : list byte) (s : Session) (cookie : list byte) : Z :=
  VerifyCookieWithPeer HMAC_sha256 key [] cookie.

Definition flushWriteBio (ssl : SSL) : list byte * SSL :=
  let pending := writeBio_pending ssl in
  if decide (0 < pending) then writeBio_read ssl pending else ([], ssl).

Definition Session_ctor (ctx : option SSL_CTX) (isServer : bool)
    (peerIdent : list byte) (bio_ok : bool * bool) : Session :=
  match ctx with
  | None => {| ssl := None; peer := peerIdent |}
  | Some _ =>
      match SSL_new ctx with
      | None => {| ssl := None; peer := peerIdent |}
      | Some s =>
          let s := if isServer then SSL_set_accept_state s else SSL_set_connect_state s in
          if bio_ok.1 && bio_ok.2
          then {| ssl := Some (SSL_set_bio s); peer := peerIdent |}
          else {| ssl := None; peer := peerIdent |}
      end
  end.

(** A moved-from vector is empty on the implementations in use. *)
Definition move_ctor (other : Session) : Session * Session :=
  ({| ssl := ssl other; peer := peer other |}, {| ssl := None; peer := [] |}).

Definition cleanup (s : Session) : Session := {| ssl := None; peer := peer s |}.

Definition move_assign (this other : Session) : Session * Session :=
  let _ := cleanup this in
  ({| ssl := ssl other; peer := peer other |}, {| ssl := None; peer := [] |}).

Definition setPeer (s : Session) (peerIdent : list byte) : Session :=
  {| ssl := ssl s; peer := peerIdent |}.

Definition isHandshakeDone (s : Session) : bool :=
  match ssl s with Some p => SSL_is_init_finished p | None => false end.

Definition Handshake (s : Session) : list byte * Session :=
  match ssl s with
  | None => ([], s)
  | Some p =>
      let p := if SSL_is_init_finished p then p else (SSL_do_handshake p).2 in
      let '(out, p) := flushWriteBio p in (out, {| ssl := Some p; peer := peer s |})
  end.

Fixpoint read_loop (fuel : nat) (p : SSL) (plainText : list byte)
    : option (list byte * SSL) :=
  match fuel with
  | 0 => None
  | S fuel =>
      match SSL_read p BufferSize with
      | ([], p') => Some (plainText, p')
      | (bs, p') => read_loop fuel p' (plainText ++ bs)
      end
  end.

Definition decrypt (fuel : nat) (s : Session) (buffer : list byte)
    : option (list byte * Session) :=
  match ssl s with
  | None => Some ([], s)
  | Some p =>
      let '(written, p) := readBio_write p buffer in
      if (written <=? 0)%Z then Some ([], {| ssl := Some p; peer := peer s |})
      else
        let p := if SSL_is_init_finished p then p else (SSL_do_handshake p).2 in
        if SSL_is_init_finished p then
          '(plain, p) ← read_loop fuel p []; Some (plain, {| ssl := Some p; peer := peer s |})
        else Some ([], {| ssl := Some p; peer := peer s |})
  end.

Definition encrypt (s : Session) (buffer : list byte) : list byte * Session :=
  match ssl s with
  | None => ([], s)
  | Some p =>
      if SSL_is_init_finished p then
        let '(written, p) := SSL_write p buffer in
        if (written <=? 0)%Z then ([], {| ssl := Some p; peer := peer s |})
        else let '(out, p) := flushWriteBio p in
             (out, {| ssl := Some p; peer := peer s |})
      else ([], s)
  end.

Definition getHandshakeData (s : Session) : list byte * Session :=
  match ssl s with
  | None => ([], s)
  | Some p =>
      let '(out, p) := flushWriteBio p in (out, {| ssl := Some p; peer := peer s |})
  end.
End session.
End DTLS.

(** ** MediaDTLS.hpp *)
Module MediaDTLS.
Definition applyCipherSuites : list ctx_call :=
  [SSL_CTX_set_ciphersuites
     ("TLS_AES_256_GCM_SHA384:" +:+ "TLS_CHACHA20_POLY1305_SHA256:" +:+
      "TLS_AES_128_GCM_SHA256");
   SSL_CTX_set_cipher_list
     ("ECDHE-ECDSA-AES256-GCM-SHA384:ECDHE-RSA-AES256-GCM-SHA384:" +:+
      "ECDHE-ECDSA-CHACHA20-POLY1305:ECDHE-RSA-CHACHA20-POLY1305:" +:+
      "ECDHE-ECDSA-AES128-GCM-SHA256:ECDHE-RSA-AES128-GCM-SHA256")].

Definition ServerContext (m_ok : bool) (certfile keyfile cafile : option string)
    : option (ctx_method * list ctx_call) :=
  if m_ok then
    Some (DTLS_server,
          applyCipherSuites ++
          on_file certfile SSL_CTX_use_certificate_file ++
          on_file keyfile SSL_CTX_use_PrivateKey_file ++ verify_calls true cafile)
  else None.

Definition ClientContext (m_ok : bool) (certfile keyfile cafile : option string)
    : option (ctx_method * list ctx_call) :=
  if m_ok then
    Some (DTLS_client,
          applyCipherSuites ++
          on_file certfile SSL_CTX_use_certificate_file ++
          on_file keyfile SSL_CTX_use_PrivateKey_file ++ verify_calls false cafile)
  else None.

Section session.
Context `{O : OpenSSL}.

Record Session : Type := { ssl : option SSL }.

Definition Session_ctor (ctx : option SSL_CTX) (isServer : bool) : Session :=
  match SSL_new ctx with
  | None => {| ssl := None |}
  | Some s =>
      let s := DTLS_set_link_mtu (SSL_set_bio s) 1200 in
      {| ssl := Some (if isServer then SSL_set_accept_state s
                      else SSL_set_connect_state s) |}
  end.

Definition move_ctor (other : Session) : Session * Session :=
  ({| ssl := ssl other |}, {| ssl := None |}).

Definition cleanup (s : Session) : Session := {| ssl := None |}.

Definition move_assign (this other : Session) : Session * Session :=
  let _ := cleanup this in ({| ssl := ssl other |}, {| ssl := None |}).

Definition isHandshakeDone (s : Session) : bool :=
  match ssl s with Some p => SSL_is_init_finished p | None => false end.

Definition getNegotiatedCipher (s : Session) : string :=
  match ssl s with
  | Some p =>
      if SSL_is_init_finished p then default "Unknown" (SSL_current_cipher p)
      else "Not Negotiated Yet"
  | None => "Not Negotiated Yet"
  end.

Definition flushWriteBio (ssl : SSL) : list byte * SSL :=
  let pending := writeBio_pending ssl in
  if decide (0 < pending) then writeBio_read ssl pending else ([], ssl).

Definition Handshake (s : Session) (incoming : list byte) : list byte * Session :=
  match ssl s with
  | None => ([], s)
  | Some p =>
      let p := if decide (incoming = []) then p else (readBio_write p incoming).2 in
      let p := if SSL_is_init_finished p then p else (SSL_do_handshake p).2 in
      let '(out, p) := flushWriteBio p in (out, {| ssl := Some p |})
  end.

Definition encrypt (s : Session) (buffer : list byte) : list byte * Session :=
  match ssl s with
  | None => ([], s)
  | Some p =>
      if SSL_is_init_finished p && bool_decide (buffer ≠ []) then
        let p := (SSL_write p buffer).2 in
        let '(out, p) := flushWriteBio p in (out, {| ssl := Some p |})
      else ([], s)
  end.

Fixpoint read_loop (fuel : nat) (p : SSL) (plainText : list byte)
    : option (list byte * SSL) :=
  match fuel with
  | 0 => None
  | S fuel =>
      match SSL_read p BufferSize with
      | ([], p') => Some (plainText, p')
      | (bs, p') => read_loop fuel p' (plainText ++ bs)
      end
  end.

Definition decrypt (fuel : nat) (s : Session) (buffer : list byte)
    : option (list byte * Session) :=
  match ssl s with
  | None => Some ([], s)
  | Some p =>
      if decide (buffer = []) then Some ([], s)
      else
        let p := (readBio_write p buffer).2 in
        let p := if SSL_is_init_finished p then p else (SSL_do_handshake p).2 in
        if SSL_is_init_finished p then
          '(plain, p) ← read_loop fuel p []; Some (plain, {| ssl := Some p |})
        else Some ([], {| ssl := Some p |})
  end.
End session.
End MediaDTLS.

(** ** What the network layer uses of a session *)

(** One decryption call is total: [dec] is [decrypt] run with enough fuel. *)
Class SecureSession (S : Type) : Type := {
  sec_done : S → bool;
  sec_handshake : S → list byte → list byte * S;
  sec_decrypt : S → list byte → list byte * S;
  sec_encrypt : S → list byte → list byte * S
}.

(** A session keeps its finished handshake, and produces no application data
    and no ciphertext before it.  The first law is that of a session whose reads do
    not fail fatally ([OpenSSLStays]). *)
Class SecureLaws (S : Type) `{SecureSession S} : Prop := {
  sec_decrypt_done s b : sec_done s = true → sec_done (sec_decrypt s b).2 = true;
  sec_encrypt_done s b : sec_done s = true → sec_done (sec_encrypt s b).2 = true;
  sec_handshake_done s b : sec_done s = true → sec_done (sec_handshake s b).2 = true;
  sec_decrypt_plain s b : (sec_decrypt s b).1 ≠ [] → sec_done (sec_decrypt s b).2 = true;
  sec_encrypt_early s b : sec_done s = false → sec_encrypt s b = ([], s)
}.

Section openssl_laws.
Context `{O : OpenSSL, L : !OpenSSLLaws O}.

(** The three read loops have the same body, so one lemma serves them. *)
Lemma read_loop_all fuel p acc :
  SSL_is_init_finished p = true → length (unread p) < fuel →
  ∃ p', MediaDTLS.read_loop fuel p acc = Some (acc ++ unread p, p') ∧
        unread p' = [] ∧ (OpenSSLStays O → SSL_is_init_finished p' = true).
Proof.
  revert p acc. induction fuel as [|fuel IH]; intros p acc Hfin Hlen; [lia|].
  cbn [MediaDTLS.read_loop]. destruct (SSL_read p BufferSize) as [bs p'] eqn:Hr.
  destruct (SSL_read_spec _ _ _ _ Hfin BufferSize_pos Hr) as (Hun & Hnil & Hfin').
  destruct bs as [|b bs].
  - specialize (Hnil eq_refl). rewrite Hnil in Hun. cbn in Hun.
    exists p'. rewrite Hnil, app_nil_r. split_and!; [done|done|]. intros HS.
    pose proof (SSL_read_finished p BufferSize Hfin) as Hs. by rewrite Hr in Hs.
  - rewrite Hun in Hlen. rewrite length_app in Hlen. cbn in Hlen.
    destruct (IH p' (acc ++ b :: bs) (Hfin' ltac:(done)) ltac:(lia)) as (p2 & Hp2 & H2).
    exists p2. split; [|done]. by rewrite Hp2, Hun, <-app_assoc.
Qed.

Lemma read_loop_fuel fuel fuel' p acc r :
  MediaDTLS.read_loop fuel p acc = Some r → fuel ≤ fuel' →
  MediaDTLS.read_loop fuel' p acc = Some r.
Proof.
  revert fuel' p acc. induction fuel as [|fuel IH]; intros [|fuel'] p acc H Hle; try done.
  - lia.
  - cbn in *. destruct (SSL_read p BufferSize) as [[|b bs] p']; [done|].
    apply IH; [done|lia].
Qed.

(** The session once the received bytes are in the read BIO and a pending
    handshake has been advanced. *)
Definition advance (p : SSL) (b : list byte) : SSL :=
  let p := (readBio_write p b).2 in
  if SSL_is_init_finished p then p else (SSL_do_handshake p).2.

Lemma advance_finished p b :
  SSL_is_init_finished p = true → SSL_is_init_finished (advance p b) = true.
Proof. intros H. unfold advance. by rewrite !readBio_write_finished, H, ?readBio_write_finished. Qed.

Lemma mediadtls_decrypt_eq fuel p b :
  b ≠ [] → length (unread (advance p b)) < fuel →
  ∃ p', MediaDTLS.decrypt fuel {| MediaDTLS.ssl := Some p |} b
        = Some (if SSL_is_init_finished (advance p b) then unread (advance p b) else [],
                {| MediaDTLS.ssl := Some p' |}) ∧
        (OpenSSLStays O → SSL_is_init_finished p' = SSL_is_init_finished (advance p b)) ∧
        (SSL_is_init_finished (advance p b) = true → unread p' = []).
Proof.
  intros Hb Hf. unfold MediaDTLS.decrypt. cbn [MediaDTLS.ssl]. rewrite decide_False by done.
  fold (advance p b). destruct (SSL_is_init_finished (advance p b)) eqn:Hq.
  - destruct (read_loop_all fuel (advance p b) [] Hq Hf) as (p' & -> & Hu & Hp'). by exists p'.
  - by exists (advance p b).
Qed.

Lemma tls_decrypt_eq fuel p b :
  (0 < (readBio_write p b).1)%Z → length (unread (advance p b)) < fuel →
  ∃ p', TLS.decrypt fuel {| TLS.ssl := Some p |} b
        = Some (if SSL_is_init_finished (advance p b) then unread (advance p b) else [],
                {| TLS.ssl := Some p' |}) ∧
        (OpenSSLStays O → SSL_is_init_finished p' = SSL_is_init_finished (advance p b)) ∧
        (SSL_is_init_finished (advance p b) = true → unread p' = []).
Proof.
  intros Hw Hf. unfold TLS.decrypt. cbn [TLS.ssl]. unfold advance in *.
  destruct (readBio_write p b) as [w q]. cbn [fst snd] in *.
  replace (w <=? 0)%Z with false by lia.
  set (r := if SSL_is_init_finished q then _ else _) in *.
  destruct (SSL_is_init_finished r) eqn:Hr.
  - destruct (read_loop_all fuel r [] Hr Hf) as (p' & Hl & Hu & Hp'). exists p'.
    change (@TLS.read_loop O) with (@MediaDTLS.read_loop O). by rewrite Hl.
  - by exists r.
Qed.

Lemma dtls_decrypt_eq fuel p peer b :
  (0 < (readBio_write p b).1)%Z → length (unread (advance p b)) < fuel →
  ∃ p', DTLS.decrypt fuel {| DTLS.ssl := Some p; DTLS.peer := peer |} b
        = Some (if SSL_is_init_finished (advance p b) then unread (advance p b) else [],
                {| DTLS.ssl := Some p'; DTLS.peer := peer |}) ∧
        (OpenSSLStays O → SSL_is_init_finished p' = SSL_is_init_finished (advance p b)) ∧
        (SSL_is_init_finished (advance p b) = true → unread p' = []).
Proof.
  intros Hw Hf. unfold DTLS.decrypt. cbn [DTLS.ssl DTLS.peer]. unfold advance in *.
  destruct (readBio_write p b) as [w q]. cbn [fst snd] in *.
  replace (w <=? 0)%Z with false by lia.
  set (r := if SSL_is_init_finished q then _ else _) in *.
  destruct (SSL_is_init_finished r) eqn:Hr.
  - destruct (read_loop_all fuel r [] Hr Hf) as (p' & Hl & Hu & Hp'). exists p'.
    change (@DTLS.read_loop O) with (@MediaDTLS.read_loop O). by rewrite Hl.
  - by exists r.
Qed.

(** The write BIO is emptied and returned whole. *)
Lemma flush_all p :
  (MediaDTLS.flushWriteBio p).1 = outgoing p ∧
  outgoing (MediaDTLS.flushWriteBio p).2 = [] ∧
  unread (MediaDTLS.flushWriteBio p).2 = unread p ∧
  SSL_is_init_finished (MediaDTLS.flushWriteBio p).2 = SSL_is_init_finished p.
Proof.
  unfold MediaDTLS.flushWriteBio. rewrite writeBio_pending_spec.
  case_decide as Hpos.
  - destruct (writeBio_read_spec p (length (outgoing p))) as (-> & -> & -> & ->).
    by rewrite firstn_all, drop_all.
  - cbn. destruct (outgoing p); [done|]. cbn in Hpos. lia.
Qed.
End openssl_laws.

(** The fuel of one call: more than the data there is to read. *)
Definition read_fuel `{O : OpenSSL, L : !OpenSSLLaws O} (o : option SSL) (b : list byte) : nat :=
  match o with Some p => S (length (unread (advance p b))) | None => 0 end.

#[export] Instance MediaDTLS_secure `{O : OpenSSL, L : !OpenSSLLaws O}
    : SecureSession MediaDTLS.Session := {|
  sec_done := MediaDTLS.isHandshakeDone;
  sec_handshake := MediaDTLS.Handshake;
  sec_encrypt := MediaDTLS.encrypt;
  sec_decrypt s b := default ([], s) (MediaDTLS.decrypt (read_fuel (MediaDTLS.ssl s) b) s b)
|}.

#[export] Instance TLS_secure `{O : OpenSSL, L : !OpenSSLLaws O}
    : SecureSession TLS.Session := {|
  sec_done := TLS.isHandshakeDone;
  sec_handshake s _ := TLS.Handshake s;
  sec_encrypt := TLS.encrypt;
  sec_decrypt s b := default ([], s) (TLS.decrypt (read_fuel (TLS.ssl s) b) s b)
|}.

Section secure_laws.
Context `{O : OpenSSL, L : !OpenSSLLaws O, HS : !OpenSSLStays O}.

Lemma flush_done p :
  SSL_is_init_finished p = true →
  SSL_is_init_finished (MediaDTLS.flushWriteBio p).2 = true.
Proof. intros H. by destruct (flush_all p) as (_ & _ & _ & ->). Qed.

Lemma tls_write_failed fuel p b :
  ¬ (0 < (readBio_write p b).1)%Z →
  TLS.decrypt fuel {| TLS.ssl := Some p |} b
  = Some ([], {| TLS.ssl := Some (readBio_write p b).2 |}).
Proof.
  intros Hw. unfold TLS.decrypt. cbn [TLS.ssl].
  destruct (readBio_write p b) as [w q]. cbn [fst snd] in *.
  by replace (w <=? 0)%Z with true by lia.
Qed.

#[export] Instance MediaDTLS_laws : SecureLaws MediaDTLS.Session.
Proof.
  split; intros [[p|]] b H; try done.
  - cbn [sec_done sec_decrypt MediaDTLS_secure MediaDTLS.ssl read_fuel] in *.
    destruct (decide (b = [])) as [->|Hb]; [done|].
    destruct (mediadtls_decrypt_eq _ p b Hb (Nat.lt_succ_diag_r _)) as (p' & -> & Hf & _). specialize (Hf HS).
    cbn in *. by rewrite Hf, advance_finished.
  - cbn in H |- *. unfold MediaDTLS.encrypt. cbn. rewrite H. case_bool_decide; cbn; [|done].
    pose proof (flush_done (SSL_write p b).2 (SSL_write_finished _ _ H)) as Hf.
    by destruct (MediaDTLS.flushWriteBio (SSL_write p b).2).
  - cbn in H |- *. unfold MediaDTLS.Handshake. cbn.
    set (q := if decide (b = []) then p else (readBio_write p b).2).
    assert (SSL_is_init_finished q = true) as Hq.
    { unfold q. case_decide; [done|]. by rewrite readBio_write_finished. }
    rewrite Hq. pose proof (flush_done q Hq) as Hf.
    by destruct (MediaDTLS.flushWriteBio q).
  - cbn [sec_done sec_decrypt MediaDTLS_secure MediaDTLS.ssl read_fuel] in *.
    destruct (decide (b = [])) as [->|Hb]; [done|].
    destruct (mediadtls_decrypt_eq _ p b Hb (Nat.lt_succ_diag_r _)) as (p' & Hd & Hf & _). specialize (Hf HS).
    rewrite Hd in *. cbn in *. by destruct (SSL_is_init_finished (advance p b)).
  - cbn in H |- *. unfold MediaDTLS.encrypt. cbn. by rewrite H.
Qed.

#[export] Instance TLS_laws : SecureLaws TLS.Session.
Proof.
  split; intros [[p|]] b H; try done.
  - cbn [sec_done sec_decrypt TLS_secure TLS.ssl read_fuel] in *.
    destruct (decide (0 < (readBio_write p b).1)%Z) as [Hw|Hw].
    + destruct (tls_decrypt_eq _ p b Hw (Nat.lt_succ_diag_r _)) as (p' & -> & Hf & _). specialize (Hf HS).
      cbn in *. by rewrite Hf, advance_finished.
    + rewrite tls_write_failed by done. cbn in *. by rewrite readBio_write_finished.
  - cbn in H |- *. unfold TLS.encrypt. cbn. rewrite H.
    pose proof (SSL_write_finished _ b H) as Hq.
    destruct (SSL_write p b) as [w q]. cbn in Hq. case_match; [done|].
    change (@TLS.flushWriteBio O) with (@MediaDTLS.flushWriteBio O).
    pose proof (flush_done q Hq). by destruct (MediaDTLS.flushWriteBio q).
  - cbn in H |- *. unfold TLS.Handshake. cbn. rewrite H.
    change (@TLS.flushWriteBio O) with (@MediaDTLS.flushWriteBio O).
    pose proof (flush_done p H). by destruct (MediaDTLS.flushWriteBio p).
  - cbn [sec_done sec_decrypt TLS_secure TLS.ssl read_fuel] in *.
    destruct (decide (0 < (readBio_write p b).1)%Z) as [Hw|Hw].
    + destruct (tls_decrypt_eq _ p b Hw (Nat.lt_succ_diag_r _)) as (p' & Hd & Hf & _). specialize (Hf HS).
      rewrite Hd in *. cbn in *. by destruct (SSL_is_init_finished (advance p b)).
    + by rewrite tls_write_failed in H.
  - cbn in H |- *. unfold TLS.encrypt. cbn. by rewrite H.
Qed.
End secure_laws.

(** ** A concrete engine for the witnesses

    Bytes pass through unchanged; the first bytes received finish the handshake
    and are answered by one byte. *)
Record ref_ssl : Type := { rs_fin : bool; rs_in : list byte; rs_out : list byte }.

Definition RefSSL : OpenSSL := {|
  SSL_CTX := unit;
  SSL := ref_ssl;
  SSL_new c := (λ _, {| rs_fin := false; rs_in := []; rs_out := [] |}) <$> c;
  SSL_set_bio s := s; SSL_set_accept_state s := s; SSL_set_connect_state s := s;
  DTLS_set_link_mtu s _ := s;
  SSL_is_init_finished := rs_fin;
  SSL_do_handshake s :=
    match rs_in s with
    | [] => ((-1)%Z, s)
    | _ => (1%Z, {| rs_fin := true; rs_in := []; rs_out := rs_out s ++ [x01] |})
    end;
  SSL_read s n := (take n (rs_in s),
    {| rs_fin := rs_fin s; rs_in := drop n (rs_in s); rs_out := rs_out s |});
  SSL_write s b := (Z.of_nat (length b),
    {| rs_fin := rs_fin s; rs_in := rs_in s; rs_out := rs_out s ++ b |});
  SSL_current_cipher _ := None;
  readBio_write s b := (Z.of_nat (length b),
    {| rs_fin := rs_fin s; rs_in := rs_in s ++ b; rs_out := rs_out s |});
  writeBio_pending s := length (rs_out s);
  writeBio_read s n := (take n (rs_out s),
    {| rs_fin := rs_fin s; rs_in := rs_in s; rs_out := drop n (rs_out s) |})
|}.

#[export] Instance RefSSL_laws : OpenSSLLaws RefSSL.
Proof.
  refine {| unread (s : @SSL RefSSL) := rs_in s; outgoing (s : @SSL RefSSL) := rs_out s |};
    try done.
  intros [fin inb out] n bs s' Hfin Hn H. cbn in *. injection H as <- <-. cbn.
  split_and!; [by rewrite take_drop| |done].
  destruct n; [lia|]. by destruct inb.
Defined.

#[export] Instance RefSSL_stays : OpenSSLStays RefSSL.
Proof. done. Qed.

(** ** Properties *)

(** C40. Decryption is complete and terminates, for the three wrappers: once the
    received bytes are in the read BIO and a pending handshake has been advanced,
    every fuel above the amount of readable data lets the [while (true)] loop
    finish, the result is all the plaintext OpenSSL has (none while the
    handshake is unfinished), and none is left behind. *)
Theorem decrypt_reads_everything `{O : OpenSSL, L : !OpenSSLLaws O}
    (fuel : nat) (p : SSL) (peer b : list byte) :
  b ≠ [] → (0 < (readBio_write p b).1)%Z → length (unread (advance p b)) < fuel →
  let done := SSL_is_init_finished (advance p b) in
  let plain := if done then unread (advance p b) else [] in
  (∃ q, MediaDTLS.decrypt fuel {| MediaDTLS.ssl := Some p |} b
        = Some (plain, {| MediaDTLS.ssl := Some q |}) ∧ (done = true → unread q = [])) ∧
  (∃ q, TLS.decrypt fuel {| TLS.ssl := Some p |} b
        = Some (plain, {| TLS.ssl := Some q |}) ∧ (done = true → unread q = [])) ∧
  (∃ q, DTLS.decrypt fuel {| DTLS.ssl := Some p; DTLS.peer := peer |} b
        = Some (plain, {| DTLS.ssl := Some q; DTLS.peer := peer |}) ∧
        (done = true → unread q = [])).
Proof.
  intros Hb Hw Hf. cbn zeta. split_and!.
  - destruct (mediadtls_decrypt_eq fuel p b Hb Hf) as (q & ? & _ & ?). by exists q.
  - destruct (tls_decrypt_eq fuel p b Hw Hf) as (q & ? & _ & ?). by exists q.
  - destruct (dtls_decrypt_eq fuel p peer b Hw Hf) as (q & ? & _ & ?). by exists q.
Qed.

Lemma decrypt_reads_everything_witness :
  let p : @SSL RefSSL := {| rs_fin := true; rs_in := []; rs_out := [] |} in
  ∃ q, MediaDTLS.decrypt 3 {| MediaDTLS.ssl := Some p |} [x05; x06]
       = Some ([x05; x06], {| MediaDTLS.ssl := Some q |}).
Proof.
  intros p. destruct (decrypt_reads_everything (O := RefSSL) 3 p [] [x05; x06])
    as [(q & H & _) _]; [done|reflexivity|repeat constructor|].
  exists q. exact H.
Defined.

(** What a context's calls verify: the peer's certificate exactly when a CA
    file is given, against that file, and a server then insists on one. *)
Definition verifies (is_server : bool) (cafile : option string)
    (c : option (ctx_method * list ctx_call)) : Prop :=
  match c with
  | Some (_, calls) =>
      verify_mode calls = (bool_decide (is_Some cafile), is_server && bool_decide (is_Some cafile)) ∧
      trusted_ca calls = option_list cafile
  | None => False
  end.

(** Peer verification of the six contexts: whatever certificate and key
    files are given, the verification mode in force after configuration checks
    the peer exactly when a CA file is given, the CA file is the only trusted
    location, and the server contexts then refuse a peer without certificate. *)
Theorem contexts_verify_peer (certfile keyfile cafile : option string) :
  verifies true cafile (TLS.ServerContext true certfile keyfile cafile) ∧
  verifies false cafile (TLS.ClientContext true certfile keyfile cafile) ∧
  verifies true cafile (DTLS.ServerContext true certfile keyfile cafile) ∧
  verifies false cafile (DTLS.ClientContext true certfile keyfile cafile) ∧
  verifies true cafile (MediaDTLS.ServerContext true certfile keyfile cafile) ∧
  verifies false cafile (MediaDTLS.ClientContext true certfile keyfile cafile).
Proof. destruct certfile, keyfile, cafile; vm_compute; by split_and!. Qed.

(** DTLS cookies: verification accepts exactly the cookie generated for
    the same peer bytes and secret, but the two functions installed on the
    context use no peer at all, so a cookie handed to one session is accepted
    from every other session of the process. *)
Theorem dtls_cookie_any_peer `{O : OpenSSL} HMAC key (s1 s2 : DTLS.Session) peer cookie :
  (DTLS.VerifyCookieWithPeer HMAC key peer cookie = 1%Z ↔
   cookie = (DTLS.GenerateCookieWithPeer HMAC key peer).2) ∧
  DTLS.VerifyCookie HMAC key s2 (DTLS.GenerateCookie HMAC key s1).2 = 1%Z.
Proof.
  unfold DTLS.VerifyCookie, DTLS.GenerateCookie, DTLS.VerifyCookieWithPeer. cbn. split.
  - case_decide as H; [by split; [intros _; apply H|]|].
    split; [done|]. intros ->. by destruct H.
  - by rewrite decide_True.
Qed.
