(* ===== verification/UdpSession.v ===== *)
(** * UDP image reassembly (src/Src/Network/UdpSession.hpp)

    One session receives datagrams on a strand, so its handlers run one after
    another.  The state is the object's fields; sends, callbacks and deliveries
    are recorded in a trace; the reassembly timer is a pending wait and the
    handlers that have become ready.  The DTLS session is any [SecureSession]. *)

From S2P Require Import Prelude Protocol Crypt.

(** A UDP endpoint; [port] is 0 in a default-constructed one. *)
Record Endpoint : Type := { address : string; port : Z }.

Definition Endpoint0 : Endpoint := {| address := "0.0.0.0"; port := 0 |}.

(** What the session does to the outside. *)
Inductive udp_out : Type :=
| SendTo (data : list byte) (ep : Endpoint)          (* async_send_to *)
| OnComplete (image : list byte) (meta : string)     (* onComplete_ *)
| SendControl (json : string).                       (* sendControl_ *)

(** A wait handler of the timer: the frame it captured. *)
Record UdpSession (Sess : Type) : Type := {
  dtlsSession_ : Sess;
  server_endpoint_ : Endpoint;
  receiving : bool;                         (* an async_receive_from is pending *)
  timer_wait : option Z;                    (* the pending async_wait *)
  timer_ready : list (Z * bool);            (* expired or cancelled: frame, !ec *)
  has_onComplete : bool;                    (* if (onComplete_) *)
  has_sendControl : bool;                   (* if (sendControl_) *)
  expected_meta_ : string;
  current_frame_ : Z;
  expected_max_seq_ : Z;
  fragments_ : gmap Z (list byte);
  trace : list udp_out
}.
Arguments dtlsSession_ {_}.
Arguments server_endpoint_ {_}.
Arguments receiving {_}.
Arguments timer_wait {_}.
Arguments timer_ready {_}.
Arguments has_onComplete {_}.
Arguments has_sendControl {_}.
Arguments expected_meta_ {_}.
Arguments current_frame_ {_}.
Arguments expected_max_seq_ {_}.
Arguments fragments_ {_}.
Arguments trace {_}.

Section udp.
Context {Sess : Type} `{SS : SecureSession Sess}.
Abbreviation udp := (UdpSession Sess).

(** The constructor, with the session it builds and the given callbacks. *)
Definition UdpSession_ctor (d : Sess) (onComplete sendControl : bool) : udp := {|
  dtlsSession_ := d; server_endpoint_ := Endpoint0; receiving := false;
  timer_wait := None; timer_ready := [];
  has_onComplete := onComplete; has_sendControl := sendControl;
  expected_meta_ := ""; current_frame_ := 255; expected_max_seq_ := 0;
  fragments_ := ∅; trace := []
|}.

(** *** Field updates *)
Definition set_dtls (d : Sess) (s : udp) : udp := {|
  dtlsSession_ := d; server_endpoint_ := server_endpoint_ s; receiving := receiving s;
  timer_wait := timer_wait s; timer_ready := timer_ready s;
  has_onComplete := has_onComplete s; has_sendControl := has_sendControl s;
  expected_meta_ := expected_meta_ s; current_frame_ := current_frame_ s;
  expected_max_seq_ := expected_max_seq_ s; fragments_ := fragments_ s; trace := trace s
|}.

Definition set_net (ep : Endpoint) (r : bool) (s : udp) : udp := {|
  dtlsSession_ := dtlsSession_ s; server_endpoint_ := ep; receiving := r;
  timer_wait := timer_wait s; timer_ready := timer_ready s;
  has_onComplete := has_onComplete s; has_sendControl := has_sendControl s;
  expected_meta_ := expected_meta_ s; current_frame_ := current_frame_ s;
  expected_max_seq_ := expected_max_seq_ s; fragments_ := fragments_ s; trace := trace s
|}.

Definition set_timer (w : option Z) (r : list (Z * bool)) (s : udp) : udp := {|
  dtlsSession_ := dtlsSession_ s; server_endpoint_ := server_endpoint_ s;
  receiving := receiving s; timer_wait := w; timer_ready := r;
  has_onComplete := has_onComplete s; has_sendControl := has_sendControl s;
  expected_meta_ := expected_meta_ s; current_frame_ := current_frame_ s;
  expected_max_seq_ := expected_max_seq_ s; fragments_ := fragments_ s; trace := trace s
|}.

Definition set_frame (f m : Z) (frs : gmap Z (list byte)) (s : udp) : udp := {|
  dtlsSession_ := dtlsSession_ s; server_endpoint_ := server_endpoint_ s;
  receiving := receiving s; timer_wait := timer_wait s; timer_ready := timer_ready s;
  has_onComplete := has_onComplete s; has_sendControl := has_sendControl s;
  expected_meta_ := expected_meta_ s; current_frame_ := f;
  expected_max_seq_ := m; fragments_ := frs; trace := trace s
|}.

Definition set_fragments (frs : gmap Z (list byte)) (s : udp) : udp :=
  set_frame (current_frame_ s) (expected_max_seq_ s) frs s.

Definition setExpectedMeta (m : string) (s : udp) : udp := {|
  dtlsSession_ := dtlsSession_ s; server_endpoint_ := server_endpoint_ s;
  receiving := receiving s; timer_wait := timer_wait s; timer_ready := timer_ready s;
  has_onComplete := has_onComplete s; has_sendControl := has_sendControl s;
  expected_meta_ := m; current_frame_ := current_frame_ s;
  expected_max_seq_ := expected_max_seq_ s; fragments_ := fragments_ s; trace := trace s
|}.

Definition emit (o : udp_out) (s : udp) : udp := {|
  dtlsSession_ := dtlsSession_ s; server_endpoint_ := server_endpoint_ s;
  receiving := receiving s; timer_wait := timer_wait s; timer_ready := timer_ready s;
  has_onComplete := has_onComplete s; has_sendControl := has_sendControl s;
  expected_meta_ := expected_meta_ s; current_frame_ := current_frame_ s;
  expected_max_seq_ := expected_max_seq_ s; fragments_ := fragments_ s;
  trace := trace s ++ [o]
|}.

(** *** The timer

    [cancel] and [expires_after] make a pending wait complete with
    [operation_aborted]; a handler that is ready already keeps its result. *)
Definition timer_cancel (s : udp) : udp :=
  match timer_wait s with
  | Some f => set_timer None (timer_ready s ++ [(f, false)]) s
  | None => s
  end.

(** [expires_after(50ms); async_wait(...)] capturing [frameNo]. *)
Definition timer_arm (frameNo : Z) (s : udp) : udp :=
  let s := timer_cancel s in set_timer (Some frameNo) (timer_ready s) s.

(** *** Operations *)

Definition sendRaw (data : list byte) (s : udp) : udp :=
  if decide (data = []) then s else emit (SendTo data (server_endpoint_ s)) s.

Definition setServerEndpoint (ep : Endpoint) (s : udp) : udp :=
  let s := set_net ep (receiving s) s in
  let '(hello, d) := sec_handshake (dtlsSession_ s) [] in
  sendRaw hello (set_dtls d s).

Definition doReceive (s : udp) : udp := set_net (server_endpoint_ s) true s.

Definition start (s : udp) : udp := doReceive s.

(** [complete_image]: the fragments [0 .. maxSeqNo] in order; [operator[]] of an
    absent key gives (and inserts) an empty vector. *)
Definition assemble (frs : gmap Z (list byte)) (maxSeqNo : Z) : list byte :=
  concat ((λ i, default [] (frs !! Z.of_nat i)) <$> seq 0 (Z.to_nat maxSeqNo + 1)).

(** [R"({"receive": true})"] *)
Definition ack_json : string := "{" +:+ dq +:+ "receive" +:+ dq +:+ ": true}".

Definition handleImageFragment (frameNo seqNo maxSeqNo : Z) (data : list byte)
    (s : udp) : udp :=
  let s :=
    if decide (frameNo ≠ current_frame_ s)
    then timer_arm frameNo (set_frame frameNo maxSeqNo ∅ s)
    else s in
  match fragments_ s !! seqNo with
  | Some _ => s
  | None =>
      let s := set_fragments (<[seqNo := data]> (fragments_ s)) s in
      if decide (Z.of_nat (size (fragments_ s)) = (maxSeqNo + 1)%Z) then
        let s := timer_cancel s in
        let complete_image := assemble (fragments_ s) maxSeqNo in
        let s := if has_onComplete s
                 then emit (OnComplete complete_image (expected_meta_ s)) s else s in
        let s := if has_sendControl s then emit (SendControl ack_json) s else s in
        set_fragments ∅ s
      else s
  end.

(** [for (uint8_t i = 0; i <= expected_max_seq_; ++i)]: [None] when the fuel
    runs out before the loop ends. *)
Fixpoint missing_loop (fuel : nat) (i max : Z) (frs : gmap Z (list byte))
    (missing : list Z) : option (list Z) :=
  match fuel with
  | 0 => None
  | S fuel =>
      if (i <=? max)%Z then
        missing_loop fuel (wrap8 (i + 1)) max frs
          (match frs !! i with None => missing ++ [i] | Some _ => missing end)
      else Some missing
  end.

(** The loop that joins the numbers with commas. *)
Fixpoint join_missing (l : list Z) : string :=
  match l with
  | [] => ""
  | [z] => pretty z
  | z :: l' => pretty z +:+ "," +:+ join_missing l'
  end.

Definition retransmit_json (frame : Z) (missing : list Z) : string :=
  "{" +:+ dq +:+ "frame_number" +:+ dq +:+ ":" +:+ pretty frame +:+ "," +:+
  dq +:+ "missing_sequence" +:+ dq +:+ ":[" +:+ join_missing missing +:+ "]}".

Definition checkMissingFragments (fuel : nat) (s : udp) : option udp :=
  missing ← missing_loop fuel 0 (expected_max_seq_ s) (fragments_ s) [];
  if bool_decide (missing ≠ []) && has_sendControl s then
    let s := emit (SendControl (retransmit_json (current_frame_ s) missing)) s in
    Some (timer_arm (current_frame_ s) s)
  else Some s.

(** Both wait handlers test the same condition (the first also logs). *)
Definition timer_handler (fuel : nat) (frameNo : Z) (ok : bool) (s : udp) : option udp :=
  if ok && bool_decide (current_frame_ s = frameNo) && bool_decide (fragments_ s ≠ ∅)
  then checkMissingFragments fuel s
  else Some s.

(** [handlePacket(length)] on the received bytes. *)
Definition handlePacket (pkt : list byte) (s : udp) : udp :=
  match read_image_header pkt with
  | None =>
      (* length < sizeof(ImageHeader) *)
      match pkt with
      | t :: _ =>
          if decide (byte_to_Z t = mt_value TLS_HANDSHAKE) then
            let '(response, d) := sec_handshake (dtlsSession_ s) pkt in
            sendRaw response (set_dtls d s)
          else s
      | [] => s
      end
  | Some h =>
      if decide (ih_type h = mt_value TLS_HANDSHAKE) then
        let '(response, d) := sec_handshake (dtlsSession_ s) (drop sizeof_PacketHeader pkt) in
        let s := set_dtls d s in
        if decide (response = []) then s
        else sendRaw (packet_header (mt_value TLS_HANDSHAKE) (Z.of_nat (length response))
                      ++ response) s
      else if decide (ih_type h = mt_value IMAGE) then
        if sec_done (dtlsSession_ s) then
          let '(plain, d) := sec_decrypt (dtlsSession_ s) (drop sizeof_ImageHeader pkt) in
          let s := set_dtls d s in
          if decide (plain = []) then s
          else handleImageFragment (FrameNumber h) (SequenceNumber h) (MaxSequenceNumber h) plain s
        else s
      else s
  end.

(** *** Events of the strand: the completion of the pending receive (bytes and
    sender, or an error), the expiry of the timer, the next ready handler. *)
Inductive udp_event : Type :=
| Received (pkt : list byte) (sender : Endpoint)
| ReceiveError
| TimerExpires
| RunTimerHandler.

(** Datagrams are cut to the receive buffer. *)
Definition recv_buffer_size : nat := 2048.

Definition udp_handle (fuel : nat) (e : udp_event) (s : udp) : option udp :=
  match e with
  | Received pkt sender =>
      if receiving s then
        let s := set_net (server_endpoint_ s) false s in
        let pkt := take recv_buffer_size pkt in
        let s :=
          if decide (0 < length pkt) then
            let s := if decide (port (server_endpoint_ s) = 0%Z)
                     then set_net sender (receiving s) s else s in
            handlePacket pkt s
          else s in
        Some (doReceive s)
      else Some s
  | ReceiveError =>
      if receiving s then Some (set_net (server_endpoint_ s) false s) else Some s
  | TimerExpires =>
      match timer_wait s with
      | Some f => Some (set_timer None (timer_ready s ++ [(f, true)]) s)
      | None => Some s
      end
  | RunTimerHandler =>
      match timer_ready s with
      | (f, ok) :: rest => timer_handler fuel f ok (set_timer (timer_wait s) rest s)
      | [] => Some s
      end
  end.

Fixpoint udp_run (fuel : nat) (es : list udp_event) (s : udp) : option udp :=
  match es with
  | [] => Some s
  | e :: es' => s' ← udp_handle fuel e s; udp_run fuel es' s'
  end.

End udp.

(** ** Lemmas: reassembly *)

Section reassembly.
Context {Sess : Type} `{SS : SecureSession Sess}.
Abbreviation udp := (UdpSession Sess).

(** The frame switch at the head of [handleImageFragment]. *)
Definition begin_frame (frameNo maxSeqNo : Z) (s : udp) : udp :=
  if decide (frameNo ≠ current_frame_ s)
  then timer_arm frameNo (set_frame frameNo maxSeqNo ∅ s)
  else s.

Lemma timer_arm_frame f (s : udp) : current_frame_ (timer_arm f s) = current_frame_ s.
Proof. unfold timer_arm, timer_cancel. by destruct (timer_wait s). Qed.

Lemma begin_frame_current f m (s : udp) : current_frame_ (begin_frame f m s) = f.
Proof.
  unfold begin_frame. case_decide as H; [by rewrite timer_arm_frame|].
  by destruct (decide (f = current_frame_ s)).
Qed.

Lemma begin_frame_idemp f m (s : udp) : begin_frame f m (begin_frame f m s) = begin_frame f m s.
Proof.
  unfold begin_frame at 1. rewrite begin_frame_current. by rewrite decide_False by tauto.
Qed.

Lemma begin_frame_keeps f m (s : udp) :
  trace (begin_frame f m s) = trace s ∧
  expected_meta_ (begin_frame f m s) = expected_meta_ s ∧
  has_onComplete (begin_frame f m s) = has_onComplete s ∧
  has_sendControl (begin_frame f m s) = has_sendControl s ∧
  dtlsSession_ (begin_frame f m s) = dtlsSession_ s ∧
  fragments_ (begin_frame f m s)
  = if decide (f ≠ current_frame_ s) then ∅ else fragments_ s.
Proof.
  unfold begin_frame, timer_arm, timer_cancel. case_decide; [|done]. cbn.
  by destruct (timer_wait s).
Qed.

(** A fragment that leaves the frame incomplete, and one that completes it. *)
Lemma fragment_begin f q m d (s : udp) :
  handleImageFragment f q m d s = handleImageFragment f q m d (begin_frame f m s).
Proof.
  unfold handleImageFragment at 1 2. fold (begin_frame f m s).
  fold (begin_frame f m (begin_frame f m s)). by rewrite begin_frame_idemp.
Qed.

Lemma fragment_duplicate f q m d (s : udp) :
  is_Some (fragments_ (begin_frame f m s) !! q) →
  handleImageFragment f q m d s = begin_frame f m s.
Proof.
  intros [x Hx]. unfold handleImageFragment. fold (begin_frame f m s). by rewrite Hx.
Qed.

Lemma fragment_stored f q m d (s : udp) :
  let b := begin_frame f m s in
  fragments_ b !! q = None →
  Z.of_nat (size (<[q := d]> (fragments_ b))) ≠ (m + 1)%Z →
  handleImageFragment f q m d s = set_fragments (<[q := d]> (fragments_ b)) b.
Proof.
  cbn zeta. intros Hq Hsz. unfold handleImageFragment. fold (begin_frame f m s).
  rewrite Hq. by rewrite decide_False.
Qed.

Lemma fragment_completes f q m d (s : udp) :
  let b := begin_frame f m s in
  fragments_ b !! q = None →
  Z.of_nat (size (<[q := d]> (fragments_ b))) = (m + 1)%Z →
  has_onComplete s = true → has_sendControl s = true →
  let s' := handleImageFragment f q m d s in
  trace s' = trace s ++ [OnComplete (assemble (<[q := d]> (fragments_ b)) m) (expected_meta_ s);
                         SendControl ack_json] ∧
  fragments_ s' = ∅ ∧ timer_wait s' = None ∧ current_frame_ s' = f ∧
  expected_meta_ s' = expected_meta_ s ∧ dtlsSession_ s' = dtlsSession_ s ∧
  has_onComplete s' = true ∧ has_sendControl s' = true.
Proof.
  cbn zeta. intros Hq Hsz Ho Hs. unfold handleImageFragment. fold (begin_frame f m s).
  rewrite Hq, decide_True by done.
  destruct (begin_frame_keeps f m s) as (Ht & Hm & Ho' & Hs' & Hd & _).
  pose proof (begin_frame_current f m s) as Hc. rewrite Ho in Ho'. rewrite Hs in Hs'.
  destruct (begin_frame f m s) as [d' ep r w rd oc sc em cf mx frs tr]. cbn in *. subst.
  destruct w; cbn; by rewrite <-app_assoc.
Qed.
End reassembly.

(** The fragments a set of delivered sequence numbers leaves. *)
Definition frags_of (frag : Z → list byte) (l : list Z) : gmap Z (list byte) :=
  foldr (λ q m, <[q := frag q]> m) ∅ l.

(** The whole image: the fragments in sequence order. *)
Definition reassembled (frag : Z → list byte) (max : Z) : list byte :=
  concat (frag <$> seqZ 0 (max + 1)).

Lemma frags_of_cons frag x l : frags_of frag (x :: l) = <[x := frag x]> (frags_of frag l).
Proof. done. Qed.

Lemma frags_of_lookup frag l q :
  frags_of frag l !! q = if decide (q ∈ l) then Some (frag q) else None.
Proof.
  induction l as [|x l IH]; [|rewrite frags_of_cons].
  - rewrite decide_False; [done|]. apply not_elem_of_nil.
  - destruct (decide (x = q)) as [->|Hne].
    + rewrite lookup_insert_eq, decide_True; [done|]. left.
    + rewrite lookup_insert_ne, IH by done. destruct (decide (q ∈ l)) as [Hin|Hin].
      * rewrite decide_True; [done|]. by right.
      * rewrite decide_False; [done|]. by intros [->|?]%elem_of_cons.
Qed.

Lemma frags_of_dom frag l : dom (frags_of frag l) = list_to_set (C := gset Z) l.
Proof. 
  induction l as [|x l IH]; [done|]. rewrite frags_of_cons, dom_insert_L, IH. done.
Qed.

Lemma frags_of_size frag l : size (frags_of frag l) = size (list_to_set (C := gset Z) l).
Proof. by rewrite <-(frags_of_dom frag), size_dom. Qed.

Lemma frags_of_dup frag l q : q ∈ l → frags_of frag (q :: l) = frags_of frag l.
Proof. intros Hq. rewrite frags_of_cons. apply insert_id. rewrite frags_of_lookup. by rewrite decide_True. Qed.

Lemma range_set_size max : (0 ≤ max)%Z →
  Z.of_nat (size (list_to_set (C := gset Z) (seqZ 0 (max + 1)))) = (max + 1)%Z.
Proof.
  intros Hm. rewrite size_list_to_set by apply NoDup_seqZ. rewrite length_seqZ. lia.
Qed.

Lemma frags_of_incomplete frag l q max :
  (0 ≤ max)%Z → (0 ≤ q ≤ max)%Z → q ∉ l → Forall (λ x, (0 ≤ x ≤ max)%Z) l →
  (Z.of_nat (size (frags_of frag l)) < max + 1)%Z.
Proof.
  intros Hm Hq Hnot Hall. rewrite frags_of_size, <-range_set_size by done.
  apply Nat2Z.inj_lt, subset_size. split.
  - intros x. rewrite !elem_of_list_to_set, elem_of_seqZ. rewrite Forall_forall in Hall.
    intros Hx%Hall. lia.
  - intros Hsub. apply Hnot. rewrite <-(elem_of_list_to_set (C := gset Z)). apply Hsub.
    rewrite elem_of_list_to_set, elem_of_seqZ. lia.
Qed.

Lemma frags_of_complete frag l max :
  (0 ≤ max)%Z → Forall (λ x, (0 ≤ x ≤ max)%Z) l → (∀ q, (0 ≤ q ≤ max)%Z → q ∈ l) →
  Z.of_nat (size (frags_of frag l)) = (max + 1)%Z ∧
  assemble (frags_of frag l) max = reassembled frag max.
Proof.
  intros Hm Hall Hcov. split.
  - rewrite frags_of_size, <-range_set_size by done. do 2 f_equal.
    apply set_eq. intros x. rewrite !elem_of_list_to_set, elem_of_seqZ.
    rewrite Forall_forall in Hall. split; [intros Hx%Hall; lia|]. intros ?. apply Hcov. lia.
  - unfold assemble, reassembled, seqZ. f_equal. rewrite <-list_fmap_compose.
    replace (Z.to_nat (max + 1)) with (Z.to_nat max + 1) by lia.
    apply list_fmap_ext. intros i x Hx. apply lookup_seq in Hx as [-> Hlt]. cbn.
    rewrite frags_of_lookup, decide_True by (apply Hcov; lia). cbn. f_equal. lia.
Qed.

Lemma frags_of_snoc frag l q : frags_of frag (l ++ [q]) = <[q := frag q]> (frags_of frag l).
Proof.
  apply map_eq. intros x. rewrite frags_of_lookup.
  destruct (decide (x = q)) as [->|Hne].
  - rewrite lookup_insert_eq, decide_True; [done|]. apply elem_of_app. right. by left.
  - rewrite lookup_insert_ne, frags_of_lookup by done.
    destruct (decide (x ∈ l)) as [Hin|Hin].
    + rewrite decide_True; [done|]. apply elem_of_app. by left.
    + rewrite decide_False; [done|]. by intros [?| ->%list_elem_of_singleton]%elem_of_app.
Qed.

Section deliver.
Context {Sess : Type} `{SS : SecureSession Sess}.
Abbreviation udp := (UdpSession Sess).
Context (frag : Z → list byte) (f max : Z).

Definition in_range (q : Z) : Prop := (0 ≤ q ≤ max)%Z.

(** One decrypted fragment of the frame. *)
Definition deliver (q : Z) (s : udp) : udp := handleImageFragment f q max (frag q) s.

(** What holds after the fragments [l] of an incomplete frame, started from
    [s0]: nothing was sent, and exactly they are stored. *)
Definition collecting (s0 : udp) (l : list Z) (s : udp) : Prop :=
  trace s = trace s0 ∧ expected_meta_ s = expected_meta_ s0 ∧
  has_onComplete s = has_onComplete s0 ∧ has_sendControl s = has_sendControl s0 ∧
  fragments_ (begin_frame f max s) = frags_of frag l.

Lemma begin_frame_id (s : udp) : current_frame_ s = f → begin_frame f max s = s.
Proof. intros H. unfold begin_frame. by rewrite decide_False by congruence. Qed.

Lemma deliver_collecting s0 l q r s :
  collecting s0 l s → Forall in_range (l ++ [q]) → in_range r → r ∉ l ++ [q] →
  collecting s0 (l ++ [q]) (deliver q s).
Proof.
  intros (Ht & Hm & Ho & Hc & Hf) Hall Hr Hnot.
  destruct (begin_frame_keeps f max s) as (Ht' & Hm' & Ho' & Hc' & _ & _).
  assert ((0 ≤ max)%Z) as Hmax by (unfold in_range in Hr; lia).
  unfold deliver. destruct (decide (q ∈ l)) as [Hin|Hin].
  - rewrite fragment_duplicate by (rewrite Hf, frags_of_lookup, decide_True; by eauto).
    unfold collecting. rewrite frags_of_snoc, begin_frame_idemp, Ht', Hm', Ho', Hc', Hf.
    split_and!; try done. rewrite insert_id; [done|]. by rewrite frags_of_lookup, decide_True.
  - assert (fragments_ (begin_frame f max s) !! q = None) as Hnone.
    { by rewrite Hf, frags_of_lookup, decide_False. }
    rewrite fragment_stored by (done || rewrite Hf, <-frags_of_snoc;
      pose proof (frags_of_incomplete frag (l ++ [q]) r max Hmax Hr Hnot Hall); lia).
    unfold collecting.
    rewrite (begin_frame_id (set_fragments _ _)) by apply begin_frame_current.
    cbn. rewrite Ht', Hm', Ho', Hc', Hf, frags_of_snoc. done.
Qed.

Lemma deliver_completes s0 l q s :
  collecting s0 l s → has_onComplete s0 = true → has_sendControl s0 = true →
  (0 ≤ max)%Z → Forall in_range (l ++ [q]) → q ∉ l → (∀ x, in_range x → x ∈ l ++ [q]) →
  let s' := deliver q s in
  trace s' = trace s0 ++ [OnComplete (reassembled frag max) (expected_meta_ s0);
                          SendControl ack_json] ∧
  fragments_ s' = ∅ ∧ timer_wait s' = None ∧ current_frame_ s' = f ∧
  expected_meta_ s' = expected_meta_ s0 ∧
  has_onComplete s' = true ∧ has_sendControl s' = true.
Proof.
  intros (Ht & Hm & Ho & Hc & Hf) Ho0 Hc0 Hmax Hall Hnot Hcov. cbn zeta.
  destruct (frags_of_complete frag (l ++ [q]) max Hmax Hall Hcov) as [Hsz Has].
  rewrite frags_of_snoc, <-Hf in Hsz, Has.
  pose proof (fragment_completes f q max (frag q) s) as H. cbn zeta in H.
  rewrite Has in H. unfold deliver.
  destruct H as (-> & -> & -> & -> & -> & _ & -> & ->); try congruence.
  - by rewrite Hf, frags_of_lookup, decide_False.
  - by rewrite Ht, Hm.
Qed.

(** A session that enters the frame, or restarts it after a completion. *)
Definition fresh_frame (s : udp) : Prop := f ≠ current_frame_ s ∨ fragments_ s = ∅.

Lemma fresh_collecting s : fresh_frame s → collecting s [] s.
Proof.
  intros Hs. unfold collecting. split_and!; try done.
  destruct (begin_frame_keeps f max s) as (_ & _ & _ & _ & _ & ->).
  destruct Hs as [Hs|Hs]; case_decide; [done|done|done|by rewrite Hs].
Qed.

Definition deliver_all (l : list Z) (s : udp) : udp := foldl (λ s q, deliver q s) s l.

Lemma deliver_all_snoc l q s : deliver_all (l ++ [q]) s = deliver q (deliver_all l s).
Proof. unfold deliver_all. by rewrite foldl_app. Qed.

Lemma deliver_all_collecting s l r :
  fresh_frame s → Forall in_range l → in_range r → r ∉ l → collecting s l (deliver_all l s).
Proof.
  intros Hs. induction l as [|q l IH] using rev_ind; intros Hall Hr Hnot.
  - by apply fresh_collecting.
  - rewrite deliver_all_snoc. apply (deliver_collecting s l q r); try done.
    apply IH; [|done|].
    + by apply Forall_app in Hall as [? _].
    + intros Hin. apply Hnot. apply elem_of_app. by left.
Qed.
End deliver.

(** ** Lemmas: datagrams *)

(** The datagram of one fragment: image header and DTLS record. *)
Definition datagram (f max : Z) (p : Z * list byte) : list byte :=
  image_header {| ih_type := mt_value IMAGE; ih_length := wrap32 (Z.of_nat (length p.2));
                  FrameNumber := f; SequenceNumber := p.1; MaxSequenceNumber := max |} ++ p.2.

Section datagrams.
Context {Sess : Type} `{SS : SecureSession Sess, SL : !SecureLaws Sess}.
Abbreviation udp := (UdpSession Sess).
Context (frag : Z → list byte) (f max : Z) (Hf : is_u8 f) (Hmax : is_u8 max).

(** Records that decrypt, one after the other, to their fragments. *)
Fixpoint opens_to (d : Sess) (pkts : list (Z * list byte)) : Prop :=
  match pkts with
  | [] => True
  | (q, c) :: rest => (sec_decrypt d c).1 = frag q ∧ frag q ≠ [] ∧
                      opens_to (sec_decrypt d c).2 rest
  end.

Lemma fragment_set_dtls q d x (s : udp) :
  handleImageFragment f q max d (set_dtls x s) = set_dtls x (handleImageFragment f q max d s).
Proof.
  unfold handleImageFragment, timer_arm, timer_cancel.
  destruct s as [d' ep r w rd oc sc em cf mx frs tr]. cbn.
  case_decide; destruct w; cbn; (destruct (_ !! q); [done|]); case_decide;
    destruct oc, sc; done.
Qed.

Lemma fragment_dtls q d (s : udp) :
  dtlsSession_ (handleImageFragment f q max d s) = dtlsSession_ s.
Proof.
  unfold handleImageFragment, timer_arm, timer_cancel.
  destruct s as [d' ep r w rd oc sc em cf mx frs tr]. cbn.
  case_decide; destruct w; cbn; (destruct (_ !! q); [done|]); case_decide;
    destruct oc, sc; done.
Qed.

Lemma handlePacket_datagram q c (s : udp) :
  is_u8 q → sec_done (dtlsSession_ s) = true → (sec_decrypt (dtlsSession_ s) c).1 ≠ [] →
  handlePacket (datagram f max (q, c)) s
  = handleImageFragment f q max (sec_decrypt (dtlsSession_ s) c).1
      (set_dtls (sec_decrypt (dtlsSession_ s) c).2 s).
Proof.
  intros Hq Hdone Hne. unfold handlePacket, datagram. cbn [fst snd].
  rewrite read_image_header_app by (cbn; done || apply wrap32_range).
  cbn [ih_type FrameNumber SequenceNumber MaxSequenceNumber].
  rewrite decide_False, decide_True by done. rewrite Hdone.
  replace (drop sizeof_ImageHeader _) with c by done.
  destruct (sec_decrypt (dtlsSession_ s) c) as [p d]. cbn in *. by rewrite decide_False.
Qed.

(** Feeding the datagrams is delivering their fragments, with the DTLS session
    advanced. *)
Definition receive_all (pkts : list (Z * list byte)) (s : udp) : udp :=
  foldl (λ s p, handlePacket (datagram f max p) s) s pkts.

Fixpoint session_after (d : Sess) (pkts : list (Z * list byte)) : Sess :=
  match pkts with [] => d | (_, c) :: rest => session_after (sec_decrypt d c).2 rest end.

Lemma deliver_all_set_dtls l x (s : udp) :
  deliver_all frag f max l (set_dtls x s) = set_dtls x (deliver_all frag f max l s).
Proof.
  revert s. induction l as [|q l IH]; intros s; [done|].
  unfold deliver_all in *. cbn. unfold deliver at 2 4. by rewrite fragment_set_dtls, IH.
Qed.

Lemma receive_deliver pkts (s : udp) :
  sec_done (dtlsSession_ s) = true → opens_to (dtlsSession_ s) pkts →
  Forall (λ p, is_u8 p.1) pkts →
  receive_all pkts s
  = set_dtls (session_after (dtlsSession_ s) pkts) (deliver_all frag f max pkts.*1 s).
Proof.
  revert s. induction pkts as [|[q c] pkts IH]; intros s Hdone Hop Hu.
  - by destruct s.
  - cbn in Hop. destruct Hop as (Hp & Hne & Hop). apply Forall_cons in Hu as [Hq Hu].
    cbn [receive_all foldl]. rewrite handlePacket_datagram; [|done..|by rewrite Hp].
    rewrite Hp, fragment_set_dtls.
    change (foldl _ ?s0 pkts) with (receive_all pkts s0). rewrite IH; [|..|done].
    + by rewrite deliver_all_set_dtls.
    + cbn. by apply sec_decrypt_done.
    + done.
Qed.
End datagrams.

(** ** Lemmas: the retransmission request *)

Lemma missing_loop_exact fuel i max frs acc :
  (0 ≤ i ≤ max + 1)%Z → (max < 255)%Z → (max + 1 - i < Z.of_nat fuel)%Z →
  missing_loop fuel i max frs acc
  = Some (acc ++ filter (λ q, frs !! q = None) (seqZ i (max + 1 - i))).
Proof.
  revert i acc. induction fuel as [|fuel IH]; intros i acc Hi Hmax Hfuel; [lia|].
  cbn. destruct (Z.leb_spec i max) as [Hle|Hgt].
  - rewrite wrap8_id by (unfold is_u8; lia). rewrite IH by lia.
    rewrite (seqZ_cons i) by lia. rewrite filter_cons. cbn.
    replace (Z.succ i) with (i + 1)%Z by lia.
    replace (Z.pred (max + 1 - i)) with (max + 1 - (i + 1))%Z by lia.
    destruct (frs !! i); [by rewrite decide_False|].
    rewrite decide_True by done. by rewrite <-app_assoc.
  - rewrite seqZ_nil by lia. by rewrite app_nil_r.
Qed.

Lemma missing_loop_diverges fuel i frs acc :
  is_u8 i → missing_loop fuel i 255 frs acc = None.
Proof.
  revert i acc. induction fuel as [|fuel IH]; intros i acc Hi; [done|].
  cbn. unfold is_u8 in Hi. rewrite Zle_imp_le_bool by lia. apply IH, wrap8_range.
Qed.

(** ** Properties *)

(** C19. Reassembly in any order: a frame that is new to the session (or starts
    again after a completion) arrives as datagrams in any order, with
    duplicates, each record decrypting to its fragment.  As long as one sequence
    number of [0 .. max] is missing nothing is delivered or acknowledged; the
    datagram that supplies the last missing one makes the session deliver
    exactly one image, the fragments concatenated in sequence order, with the
    expected metadata, then exactly one acknowledgement, and the frame's
    fragments and timer are cleared. *)
Theorem udp_reassembles {Sess : Type} `{SS : SecureSession Sess, SL : !SecureLaws Sess}
    (frag : Z → list byte) (f max : Z) (pkts : list (Z * list byte)) (q : Z) (c : list byte)
    (s : UdpSession Sess) :
  is_u8 f → is_u8 max → fresh_frame f s →
  has_onComplete s = true → has_sendControl s = true →
  sec_done (dtlsSession_ s) = true →
  opens_to frag (dtlsSession_ s) (pkts ++ [(q, c)]) →
  Forall (in_range max) (pkts ++ [(q, c)]).*1 → q ∉ pkts.*1 →
  (∀ x, in_range max x → x ∈ (pkts ++ [(q, c)]).*1) →
  trace (receive_all f max pkts s) = trace s ∧
  let s' := receive_all f max (pkts ++ [(q, c)]) s in
  trace s' = trace s ++ [OnComplete (reassembled frag max) (expected_meta_ s);
                         SendControl ack_json] ∧
  fragments_ s' = ∅ ∧ timer_wait s' = None.
Proof.
  intros Hf Hmax Hfresh Ho Hc Hdone Hop Hall Hq Hcov.
  assert (Forall (λ p : Z * list byte, is_u8 p.1) (pkts ++ [(q, c)])) as Hu.
  { pose proof Hall as Hu. rewrite Forall_fmap in Hu. eapply Forall_impl; [exact Hu|].
    intros p. unfold in_range, compose, is_u8 in *. lia. }
  rewrite fmap_app in Hall, Hcov. cbn in Hall, Hcov.
  assert (collecting frag f max s pkts.*1 (deliver_all frag f max pkts.*1 s)) as Hcol.
  { apply Forall_app in Hall as [Hall Hq']. rewrite Forall_singleton in Hq'.
    by apply (deliver_all_collecting frag f max s pkts.*1 q). }
  split.
  - rewrite (receive_deliver frag); [apply Hcol|done..| |].
    + clear -Hop. revert Hop. generalize (dtlsSession_ s).
      induction pkts as [|[x y] l IH]; intros d H; [done|]. cbn in *. destruct H as (?&?&?).
      split_and!; auto.
    + by apply Forall_app in Hu as [? _].
  - cbn zeta. rewrite (receive_deliver frag) by done.
    rewrite fmap_app. cbn. rewrite deliver_all_snoc.
    destruct (deliver_completes frag f max s pkts.*1 q _ Hcol Ho Hc) as (-> & -> & -> & _);
      try done. unfold is_u8 in Hmax. lia.
Qed.

Definition demo_ssl : @SSL RefSSL := {| rs_fin := true; rs_in := []; rs_out := [] |}.

Definition demo_udp : UdpSession (MediaDTLS.Session (O := RefSSL)) :=
  setExpectedMeta "meta" (UdpSession_ctor {| MediaDTLS.ssl := Some demo_ssl |} true true).

Definition demo_frag (q : Z) : list byte := [byte_of_Z (q + 65)].

Lemma udp_reassembles_witness :
  let pkts := [(1, [x42]); (0, [x41]); (1, [x42])]%Z in
  trace (receive_all 3 2 pkts demo_udp) = [] ∧
  trace (receive_all 3 2 (pkts ++ [(2%Z, [x43])]) demo_udp)
  = [OnComplete [x41; x42; x43] "meta"; SendControl ack_json].
Proof.
  cbn zeta.
  destruct (udp_reassembles demo_frag 3 2 [(1, [x42]); (0, [x41]); (1, [x42])]%Z 2 [x43]
              demo_udp) as (H1 & H2 & _).
  - done.
  - done.
  - by left.
  - reflexivity.
  - reflexivity.
  - reflexivity.
  - vm_compute. by split_and!.
  - unfold in_range. by_decide.
  - by_decide.
  - intros x Hx. unfold in_range in Hx. cbn.
    assert (x = 0 ∨ x = 1 ∨ x = 2)%Z as [->|[->| ->]] by lia; by_decide.
  - split; [exact H1|exact H2].
Defined.

(** Delivery is not at most once: when every fragment of a completed frame
    arrives again under the same frame number (the sender repeats it because the
    acknowledgement was lost), the image is delivered and acknowledged a second
    time; a duplicate of a one-datagram image is enough. *)
Theorem udp_redelivers {Sess : Type} `{SS : SecureSession Sess}
    (frag : Z → list byte) (f max : Z) (l : list Z) (q : Z) (s : UdpSession Sess) :
  fresh_frame f s → has_onComplete s = true → has_sendControl s = true →
  (0 ≤ max)%Z → Forall (in_range max) (l ++ [q]) → q ∉ l →
  (∀ x, in_range max x → x ∈ l ++ [q]) →
  let image := OnComplete (reassembled frag max) (expected_meta_ s) in
  trace (deliver_all frag f max ((l ++ [q]) ++ l ++ [q]) s)
  = trace s ++ [image; SendControl ack_json; image; SendControl ack_json].
Proof.
  intros Hs Ho Hc Hmax Hall Hq Hcov. cbn zeta.
  assert (∀ s : UdpSession Sess, fresh_frame f s →
            collecting frag f max s l (deliver_all frag f max l s)) as Hcol.
  { intros s0 Hs0. apply Forall_app in Hall as [Hl Hq']. rewrite Forall_singleton in Hq'.
    by apply (deliver_all_collecting frag f max s0 l q). }
  rewrite app_assoc, deliver_all_snoc. unfold deliver_all at 1. rewrite !foldl_app.
  change (foldl _ s l) with (deliver_all frag f max l s). cbn [foldl].
  destruct (deliver_completes frag f max s l q _ (Hcol s Hs) Ho Hc Hmax Hall Hq Hcov)
    as (Ht & Hfr & _ & _ & Hm & Ho' & Hc').
  set (s1 := deliver frag f max q (deliver_all frag f max l s)) in *.
  assert (fresh_frame f s1) as Hs1 by (by right).
  change (foldl _ s1 l) with (deliver_all frag f max l s1).
  destruct (deliver_completes frag f max s1 l q _ (Hcol s1 Hs1) Ho' Hc' Hmax Hall Hq Hcov)
    as (-> & _). by rewrite Ht, Hm, <-app_assoc.
Qed.

Lemma udp_redelivers_witness :
  trace (deliver_all demo_frag 3 0 [0; 0]%Z demo_udp)
  = [OnComplete [x41] "meta"; SendControl ack_json;
     OnComplete [x41] "meta"; SendControl ack_json].
Proof.
  apply (udp_redelivers demo_frag 3 0 [] 0 demo_udp).
  - by left.
  - reflexivity.
  - reflexivity.
  - lia.
  - unfold in_range. by_decide.
  - by_decide.
  - unfold in_range. intros x Hx. assert (x = 0%Z) as -> by lia. by_decide.
Defined.

(** The retransmission request: when the timer of the current frame expires
    with fragments stored and some missing, and the highest sequence number is
    below 255, the loop terminates, one control message is sent that lists
    exactly the absent sequence numbers of [0 .. max] in increasing order, the
    timer is armed again for the frame, and nothing else changes. *)
Theorem udp_requests_missing {Sess : Type} `{SS : SecureSession Sess}
    (fuel : nat) (s : UdpSession Sess) :
  let max := expected_max_seq_ s in
  let missing := filter (λ q, fragments_ s !! q = None) (seqZ 0 (max + 1)) in
  (0 ≤ max < 255)%Z → (max + 1 < Z.of_nat fuel)%Z →
  timer_wait s = Some (current_frame_ s) → timer_ready s = [] →
  fragments_ s ≠ ∅ → missing ≠ [] → has_sendControl s = true →
  udp_run fuel [TimerExpires; RunTimerHandler] s
  = Some (emit (SendControl (retransmit_json (current_frame_ s) missing)) s).
Proof.
  cbn zeta. intros Hmax Hfuel Hw Hr Hfr Hmiss Hc.
  destruct s as [d ep rc w rd oc sc em cf mx frs tr]. cbn in *. subst.
  unfold timer_handler. cbn. rewrite !bool_decide_true by done. cbn.
  unfold checkMissingFragments. cbn. rewrite missing_loop_exact by lia. cbn.
  rewrite Z.sub_0_r. rewrite bool_decide_true by done. done.
Qed.

Definition demo_partial : UdpSession (MediaDTLS.Session (O := RefSSL)) :=
  deliver_all demo_frag 3 4 [1; 3]%Z demo_udp.

Lemma udp_requests_missing_witness :
  udp_run 257 [TimerExpires; RunTimerHandler] demo_partial
  = Some (emit (SendControl (retransmit_json 3 [0; 2; 4]%Z)) demo_partial).
Proof.
  apply (udp_requests_missing 257 demo_partial).
  - vm_compute. by split.
  - vm_compute. reflexivity.
  - reflexivity.
  - reflexivity.
  - by vm_compute.
  - by vm_compute.
  - reflexivity.
Defined.

(** The 8-bit loop counter: a frame whose highest sequence number is 255
    (256 fragments) makes the loop [for (uint8_t i = 0; i <= 255; ++i)] run for
    ever: no amount of fuel finishes the timer handler once it has something to
    check. *)
Theorem udp_missing_diverges {Sess : Type} `{SS : SecureSession Sess}
    (fuel : nat) (s : UdpSession Sess) :
  expected_max_seq_ s = 255%Z → fragments_ s ≠ ∅ →
  timer_handler fuel (current_frame_ s) true s = None.
Proof.
  intros Hmax Hfr. unfold timer_handler. rewrite !bool_decide_true by done. cbn.
  unfold checkMissingFragments. rewrite Hmax, missing_loop_diverges; [done|]. done.
Qed.

Lemma udp_missing_diverges_witness :
  let s := deliver_all demo_frag 3 255 [7]%Z demo_udp in
  timer_handler 1000 3 true s = None.
Proof.
  cbn zeta. apply (udp_missing_diverges 1000 (deliver_all demo_frag 3 255 [7]%Z demo_udp)).
  - reflexivity.
  - by vm_compute.
Defined.

Section first_frame.
Context {Sess : Type} `{SS : SecureSession Sess}.

(** No timer was ever armed and the only control messages are acknowledgements. *)
Definition untimed (s : UdpSession Sess) : Prop :=
  current_frame_ s = 255%Z ∧ timer_wait s = None ∧ timer_ready s = [] ∧
  ∀ j, SendControl j ∈ trace s → j = ack_json.

Lemma untimed_fragment q m d s : untimed s → untimed (handleImageFragment 255 q m d s).
Proof.
  intros (Hc & Hw & Hr & Ht). destruct s as [d' ep rc w rd oc sc em cf mx frs tr].
  cbn in *. subst. unfold handleImageFragment. cbn [current_frame_].
  rewrite decide_False by tauto. cbn.
  destruct (frs !! q); [by repeat split|]. case_decide; [|by repeat split].
  destruct oc, sc; split_and!; cbn; try done;
    intros j Hj; rewrite ?elem_of_app, ?list_elem_of_singleton in Hj;
    destruct_or?; simplify_eq; auto.
Qed.
End first_frame.

(** The initial frame number: [current_frame_] starts as 255, a valid frame
    number, so when the first frame a session receives is number 255 its first
    fragment is not seen as a new frame: whatever fragments of it arrive, no
    timer is ever armed and no retransmission is ever requested. *)
Theorem udp_first_frame_255 {Sess : Type} `{SS : SecureSession Sess} (d : Sess)
    (onComplete sendControl : bool) (pkts : list (Z * Z * list byte)) :
  let s := foldl (λ s p, handleImageFragment 255 p.1.1 p.1.2 p.2 s)
             (UdpSession_ctor d onComplete sendControl) pkts in
  timer_wait s = None ∧ timer_ready s = [] ∧
  ∀ j, SendControl j ∈ trace s → j = ack_json.
Proof.
  cbn zeta.
  assert (∀ s : UdpSession Sess, untimed s →
    untimed (foldl (λ s p, handleImageFragment 255 p.1.1 p.1.2 p.2 s) s pkts)) as H.
  { induction pkts as [|p l IH]; intros s Hs; [done|]. cbn. by apply IH, untimed_fragment. }
  destruct (H (UdpSession_ctor d onComplete sendControl)) as (_ & ? & ? & ?); [|done].
  split_and!; try done. cbn. set_solver.
Qed.

(** Nothing is accepted in the clear: until the DTLS handshake is finished,
    whatever datagram arrives leaves the reassembly state and the timer as they
    were, delivers no image and sends no control message; the only effect is at
    most one handshake reply, addressed to the session's server endpoint. *)
Theorem udp_handshake_gate {Sess : Type} `{SS : SecureSession Sess}
    (pkt : list byte) (s : UdpSession Sess) :
  sec_done (dtlsSession_ s) = false →
  let s' := handlePacket pkt s in
  fragments_ s' = fragments_ s ∧ current_frame_ s' = current_frame_ s ∧
  expected_max_seq_ s' = expected_max_seq_ s ∧ timer_wait s' = timer_wait s ∧
  timer_ready s' = timer_ready s ∧
  (trace s' = trace s ∨
   ∃ data, trace s' = trace s ++ [SendTo data (server_endpoint_ s)]).
Proof.
  intros Hdone. cbn zeta. unfold handlePacket, sendRaw.
  destruct (read_image_header pkt) as [h|].
  - case_decide.
    + destruct (sec_handshake _ _) as [out d]. case_decide; cbn; [by eauto 10|].
      split_and!; try done. right. by eexists.
    + rewrite Hdone. case_decide; split_and!; by eauto.
  - destruct pkt as [|t pkt]; [by eauto 10|]. case_decide; [|by eauto 10].
    destruct (sec_handshake _ _) as [out d]. case_decide; cbn; [by eauto 10|].
    split_and!; try done. right. by eexists.
Qed.

Definition demo_early : UdpSession (MediaDTLS.Session (O := RefSSL)) :=
  UdpSession_ctor
    {| MediaDTLS.ssl := Some ({| rs_fin := false; rs_in := []; rs_out := [] |} : @SSL RefSSL) |}
    true true.

Lemma udp_handshake_gate_witness :
  trace (handlePacket (datagram 1 0 (0%Z, [x41])) demo_early) = [] ∨
  ∃ data, trace (handlePacket (datagram 1 0 (0%Z, [x41])) demo_early)
          = [] ++ [SendTo data Endpoint0].
Proof.
  apply (udp_handshake_gate (datagram 1 0 (0%Z, [x41])) demo_early). reflexivity.
Defined.
