(* ===== verification/TcpSession.v ===== *)
(** * Framed TCP messages (src/Src/Network/TcpSession.hpp)

    A session reads a five-byte header and then a body, optionally through a TLS
    session, and writes frames.  Handlers run on a strand, one at a time.  The
    state is the object's fields, the pending [async_read] with the bytes it has
    so far, the queue of the strand and the outstanding [async_write]s. *)

From S2P Require Import Prelude Protocol Crypt.

(** What the session does to its owner. *)
Inductive tcp_out : Type :=
| OnMessage (m : Message)      (* messageHandler_ *)
| OnConnected                  (* connectedHandler_ *)
| OnDisconnect                 (* disconnectHandler_ *)
| CloseSocket.                 (* close() *)

Inductive read_op : Type := ReadHeader | ReadBody.

(** Handlers posted to the strand. *)
Inductive tcp_post : Type :=
| PostSend (m : Message)          (* sendMessage *)
| PostWrite (buf : list byte).    (* handleTlsOutput *)

Record TcpSession (Sess : Type) : Type := {
  tlsSession_ : option Sess;
  has_messageHandler : bool;
  has_disconnectHandler : bool;
  has_connectedHandler : bool;
  currentMessage_ : Message;
  disconnected_ : bool;
  handshakeCompleted_ : bool;
  pending : option read_op;
  inbuf : list byte;                (* bytes of the pending async_read *)
  strand : list tcp_post;
  writes : list (list byte);        (* unsent bytes of each async_write *)
  wire : list byte;                 (* bytes handed to the peer *)
  trace : list tcp_out
}.
Arguments tlsSession_ {_}.
Arguments has_messageHandler {_}.
Arguments has_disconnectHandler {_}.
Arguments has_connectedHandler {_}.
Arguments currentMessage_ {_}.
Arguments disconnected_ {_}.
Arguments handshakeCompleted_ {_}.
Arguments pending {_}.
Arguments inbuf {_}.
Arguments strand {_}.
Arguments writes {_}.
Arguments wire {_}.
Arguments trace {_}.

Section tcp.
Context {Sess : Type} `{SS : SecureSession Sess}.
Abbreviation tcp := (TcpSession Sess).

Definition TcpSession_ctor (tls : option Sess) (on_msg on_disc on_conn : bool) : tcp := {|
  tlsSession_ := tls; has_messageHandler := on_msg; has_disconnectHandler := on_disc;
  has_connectedHandler := on_conn;
  currentMessage_ := {| msg_type := 0; msg_length := 0; msg_payload := [] |};
  disconnected_ := false; handshakeCompleted_ := false;
  pending := None; inbuf := []; strand := []; writes := []; wire := []; trace := []
|}.

(** *** Field updates *)
Definition set_tls (t : option Sess) (s : tcp) : tcp := {|
  tlsSession_ := t; has_messageHandler := has_messageHandler s;
  has_disconnectHandler := has_disconnectHandler s;
  has_connectedHandler := has_connectedHandler s; currentMessage_ := currentMessage_ s;
  disconnected_ := disconnected_ s; handshakeCompleted_ := handshakeCompleted_ s;
  pending := pending s; inbuf := inbuf s; strand := strand s; writes := writes s;
  wire := wire s; trace := trace s
|}.

Definition set_message (m : Message) (s : tcp) : tcp := {|
  tlsSession_ := tlsSession_ s; has_messageHandler := has_messageHandler s;
  has_disconnectHandler := has_disconnectHandler s;
  has_connectedHandler := has_connectedHandler s; currentMessage_ := m;
  disconnected_ := disconnected_ s; handshakeCompleted_ := handshakeCompleted_ s;
  pending := pending s; inbuf := inbuf s; strand := strand s; writes := writes s;
  wire := wire s; trace := trace s
|}.

Definition set_flags (d h : bool) (s : tcp) : tcp := {|
  tlsSession_ := tlsSession_ s; has_messageHandler := has_messageHandler s;
  has_disconnectHandler := has_disconnectHandler s;
  has_connectedHandler := has_connectedHandler s; currentMessage_ := currentMessage_ s;
  disconnected_ := d; handshakeCompleted_ := h;
  pending := pending s; inbuf := inbuf s; strand := strand s; writes := writes s;
  wire := wire s; trace := trace s
|}.

Definition set_read (p : option read_op) (b : list byte) (s : tcp) : tcp := {|
  tlsSession_ := tlsSession_ s; has_messageHandler := has_messageHandler s;
  has_disconnectHandler := has_disconnectHandler s;
  has_connectedHandler := has_connectedHandler s; currentMessage_ := currentMessage_ s;
  disconnected_ := disconnected_ s; handshakeCompleted_ := handshakeCompleted_ s;
  pending := p; inbuf := b; strand := strand s; writes := writes s;
  wire := wire s; trace := trace s
|}.

Definition set_output (st : list tcp_post) (w : list (list byte)) (wi : list byte) (s : tcp)
    : tcp := {|
  tlsSession_ := tlsSession_ s; has_messageHandler := has_messageHandler s;
  has_disconnectHandler := has_disconnectHandler s;
  has_connectedHandler := has_connectedHandler s; currentMessage_ := currentMessage_ s;
  disconnected_ := disconnected_ s; handshakeCompleted_ := handshakeCompleted_ s;
  pending := pending s; inbuf := inbuf s; strand := st; writes := w;
  wire := wi; trace := trace s
|}.

Definition emit (o : tcp_out) (s : tcp) : tcp := {|
  tlsSession_ := tlsSession_ s; has_messageHandler := has_messageHandler s;
  has_disconnectHandler := has_disconnectHandler s;
  has_connectedHandler := has_connectedHandler s; currentMessage_ := currentMessage_ s;
  disconnected_ := disconnected_ s; handshakeCompleted_ := handshakeCompleted_ s;
  pending := pending s; inbuf := inbuf s; strand := strand s; writes := writes s;
  wire := wire s; trace := trace s ++ [o]
|}.

Definition post (p : tcp_post) (s : tcp) : tcp :=
  set_output (strand s ++ [p]) (writes s) (wire s) s.

Definition async_write (buf : list byte) (s : tcp) : tcp :=
  set_output (strand s) (writes s ++ [buf]) (wire s) s.

(** *** Operations *)

Definition close (s : tcp) : tcp := emit CloseSocket s.

Definition handleDisconnect (s : tcp) : tcp :=
  if disconnected_ s then s
  else
    let s := set_flags true (handshakeCompleted_ s) s in
    let s := close s in
    if has_disconnectHandler s then emit OnDisconnect s else s.

(** The frame of a type and a payload: five header bytes and the payload. *)
Definition frame (type : Z) (payload : list byte) : list byte :=
  packet_header type (Z.of_nat (length payload)) ++ payload.

Definition handleTlsOutput (s : tcp) : tcp :=
  match tlsSession_ s with
  | None => s
  | Some d =>
      let '(response, d) := sec_handshake d [] in
      let s := set_tls (Some d) s in
      if decide (response = []) then s
      else post (PostWrite (frame (mt_value TLS_HANDSHAKE) response)) s
  end.

Definition readHeader (s : tcp) : tcp := set_read (Some ReadHeader) [] s.
Definition readBody (s : tcp) : tcp := set_read (Some ReadBody) [] s.

Definition start (s : tcp) : tcp :=
  let s := match tlsSession_ s with
           | None => if has_connectedHandler s then emit OnConnected s else s
           | Some _ => handleTlsOutput s
           end in
  readHeader s.

Definition sendMessage (m : Message) (s : tcp) : tcp := post (PostSend m) s.

(** The posted part of [sendMessage]. *)
Definition run_send (m : Message) (s : tcp) : tcp :=
  let '(finalPayload, s) :=
    match tlsSession_ s with
    | Some d =>
        if decide (0 < msg_length m)%Z then
          let '(out, d) := sec_encrypt d (take (Z.to_nat (msg_length m)) (msg_payload m)) in
          (out, set_tls (Some d) s)
        else (msg_payload m, s)
    | None => (msg_payload m, s)
    end in
  async_write (frame (msg_type m) finalPayload) s.

Definition is_handshake_type (t : Z) : bool := bool_decide (t = mt_value TLS_HANDSHAKE).

Definition deliver (s : tcp) : tcp :=
  if has_messageHandler s then emit (OnMessage (currentMessage_ s)) s else s.

(** [vector::resize]: cut, or extended with zeros. *)
Definition resize_bytes (n : nat) (l : list byte) : list byte :=
  take n l ++ replicate (n - length l) (byte_of_Z 0).

(** The completion of [readHeader]'s read, without error. *)
Definition header_read (hdr : list byte) (s : tcp) : tcp :=
  match read_packet_header hdr with
  | None => s
  | Some (t, len) =>
      if decide (0 < len)%Z then
        (* payload.resize(length); readBody() *)
        readBody (set_message {| msg_type := t; msg_length := len;
                                 msg_payload := resize_bytes (Z.to_nat len)
                                                  (msg_payload (currentMessage_ s)) |} s)
      else
        let s := set_message {| msg_type := t; msg_length := len; msg_payload := [] |} s in
        let s := if bool_decide (is_Some (tlsSession_ s)) && is_handshake_type t
                 then handleTlsOutput s else deliver s in
        readHeader s
  end.

(** The completion of [readBody]'s read, without error. *)
Definition body_read (body : list byte) (s : tcp) : tcp :=
  let t := msg_type (currentMessage_ s) in
  let len := msg_length (currentMessage_ s) in
  match (if decide (0 < len)%Z then tlsSession_ s else None) with   (* tlsSession_ && length > 0 *)
  | Some d =>
      let '(plain, d) := sec_decrypt d body in
      let s := set_tls (Some d) s in
      let s := set_message {| msg_type := t; msg_length := wrap32 (Z.of_nat (length plain));
                              msg_payload := plain |} s in
      let s := handleTlsOutput s in
      if is_handshake_type t then
        let s :=
          if match tlsSession_ s with Some d => sec_done d | None => false end
             && negb (handshakeCompleted_ s)
          then
            let s := set_flags (disconnected_ s) true s in
            if has_connectedHandler s then emit OnConnected s else s
          else s in
        readHeader s
      else
        let s := if decide (0 < msg_length (currentMessage_ s))%Z then deliver s else s in
        readHeader s
  | None =>
      let s := set_message {| msg_type := t; msg_length := len; msg_payload := body |} s in
      let s := if decide (0 < len)%Z then deliver s else s in
      readHeader s
  end.

(** One byte of the stream: an [async_read] completes when it has exactly the
    bytes it asked for. *)
Definition read_size (s : tcp) (op : read_op) : Z :=
  match op with ReadHeader => 5 | ReadBody => msg_length (currentMessage_ s) end.

Definition recv_byte (s : tcp) (b : byte) : tcp :=
  match pending s with
  | None => s
  | Some op =>
      let buf := inbuf s ++ [b] in
      if (Z.of_nat (length buf) =? read_size s op)%Z then
        match op with ReadHeader => header_read buf s | ReadBody => body_read buf s end
      else set_read (Some op) buf s
  end.

(** *** Events *)
Inductive tcp_event : Type :=
| Recv (chunk : list byte)            (* bytes arrive *)
| ReadError                           (* the pending read fails *)
| RunPosted                           (* the next handler of the strand *)
| WireWrite (k n : nat)               (* n bytes of the k-th write are sent *)
| WriteError (k : nat)                (* the k-th write fails *)
| Send (m : Message)                  (* sendMessage from the application *)
| Close.                              (* close() from the application *)

Definition tcp_handle (s : tcp) (e : tcp_event) : tcp :=
  match e with
  | Recv chunk => foldl recv_byte s chunk
  | ReadError =>
      match pending s with
      | Some _ => handleDisconnect (set_read None [] s)
      | None => s
      end
  | RunPosted =>
      match strand s with
      | [] => s
      | p :: rest =>
          let s := set_output rest (writes s) (wire s) s in
          match p with PostSend m => run_send m s | PostWrite buf => async_write buf s end
      end
  | WireWrite k n =>
      match writes s !! k with
      | None => s
      | Some buf =>
          let rest := drop n buf in
          let ws := if decide (rest = []) then delete k (writes s)
                    else <[k := rest]> (writes s) in
          set_output (strand s) ws (wire s ++ take n buf) s
      end
  | WriteError k =>
      match writes s !! k with
      | None => s
      | Some _ => handleDisconnect (set_output (strand s) (delete k (writes s)) (wire s) s)
      end
  | Send m => sendMessage m s
  | Close => close s
  end.

Definition tcp_run (es : list tcp_event) (s : tcp) : tcp := foldl tcp_handle s es.

End tcp.

(** ** Lemmas: framing *)

(** A message whose fields fit their types and whose length is its payload's. *)
Definition wf_message (m : Message) : Prop :=
  is_u8 (msg_type m) ∧ is_u32 (msg_length m) ∧
  msg_length m = Z.of_nat (length (msg_payload m)).

Definition message_frame (m : Message) : list byte := frame (msg_type m) (msg_payload m).

Section framing.
Context {Sess : Type} `{SS : SecureSession Sess}.
Abbreviation tcp := (TcpSession Sess).

Lemma recv_prefix op bs (s : tcp) :
  pending s = Some op → (Z.of_nat (length (inbuf s ++ bs)) < read_size s op)%Z →
  foldl recv_byte s bs = set_read (Some op) (inbuf s ++ bs) s.
Proof.
  intros Hp. induction bs as [|b bs IH] using rev_ind; intros Hlen.
  - rewrite app_nil_r. destruct s. cbn in *. by subst.
  - rewrite app_assoc, length_app in Hlen. cbn [length] in Hlen.
    rewrite foldl_app, IH by lia. cbn [foldl]. unfold recv_byte. cbn [pending inbuf set_read].
    rewrite length_app. cbn [length].
    change (read_size (set_read _ _ _) op) with (read_size s op).
    rewrite (proj2 (Z.eqb_neq _ _)) by lia. by rewrite app_assoc.
Qed.

Lemma recv_exact op bs b (s : tcp) :
  pending s = Some op → inbuf s = [] → Z.of_nat (length (bs ++ [b])) = read_size s op →
  foldl recv_byte s (bs ++ [b])
  = match op with
    | ReadHeader => header_read (bs ++ [b]) (set_read (Some op) bs s)
    | ReadBody => body_read (bs ++ [b]) (set_read (Some op) bs s)
    end.
Proof.
  intros Hp Hb Hlen. rewrite length_app in Hlen. cbn [length] in Hlen.
  rewrite foldl_app, (recv_prefix op bs s) by first [done | rewrite Hb; cbn [app]; lia].
  rewrite Hb. cbn [foldl app]. unfold recv_byte. cbn [pending inbuf set_read].
  rewrite length_app. cbn [length].
  change (read_size (set_read _ _ _) op) with (read_size s op).
  by rewrite (proj2 (Z.eqb_eq _ _)) by lia.
Qed.

(** A session waiting for a header. *)
Definition ready (s : tcp) : Prop :=
  has_messageHandler s = true ∧ pending s = Some ReadHeader ∧ inbuf s = [].

(** A plain session waiting for a header. *)
Definition idle (s : tcp) : Prop := tlsSession_ s = None ∧ ready s.

(** What one frame means to a session, without the reads: the message it
    delivers, if any, and the TLS session it leaves. *)
Definition open_record (t : option Sess) (r : Z * list byte) : option Message * option Sess :=
  match t, r.2 with
  | Some d, _ :: _ =>
      let '(plain, d) := sec_decrypt d r.2 in
      let len := wrap32 (Z.of_nat (length plain)) in
      (if decide (0 < len)%Z
       then Some {| msg_type := r.1; msg_length := len; msg_payload := plain |} else None,
       Some (sec_handshake d []).2)
  | _, body =>
      (Some {| msg_type := r.1; msg_length := Z.of_nat (length body); msg_payload := body |}, t)
  end.

Fixpoint open_records (t : option Sess) (rs : list (Z * list byte)) : list Message * option Sess :=
  match rs with
  | [] => ([], t)
  | r :: rs =>
      let '(m, t) := open_record t r in
      let '(ms, t) := open_records t rs in (option_list m ++ ms, t)
  end.

(** A frame of the application: its fields fit their types, and it is no
    handshake of a TLS session. *)
Definition application_record (tls : bool) (r : Z * list byte) : Prop :=
  is_u8 r.1 ∧ is_u32 (Z.of_nat (length r.2)) ∧ (tls = true → r.1 ≠ mt_value TLS_HANDSHAKE).

Definition has_tls (s : tcp) : bool := bool_decide (is_Some (tlsSession_ s)).

Definition record_frame (r : Z * list byte) : list byte := frame r.1 r.2.

(** The body of a record, read by a session that waits for it. *)
Lemma read_record r (s : tcp) :
  r.2 ≠ [] → has_messageHandler s = true → application_record (has_tls s) r →
  msg_type (currentMessage_ s) = r.1 → msg_length (currentMessage_ s) = Z.of_nat (length r.2) →
  let s' := body_read r.2 s in
  ready s' ∧ tlsSession_ s' = (open_record (tlsSession_ s) r).2 ∧
  trace s' = trace s ++ (OnMessage <$> option_list (open_record (tlsSession_ s) r).1).
Proof.
  destruct r as [ty body]. cbn. intros Hb Hh (_ & _ & Hty) Ht Hl. cbn in Hty.
  destruct s as [tls hm hd hc cm dis hs pe ib st ws wi tr]. cbn in *. subst hm.
  unfold body_read, open_record. cbn [tlsSession_ currentMessage_ fst snd]. rewrite Ht, Hl.
  destruct body as [|b body]; [done|]. rewrite decide_True by (cbn [length]; lia). destruct tls as [d|].
  - destruct (sec_decrypt d (b :: body)) as [plain d1]. unfold handleTlsOutput. cbn.
    destruct (sec_handshake d1 []) as [resp d2]. unfold is_handshake_type, has_tls in *.
    rewrite bool_decide_false by by apply Hty.
    destruct (decide (resp = [])); cbn; case_decide; cbn; rewrite ?app_nil_r; by repeat split.
  - cbn. by repeat split.
Qed.

Lemma recv_record r (s : tcp) :
  ready s → application_record (has_tls s) r →
  let s' := foldl recv_byte s (record_frame r) in
  ready s' ∧ tlsSession_ s' = (open_record (tlsSession_ s) r).2 ∧
  trace s' = trace s ++ (OnMessage <$> option_list (open_record (tlsSession_ s) r).1).
Proof.
  destruct r as [ty body]. intros (Hh & Hp & Hi) Hr. pose proof Hr as (Hty & Hlen & Hhs). cbn zeta.
  cbn [fst snd] in *. unfold record_frame, frame. cbn [fst snd]. rewrite foldl_app.
  set (hdr := packet_header _ _).
  change hdr with (removelast hdr ++ [List.last hdr x00]).
  rewrite (recv_exact ReadHeader) by done.
  change (removelast hdr ++ [List.last hdr x00]) with hdr.
  set (s0 := set_read _ _ s). unfold header_read.
  pose proof (read_packet_header_app ty (Z.of_nat (length body)) []) as Hd.
  rewrite app_nil_r in Hd. fold hdr in Hd. rewrite Hd, wrap8_id, wrap32_id by done.
  destruct body as [|b body].
  - rewrite decide_False by done. unfold deliver, is_handshake_type. cbn [length].
    change (tlsSession_ (set_message _ s0)) with (tlsSession_ s). fold (has_tls s).
    replace (has_tls s && _) with false.
    2: { destruct (has_tls s); [|done]. cbn. symmetry. apply bool_decide_false. by apply Hhs. }
    destruct s as [tls hm hd hc cm dis hs pe ib st ws wi tr]. cbn in *. subst.
    destruct tls; cbn; by repeat split.
  - rewrite decide_True by (cbn; lia).
    destruct (exists_last (l := b :: body)) as (q & y & Hq); [done|]. rewrite Hq in *.
    rewrite (recv_exact ReadBody); [|done..].
    set (s1 := set_read _ _ _). apply (read_record (ty, q ++ [y]) s1); try done. by destruct q.
Qed.

Lemma open_record_tls t r : is_Some (open_record t r).2 ↔ is_Some t.
Proof.
  destruct t as [d|], r as [ty [|b body]]; cbn; try done.
  destruct (sec_decrypt d (b :: body)) as [plain d1]. cbn. by split.
Qed.

Lemma recv_records rs (s : tcp) :
  ready s → Forall (application_record (has_tls s)) rs →
  let s' := foldl recv_byte s (rs ≫= record_frame) in
  ready s' ∧ tlsSession_ s' = (open_records (tlsSession_ s) rs).2 ∧
  trace s' = trace s ++ (OnMessage <$> (open_records (tlsSession_ s) rs).1).
Proof.
  revert s. induction rs as [|r rs IH]; intros s Hs Hrs; cbn zeta.
  - cbn. by rewrite app_nil_r.
  - apply Forall_cons in Hrs as [Hr Hrs]. rewrite bind_cons, foldl_app. cbn [open_records].
    destruct (recv_record r s Hs Hr) as (Hs1 & Ht1 & Htr1). cbn zeta in *.
    set (s1 := foldl _ s _) in *. destruct (IH s1 Hs1) as (Hs2 & Ht2 & Htr2).
    { unfold has_tls in *. rewrite Ht1. by rewrite (bool_decide_ext _ _ (open_record_tls _ r)). }
    cbn zeta in *. rewrite Ht1 in Ht2, Htr2. destruct (open_record _ r) as [m t]. cbn [fst snd] in *.
    destruct (open_records t rs) as [ms t']. cbn [fst snd] in *.
    split_and!; [done|done|]. by rewrite Htr2, Htr1, fmap_app, app_assoc.
Qed.

(** A plain session delivers every well-formed message as it is. *)
Definition message_record (m : Message) : Z * list byte := (msg_type m, msg_payload m).

Lemma open_plain ms :
  Forall wf_message ms → open_records None (message_record <$> ms) = (ms, None).
Proof.
  induction 1 as [|m ms (_ & _ & Hl) _ IH]; [done|]. cbn. rewrite IH. cbn.
  destruct m. cbn in *. by subst.
Qed.

Lemma message_frames ms : ms ≫= message_frame = (message_record <$> ms) ≫= record_frame.
Proof. induction ms as [|m ms IH]; [done|]. cbn [fmap list_fmap]. by rewrite !bind_cons, IH. Qed.

Lemma message_application m : wf_message m → application_record false (message_record m).
Proof. intros (Ht & Hl & He). split_and!; [done|by rewrite He in Hl|done]. Qed.

Lemma recv_frames ms (s : tcp) :
  idle s → Forall wf_message ms →
  let s' := foldl recv_byte s (ms ≫= message_frame) in
  idle s' ∧ trace s' = trace s ++ (OnMessage <$> ms).
Proof.
  intros [Ht Hs] Hms. cbn zeta.
  destruct (recv_records (message_record <$> ms) s) as (Hs' & Ht' & Htr); [done| |].
  { unfold has_tls. rewrite Ht. apply Forall_fmap. eapply Forall_impl; [exact Hms|].
    apply message_application. }
  cbn zeta in *. rewrite Ht, open_plain in Ht', Htr by done.
  rewrite message_frames. split; [by split|exact Htr].
Qed.

(** Only the bytes count, not how they are cut into chunks. *)
Lemma recv_chunks chunks (s : tcp) :
  tcp_run (Recv <$> chunks) s = foldl recv_byte s (concat chunks).
Proof.
  revert s. induction chunks as [|c cs IH]; intros s; [done|].
  unfold tcp_run in *. cbn. by rewrite foldl_app, IH.
Qed.

Lemma tcp_run_app es es' (s : tcp) : tcp_run (es ++ es') s = tcp_run es' (tcp_run es s).
Proof. apply foldl_app. Qed.

Lemma wire_write k n (s : tcp) buf :
  writes s !! k = Some buf →
  tcp_handle s (WireWrite k n)
  = set_output (strand s)
      (if decide (drop n buf = []) then delete k (writes s)
       else <[k := drop n buf]> (writes s))
      (wire s ++ take n buf) s.
Proof. intros H. cbn. by rewrite H. Qed.

(** Two messages sent without waiting: both writes are outstanding. *)
Lemma two_sends m1 m2 (s : tcp) :
  tlsSession_ s = None → strand s = [] → writes s = [] →
  tcp_run [Send m1; Send m2; RunPosted; RunPosted] s
  = set_output [] [message_frame m1; message_frame m2] (wire s) s.
Proof.
  destruct s as [tls hm hd hc cm dis hs pe ib st ws wi tr]. cbn. by intros -> -> ->.
Qed.

(** Sending one message with nothing else outstanding. *)
Definition serial_send (m : Message) : list tcp_event :=
  [Send m; RunPosted; WireWrite 0 (5 + length (msg_payload m))].

Lemma serial_sends ms (s : tcp) :
  tlsSession_ s = None → strand s = [] → writes s = [] →
  wire (tcp_run (ms ≫= serial_send) s) = wire s ++ (ms ≫= message_frame).
Proof.
  revert s. induction ms as [|m ms IH]; intros s Ht Hst Hw.
  - cbn. by rewrite app_nil_r.
  - rewrite !bind_cons. unfold tcp_run in *. rewrite foldl_app.
    assert (foldl tcp_handle s (serial_send m)
            = set_output [] [] (wire s ++ message_frame m) s) as ->.
    { destruct s as [tls hm hd hc cm dis hs pe ib st ws wi tr]. cbn in Ht, Hst, Hw. subst.
      unfold serial_send. cbn [foldl tcp_handle]. unfold run_send. cbn.
      rewrite drop_ge by lia. rewrite decide_True by done.
      by rewrite take_ge by lia. }
    rewrite IH by done. cbn. by rewrite <-app_assoc.
Qed.
End framing.

(** ** Lemmas: callbacks *)

Definition is_disconnect (o : tcp_out) : bool :=
  match o with OnDisconnect => true | _ => false end.
Definition is_connected (o : tcp_out) : bool :=
  match o with OnConnected => true | _ => false end.

Definition countb {A} (p : A → bool) (l : list A) : nat := length (List.filter p l).
#[global] Arguments countb : simpl never.

Lemma countb_snoc {A} (p : A → bool) l x : countb p (l ++ [x]) = countb p l + Nat.b2n (p x).
Proof. unfold countb. rewrite List.filter_app, length_app. cbn. by destruct (p x). Qed.

(** A message without content says nothing. *)
Definition quiet (o : tcp_out) : Prop :=
  match o with OnMessage m => msg_payload m = [] | _ => True end.

Section callbacks.
Context {Sess : Type} `{SS : SecureSession Sess}.
Abbreviation tcp := (TcpSession Sess).

(** A session step keeps a finished handshake, by the laws. *)
Definition tls_advances (t t' : option Sess) : Prop :=
  match t, t' with
  | Some d, Some d' => SecureLaws Sess → sec_done d = true → sec_done d' = true
  | None, None => True
  | _, _ => False
  end.

Definition tls_done (s : tcp) : bool :=
  match tlsSession_ s with Some d => sec_done d | None => false end.

Lemma handleTlsOutput_shape (s : tcp) :
  ∃ t st, handleTlsOutput s = set_output st (writes s) (wire s) (set_tls t s) ∧
          tls_advances (tlsSession_ s) t.
Proof.
  unfold handleTlsOutput. destruct s as [[d|] hm hd hc cm dis hs pe ib st ws wi tr]; cbn.
  - pose proof (λ SL : SecureLaws Sess, sec_handshake_done d []) as Hd. destruct (sec_handshake d []) as [out d'].
    exists (Some d'). case_decide; eexists; by split.
  - by exists None, st.
Qed.

(** The callbacks counted, and, by the laws, what an unfinished handshake has let
    through. *)
Definition callbacks_ok (s : tcp) : Prop :=
  countb is_disconnect (trace s) = Nat.b2n (disconnected_ s && has_disconnectHandler s) ∧
  countb is_connected (trace s)
  = Nat.b2n (has_connectedHandler s &&
             (match tlsSession_ s with None => true | Some _ => handshakeCompleted_ s end)) ∧
  (SecureLaws Sess → is_Some (tlsSession_ s) → tls_done s = false → Forall quiet (trace s)).

Ltac open_session :=
  let s := fresh "s" in
  intros s; destruct s as [tls hm hd hc cm dis hs pe ib st ws wi tr]; cbn.

Lemma quiet_snoc o (l : list tcp_out) : quiet o → Forall quiet l → Forall quiet (l ++ [o]).
Proof. intros Ho Hl. apply Forall_app. split; [done|]. by constructor. Qed.

(** The invariant speaks of these fields only. *)
Lemma callbacks_ok_ext (s s' : tcp) :
  trace s' = trace s → disconnected_ s' = disconnected_ s →
  handshakeCompleted_ s' = handshakeCompleted_ s →
  has_disconnectHandler s' = has_disconnectHandler s →
  has_connectedHandler s' = has_connectedHandler s →
  tls_advances (tlsSession_ s) (tlsSession_ s') →
  callbacks_ok s → callbacks_ok s'.
Proof.
  intros Ht Hd Hh Hhd Hhc Ha (H1 & H2 & H3). unfold callbacks_ok, tls_done in *.
  rewrite Ht, Hd, Hh, Hhd, Hhc.
  destruct (tlsSession_ s) as [d|], (tlsSession_ s') as [d'|]; try done. cbn in Ha.
  split_and!; [done|done|]. intros SL _ Hf. apply H3; [done|done|].
  destruct (sec_done d); [|done]. by rewrite Ha in Hf.
Qed.

Lemma tls_advances_refl t : tls_advances t t.
Proof. by destruct t; cbn. Qed.

Hint Resolve tls_advances_refl : core.

Lemma callbacks_tlsOutput s : callbacks_ok s → callbacks_ok (handleTlsOutput s).
Proof.
  intros H. destruct (handleTlsOutput_shape s) as (t & st & -> & Ha).
  by apply (callbacks_ok_ext s).
Qed.

(** A message may be delivered without content, or once the handshake is done. *)
Lemma callbacks_deliver s :
  msg_payload (currentMessage_ s) = [] ∨ (SecureLaws Sess → is_Some (tlsSession_ s) → tls_done s = true) →
  callbacks_ok s → callbacks_ok (deliver s).
Proof.
  intros Hm (H1 & H2 & H3). unfold deliver.
  destruct (has_messageHandler s) eqn:Hh; [|done].
  unfold callbacks_ok, tls_done in *. cbn. rewrite !countb_snoc. cbn.
  rewrite !Nat.add_0_r. split_and!; [done|done|].
  intros SL Hs Hf. destruct Hm as [Hm|Hm]; [|rewrite Hm in Hf by done; done].
  apply quiet_snoc; [done|by apply H3].
Qed.

Lemma callbacks_disconnect s : callbacks_ok s → callbacks_ok (handleDisconnect s).
Proof.
  intros (H1 & H2 & H3). unfold handleDisconnect.
  destruct (disconnected_ s) eqn:Hd; [by unfold callbacks_ok; rewrite Hd|].
  unfold callbacks_ok, tls_done in *. cbn. rewrite ?Hd in H1. cbn in H1.
  destruct (has_disconnectHandler s) eqn:Hh; cbn; rewrite ?countb_snoc, H1, H2; cbn;
    rewrite ?Hh, ?Nat.add_0_r; split_and!; try done;
    intros SL Hs Hf; repeat apply quiet_snoc; try done; by apply H3.
Qed.

Lemma callbacks_connected s :
  callbacks_ok s → tls_done s = true → handshakeCompleted_ s = false →
  let s1 := set_flags (disconnected_ s) true s in
  callbacks_ok (if has_connectedHandler s1 then emit OnConnected s1 else s1).
Proof.
  intros (H1 & H2 & H3) Hd Hh. cbn zeta.
  unfold callbacks_ok, tls_done in *. destruct (tlsSession_ s) as [d|] eqn:Ht; [|done].
  rewrite Hh, andb_false_r in H2. cbn in H2. cbn [has_connectedHandler set_flags].
  destruct (has_connectedHandler s) eqn:Hc; cbn; rewrite ?Ht, ?Hc, ?countb_snoc, H1, H2; cbn;
    rewrite ?Nat.add_0_r; split_and!; try done; by rewrite Hd.
Qed.

Lemma callbacks_header hdr s : callbacks_ok s → callbacks_ok (header_read hdr s).
Proof.
  intros H. unfold header_read. destruct (read_packet_header hdr) as [[t len]|]; [|done].
  case_decide; [by apply (callbacks_ok_ext s)|].
  set (s1 := set_message _ s). assert (callbacks_ok s1) as H1 by by apply (callbacks_ok_ext s).
  case_match.
  - apply (callbacks_ok_ext (handleTlsOutput s1)); try done. by apply callbacks_tlsOutput.
  - apply (callbacks_ok_ext (deliver s1)); try done. apply callbacks_deliver; [by left|done].
Qed.

Lemma callbacks_body body s : callbacks_ok s → callbacks_ok (body_read body s).
Proof.
  intros H. unfold body_read. destruct (if decide (0 < msg_length (currentMessage_ s))%Z then tlsSession_ s else None) as [d|] eqn:Hg.
  - assert (tlsSession_ s = Some d) as Ht by (by case_decide). clear Hg.
    pose proof (λ SL : SecureLaws Sess, sec_decrypt_done d body) as Hd.
    pose proof (λ SL : SecureLaws Sess, sec_decrypt_plain d body) as Hp.
    destruct (sec_decrypt d body) as [plain d']. cbn [fst snd] in Hd, Hp.
    set (m := {| msg_payload := plain |}). set (s1 := set_message m _).
    assert (callbacks_ok s1) as H1 by (apply (callbacks_ok_ext s); try done; by rewrite Ht).
    pose proof (callbacks_tlsOutput _ H1) as H2.
    destruct (handleTlsOutput_shape s1) as (t & st & Hs2 & Ha). rewrite Hs2 in H2 |- *.
    set (s2 := set_output _ _ _ _) in *. cbn in Ha. destruct t as [d2|]; [|done].
    case_match.
    + set (s3 := if _ && _ then _ else s2).
      apply (callbacks_ok_ext s3); try done. unfold s3. clear s3.
      destruct (sec_done d2) eqn:Hd2, (handshakeCompleted_ s2) eqn:Hh;
        cbn [tlsSession_ s2 set_output set_tls andb negb]; rewrite ?Hd2; try done.
      by apply callbacks_connected.
    + set (s3 := if decide _ then _ else s2).
      apply (callbacks_ok_ext s3); try done. unfold s3. case_decide as Hlen; [|done].
      apply callbacks_deliver; [|done]. right. intros SL _. unfold tls_done. cbn.
      apply (Ha SL), (Hp SL). cbn in Hlen. by destruct plain.
  - set (s1 := set_message _ s). assert (callbacks_ok s1) as H1 by by apply (callbacks_ok_ext s).
    set (s2 := if decide _ then _ else s1).
    apply (callbacks_ok_ext s2); try done. unfold s2. case_decide; [|done].
    apply callbacks_deliver; [|done]. right. cbn. rewrite Hg. by intros _ [? [=]].
Qed.

Lemma callbacks_byte b s : callbacks_ok s → callbacks_ok (recv_byte s b).
Proof.
  intros H. unfold recv_byte. destruct (pending s) as [op|]; [|done].
  case_match; [|by apply (callbacks_ok_ext s)].
  destruct op; [by apply callbacks_header|by apply callbacks_body].
Qed.

Lemma callbacks_send m s : callbacks_ok s → callbacks_ok (run_send m s).
Proof.
  intros H. unfold run_send. destruct (tlsSession_ s) as [d|] eqn:Ht;
    [|apply (callbacks_ok_ext s); try done].
  case_decide; [|by apply (callbacks_ok_ext s)].
  set (buf := take _ _). pose proof (λ SL : SecureLaws Sess, sec_encrypt_done d buf) as Hd.
  destruct (sec_encrypt d buf) as [out d']. apply (callbacks_ok_ext s); try done. by rewrite Ht.
Qed.

Lemma callbacks_event e s : callbacks_ok s → callbacks_ok (tcp_handle s e).
Proof.
  intros H. destruct e as [chunk| | |k n|k|m|]; cbn.
  - revert s H. induction chunk as [|b l IH]; intros s H; [done|]. by apply IH, callbacks_byte.
  - destruct (pending s); [|done]. apply callbacks_disconnect. by apply (callbacks_ok_ext s).
  - destruct (strand s) as [|p rest]; [done|].
    set (s1 := set_output rest _ _ s).
    assert (callbacks_ok s1) by by apply (callbacks_ok_ext s).
    destruct p; [by apply callbacks_send|by apply (callbacks_ok_ext s1)].
  - destruct (writes s !! k); [|done]. by apply (callbacks_ok_ext s).
  - destruct (writes s !! k); [|done]. apply callbacks_disconnect. by apply (callbacks_ok_ext s).
  - by apply (callbacks_ok_ext s).
  - destruct H as (H1 & H2 & H3). unfold callbacks_ok, tls_done in *. cbn.
    rewrite !countb_snoc. cbn. rewrite !Nat.add_0_r. split_and!; try done.
    intros SL Hs Hf. apply quiet_snoc; [done|by apply H3].
Qed.

Lemma callbacks_start tls on_msg on_disc on_conn :
  callbacks_ok (start (TcpSession_ctor tls on_msg on_disc on_conn)).
Proof.
  unfold start. cbn [tlsSession_ TcpSession_ctor]. destruct tls as [d|].
  - set (s := TcpSession_ctor _ _ _ _).
    apply (callbacks_ok_ext (handleTlsOutput s)); try done.
    apply callbacks_tlsOutput. unfold callbacks_ok. cbn. rewrite andb_false_r. by split_and!.
  - destruct on_conn; split_and!; cbn; done.
Qed.

Lemma callbacks_run es s : callbacks_ok s → callbacks_ok (tcp_run es s).
Proof.
  revert s. induction es as [|e es IH]; intros s H; [done|]. by apply IH, callbacks_event.
Qed.

(** *** When the handshake completes *)

Lemma handleTlsOutput_completed (s : tcp) : handshakeCompleted_ (handleTlsOutput s) = handshakeCompleted_ s.
Proof. by destruct (handleTlsOutput_shape s) as (t & st & -> & _). Qed.

Lemma deliver_completed (s : tcp) : handshakeCompleted_ (deliver s) = handshakeCompleted_ s.
Proof. unfold deliver. by destruct (has_messageHandler s). Qed.

Lemma disconnect_completed (s : tcp) : handshakeCompleted_ (handleDisconnect s) = handshakeCompleted_ s.
Proof. unfold handleDisconnect. destruct (disconnected_ s); [done|]. cbn. by destruct (has_disconnectHandler s). Qed.

(** Only the end of a frame completes it, and the TLS session says so then. *)
Lemma completes_byte b (s : tcp) :
  handshakeCompleted_ s = false → handshakeCompleted_ (recv_byte s b) = true → tls_done (recv_byte s b) = true.
Proof.
  intros Hf. unfold recv_byte. destruct (pending s) as [op|]; [|intros; congruence]. case_match; [|cbn; intros; congruence].
  destruct op.
  - unfold header_read. destruct (read_packet_header _) as [[t len]|]; [|intros; congruence]. case_decide; [cbn; intros; congruence|].
    case_match; cbn [readHeader set_read handshakeCompleted_];
      rewrite ?handleTlsOutput_completed, ?deliver_completed; cbn; intros; congruence.
  - unfold body_read. destruct (if decide _ then tlsSession_ s else None) as [d|].
    + destruct (sec_decrypt d _) as [plain d']. set (s1 := set_message _ _).
      pose proof (handleTlsOutput_completed s1) as Hs1. destruct (handleTlsOutput_shape s1) as (t & st & E & _).
      rewrite E in *. set (s2 := set_output _ _ _ _) in *.
      assert (handshakeCompleted_ s2 = false) as H2 by (rewrite Hs1; exact Hf). case_match.
      * rewrite H2, andb_true_r. destruct (match tlsSession_ s2 with Some d => sec_done d | None => false end) eqn:Hd.
        -- unfold tls_done. intros _. set (s3 := if has_connectedHandler _ then _ else _).
           assert (tlsSession_ s3 = tlsSession_ s2) as E3 by (unfold s3; by destruct (has_connectedHandler _)). cbn [readHeader set_read tlsSession_].
           by rewrite E3.
        -- cbn [readHeader set_read handshakeCompleted_]. intros; congruence.
      * cbn [readHeader set_read handshakeCompleted_]. case_decide; rewrite ?deliver_completed; intros; congruence.
    + set (s1 := set_message _ s). cbn [readHeader set_read handshakeCompleted_].
      case_decide; rewrite ?deliver_completed; cbn; intros; congruence.
Qed.

(** The byte of a run that completes the handshake. *)
Lemma completes_at es (s : tcp) :
  handshakeCompleted_ s = false → handshakeCompleted_ (tcp_run es s) = true →
  ∃ k c b c', es !! k = Some (Recv (c ++ b :: c')) ∧
    let before := tcp_run (take k es ++ [Recv c]) s in
    handshakeCompleted_ before = false ∧ handshakeCompleted_ (recv_byte before b) = true ∧
    tls_done (recv_byte before b) = true.
Proof.
  revert s. induction es as [|e es IH]; intros s Hf Ht; [cbn in Ht; congruence|].
  destruct (handshakeCompleted_ (tcp_handle s e)) eqn:He.
  - assert (∃ chunk, e = Recv chunk) as [chunk ->].
    { destruct e as [chunk| | |k n|k|m|]; [by exists chunk|exfalso; cbn in He..].
      - destruct (pending s); [rewrite disconnect_completed in He; cbn in He|]; congruence.
      - destruct (strand s) as [|[m|buf] rest]; [congruence| |cbn in He; congruence].
        unfold run_send in He. cbn in He. destruct (tlsSession_ s); [|cbn in He; congruence].
        case_decide; [destruct (sec_encrypt _ _)|]; cbn in He; congruence.
      - destruct (writes s !! k); cbn in He; congruence.
      - destruct (writes s !! k); [rewrite disconnect_completed in He; cbn in He|]; congruence.
      - congruence.
      - congruence. }
    exists 0. cbn [tcp_handle] in He. clear Ht IH. cbn [take lookup list_lookup Datatypes.app].
    assert (∃ c b c', chunk = c ++ b :: c' ∧ handshakeCompleted_ (foldl recv_byte s c) = false ∧
      handshakeCompleted_ (recv_byte (foldl recv_byte s c) b) = true) as (c & b & c' & -> & H1 & H2).
    { revert He. induction chunk as [|b c IH] using rev_ind; cbn; [congruence|]. rewrite foldl_app. cbn. intros He.
      destruct (handshakeCompleted_ (foldl recv_byte s c)) eqn:Hc; [|by exists c, b, []].
      destruct (IH eq_refl) as (c1 & b1 & c2 & -> & H1 & H2). exists c1, b1, (c2 ++ [b]). by rewrite <-app_assoc. }
    exists c, b, c'. split; [done|]. cbn. split_and!; [done|done|by apply completes_byte].
  - destruct (IH _ He Ht) as (k & c & b & c' & Hk & H1 & H2 & H3). exists (S k), c, b, c'. by split_and!.
Qed.
End callbacks.

(** ** Properties *)

(** Framing round trip: what one plain session sends, each write finishing
    before the next begins, another plain session that receives the bytes in any
    division into chunks delivers as exactly the same messages, in order, and
    then waits for the next header. *)
Theorem tcp_roundtrip {Sess : Type} `{SS : SecureSession Sess} (ms : list Message)
    (sender receiver : TcpSession Sess) (chunks : list (list byte)) :
  tlsSession_ sender = None → strand sender = [] → writes sender = [] → wire sender = [] →
  idle receiver → Forall wf_message ms →
  concat chunks = wire (tcp_run (ms ≫= serial_send) sender) →
  let r := tcp_run (Recv <$> chunks) receiver in
  trace r = trace receiver ++ (OnMessage <$> ms) ∧
  pending r = Some ReadHeader ∧ inbuf r = [].
Proof.
  intros Ht Hst Hw Hwi Hidle Hms Hch. cbn zeta.
  rewrite serial_sends, Hwi in Hch by done. rewrite recv_chunks, Hch. cbn [app].
  destruct (recv_frames ms receiver Hidle Hms) as [(_ & _ & Hp & Hi) ->]. done.
Qed.

Definition demo_tcp : TcpSession (TLS.Session (O := RefSSL)) :=
  TcpSession_ctor None true true true.

Definition demo_msgs : list Message :=
  [{| msg_type := 4; msg_length := 2; msg_payload := [x41; x42] |};
   {| msg_type := 7; msg_length := 0; msg_payload := [] |}]%Z.

Lemma tcp_roundtrip_witness :
  trace (tcp_run (Recv <$> [[x04]; [x02; x00; x00; x00; x41]; [x42; x07; x00; x00; x00; x00]])
           (start demo_tcp))
  = OnConnected :: (OnMessage <$> demo_msgs).
Proof.
  destruct (tcp_roundtrip demo_msgs demo_tcp (start demo_tcp)
              [[x04]; [x02; x00; x00; x00; x41]; [x42; x07; x00; x00; x00; x00]]) as [H _].
  - done.
  - done.
  - done.
  - done.
  - done.
  - unfold wf_message, is_u8, is_u32. repeat apply Forall_cons_2; [..|apply Forall_nil_2]; cbn;
      split_and!; lia.
  - reflexivity.
  - exact H.
Defined.

(** Concurrent writes: nothing keeps a second [async_write] from starting
    while the first is unfinished, so when two messages are sent without waiting,
    the second frame can enter the stream in the middle of the first at any
    point; and there are two well-formed messages that a peer then receives as
    something else. *)
Theorem tcp_writes_interleave {Sess : Type} `{SS : SecureSession Sess} :
  (∀ (m1 m2 : Message) (k : nat) (s : TcpSession Sess),
    tlsSession_ s = None → strand s = [] → writes s = [] → 0 < k < length (message_frame m1) →
    let es := [Send m1; Send m2; RunPosted; RunPosted; WireWrite 0 k;
               WireWrite 1 (length (message_frame m2)); WireWrite 0 (length (message_frame m1))] in
    let s' := tcp_run es s in
    writes s' = [] ∧
    wire s' = wire s ++ take k (message_frame m1) ++ message_frame m2
                     ++ drop k (message_frame m1)) ∧
  (∃ m1 m2 k, wf_message m1 ∧ wf_message m2 ∧ 0 < k < length (message_frame m1) ∧
    trace (tcp_run [Recv (take k (message_frame m1) ++ message_frame m2
                          ++ drop k (message_frame m1))]
             (start (TcpSession_ctor (Sess := Sess) None true false false)))
    ≠ [OnMessage m1; OnMessage m2]).
Proof.
  split.
  - intros m1 m2 k s Ht Hst Hw Hk. cbn zeta.
    set (f1 := message_frame m1) in *. set (f2 := message_frame m2) in *.
    match goal with |- context [tcp_run ?es s] =>
      change es with ([Send m1; Send m2; RunPosted; RunPosted] ++ drop 4 es) end.
    rewrite tcp_run_app. cbn [drop].
    rewrite two_sends by done. fold f1 f2. unfold tcp_run. cbn [foldl].
    assert (drop k f1 ≠ []) as Hd.
    { intros H%(f_equal length). rewrite length_drop in H. change (length []) with 0 in H. lia. }
    rewrite (wire_write 0 k _ f1), decide_False by done.
    rewrite (wire_write 1 _ _ f2), (drop_ge f2), (take_ge f2), decide_True by done.
    assert (length (drop k f1) ≤ length f1) as Hl by (rewrite length_drop; lia).
    rewrite (wire_write 0 _ _ (drop k f1)), (drop_ge (drop k f1)), (take_ge (drop k f1)),
      decide_True by done. cbn.
    split; [done|]. by rewrite <-!app_assoc.
  - exists {| msg_type := 4; msg_length := 1; msg_payload := [x41] |}.
    exists {| msg_type := 5; msg_length := 0; msg_payload := [] |}, 5.
    unfold wf_message, is_u8, is_u32. cbn. split_and!; try lia. done.
Qed.

(** C33. Callbacks run once: from a started session, over any sequence of events
    (bytes in any chunks, read and write errors, sends, closes), the disconnect
    callback has run exactly once if the session is disconnected and not at all
    otherwise, and the connected callback exactly once for a plain session and,
    for a TLS session, exactly when the handshake has completed.  That happened at
    one received byte: before it the callback had not run, and right after it the TLS
    session reported the handshake finished.  Nothing is asked of the TLS library. *)
Theorem tcp_callbacks_once {Sess : Type} `{SS : SecureSession Sess}
    (tls : option Sess) (on_msg on_disc on_conn : bool) (es : list tcp_event) :
  let s0 := start (TcpSession_ctor tls on_msg on_disc on_conn) in
  let s := tcp_run es s0 in
  countb is_disconnect (trace s) = Nat.b2n (disconnected_ s && has_disconnectHandler s) ∧
  countb is_connected (trace s)
  = Nat.b2n (has_connectedHandler s &&
             (match tlsSession_ s with None => true | Some _ => handshakeCompleted_ s end)) ∧
  (handshakeCompleted_ s = true →
   ∃ k c b c', es !! k = Some (Recv (c ++ b :: c')) ∧
     let before := tcp_run (take k es ++ [Recv c]) s0 in
     handshakeCompleted_ before = false ∧ tls_done (recv_byte before b) = true ∧
     countb is_connected (trace (recv_byte before b)) = Nat.b2n (has_connectedHandler (recv_byte before b)) ∧
     (is_Some (tlsSession_ before) → countb is_connected (trace before) = 0)).
Proof.
  cbn zeta. pose proof (callbacks_start tls on_msg on_disc on_conn) as H0. set (s0 := start _) in *.
  pose proof (λ es, callbacks_run es s0 H0) as Hrun. destruct (Hrun es) as (Hdisc & Hconn & _). split_and!; [exact Hdisc|exact Hconn|]. clear Hdisc Hconn.
  intros Hc. destruct (completes_at es s0) as (k & c & b & c' & Hk & H1 & H2 & H3); [|done|].
  { unfold s0, start. cbn [tlsSession_ TcpSession_ctor]. destruct tls as [d|].
    - cbn [readHeader set_read handshakeCompleted_]. by rewrite handleTlsOutput_completed.
    - by destruct on_conn. }
  exists k, c, b, c'. split; [done|]. cbn zeta in *. remember (tcp_run (take k es ++ [Recv c]) s0) as before eqn:Eb.
  assert (callbacks_ok before) as (_ & Hb & _) by (rewrite Eb; apply Hrun).
  assert (callbacks_ok (recv_byte before b)) as (_ & Ha & _) by (apply callbacks_byte; rewrite Eb; apply Hrun).
  split_and!; [done|done| |].
  - rewrite Ha, H2. by destruct (tlsSession_ (recv_byte before b)), (has_connectedHandler (recv_byte before b)).
  - intros [d Hd]. by rewrite Hb, Hd, H1, andb_false_r.
Qed.

Definition demo_tls : TLS.Session (O := RefSSL) :=
  {| TLS.ssl := Some ({| rs_fin := false; rs_in := []; rs_out := [] |} : @SSL RefSSL) |}.

(** A plain session that fails, and a TLS one that completes its handshake. *)
Lemma tcp_callbacks_once_witness :
  (let s := tcp_run [Send (default {| msg_type := 0; msg_length := 0; msg_payload := [] |}
                            (demo_msgs !! 0)); RunPosted; WriteError 0; ReadError]
             (start demo_tcp) in
   disconnected_ s = true ∧ countb is_disconnect (trace s) = 1 ∧ countb is_connected (trace s) = 1) ∧
  ∃ c b c', [x0b; x01; x00; x00; x00; x05] = c ++ b :: c' ∧
    tls_done (recv_byte (tcp_run [Recv c] (start (TcpSession_ctor (Some demo_tls) true true true))) b) = true.
Proof.
  cbn zeta. split.
  - split; [reflexivity|].
    destruct (tcp_callbacks_once (Sess := TLS.Session (O := RefSSL)) None true true true
      [Send (default {| msg_type := 0; msg_length := 0; msg_payload := [] |} (demo_msgs !! 0));
       RunPosted; WriteError 0; ReadError]) as (H1 & H2 & _).
    split; [exact H1|exact H2].
  - destruct (tcp_callbacks_once (Some demo_tls) true true true [Recv [x0b; x01; x00; x00; x00; x05]]) as (_ & _ & H).
    destruct (H eq_refl) as (k & c & b & c' & Hk & _ & Hd & _).
    destruct k as [|k]; [|discriminate Hk]. injection Hk as Hk. exists c, b, c'. split; [exact Hk|exact Hd].
Defined.

(** The TLS gate: while the handshake of a TLS session is unfinished, over
    any sequence of events, no message with content has reached the application
    (a peer can only raise messages without content in the clear); and a message
    sent meanwhile leaves its content behind: the frame written has the
    message's type and an empty payload.  The laws say that no record is rejected. *)
Theorem tcp_tls_gate {Sess : Type} `{SS : SecureSession Sess, SL : !SecureLaws Sess}
    (d : Sess) (on_msg on_disc on_conn : bool) (es : list tcp_event) :
  let s := tcp_run es (start (TcpSession_ctor (Some d) on_msg on_disc on_conn)) in
  is_Some (tlsSession_ s) → tls_done s = false →
  (∀ m, OnMessage m ∈ trace s → msg_payload m = []) ∧
  (∀ m, (0 < msg_length m)%Z →
    writes (run_send m s) = writes s ++ [frame (msg_type m) []]).
Proof.
  cbn zeta. set (s := tcp_run _ _). intros Hs Hf.
  destruct (callbacks_run es _ (callbacks_start (Some d) on_msg on_disc on_conn))
    as (_ & _ & Hq). specialize (Hq SL Hs Hf). split.
  - intros m Hm. rewrite Forall_forall in Hq. exact (Hq _ Hm).
  - intros m Hm. unfold run_send, tls_done in *. destruct (tlsSession_ s) as [d'|]; [|by destruct Hs].
    rewrite decide_True by done. by rewrite sec_encrypt_early.
Qed.

Lemma tcp_tls_gate_witness :
  let s := tcp_run [Recv [x04; x00; x00; x00; x00]]
             (start (TcpSession_ctor (Some demo_tls) true true true)) in
  trace s = [OnMessage {| msg_type := 4; msg_length := 0; msg_payload := [] |}] ∧
  ∀ m, (0 < msg_length m)%Z → writes (run_send m s) = writes s ++ [frame (msg_type m) []].
Proof.
  cbn zeta. split; [reflexivity|].
  apply (tcp_tls_gate demo_tls true true true [Recv [x04; x00; x00; x00; x00]]);
    [by eexists|reflexivity].
Defined.
