(* ===== verification/SecureChannel.v ===== *)
(** * Messages over a TLS session (src/Src/Crypt/TLS.hpp with src/Src/Network/TcpSession.hpp)

    Two OpenSSL objects at the ends of one connection, the bytes between them, and
    what the wrapper and the session make of them: a record encrypted at one end is
    decrypted at the other, and the messages one session sends are the messages the
    other delivers.  OpenSSL is a parameter, its behaviour over a connection the
    class [OpenSSLPeers]; [SecureChannel] is what the session relies on of a
    wrapper, and the instance for [TLS] discharges it. *)

From S2P Require Import Prelude Protocol Crypt TcpSession.

(** The largest ciphertext of a plaintext of [n] bytes: every 16384 bytes of
    plaintext make a record with at most 261 bytes of header, padding and tag. *)
Definition sealed_bound (n : nat) : nat := 300 + 2 * n.

(** Records in flight: the bytes of each and the plaintext it carries. *)
Abbreviation flight := (list (list byte * list byte)).

(** ** OpenSSL over a connection

    [talks p fl q]: [p] and [q] have finished a handshake with each other, and [q]
    has been given every record [p] wrote, in order, but those in [fl].  Without
    [SSL_MODE_ENABLE_PARTIAL_WRITE], and over a memory BIO, [SSL_write] writes all of
    the buffer or nothing. *)
Class OpenSSLPeers (O : OpenSSL) (L : OpenSSLLaws O) : Type := {
  talks : SSL → flight → SSL → Prop;
  talks_finished p fl q :
    talks p fl q → SSL_is_init_finished p = true ∧ SSL_is_init_finished q = true;
  talks_write p fl q b :
    talks p fl q → b ≠ [] → (Z.of_nat (length b) < 2 ^ 31)%Z →
    (SSL_write p b).1 = Z.of_nat (length b) ∧
    ∃ c, c ≠ [] ∧ length c ≤ sealed_bound (length b) ∧
         outgoing (SSL_write p b).2 = outgoing p ++ c ∧ talks (SSL_write p b).2 (fl ++ [(c, b)]) q;
  talks_deliver p fl q c b :
    talks p ((c, b) :: fl) q →
    (readBio_write q c).1 = Z.of_nat (length c) ∧
    unread (readBio_write q c).2 = unread q ++ b ∧ talks p fl (readBio_write q c).2;
  talks_flush_writer p fl q n : talks p fl q → talks (writeBio_read p n).2 fl q;
  talks_flush_reader p fl q n : talks p fl q → talks p fl (writeBio_read q n).2;
  talks_read p fl q n : talks p fl q → talks p fl (SSL_read q n).2
}.

(** ** What a session relies on *)
Class SecureChannel (S : Type) `{SecureSession S} : Type := {
  channel : S → flight → S → Prop;
  channel_encrypt d fl e b :
    channel d fl e → b ≠ [] → (Z.of_nat (length b) < 2 ^ 31)%Z →
    let '(c, d') := sec_encrypt d b in
    c ≠ [] ∧ length c ≤ sealed_bound (length b) ∧ channel d' (fl ++ [(c, b)]) e;
  channel_decrypt d fl e c b :
    channel d ((c, b) :: fl) e → c ≠ [] → let '(plain, e') := sec_decrypt e c in plain = b ∧ channel d fl e';
  channel_flush d fl e : channel d fl e → channel d fl (sec_handshake e []).2
}.

Section tls_channel.
Context `{O : OpenSSL, L : !OpenSSLLaws O, P : !OpenSSLPeers O L}.

(** A pair of wrappers with nothing left over at either end. *)
Definition tls_channel (d : TLS.Session) (fl : flight) (e : TLS.Session) : Prop :=
  ∃ p q, TLS.ssl d = Some p ∧ TLS.ssl e = Some q ∧ talks p fl q ∧ outgoing p = [] ∧ unread q = [].

Lemma not_nothing (b : list byte) : b ≠ [] → (Z.of_nat (length b) <=? 0)%Z = false.
Proof. intros H. apply Z.leb_gt. destruct b; [done|]. cbn [length]. lia. Qed.

Lemma read_loop_preserves (I : SSL → Prop) fuel p acc r p' :
  (∀ p n, I p → I (SSL_read p n).2) → I p → TLS.read_loop fuel p acc = Some (r, p') → I p'.
Proof.
  intros HI. revert p acc. induction fuel as [|fuel IH]; intros p acc Hp H; [done|]. cbn in H.
  pose proof (HI p BufferSize Hp) as Hq. destruct (SSL_read p BufferSize) as [[|b bs] q].
  - by injection H as <- <-.
  - by apply (IH q (acc ++ b :: bs)).
Qed.

Lemma flush_preserves (I : SSL → Prop) p :
  (∀ p n, I p → I (writeBio_read p n).2) → I p → I (TLS.flushWriteBio p).2.
Proof. intros HI Hp. unfold TLS.flushWriteBio. case_decide; [by apply HI|done]. Qed.

Lemma tls_encrypts d fl e b :
  tls_channel d fl e → b ≠ [] → (Z.of_nat (length b) < 2 ^ 31)%Z →
  let '(c, d') := TLS.encrypt d b in
  c ≠ [] ∧ length c ≤ sealed_bound (length b) ∧ tls_channel d' (fl ++ [(c, b)]) e.
Proof.
  intros (p & q & Hd & He & Ht & Ho & Hu) Hb Hl. destruct (talks_finished _ _ _ Ht) as [Hf _].
  destruct (talks_write _ _ _ b Ht Hb Hl) as (Hw & c & Hc & Hcl & Hout & Ht').
  unfold TLS.encrypt. rewrite Hd, Hf. destruct (SSL_write p b) as [w p1]. cbn [fst snd] in *. subst w.
  rewrite (not_nothing b) by done.
  destruct (flush_all p1) as (H1 & H2 & _). rewrite Hout, Ho in H1. cbn in H1.
  pose proof (flush_preserves (λ p, talks p (fl ++ [(c, b)]) q) p1 (λ p n, talks_flush_writer p _ q n) Ht') as Ht2.
  change (@TLS.flushWriteBio O) with (@MediaDTLS.flushWriteBio O) in *.
  destruct (MediaDTLS.flushWriteBio p1) as [out p2]. cbn [fst snd] in *. subst out.
  split_and!; [done|done|]. by exists p2, q.
Qed.

Lemma tls_decrypts d fl e c b :
  tls_channel d ((c, b) :: fl) e → c ≠ [] →
  let '(plain, e') := sec_decrypt e c in plain = b ∧ tls_channel d fl e'.
Proof.
  intros (p & q & Hd & He & Ht & Ho & Hu) Hc. destruct (talks_finished _ _ _ Ht) as [_ Hf].
  destruct (talks_deliver _ _ _ _ _ Ht) as (Hw & Hun & Ht'). rewrite Hu in Hun. cbn [app] in Hun.
  destruct e as [oq]. cbn in He. subst oq. cbn [sec_decrypt TLS_secure TLS.ssl].
  set (fuel := read_fuel _ _). assert (length (unread (readBio_write q c).2) < fuel) as Hfuel.
  { unfold fuel, read_fuel, advance. rewrite readBio_write_finished, Hf. lia. }
  unfold TLS.decrypt. cbn [TLS.ssl]. pose proof (readBio_write_finished q c) as Hf1. rewrite Hf in Hf1.
  destruct (readBio_write q c) as [w q1]. cbn [fst snd] in *. subst w.
  rewrite (not_nothing c) by done.
  rewrite Hf1, Hf1. destruct (read_loop_all fuel q1 [] Hf1 Hfuel) as (q2 & Hr & Hu2 & _).
  change (@MediaDTLS.read_loop O) with (@TLS.read_loop O) in Hr. rewrite Hr. cbn. split; [done|].
  exists p, q2. split_and!; try done. by eapply (read_loop_preserves (talks p fl)); [apply talks_read| |exact Hr].
Qed.

Lemma tls_flushes d fl e : tls_channel d fl e → tls_channel d fl (TLS.Handshake e).2.
Proof.
  intros (p & q & Hd & He & Ht & Ho & Hu). destruct (talks_finished _ _ _ Ht) as [_ Hf].
  unfold TLS.Handshake. rewrite He, Hf. destruct (flush_all q) as (_ & _ & Hu2 & _).
  pose proof (flush_preserves (talks p fl) q (talks_flush_reader p fl) Ht) as Ht2.
  change (@TLS.flushWriteBio O) with (@MediaDTLS.flushWriteBio O) in *.
  destruct (MediaDTLS.flushWriteBio q) as [out q2]. cbn [fst snd] in *.
  exists p, q2. rewrite Hu2. by split_and!.
Qed.

#[export] Instance TLS_channel : SecureChannel TLS.Session := {|
  channel := tls_channel;
  channel_encrypt := tls_encrypts;
  channel_decrypt := tls_decrypts;
  channel_flush := tls_flushes
|}.
End tls_channel.

(** ** Messages through a channel *)
Section messages.
Context {Sess : Type} `{SS : SecureSession Sess, C : !SecureChannel Sess}.

(** Sending one message with nothing else outstanding: the write goes on until
    the frame, however large its ciphertext, is sent. *)
Definition sealed_send (m : Message) : list tcp_event :=
  [Send m; RunPosted; WireWrite 0 (5 + sealed_bound (length (msg_payload m)))].

(** A message of the application whose ciphertext fits a frame. *)
Definition sealable (m : Message) : Prop :=
  wf_message m ∧ msg_type m ≠ mt_value TLS_HANDSHAKE ∧ (300 + 2 * msg_length m < 2 ^ 32)%Z.

(** [seals m r fl]: the frame [r] carries [m], by the records [fl]. *)
Definition seals (m : Message) (r : Z * list byte) (fl : flight) : Prop :=
  r.1 = msg_type m ∧ length r.2 ≤ sealed_bound (length (msg_payload m)) ∧
  ((msg_payload m = [] ∧ r.2 = [] ∧ fl = []) ∨ (msg_payload m ≠ [] ∧ r.2 ≠ [] ∧ fl = [(r.2, msg_payload m)])).

Inductive seals_all : list Message → list (Z * list byte) → flight → Prop :=
| seals_nil : seals_all [] [] []
| seals_cons m ms r rs fl fl' :
    seals m r fl → seals_all ms rs fl' → seals_all (m :: ms) (r :: rs) (fl ++ fl').

Lemma send_seals m (s : TcpSession Sess) d e fl :
  tlsSession_ s = Some d → strand s = [] → writes s = [] → channel d fl e → sealable m →
  ∃ r fl' d', seals m r fl' ∧ channel d' (fl ++ fl') e ∧
    tcp_run (sealed_send m) s = set_output [] [] (wire s ++ record_frame r) (set_tls (Some d') s).
Proof.
  intros Ht Hst Hw Hc ((Hty & Hlen & Heq) & _ & Hfit).
  assert (∃ c fl' d', seals m (msg_type m, c) fl' ∧ channel d' (fl ++ fl') e ∧
    run_send m (set_output [] (writes s) (wire s) s)
    = set_output [] [record_frame (msg_type m, c)] (wire s) (set_tls (Some d') s)) as (c & fl' & d' & Hs & Hc' & Hr).
  { unfold run_send. cbn [tlsSession_ set_output]. rewrite Ht.
    destruct s as [tls hm hd hc cm dis hs pe ib st ws wi tr]. cbn in Ht, Hst, Hw. subst.
    destruct m as [ty len pl]. cbn in *. subst len. destruct (decide (pl = [])) as [->|Hpl].
    - exists [], [], d. rewrite decide_False by done. split_and!; [|by rewrite app_nil_r|done].
      split_and!; [done|cbn; lia|by left].
    - assert (length pl ≠ 0) by (by destruct pl). rewrite decide_True by lia. rewrite Nat2Z.id, take_ge by done.
      pose proof (channel_encrypt d fl e pl Hc Hpl ltac:(lia)) as H1.
      destruct (sec_encrypt d pl) as [c d']. destruct H1 as (Hc1 & Hc2 & Hc3).
      exists c, [(c, pl)], d'. split_and!; [|done|done]. split_and!; [done|done|by right]. }
  exists (msg_type m, c), fl', d'. split_and!; [done|done|].
  unfold sealed_send, tcp_run. cbn [foldl tcp_handle]. unfold sendMessage, post. rewrite Hst. cbn [app strand set_output].
  change (set_output [] _ _ (set_output [PostSend m] _ _ s)) with (set_output [] (writes s) (wire s) s). rewrite Hr.
  cbn [writes set_output lookup list_lookup]. destruct Hs as (_ & Hl & _).
  assert (length (record_frame (msg_type m, c)) ≤ 5 + sealed_bound (length (msg_payload m))).
  { unfold record_frame, frame. rewrite length_app. cbn in Hl |- *. lia. }
  rewrite drop_ge, take_ge, decide_True by done. done.
Qed.

Lemma sends_seal ms (s : TcpSession Sess) d e fl :
  tlsSession_ s = Some d → strand s = [] → writes s = [] → channel d fl e → Forall sealable ms →
  ∃ rs fl' d', seals_all ms rs fl' ∧ channel d' (fl ++ fl') e ∧
    wire (tcp_run (ms ≫= sealed_send) s) = wire s ++ (rs ≫= record_frame).
Proof.
  revert s d fl. induction ms as [|m ms IH]; intros s d fl Ht Hst Hw Hc Hms.
  - exists [], [], d. cbn. rewrite !app_nil_r. by split_and!; [constructor|..].
  - apply Forall_cons in Hms as [Hm Hms].
    destruct (send_seals m s d e fl Ht Hst Hw Hc Hm) as (r & fl1 & d1 & Hs1 & Hc1 & Hr1).
    rewrite bind_cons, tcp_run_app, Hr1. set (s1 := set_output _ _ _ _).
    destruct (IH s1 d1 (fl ++ fl1)) as (rs & fl2 & d2 & Hs2 & Hc2 & ->); [done..|].
    exists (r :: rs), (fl1 ++ fl2), d2. rewrite bind_cons, !app_assoc. rewrite <-app_assoc in Hc2.
    split_and!; [by constructor|by rewrite <-app_assoc|done].
Qed.

(** The frames open to the messages they carry. *)
Lemma open_seals ms rs fl :
  seals_all ms rs fl → Forall wf_message ms → ∀ d e fl', channel d (fl ++ fl') e →
  ∃ e', open_records (Some e) rs = (ms, Some e') ∧ channel d fl' e'.
Proof.
  induction 1 as [|m ms [ty c] rs fl1 fl2 (Hty & _ & Hs) _ IH]; intros Hms d e fl' Hc.
  - by exists e.
  - apply Forall_cons in Hms as [(_ & Hlen & Heq) Hms]. rewrite <-app_assoc in Hc.
    destruct m as [ty' len pl]. cbn in *. subst ty' len. destruct Hs as [(-> & -> & ->)|(Hpl & Hcne & ->)].
    + destruct (IH Hms d e fl' Hc) as (e' & Ho & Hc'). exists e'. by rewrite Ho.
    + destruct c as [|b c]; [done|]. cbn [app] in Hc. pose proof (channel_decrypt _ _ _ _ _ Hc Hcne) as H1.
      destruct (sec_decrypt e (b :: c)) as [plain e1]. destruct H1 as [-> Hc1].
      destruct (IH Hms d _ fl' (channel_flush _ _ _ Hc1)) as (e' & Ho & Hc').
      exists e'. cbn [fst snd]. rewrite Ho, wrap32_id by done.
      rewrite decide_True; [done|]. destruct pl; [done|cbn [length]; lia].
Qed.

Lemma seals_application ms rs fl :
  seals_all ms rs fl → Forall sealable ms → Forall (application_record true) rs.
Proof.
  induction 1 as [|m ms r rs fl1 fl2 (Hty & Hl & _) _ IH]; intros Hms; [done|].
  apply Forall_cons in Hms as [((Ht & Hlen & Heq) & Hne & Hfit) Hms]. constructor; [|by apply IH].
  split_and!; [by rewrite Hty|unfold is_u32, sealed_bound in *; lia|by rewrite Hty].
Qed.
End messages.

(** ** A concrete connection for the witness: bytes pass through unchanged. *)
#[export] Instance RefSSL_peers : OpenSSLPeers RefSSL RefSSL_laws.
Proof.
  refine {| talks (p : @SSL RefSSL) fl (q : @SSL RefSSL) :=
              rs_fin p = true ∧ rs_fin q = true ∧ Forall (λ x, x.1 = x.2) fl |}.
  - by intros p fl q (? & ? & _).
  - intros p fl q b (Hp & Hq & Hfl) Hb _. split; [done|]. exists b. unfold sealed_bound.
    split_and!; [done|lia|done|done|done|]. apply Forall_app. split; [done|]. by apply Forall_singleton.
  - intros p fl q c b (Hp & Hq & Hfl). apply Forall_cons in Hfl as [He Hfl]. cbn in He. subst c. by split_and!.
  - by intros p fl q n (? & ? & ?).
  - by intros p fl q n (? & ? & ?).
  - by intros p fl q n (? & ? & ?).
Defined.

(** ** Properties *)

(** C11. Messages over TLS: what one TLS session sends, each write finishing before
    the next begins, the session at the other end of the connection, once both have
    finished their handshake, delivers as exactly the same messages, in order,
    whatever the division of the bytes into chunks, and then waits for the next
    header with nothing left over in its TLS session. *)
Theorem tls_roundtrip `{O : OpenSSL, L : !OpenSSLLaws O, P : !OpenSSLPeers O L} (ms : list Message)
    (sender receiver : TcpSession TLS.Session) (chunks : list (list byte)) (p q : SSL) :
  tlsSession_ sender = Some {| TLS.ssl := Some p |} → strand sender = [] → writes sender = [] → wire sender = [] →
  tlsSession_ receiver = Some {| TLS.ssl := Some q |} → ready receiver →
  talks p [] q → outgoing p = [] → unread q = [] → Forall sealable ms →
  concat chunks = wire (tcp_run (ms ≫= sealed_send) sender) →
  let r := tcp_run (Recv <$> chunks) receiver in
  trace r = trace receiver ++ (OnMessage <$> ms) ∧ ready r ∧
  ∃ p' q', tlsSession_ r = Some {| TLS.ssl := Some q' |} ∧ talks p' [] q' ∧ outgoing p' = [] ∧ unread q' = [].
Proof.
  intros Hs Hst Hw Hwi Hr Hready Ht Ho Hu Hms Hch. cbn zeta.
  assert (channel {| TLS.ssl := Some p |} [] {| TLS.ssl := Some q |}) as Hc by by exists p, q.
  destruct (sends_seal ms sender _ _ [] Hs Hst Hw Hc Hms) as (rs & fl & d & Hsl & Hc1 & Hwire).
  rewrite Hwire, Hwi in Hch. cbn [app] in Hch. rewrite recv_chunks, Hch.
  assert (Forall wf_message ms) as Hwf by (by eapply Forall_impl; [exact Hms|intros ? (? & _)]).
  destruct (open_seals ms rs fl Hsl Hwf d {| TLS.ssl := Some q |} []) as (e & Hop & Hc2); [by rewrite app_nil_r|].
  destruct (recv_records rs receiver Hready) as (H1 & H2 & H3).
  { unfold has_tls. rewrite Hr. by apply (seals_application ms rs fl). }
  rewrite Hr, Hop in H2, H3. split_and!; [done|done|].
  destruct Hc2 as (p2 & q2 & _ & Hq & Ht2 & Ho2 & Hu2). destruct e as [oe]. cbn in Hq. subst oe.
  by exists p2, q2.
Qed.

Definition demo_end (on_disc : bool) : TcpSession (TLS.Session (O := RefSSL)) :=
  readHeader (TcpSession_ctor
    (Some {| TLS.ssl := Some ({| rs_fin := true; rs_in := []; rs_out := [] |} : @SSL RefSSL) |}) true on_disc true).

Lemma tls_roundtrip_witness :
  trace (tcp_run (Recv <$> [[x04]; [x02; x00; x00; x00; x41]; [x42; x07; x00; x00; x00; x00]]) (demo_end false))
  = OnMessage <$> demo_msgs.
Proof.
  destruct (tls_roundtrip (O := RefSSL) demo_msgs (demo_end true) (demo_end false)
              [[x04]; [x02; x00; x00; x00; x41]; [x42; x07; x00; x00; x00; x00]]
              {| rs_fin := true; rs_in := []; rs_out := [] |} {| rs_fin := true; rs_in := []; rs_out := [] |}) as [H _].
  - reflexivity.
  - reflexivity.
  - reflexivity.
  - reflexivity.
  - reflexivity.
  - by split_and!.
  - by split_and!.
  - reflexivity.
  - reflexivity.
  - unfold sealable, wf_message, is_u8, is_u32. repeat apply Forall_cons_2; [..|apply Forall_nil_2];
      vm_compute; split_and!; congruence.
  - vm_compute. reflexivity.
  - exact H.
Defined.
