(* ===== verification/Handshake.v ===== *)
(** * What a session makes of the frames it receives (src/Src/Network/TcpSession.hpp)

    A [TcpSession] reads with two alternating asynchronous operations and answers the
    TLS handshake as it goes.  [open_frames] is the same without the reads: a fold over
    the frames of the peer.  The first theorem shows that the session computes it,
    however the bytes are divided and wherever they stop; the second part runs a whole
    handshake. *)

From S2P Require Import Prelude Protocol Crypt TcpSession SecureChannel.

Section frames.
Context {Sess : Type} `{SS : SecureSession Sess}.
Abbreviation tcp := (TcpSession Sess).

(** ** The reference *)

(** What a session remembers from one frame to the next. *)
Record Endpoint : Type := { ep_tls : option Sess; ep_completed : bool }.

Definition endpoint_of (s : tcp) : Endpoint :=
  {| ep_tls := tlsSession_ s; ep_completed := handshakeCompleted_ s |}.

(** A message reaches the owner when there is a handler. *)
Definition to_owner (handler : bool) (m : Message) : list tcp_out := if handler then [OnMessage m] else [].

(** What a frame [r] brings about: outputs, the TLS bytes to answer with, and what is
    remembered; [hm] and [hc] say which handlers are set. *)
Definition open_frame (hm hc : bool) (e : Endpoint) (r : Z * list byte) : list tcp_out * list byte * Endpoint :=
  let handshake := is_handshake_type r.1 in
  match ep_tls e, r.2 with
  | None, body =>
      (to_owner hm {| msg_type := r.1; msg_length := Z.of_nat (length body); msg_payload := body |}, [], e)
  | Some d, [] =>
      if handshake then
        let '(answer, d) := sec_handshake d [] in ([], answer, {| ep_tls := Some d; ep_completed := ep_completed e |})
      else (to_owner hm {| msg_type := r.1; msg_length := 0; msg_payload := [] |}, [], e)
  | Some d, body =>
      let '(plain, d) := sec_decrypt d body in
      let '(answer, d) := sec_handshake d [] in
      if handshake then
        let finished := sec_done d && negb (ep_completed e) in
        (if finished && hc then [OnConnected] else [], answer,
         {| ep_tls := Some d; ep_completed := ep_completed e || finished |})
      else
        let len := wrap32 (Z.of_nat (length plain)) in
        (if decide (0 < len)%Z
         then to_owner hm {| msg_type := r.1; msg_length := len; msg_payload := plain |} else [], answer,
         {| ep_tls := Some d; ep_completed := ep_completed e |})
  end.

(** The handshake frame that carries an answer, if there is one. *)
Definition answer_frame (answer : list byte) : list (list byte) :=
  if decide (answer = []) then [] else [frame (mt_value TLS_HANDSHAKE) answer].

Fixpoint open_frames (hm hc : bool) (e : Endpoint) (rs : list (Z * list byte))
    : list tcp_out * list (list byte) * Endpoint :=
  match rs with
  | [] => ([], [], e)
  | r :: rs =>
      let '(o, a, e) := open_frame hm hc e r in
      let '(os, fs, e) := open_frames hm hc e rs in (o ++ os, answer_frame a ++ fs, e)
  end.

(** ** The session computes it *)

(** A session between two frames. *)
Definition between (s : tcp) : Prop := pending s = Some ReadHeader ∧ inbuf s = [].

Definition fits (r : Z * list byte) : Prop := is_u8 r.1 ∧ is_u32 (Z.of_nat (length r.2)).

(** [s'] is [s] after it has done [os] and posted the writes of [fs], as [e]. *)
Record moved (os : list tcp_out) (fs : list (list byte)) (e : Endpoint) (s s' : tcp) : Prop := {
  mv_trace : trace s' = trace s ++ os;
  mv_strand : strand s' = strand s ++ (PostWrite <$> fs);
  mv_endpoint : endpoint_of s' = e;
  mv_writes : writes s' = writes s;
  mv_wire : wire s' = wire s;
  mv_disconnected : disconnected_ s' = disconnected_ s;
  mv_handlers : has_messageHandler s' = has_messageHandler s ∧ has_connectedHandler s' = has_connectedHandler s
}.

Lemma moved_refl s : moved [] [] (endpoint_of s) s s.
Proof. split; rewrite ?app_nil_r; done. Qed.

Lemma moved_trans os1 fs1 e1 os2 fs2 e2 s1 s2 s3 :
  moved os1 fs1 e1 s1 s2 → moved os2 fs2 e2 s2 s3 → moved (os1 ++ os2) (fs1 ++ fs2) e2 s1 s3.
Proof.
  intros [A1 A2 A3 A4 A5 A6 [A7 A8]] [B1 B2 B3 B4 B5 B6 [B7 B8]]. split; try congruence.
  - by rewrite B1, A1, app_assoc.
  - by rewrite B2, A2, fmap_app, app_assoc.
  - split; congruence.
Qed.

Lemma tls_output_moved d (s : tcp) :
  tlsSession_ s = Some d →
  moved [] (answer_frame (sec_handshake d []).1)
    {| ep_tls := Some (sec_handshake d []).2; ep_completed := handshakeCompleted_ s |} s (handleTlsOutput s).
Proof.
  intros Ht. unfold handleTlsOutput, answer_frame. rewrite Ht. destruct (sec_handshake d []) as [resp d'].
  cbn [fst snd]. case_decide; split; cbn; rewrite ?app_nil_r; done.
Qed.

(** What [open_frame] says of a session that turns from [s] into [s']. *)
Definition frame_moves (r : Z * list byte) (s s' : tcp) : Prop :=
  let '(os, a, e) := open_frame (has_messageHandler s) (has_connectedHandler s) (endpoint_of s) r in
  moved os (answer_frame a) e s s' ∧ between s'.

Ltac moves := split; [split; cbn; rewrite ?app_nil_r; done|done].

Lemma body_moves r (s : tcp) :
  r.2 ≠ [] → msg_type (currentMessage_ s) = r.1 → msg_length (currentMessage_ s) = Z.of_nat (length r.2) →
  frame_moves r s (body_read r.2 s).
Proof.
  destruct r as [ty body]. cbn [fst snd]. intros Hb Ht Hl. unfold frame_moves, body_read, open_frame.
  destruct s as [tls hm hd hc cm dis hs pe ib st ws wi tr]. cbn in Ht, Hl |- *. rewrite Ht, Hl.
  destruct body as [|b body]; [done|]. rewrite decide_True by (cbn [length]; lia). destruct tls as [d|].
  - destruct (sec_decrypt d (b :: body)) as [plain d1]. unfold handleTlsOutput. cbn.
    destruct (sec_handshake d1 []) as [resp d2]. unfold answer_frame.
    destruct (is_handshake_type ty).
    + destruct (decide (resp = [])); cbn; destruct (sec_done d2), hs, hc; cbn; moves.
    + destruct (decide (resp = [])); cbn; case_decide; unfold deliver; cbn; destruct hm; cbn; moves.
  - cbn. unfold deliver, answer_frame. cbn. destruct hm; cbn; moves.
Qed.

Lemma header_moves ty len (s : tcp) :
  read_packet_header (packet_header ty len) = Some (ty, len) →
  if decide (0 < len)%Z
  then ∃ m, header_read (packet_header ty len) s = readBody (set_message m s) ∧ msg_type m = ty ∧ msg_length m = len
  else len = 0%Z → frame_moves (ty, []) s (header_read (packet_header ty len) s).
Proof.
  intros Hd. unfold header_read. rewrite Hd. case_decide as Hlen; [by eexists|]. intros ->.
  unfold frame_moves, open_frame. destruct s as [tls hm hd hc cm dis hs pe ib st ws wi tr].
  destruct tls as [d|]; cbn.
  - destruct (is_handshake_type ty).
    + unfold handleTlsOutput, answer_frame. cbn. destruct (sec_handshake d []) as [resp d'].
      destruct (decide (resp = [])); cbn; moves.
    + unfold deliver, answer_frame. cbn. destruct hm; cbn; moves.
  - unfold deliver, answer_frame. cbn. destruct hm; cbn; moves.
Qed.

Lemma packet_header_reads ty len : is_u8 ty → is_u32 len → read_packet_header (packet_header ty len) = Some (ty, len).
Proof.
  intros Ht Hl. pose proof (read_packet_header_app ty len []) as H. by rewrite app_nil_r, wrap8_id, wrap32_id in H.
Qed.

(** Reading goes back to a session that differs in the read only. *)
Lemma frame_moves_ext r op b m (s s' : tcp) :
  frame_moves r (set_read op b (set_message m s)) s' → frame_moves r s s'.
Proof.
  unfold frame_moves. change (endpoint_of (set_read op b (set_message m s))) with (endpoint_of s). cbn.
  destruct (open_frame _ _ _ r) as [[os a] e]. by intros [[A1 A2 A3 A4 A5 A6 A7] Hb].
Qed.

Lemma header_length ty len : length (packet_header ty len) = 5.
Proof. done. Qed.

(** The five bytes of a header, by themselves. *)
Lemma recv_header ty len (s : tcp) :
  between s → foldl recv_byte s (packet_header ty len)
  = header_read (packet_header ty len) (set_read (Some ReadHeader) (removelast (packet_header ty len)) s).
Proof.
  intros [Hp Hi]. set (hdr := packet_header ty len). change hdr with (removelast hdr ++ [List.last hdr x00]) at 1 2.
  by rewrite (recv_exact ReadHeader).
Qed.

Lemma recv_frame_moves r (s : tcp) : between s → fits r → frame_moves r s (foldl recv_byte s (record_frame r)).
Proof.
  destruct r as [ty body]. intros Hb [Hty Hlen]. cbn [fst snd] in *. unfold record_frame, frame. cbn [fst snd].
  rewrite foldl_app, recv_header by done. set (s0 := set_read _ _ s).
  pose proof (header_moves ty (Z.of_nat (length body)) s0 (packet_header_reads _ _ Hty Hlen)) as Hh.
  destruct (decide (body = [])) as [->|Hne].
  - specialize (Hh eq_refl). cbn [foldl].
    apply (frame_moves_ext _ (Some ReadHeader) (inbuf s0) (currentMessage_ s)). by destruct s.
  - assert (length body ≠ 0) by (by destruct body). rewrite decide_True in Hh by lia. destruct Hh as (m & -> & Hm1 & Hm2).
    destruct (exists_last (l := body)) as (q & y & Hq); [done|]. rewrite Hq in *.
    rewrite (recv_exact ReadBody) by (cbn; rewrite ?Hm2; done).
    set (s1 := set_read (Some ReadBody) q _).
    pose proof (body_moves (ty, q ++ [y]) s1 Hne Hm1 Hm2) as Hmv.
    by apply (frame_moves_ext _ (Some ReadBody) q m).
Qed.

Lemma recv_frames_move rs (s : tcp) :
  between s → Forall fits rs →
  let '(os, fs, e) := open_frames (has_messageHandler s) (has_connectedHandler s) (endpoint_of s) rs in
  moved os fs e s (foldl recv_byte s (rs ≫= record_frame)) ∧ between (foldl recv_byte s (rs ≫= record_frame)).
Proof.
  revert s. induction rs as [|r rs IH]; intros s Hb Hrs; [by split; [apply moved_refl|]|].
  apply Forall_cons in Hrs as [Hr Hrs]. rewrite bind_cons, foldl_app. cbn [open_frames].
  pose proof (recv_frame_moves r s Hb Hr) as Hm. unfold frame_moves in Hm.
  destruct (open_frame _ _ _ r) as [[o a] e]. destruct Hm as [Hm Hb1].
  specialize (IH _ Hb1 Hrs). rewrite (mv_endpoint _ _ _ _ _ Hm) in IH.
  destruct (mv_handlers _ _ _ _ _ Hm) as [Hh1 Hh2]. rewrite Hh1, Hh2 in IH.
  destruct (open_frames _ _ e rs) as [[os fs] e']. destruct IH as [IH Hb2]. split; [|done].
  by eapply moved_trans.
Qed.

(** The beginning of a frame does nothing yet. *)
Lemma recv_part r k (s : tcp) :
  between s → fits r → k < length (record_frame r) →
  moved [] [] (endpoint_of s) s (foldl recv_byte s (take k (record_frame r))) ∧
  is_Some (pending (foldl recv_byte s (take k (record_frame r)))).
Proof.
  destruct r as [ty body]. intros Hb [Hty Hlen] Hk. pose proof Hb as [Hp Hi].
  cbn [fst snd] in *. unfold record_frame, frame in *. cbn [fst snd] in *.
  rewrite length_app, header_length in Hk. destruct (decide (k < 5)) as [H5|H5].
  - rewrite (recv_prefix ReadHeader) by (rewrite ?Hi; cbn [app read_size]; try done; rewrite length_take; lia).
    split; [|by eexists]. split; cbn; rewrite ?app_nil_r; done.
  - rewrite take_app_ge, header_length, foldl_app, recv_header by (rewrite ?header_length; try done; lia).
    pose proof (header_moves ty (Z.of_nat (length body))
                  (set_read (Some ReadHeader) (removelast (packet_header ty (Z.of_nat (length body)))) s)
                  (packet_header_reads _ _ Hty Hlen)) as Hh.
    rewrite decide_True in Hh by lia. destruct Hh as (m & -> & _ & Hm2).
    rewrite (recv_prefix ReadBody)
      by (cbn [pending readBody set_read inbuf app read_size currentMessage_ set_message]; rewrite ?Hm2, ?length_take; try done; lia).
    split; [|by eexists]. split; cbn; rewrite ?app_nil_r; done.
Qed.

(** C10. A session reads frames as the reference does: between two frames, when the bytes
    of the frames [rs] and the first [k] bytes of one more arrive, in any chunks, the
    session tells its owner, answers the peer and remembers exactly what [open_frames]
    says of [rs], with TLS or without, before, during and after the handshake.  The
    answers are posted in order; nothing already being written is touched, the
    connection is not given up, and a read is pending afterwards, of a new frame if
    [k] is 0. *)
Theorem session_reads (rs : list (Z * list byte)) (r : Z * list byte) (k : nat) (chunks : list (list byte)) (s : tcp) :
  between s → Forall fits rs → fits r → k < length (record_frame r) →
  concat chunks = (rs ≫= record_frame) ++ take k (record_frame r) →
  let s' := tcp_run (Recv <$> chunks) s in
  let '(os, fs, e) := open_frames (has_messageHandler s) (has_connectedHandler s) (endpoint_of s) rs in
  trace s' = trace s ++ os ∧ strand s' = strand s ++ (PostWrite <$> fs) ∧
  tlsSession_ s' = ep_tls e ∧ handshakeCompleted_ s' = ep_completed e ∧
  writes s' = writes s ∧ wire s' = wire s ∧ disconnected_ s' = disconnected_ s ∧
  is_Some (pending s') ∧ (k = 0 → between s').
Proof.
  intros Hb Hrs Hr Hk Hch. cbn zeta. rewrite recv_chunks, Hch, foldl_app.
  pose proof (recv_frames_move rs s Hb Hrs) as Hm. destruct (open_frames _ _ _ rs) as [[os fs] e].
  destruct Hm as [Hm Hb1]. set (s1 := foldl recv_byte s _) in *.
  destruct (recv_part r k s1 Hb1 Hr Hk) as [Hp Hpend]. set (s2 := foldl recv_byte s1 _) in *.
  pose proof (moved_trans _ _ _ _ _ _ _ _ _ Hm Hp) as [A1 A2 A3 A4 A5 A6 _]. rewrite !app_nil_r in A1, A2.
  rewrite (mv_endpoint _ _ _ _ _ Hm) in A3. rewrite <-A3. split_and!; try done.
  intros ->. unfold s2. by rewrite take_0.
Qed.
End frames.

(** ** A whole handshake *)
Section handshake.
Context {Sess : Type} `{SS : SecureSession Sess}.
Abbreviation tcp := (TcpSession Sess).

(** One handshake frame of the peer: the answer, and the session after it. *)
Definition handshake_step (d : Sess) (body : list byte) : list byte * Sess :=
  sec_handshake (sec_decrypt d body).2 [].

Definition after_handshake (d : Sess) (bodies : list (list byte)) : Sess :=
  foldl (λ d b, (handshake_step d b).2) d bodies.

(** The handshake frames [bodies] of the peer finish the handshake, the last of them
    and no earlier one. *)
Fixpoint completes (d : Sess) (bodies : list (list byte)) : Prop :=
  match bodies with
  | [] => False
  | [b] => sec_done (handshake_step d b).2 = true
  | b :: bs => sec_done (handshake_step d b).2 = false ∧ completes (handshake_step d b).2 bs
  end.

(** The answer is written, if there is one: without it these events find nothing to do. *)
Definition write_answer (answer : list byte) : list tcp_event :=
  [RunPosted; WireWrite 0 (5 + length answer)].

Definition handshake_record (body : list byte) : Z * list byte := (mt_value TLS_HANDSHAKE, body).

(** The frames of the peer arrive, each after the answer to the one before is out. *)
Fixpoint handshake_events (d : Sess) (bodies : list (list byte)) : list tcp_event :=
  match bodies with
  | [] => []
  | b :: bs =>
      Recv (record_frame (handshake_record b)) :: write_answer (handshake_step d b).1 ++
      handshake_events (handshake_step d b).2 bs
  end.

Fixpoint handshake_wire (d : Sess) (bodies : list (list byte)) : list byte :=
  match bodies with
  | [] => []
  | b :: bs => concat (answer_frame (handshake_step d b).1) ++ handshake_wire (handshake_step d b).2 bs
  end.

(** A session with nothing to write that waits for a frame. *)
Definition resting (d : Sess) (completed : bool) (s : tcp) : Prop :=
  between s ∧ endpoint_of s = {| ep_tls := Some d; ep_completed := completed |} ∧
  strand s = [] ∧ writes s = [] ∧ has_messageHandler s = true ∧ has_connectedHandler s = true.

Lemma answer_written answer (s : tcp) :
  strand s = PostWrite <$> answer_frame answer → writes s = [] →
  tcp_run (write_answer answer) s = set_output [] [] (wire s ++ concat (answer_frame answer)) s.
Proof.
  intros Hst Hw. destruct s as [tls hm hd hc cm dis hs pe ib st ws wi tr]. cbn in Hst, Hw. subst ws.
  unfold write_answer, answer_frame in *. unfold tcp_run. cbn [foldl tcp_handle strand writes].
  case_decide as Ha; cbn in Hst; subst st.
  - cbn. by rewrite app_nil_r.
  - cbn. rewrite drop_ge, take_ge, app_nil_r by lia. by rewrite decide_True.
Qed.

Lemma handshake_round d body (s : tcp) :
  resting d false s → body ≠ [] → is_u32 (Z.of_nat (length body)) →
  let d' := (handshake_step d body).2 in
  let s' := tcp_run (Recv (record_frame (handshake_record body)) :: write_answer (handshake_step d body).1) s in
  resting d' (sec_done d') s' ∧ trace s' = trace s ++ (if sec_done d' then [OnConnected] else []) ∧
  wire s' = wire s ++ concat (answer_frame (handshake_step d body).1).
Proof.
  intros (Hb & He & Hst & Hw & Hm & Hc) Hne Hlen. cbn zeta.
  change (tcp_run (?e :: ?es) s) with (tcp_run es (foldl recv_byte s (record_frame (handshake_record body)))).
  assert (fits (handshake_record body)) as Hf by by split.
  pose proof (recv_frame_moves _ s Hb Hf) as Hmv. set (s1 := foldl recv_byte s _) in *. clearbody s1.
  unfold frame_moves, open_frame in Hmv.
  rewrite He, Hm, Hc in Hmv. cbn in Hmv. unfold handshake_step. destruct body as [|b body]; [done|].
  destruct (sec_decrypt d (b :: body)) as [plain d1]. cbn [snd]. destruct (sec_handshake d1 []) as [answer d2].
  cbn [fst snd]. rewrite !andb_true_r in Hmv. destruct Hmv as [[A1 A2 A3 A4 A5 A6 [A7 A8]] Hb1].
  rewrite Hst in A2. cbn [Datatypes.app] in A2. rewrite answer_written by congruence.
  unfold resting. cbn. rewrite A1, A5. split_and!; try done; congruence.
Qed.

Lemma handshake_runs bodies d (s : tcp) :
  resting d false s → completes d bodies → Forall (λ b, b ≠ [] ∧ is_u32 (Z.of_nat (length b))) bodies →
  let s' := tcp_run (handshake_events d bodies) s in
  resting (after_handshake d bodies) true s' ∧ trace s' = trace s ++ [OnConnected] ∧
  wire s' = wire s ++ handshake_wire d bodies.
Proof.
  revert d s. induction bodies as [|b bodies IH]; intros d s Hs Hc Hbs; [done|].
  apply Forall_cons in Hbs as [[Hb1 Hb2] Hbs]. destruct (handshake_round d b s Hs Hb1 Hb2) as (Hs1 & Ht1 & Hw1).
  cbn zeta in *. cbn [handshake_events handshake_wire]. rewrite app_comm_cons, tcp_run_app.
  set (s1 := tcp_run (Recv _ :: write_answer _) s) in *. destruct bodies as [|b2 bodies].
  - cbn in Hc. rewrite Hc in Hs1, Ht1. cbn. rewrite app_nil_r. by split_and!.
  - destruct Hc as [Hc1 Hc]. rewrite Hc1 in Hs1, Ht1. rewrite app_nil_r in Ht1.
    destruct (IH _ s1 Hs1 Hc Hbs) as (Hs2 & Ht2 & Hw2). split_and!; [exact Hs2|by rewrite Ht2, Ht1|].
    by rewrite Hw2, Hw1, app_assoc.
Qed.

(** A client session from its start to the end of the handshake. *)
Definition client_events (d0 : Sess) (bodies : list (list byte)) : list tcp_event :=
  write_answer (sec_handshake d0 []).1 ++ handshake_events (sec_handshake d0 []).2 bodies.

Definition client_wire (d0 : Sess) (bodies : list (list byte)) : list byte :=
  concat (answer_frame (sec_handshake d0 []).1) ++ handshake_wire (sec_handshake d0 []).2 bodies.

Definition client_session (d0 : Sess) : tcp := start (TcpSession_ctor (Some d0) true true true).

Lemma client_runs d0 bodies :
  completes (sec_handshake d0 []).2 bodies → Forall (λ b, b ≠ [] ∧ is_u32 (Z.of_nat (length b))) bodies →
  let s := tcp_run (client_events d0 bodies) (client_session d0) in
  resting (after_handshake (sec_handshake d0 []).2 bodies) true s ∧ trace s = [OnConnected] ∧
  wire s = client_wire d0 bodies.
Proof.
  intros Hc Hbs. cbn zeta. unfold client_events, client_wire. rewrite tcp_run_app.
  assert (tcp_run (write_answer (sec_handshake d0 []).1) (client_session d0)
    = set_output [] [] (concat (answer_frame (sec_handshake d0 []).1))
        (readHeader (set_tls (Some (sec_handshake d0 []).2) (TcpSession_ctor (Some d0) true true true)))) as ->.
  { rewrite answer_written; unfold client_session, start, handleTlsOutput, answer_frame; cbn;
      destruct (sec_handshake d0 []) as [hello d1]; cbn; by case_decide. }
  set (s0 := set_output _ _ _ _).
  destruct (handshake_runs bodies (sec_handshake d0 []).2 s0) as (H1 & H2 & H3); [by split_and!|done|done|].
  by split_and!.
Qed.
End handshake.

(** *** Example: the end of a handshake, a message in the same chunk, and the beginning of another *)

Definition demo_client : TcpSession (TLS.Session (O := RefSSL)) :=
  client_session {| TLS.ssl := Some ({| rs_fin := false; rs_in := []; rs_out := [] |} : @SSL RefSSL) |}.

Definition demo_peer : list (Z * list byte) := [(mt_value TLS_HANDSHAKE, [x05]); (mt_value CAMERA, [x41; x42])].

Lemma session_reads_witness :
  let s := tcp_run [Recv (take 8 (demo_peer ≫= record_frame)); Recv (drop 8 (demo_peer ≫= record_frame) ++ [x07; x01])] <$> [demo_client] in
  (trace <$> s) = [[OnConnected; OnMessage {| msg_type := mt_value CAMERA; msg_length := 2; msg_payload := [x41; x42] |}]] ∧
  Forall (λ s, is_Some (pending s)) s.
Proof.
  pose proof (session_reads demo_peer (mt_value CAMERA, [x41]) 2
    [take 8 (demo_peer ≫= record_frame); drop 8 (demo_peer ≫= record_frame) ++ [x07; x01]] demo_client) as H.
  cbn zeta in H |- *. cbn [fmap list_fmap] in H |- *. rewrite Forall_singleton. revert H.
  set (s' := tcp_run _ demo_client). intros H.
  assert (∃ e fs, open_frames (has_messageHandler demo_client) (has_connectedHandler demo_client) (endpoint_of demo_client) demo_peer
    = ([OnConnected; OnMessage {| msg_type := mt_value CAMERA; msg_length := 2; msg_payload := [x41; x42] |}], fs, e)) as (e & fs & He)
    by (eexists _, _; vm_compute; reflexivity).
  rewrite He in H. destruct H as (H & _ & _ & _ & _ & _ & _ & Hp & _).
  - by split.
  - repeat constructor; vm_compute; congruence.
  - split; [vm_compute|cbn]; split; vm_compute; congruence.
  - vm_compute. lia.
  - vm_compute. reflexivity.
  - split; [|exact Hp]. rewrite H. vm_compute. reflexivity.
Defined.
