(* ===== verification/MessageProcessor.v ===== *)
(** * Dispatch of received messages (src/Src/Network/MessageProcessor,
    INetworkService.hpp)

    Which callback a message runs, with the payload bytes as a string. *)

From Stdlib Require Import Strings.String Strings.Byte.
From S2P Require Import Prelude Protocol.

(** The callbacks of [NetworkCallbacks] that take a JSON body. *)
Inductive callback : Type :=
| onLoginResult | onLoginFail | onCameraList | onDeviceStatus | onAiResult | onMetaResult
| onAssign | onImageMeta.

#[export] Instance callback_eq_dec : EqDecision callback.
Proof. solve_decision. Defined.

(** [NetworkCallbacks]: which of the functions are set. *)
Record NetworkCallbacks : Type := {
  has_onConnected : bool;
  has_callback : callback → bool;
  has_onImageData : bool
}.

(** [std::string(payload.begin(), payload.end())] *)
Definition payload_string (payload : list byte) : string := string_of_list_byte payload.

Definition string_bytes (s : string) : list byte := list_byte_of_string s.

Lemma payload_string_bytes s : payload_string (string_bytes s) = s.
Proof. apply string_of_list_byte_of_string. Qed.

Section processor.
Context (callbacks_ : NetworkCallbacks).

(** [if (callbacks_.f && !msg.payload.empty()) callbacks_.f(string)] *)
Definition forward (c : callback) (m : Message) : list (callback * string) :=
  if has_callback callbacks_ c && bool_decide (msg_payload m ≠ [])
  then [(c, payload_string (msg_payload m))] else [].

Definition handleLoginResult (m : Message) := forward onLoginResult m.
Definition handleLoginFail (m : Message) := forward onLoginFail m.
Definition handleDeviceStatus (m : Message) := forward onDeviceStatus m.
(** AVAILABLE goes to the callback of DEVICE. *)
Definition handleAvailable (m : Message) := forward onDeviceStatus m.
Definition handleAiResult (m : Message) := forward onAiResult m.
Definition handleCameraList (m : Message) := forward onCameraList m.
Definition handleAssign (m : Message) := forward onAssign m.
Definition handleMeta (m : Message) := forward onMetaResult m.
Definition handleImage (m : Message) := forward onImageMeta m.

Definition processMessage (m : Message) : list (callback * string) :=
  match mt_of_value (msg_type m) with
  | Some SUCCESS => handleLoginResult m
  | Some FAIL => handleLoginFail m
  | Some DEVICE => handleDeviceStatus m
  | Some AVAILABLE => handleAvailable m
  | Some AI => handleAiResult m
  | Some CAMERA => handleCameraList m
  | Some ASSIGN => handleAssign m
  | Some META => handleMeta m
  | Some IMAGE => handleImage m
  | _ => []
  end.

End processor.

(** The protocol's table of the messages a client receives. *)
Definition callback_for (t : MessageType) : option callback :=
  match t with
  | SUCCESS => Some onLoginResult | FAIL => Some onLoginFail
  | DEVICE | AVAILABLE => Some onDeviceStatus | AI => Some onAiResult
  | CAMERA => Some onCameraList | ASSIGN => Some onAssign | META => Some onMetaResult
  | IMAGE => Some onImageMeta | LOGIN | TLS_HANDSHAKE => None
  end.

(** Dispatch: a message runs a callback exactly when its type byte is one of
    the nine incoming types, the callback of that type is set and the payload is
    not empty; it is then that one callback, once, with the payload's text.
    LOGIN, TLS_HANDSHAKE and the bytes outside the enumeration run nothing. *)
Theorem message_dispatch (cbs : NetworkCallbacks) (m : Message) (c : callback) (s : string) :
  (processMessage cbs m = [(c, s)] ↔
    ∃ t, msg_type m = mt_value t ∧ callback_for t = Some c ∧ has_callback cbs c = true ∧
         msg_payload m ≠ [] ∧ s = payload_string (msg_payload m)) ∧
  length (processMessage cbs m) ≤ 1.
Proof.
  assert (∀ c', length (forward cbs c' m) ≤ 1) as Hlen.
  { intros c'. unfold forward. by destruct (_ && _); cbn; lia. }
  assert (∀ c', forward cbs c' m = [(c, s)] ↔
    c' = c ∧ has_callback cbs c' = true ∧ msg_payload m ≠ [] ∧
    s = payload_string (msg_payload m)) as Hfwd.
  { intros c'. unfold forward. destruct (has_callback cbs c'); cbn.
    - case_bool_decide as Hp; split; [intros [= <- <-]; done|by intros (-> & _ & _ & ->)|done|].
      by intros (_ & _ & ? & _).
    - split; [done|]. by intros (_ & ? & _). }
  assert (∀ t, mt_of_value (msg_type m) = Some t ↔ msg_type m = mt_value t) as Hmt.
  { intros t. split; [apply mt_of_value_Some|]. intros ->. apply mt_of_value_value. }
  unfold processMessage. destruct (mt_of_value (msg_type m)) as [t|] eqn:Ht.
  - split; [|destruct t; cbn; try apply Hlen; lia].
    apply mt_of_value_Some in Ht. rewrite Ht.
    transitivity (∃ c', callback_for t = Some c' ∧ forward cbs c' m = [(c, s)]).
    { destruct t; cbn; (split; [try done; intros Hp; eexists; by split|]);
        intros (c' & [=] & Hp); by subst. }
    split.
    + intros (c' & Hc & (-> & ? & ? & ?)%Hfwd). by exists t.
    + intros (t' & Heq & Hc & ? & ? & ?). exists c. rewrite Hfwd. split; [|done].
      assert (Some t = Some t') as [= ->]; [|done].
      by rewrite <-(mt_of_value_value t), Heq, mt_of_value_value.
  - split; [|cbn; lia]. split; [done|]. by intros (t & Heq%Hmt & _).
Qed.
