(* ===== verification/NetworkService.v ===== *)
(** * The network service (src/Src/Network/NetworkService)

    One [io_context] run by one thread, a strand, the message processor, the TCP
    session and, once an IMAGE message has come, the UDP session.  Objects live as
    long as a pending handler holds them, so the sessions ever created are kept in
    lists and the service's pointers are positions in them. *)

From S2P Require Import Prelude Protocol Crypt UdpSession TcpSession MessageProcessor.

(** What the service does to its owner. *)
Inductive net_out : Type :=
| CbConnected
| CbText (c : callback) (json : string)
| CbImageData (data : list byte) (meta : string).

(** Handlers posted to the service's strand. *)
Inductive net_post : Type :=
| PConnect (host port : string)
| PProcess (m : Message)
| PDisconnected
| PConnected
| PImageMeta (json : string)
| PSend (messageType : Z) (jsonBody : string)
| PShutdown.

Record NetworkService (TS DS : Type) : Type := {
  io_context_ : bool;              (* the context and its thread exist *)
  work_guard_ : bool;
  joining : bool;                  (* disconnect() is in io_thread_.join() *)
  connected_ : bool;
  cbs : NetworkCallbacks;          (* as given to connect() *)
  processor_ : bool;
  session_ : option nat;
  udpSession_ : option nat;
  connecting : bool;               (* async_connect pending *)
  posts : list net_post;
  tcps : list (TcpSession TS);
  udps : list (UdpSession DS);
  out : list net_out
}.
Arguments io_context_ {_ _}.
Arguments work_guard_ {_ _}.
Arguments joining {_ _}.
Arguments connected_ {_ _}.
Arguments cbs {_ _}.
Arguments processor_ {_ _}.
Arguments session_ {_ _}.
Arguments udpSession_ {_ _}.
Arguments connecting {_ _}.
Arguments posts {_ _}.
Arguments tcps {_ _}.
Arguments udps {_ _}.
Arguments out {_ _}.

Section service.
Context {TS DS : Type} `{ST : SecureSession TS, SD : SecureSession DS}.
(** [TLS::ClientContext] and a session on it ([None]: no context), the
    [UdpSession] constructor's DTLS session, [getLocalPort]. *)
Context (new_tls : option TS) (new_dtls : DS) (getLocalPort : UdpSession DS → Z).
Abbreviation net := (NetworkService TS DS).

Definition no_callbacks : NetworkCallbacks :=
  {| has_onConnected := false; has_callback := λ _, false; has_onImageData := false |}.

Definition net_initial : net := {|
  io_context_ := false; work_guard_ := false; joining := false; connected_ := false;
  cbs := no_callbacks; processor_ := false; session_ := None; udpSession_ := None;
  connecting := false; posts := []; tcps := []; udps := []; out := []
|}.

(** *** Field updates *)
Definition set_posts (p : list net_post) (n : net) : net := {|
  io_context_ := io_context_ n; work_guard_ := work_guard_ n; joining := joining n;
  connected_ := connected_ n; cbs := cbs n; processor_ := processor_ n;
  session_ := session_ n; udpSession_ := udpSession_ n; connecting := connecting n;
  posts := p; tcps := tcps n; udps := udps n; out := out n
|}.

Definition set_tcps (l : list (TcpSession TS)) (n : net) : net := {|
  io_context_ := io_context_ n; work_guard_ := work_guard_ n; joining := joining n;
  connected_ := connected_ n; cbs := cbs n; processor_ := processor_ n;
  session_ := session_ n; udpSession_ := udpSession_ n; connecting := connecting n;
  posts := posts n; tcps := l; udps := udps n; out := out n
|}.

Definition set_udps (l : list (UdpSession DS)) (n : net) : net := {|
  io_context_ := io_context_ n; work_guard_ := work_guard_ n; joining := joining n;
  connected_ := connected_ n; cbs := cbs n; processor_ := processor_ n;
  session_ := session_ n; udpSession_ := udpSession_ n; connecting := connecting n;
  posts := posts n; tcps := tcps n; udps := l; out := out n
|}.

Definition set_connected (b : bool) (n : net) : net := {|
  io_context_ := io_context_ n; work_guard_ := work_guard_ n; joining := joining n;
  connected_ := b; cbs := cbs n; processor_ := processor_ n;
  session_ := session_ n; udpSession_ := udpSession_ n; connecting := connecting n;
  posts := posts n; tcps := tcps n; udps := udps n; out := out n
|}.

Definition set_sessions (s u : option nat) (pr : bool) (n : net) : net := {|
  io_context_ := io_context_ n; work_guard_ := work_guard_ n; joining := joining n;
  connected_ := connected_ n; cbs := cbs n; processor_ := pr;
  session_ := s; udpSession_ := u; connecting := connecting n;
  posts := posts n; tcps := tcps n; udps := udps n; out := out n
|}.

Definition set_connecting (b : bool) (n : net) : net := {|
  io_context_ := io_context_ n; work_guard_ := work_guard_ n; joining := joining n;
  connected_ := connected_ n; cbs := cbs n; processor_ := processor_ n;
  session_ := session_ n; udpSession_ := udpSession_ n; connecting := b;
  posts := posts n; tcps := tcps n; udps := udps n; out := out n
|}.

Definition set_guard (g j : bool) (n : net) : net := {|
  io_context_ := io_context_ n; work_guard_ := g; joining := j;
  connected_ := connected_ n; cbs := cbs n; processor_ := processor_ n;
  session_ := session_ n; udpSession_ := udpSession_ n; connecting := connecting n;
  posts := posts n; tcps := tcps n; udps := udps n; out := out n
|}.

Definition add_out (o : list net_out) (n : net) : net := {|
  io_context_ := io_context_ n; work_guard_ := work_guard_ n; joining := joining n;
  connected_ := connected_ n; cbs := cbs n; processor_ := processor_ n;
  session_ := session_ n; udpSession_ := udpSession_ n; connecting := connecting n;
  posts := posts n; tcps := tcps n; udps := udps n; out := out n ++ o
|}.

Definition post_all (p : list net_post) (n : net) : net := set_posts (posts n ++ p) n.

(** *** Operations *)

(** [send]: nothing without a strand; the rest runs on it. *)
Definition send (messageType : Z) (jsonBody : string) (n : net) : net :=
  if io_context_ n then post_all [PSend messageType jsonBody] n else n.

Definition send_message (messageType : Z) (jsonBody : string) : Message :=
  let payload := string_bytes jsonBody in
  {| msg_type := messageType; msg_length := wrap32 (Z.of_nat (length payload));
     msg_payload := payload |}.

Definition run_send (messageType : Z) (jsonBody : string) (n : net) : net :=
  match session_ n with
  | Some i =>
      if connected_ n
      then set_tcps (alter (sendMessage (send_message messageType jsonBody)) i (tcps n)) n
      else n
  | None => n
  end.

(** [reply.dump()] of [{"port": port}]. *)
Definition port_json (port : Z) : string :=
  "{" +:+ dq +:+ "port" +:+ dq +:+ ":" +:+ pretty port +:+ "}".

(** The callbacks [processor_] works with: [onImageMeta] is always the wrapper. *)
Definition wrapped_cbs (c : NetworkCallbacks) : NetworkCallbacks :=
  {| has_onConnected := has_onConnected c;
     has_callback k := match k with onImageMeta => true | _ => has_callback c k end;
     has_onImageData := has_onImageData c |}.

(** Running a callback of the processor: the wrapper posts, the others are the
    owner's. *)
Definition run_callback (p : callback * string) (n : net) : net :=
  match p.1 with
  | onImageMeta => post_all [PImageMeta p.2] n
  | c => add_out [CbText c p.2] n
  end.

(** The posted part of the [onImageMeta] wrapper. *)
Definition run_image_meta (json : string) (n : net) : net :=
  let '(u, n) :=
    match udpSession_ n with
    | Some u => (u, n)
    | None =>
        let u := length (udps n) in
        (u, set_sessions (session_ n) (Some u) (processor_ n)
              (set_udps (udps n ++
                 [UdpSession.start (UdpSession_ctor new_dtls (has_onImageData (cbs n)) true)]) n))
    end in
  let n := set_udps (alter (setExpectedMeta json) u (udps n)) n in
  let port := match udps n !! u with Some s => getLocalPort s | None => 0%Z end in
  let n := send (mt_value IMAGE) (port_json port) n in
  if has_callback (cbs n) onImageMeta then add_out [CbText onImageMeta json] n else n.

(** The lambda [disconnect] dispatches. *)
Definition run_shutdown (n : net) : net :=
  let n := set_connected false n in
  let n := match session_ n with
           | Some i => set_tcps (alter close i (tcps n)) n
           | None => n
           end in
  set_sessions None None false n.

Definition run_post (p : net_post) (n : net) : net :=
  match p with
  | PConnect _ _ => set_connecting true n
  | PProcess m =>
      if processor_ n
      then foldl (λ n c, run_callback c n) n (processMessage (wrapped_cbs (cbs n)) m)
      else n
  | PDisconnected => set_connected false n
  | PConnected =>
      let n := set_connected true n in
      if has_onConnected (cbs n) then add_out [CbConnected] n else n
  | PImageMeta json => run_image_meta json n
  | PSend t b => run_send t b n
  | PShutdown => run_shutdown n
  end.

(** What a session's callbacks post or run. *)
Definition of_tcp_out (o : tcp_out) : list net_post :=
  match o with
  | OnMessage m => [PProcess m]
  | OnDisconnect => [PDisconnected]
  | OnConnected => [PConnected]
  | CloseSocket => []
  end.

Definition run_udp_out (o : udp_out) (n : net) : net :=
  match o with
  | OnComplete image meta => add_out [CbImageData image meta] n
  | SendControl json => send (mt_value IMAGE) json n
  | SendTo _ _ => n
  end.

(** The success handler of [async_connect]. *)
Definition on_connected (n : net) : net :=
  let i := length (tcps n) in
  let s := TcpSession.start (TcpSession_ctor new_tls true true true) in
  post_all (TcpSession.trace s ≫= of_tcp_out)
    (set_sessions (Some i) (udpSession_ n) (processor_ n)
       (set_tcps (tcps n ++ [s]) (set_connecting false n))).

Definition connect (host port : string) (c : NetworkCallbacks) (n : net) : net := {|
  io_context_ := true; work_guard_ := true; joining := false; connected_ := connected_ n;
  cbs := c; processor_ := true; session_ := session_ n; udpSession_ := udpSession_ n;
  connecting := false; posts := [PConnect host port];
  tcps := []; udps := []; out := out n
|}.

Definition disconnect_begin (n : net) : net :=
  if io_context_ n then set_guard false true (post_all [PShutdown] n) else n.

(** *** When [io_context::run] returns, and so [join] *)

Definition tcp_idle (s : TcpSession TS) : bool :=
  bool_decide (TcpSession.pending s = None) && bool_decide (TcpSession.writes s = []) &&
  match TcpSession.strand s with [] => true | _ => false end.

Definition udp_idle (s : UdpSession DS) : bool :=
  negb (receiving s) && bool_decide (timer_wait s = None) && bool_decide (timer_ready s = []).

Definition io_idle (n : net) : bool :=
  negb (work_guard_ n) && negb (connecting n) && bool_decide (length (posts n) = 0) &&
  forallb tcp_idle (tcps n) && forallb udp_idle (udps n).

(** The rest of [disconnect], after the join. *)
Definition disconnect_end (n : net) : net := {|
  io_context_ := false; work_guard_ := false; joining := false; connected_ := connected_ n;
  cbs := cbs n; processor_ := false; session_ := None; udpSession_ := None;
  connecting := false; posts := []; tcps := []; udps := []; out := out n
|}.

(** *** Events *)
Inductive net_event : Type :=
| Connect (host port : string) (c : NetworkCallbacks)
| ConnectDone (ok : bool)
| RunPost
| TcpEv (i : nat) (e : tcp_event)
| UdpEv (j : nat) (e : udp_event)
| AppSend (messageType : Z) (jsonBody : string)
| Disconnect
| JoinReturns.

(** The events of the service's own thread; the others are calls of its owner. *)
Definition io_event (e : net_event) : bool :=
  match e with
  | ConnectDone _ | RunPost | UdpEv _ _ => true
  | TcpEv _ e => match e with Send _ | Close => false | _ => true end
  | _ => false
  end.

(** [Connect]: [connect] first disconnects, so an existing context is taken down by
    [Disconnect], ..., [JoinReturns] before. *)
Definition net_handle (fuel : nat) (n : net) (e : net_event) : option net :=
  match e with
  | Connect h p c => if io_context_ n then None else Some (connect h p c n)
  | ConnectDone ok =>
      if connecting n then Some (if ok then on_connected n else set_connecting false n) else None
  | RunPost =>
      match posts n with
      | [] => None
      | p :: rest => Some (run_post p (set_posts rest n))
      end
  | TcpEv i e =>
      match tcps n !! i with
      | Some s =>
          let s' := tcp_handle s e in
          Some (post_all (drop (length (TcpSession.trace s)) (TcpSession.trace s') ≫= of_tcp_out)
                  (set_tcps (<[i := s']> (tcps n)) n))
      | None => None
      end
  | UdpEv j e =>
      match udps n !! j with
      | Some s =>
          s' ← udp_handle fuel e s;
          Some (foldl (λ n o, run_udp_out o n) (set_udps (<[j := s']> (udps n)) n)
                  (drop (length (UdpSession.trace s)) (UdpSession.trace s')))
      | None => None
      end
  | AppSend t b => Some (send t b n)
  | Disconnect => if joining n then None else Some (disconnect_begin n)
  | JoinReturns => if joining n && io_idle n then Some (disconnect_end n) else None
  end.

Fixpoint net_run (fuel : nat) (es : list net_event) (n : net) : option net :=
  match es with
  | [] => Some n
  | e :: es' => n' ← net_handle fuel n e; net_run fuel es' n'
  end.

End service.

(** ** Lemmas *)
Section lemmas.
Context {TS DS : Type} `{ST : SecureSession TS, SD : SecureSession DS}.
Context (new_tls : option TS) (new_dtls : DS) (getLocalPort : UdpSession DS → Z).
Abbreviation net := (NetworkService TS DS).

(** The receive loop of a UDP session ends only with an error. *)
Lemma check_missing_receiving fuel (s s' : UdpSession DS) :
  checkMissingFragments fuel s = Some s' → receiving s' = receiving s.
Proof.
  unfold checkMissingFragments. intros (l & _ & H)%bind_Some. case_match; simplify_eq; [|done].
  unfold timer_arm, timer_cancel. cbn. by destruct (timer_wait s).
Qed.

Lemma udp_handle_receiving fuel e (s s' : UdpSession DS) :
  udp_handle fuel e s = Some s' → e ≠ ReceiveError → receiving s = true → receiving s' = true.
Proof.
  intros H Hne Hr. destruct e as [pkt sender| | |]; cbn in H; try done.
  - rewrite Hr in H. by injection H as <-.
  - destruct (timer_wait s); by injection H as <-.
  - destruct (timer_ready s) as [|[f ok] rest]; [by injection H as <-|].
    unfold timer_handler in H. case_match; [|by injection H as <-].
    by rewrite (check_missing_receiving _ _ _ H).
Qed.

(** UDP session [j] has its receive pending, in a running context. *)
Definition udp_pending (j : nat) (n : net) : Prop :=
  io_context_ n = true ∧ ∃ s, udps n !! j = Some s ∧ receiving s = true.

Lemma udp_pending_same j n n' :
  io_context_ n' = io_context_ n → udps n' = udps n → udp_pending j n → udp_pending j n'.
Proof. unfold udp_pending. by intros -> ->. Qed.

Lemma run_callbacks_keep cs (n : net) :
  io_context_ (foldl (λ n c, run_callback c n) n cs) = io_context_ n ∧
  udps (foldl (λ n c, run_callback c n) n cs) = udps n ∧
  joining (foldl (λ n c, run_callback c n) n cs) = joining n.
Proof.
  revert n. induction cs as [|[c b] cs IH]; intros n; [done|]. cbn.
  destruct (IH (run_callback (c, b) n)) as (-> & -> & ->). by destruct c.
Qed.

Lemma run_udp_outs_keep os (n : net) :
  io_context_ (foldl (λ n o, run_udp_out o n) n os) = io_context_ n ∧
  udps (foldl (λ n o, run_udp_out o n) n os) = udps n ∧
  joining (foldl (λ n o, run_udp_out o n) n os) = joining n.
Proof.
  revert n. induction os as [|o os IH]; intros n; [done|]. cbn.
  destruct (IH (run_udp_out o n)) as (-> & -> & ->). destruct o; try done.
  cbn. unfold send. case_match; done.
Qed.

Lemma send_keep t b (n : net) :
  io_context_ (send t b n) = io_context_ n ∧ udps (send t b n) = udps n ∧
  joining (send t b n) = joining n.
Proof. unfold send. case_match; done. Qed.

Lemma image_meta_pending j json n :
  udp_pending j n → udp_pending j (run_image_meta new_dtls getLocalPort json n) ∧
  joining (run_image_meta new_dtls getLocalPort json n) = joining n.
Proof.
  intros (Hio & s & Hs & Hr). unfold run_image_meta.
  set (p := match udpSession_ n with Some u => (u, n) | None => _ end).
  assert (io_context_ p.2 = io_context_ n ∧ joining p.2 = joining n ∧
          udps p.2 !! j = Some s) as (Hi & Hj & Hl).
  { unfold p. destruct (udpSession_ n); [done|]. cbn. split_and!; [done|done|].
    by apply lookup_app_l_Some. }
  destruct p as [u n1]. cbn [snd fst] in *.
  set (n2 := set_udps _ n1).
  assert (udp_pending j n2 ∧ joining n2 = joining n) as [Hp2 Hj2].
  { split; [|done]. split; [by rewrite <-Hio, <-Hi|]. cbn.
    destruct (decide (u = j)) as [->|Hne].
    - exists (setExpectedMeta json s). by rewrite list_lookup_alter_eq, Hl.
    - exists s. by rewrite list_lookup_alter_ne. }
  clearbody n2.
  set (n3 := send _ _ n2). destruct (send_keep (mt_value IMAGE)
    (port_json (match udps n2 !! u with Some s => getLocalPort s | None => 0%Z end)) n2)
    as (H1 & H2 & H3). fold n3 in H1, H2, H3. rewrite <-Hj2, <-H3.
  assert (udp_pending j n3) by (by apply (udp_pending_same j n2)).
  case_match; done.
Qed.

Lemma run_post_pending j p n :
  udp_pending j n → udp_pending j (run_post new_dtls getLocalPort p n) ∧
  joining (run_post new_dtls getLocalPort p n) = joining n.
Proof.
  intros Hp. destruct p as [h q|m| | |json|t b|]; cbn [run_post].
  - split; [by apply (udp_pending_same j n)|done].
  - destruct (processor_ n); [|done].
    destruct (run_callbacks_keep (processMessage (wrapped_cbs (cbs n)) m) n) as (H1 & H2 & H3).
    split; [by apply (udp_pending_same j n)|done].
  - split; [by apply (udp_pending_same j n)|done].
  - destruct (has_onConnected _); (split; [by apply (udp_pending_same j n)|done]).
  - by apply image_meta_pending.
  - unfold run_send. destruct (session_ n); [|done]. destruct (connected_ n); [|done].
    split; [by apply (udp_pending_same j n)|done].
  - unfold run_shutdown. cbn. destruct (session_ n); (split; [by apply (udp_pending_same j n)|done]).
Qed.

Lemma pending_not_idle j n : udp_pending j n → io_idle n = false.
Proof.
  intros (_ & s & Hs & Hr). unfold io_idle. apply andb_false_iff. right.
  apply not_true_iff_false. rewrite forallb_forall. intros H.
  specialize (H s (proj1 (list_elem_of_In _ _) (list_elem_of_lookup_2 _ _ _ Hs))).
  unfold udp_idle in H. by rewrite Hr in H.
Qed.

(** What runs on the service's thread, and sending, leave a pending receive pending. *)
Lemma io_event_pending fuel j e n n' :
  udp_pending j n → io_event e = true → e ≠ UdpEv j ReceiveError →
  net_handle new_tls new_dtls getLocalPort fuel n e = Some n' → udp_pending j n' ∧ joining n' = joining n.
Proof.
  intros Hp Hio Hne H. destruct e as [h q c|ok| |i e|k e|t b| |]; try done; cbn [net_handle] in H.
  - destruct (connecting n); [|done]. injection H as <-. destruct ok; (split; [by apply (udp_pending_same j n)|done]).
  - destruct (posts n) as [|p rest]; [done|]. injection H as <-.
    destruct (run_post_pending j p (set_posts rest n)) as [? ->]; done.
  - destruct (tcps n !! i); [|done]. injection H as <-. split; [by apply (udp_pending_same j n)|done].
  - destruct (udps n !! k) as [s|] eqn:Hk; [|done].
    apply bind_Some in H as (s' & Hs' & H). injection H as <-.
    destruct (run_udp_outs_keep (drop (length (UdpSession.trace s)) (UdpSession.trace s'))
                (set_udps (<[k:=s']> (udps n)) n)) as (H1 & H2 & H3).
    split; [|by rewrite H3]. unfold udp_pending. rewrite H1, H2. cbn.
    destruct Hp as (Hc & s0 & Hs0 & Hr). split; [done|].
    destruct (decide (k = j)) as [->|Hkj].
    + exists s'. rewrite list_lookup_insert_eq by (by eapply lookup_lt_Some). split; [done|].
      apply (udp_handle_receiving fuel e s); [done| |congruence]. congruence.
    + exists s0. by rewrite list_lookup_insert_ne.
Qed.

Lemma net_handle_pending fuel j e n n' :
  udp_pending j n → joining n = true → e ≠ UdpEv j ReceiveError →
  net_handle new_tls new_dtls getLocalPort fuel n e = Some n' →
  udp_pending j n' ∧ joining n' = true ∧ e ≠ JoinReturns.
Proof.
  intros Hp Hj Hne H. destruct (io_event e) eqn:Hio.
  - destruct (io_event_pending fuel j e n n' Hp Hio Hne H) as [? ->]. split_and!; [done|done|by intros ->].
  - destruct e as [h q c|ok| |i e|k e|t b| |]; try done; cbn [net_handle] in H.
    + destruct Hp as [Hc _]. by rewrite Hc in H.
    + destruct (tcps n !! i); [|done]. injection H as <-. split_and!; [by apply (udp_pending_same j n)|done|done].
    + injection H as <-. destruct (send_keep t b n) as (H1 & H2 & ->).
      split_and!; [by apply (udp_pending_same j n)|done|done].
    + by rewrite Hj in H.
    + by rewrite (pending_not_idle j n Hp), andb_false_r in H.
Qed.

(** *** What the service's thread keeps *)

(** Calls back are only added; the callbacks stay, and no processor appears. *)
Definition grows (n n' : net) : Prop :=
  out n `prefix_of` out n' ∧ cbs n' = cbs n ∧ (processor_ n' = true → processor_ n = true) ∧ io_context_ n' = io_context_ n.

#[global] Instance grows_preorder : PreOrder grows.
Proof.
  split; [by intros n|]. intros n1 n2 n3 (H1 & E1 & P1 & I1) (H2 & E2 & P2 & I2).
  split_and!; [by etrans|congruence|auto|congruence].
Qed.

Lemma grows_fields n n' :
  out n' = out n → cbs n' = cbs n → (processor_ n' = true → processor_ n = true) → io_context_ n' = io_context_ n → grows n n'.
Proof. intros Ho. unfold grows. by rewrite Ho. Qed.

Lemma grows_out o n : grows n (add_out o n).
Proof. split_and!; [by eexists|done|done|done]. Qed.

Lemma grows_send t b n : grows n (send t b n).
Proof. unfold send. destruct (io_context_ n) eqn:Hi; [|done]. by apply grows_fields. Qed.

Lemma grows_callbacks cs n : grows n (foldl (λ n c, run_callback c n) n cs).
Proof.
  revert n. induction cs as [|[c b] cs IH]; intros n; [done|]. cbn. etrans; [|apply IH].
  destruct c; first [exact (grows_out _ n)|by apply grows_fields].
Qed.

Lemma grows_image_meta json n : grows n (run_image_meta new_dtls getLocalPort json n).
Proof.
  unfold run_image_meta.
  set (p := match udpSession_ n with Some u => (u, n) | None => _ end).
  assert (grows n p.2) as Hp by (unfold p; destruct (udpSession_ n); [done|by apply grows_fields]).
  destruct p as [u n1]. cbn [snd] in Hp. etrans; [exact Hp|]. cbn zeta.
  set (n2 := set_udps _ n1). assert (grows n1 n2) as H2 by by apply grows_fields. etrans; [exact H2|].
  etrans; [apply grows_send|]. case_match; [apply grows_out|done].
Qed.

Lemma grows_post p n : grows n (run_post new_dtls getLocalPort p n).
Proof.
  destruct p as [h q|m| | |json|t b|]; cbn [run_post].
  - by apply grows_fields.
  - destruct (processor_ n); [apply grows_callbacks|done].
  - by apply grows_fields.
  - cbn. destruct (has_onConnected _); [|by apply grows_fields]. etrans; [|apply grows_out]. by apply grows_fields.
  - apply grows_image_meta.
  - unfold run_send. destruct (session_ n); [|done]. destruct (connected_ n); [|done]. by apply grows_fields.
  - unfold run_shutdown. cbn. destruct (session_ n); by apply grows_fields.
Qed.

Lemma grows_udp_outs os n : grows n (foldl (λ n o, run_udp_out o n) n os).
Proof.
  revert n. induction os as [|o os IH]; intros n; [done|]. cbn. etrans; [|apply IH].
  destruct o; cbn; [done|apply grows_out|apply grows_send].
Qed.

Lemma io_event_grows fuel e n n' :
  io_event e = true → net_handle new_tls new_dtls getLocalPort fuel n e = Some n' → grows n n'.
Proof.
  intros Hio H. destruct e as [h q c|ok| |i e|k e|t b| |]; try done; cbn [net_handle] in H.
  - destruct (connecting n); [|done]. injection H as <-. destruct ok; by apply grows_fields.
  - destruct (posts n) as [|p rest]; [done|]. injection H as <-. etrans; [|apply grows_post]. by apply grows_fields.
  - destruct (tcps n !! i); [|done]. injection H as <-. by apply grows_fields.
  - destruct (udps n !! k) as [s|] eqn:Hk; [|done]. apply bind_Some in H as (s' & Hs' & H). injection H as <-.
    etrans; [|apply grows_udp_outs]. by apply grows_fields.
Qed.
End lemmas.

Lemma net_run_app {TS DS : Type} `{ST : SecureSession TS, SD : SecureSession DS} new_tls new_dtls
    getLocalPort fuel es es' (n : NetworkService TS DS) :
  net_run new_tls new_dtls getLocalPort fuel (es ++ es') n
  = net_run new_tls new_dtls getLocalPort fuel es n
      ≫= net_run new_tls new_dtls getLocalPort fuel es'.
Proof.
  revert n. induction es as [|e es IH]; intros n; [done|]. cbn.
  destruct (net_handle _ _ _ _ n e); [|done]. apply IH.
Qed.

(** ** Lemmas: sending *)

Lemma string_bytes_length s : length (string_bytes s) = String.length s.
Proof. unfold string_bytes, String.list_byte_of_string. rewrite List.length_map. induction s as [|c s IH]; [done|]. cbn. by rewrite IH. Qed.

Lemma send_message_wf t body :
  (Z.of_nat (String.length body) < 2 ^ 32)%Z → wf_message (send_message (mt_value t) body).
Proof.
  intros Hlen. pose proof (string_bytes_length body) as Hl.
  unfold wf_message. cbn [send_message msg_type msg_length msg_payload]. unfold is_u8, is_u32. rewrite Hl.
  rewrite wrap32_id by (unfold is_u32; lia). split_and!; [destruct t; cbn; lia..|lia|done].
Qed.

(** ** Lemmas: receiving *)
Section receiving.
Context {TS DS : Type} `{ST : SecureSession TS, SD : SecureSession DS}.
Context (new_tls : option TS) (new_dtls : DS) (getLocalPort : UdpSession DS → Z).
Abbreviation net := (NetworkService TS DS).

Lemma disconnect_extends (s : TcpSession TS) : TcpSession.trace s `prefix_of` TcpSession.trace (handleDisconnect s).
Proof.
  unfold handleDisconnect. destruct (disconnected_ s); [done|]. cbn.
  destruct (has_disconnectHandler s); cbn; [rewrite <-app_assoc|]; by eexists.
Qed.

Lemma tls_output_trace (s : TcpSession TS) : TcpSession.trace (handleTlsOutput s) = TcpSession.trace s.
Proof.
  unfold handleTlsOutput. destruct (tlsSession_ s) as [d|]; [|done].
  destruct (sec_handshake d []) as [r d']. by case_decide.
Qed.

Lemma deliver_extends (s : TcpSession TS) : TcpSession.trace s `prefix_of` TcpSession.trace (deliver s).
Proof. unfold deliver. destruct (has_messageHandler s); cbn; [by eexists|done]. Qed.

Lemma header_extends hdr (s : TcpSession TS) : TcpSession.trace s `prefix_of` TcpSession.trace (header_read hdr s).
Proof.
  unfold header_read. destruct (read_packet_header hdr) as [[t len]|]; [|done].
  case_decide; [done|]. cbn. case_match.
  - by rewrite tls_output_trace.
  - apply (deliver_extends (set_message _ s)).
Qed.

Lemma body_extends body (s : TcpSession TS) : TcpSession.trace s `prefix_of` TcpSession.trace (body_read body s).
Proof.
  unfold body_read. destruct (if decide (0 < msg_length (currentMessage_ s))%Z then tlsSession_ s else None) as [d|].
  - destruct (sec_decrypt d body) as [plain d']. cbn zeta.
    set (s1 := set_message _ _).
    assert (TcpSession.trace s `prefix_of` TcpSession.trace (handleTlsOutput s1)) as Hs
      by (by rewrite tls_output_trace).
    destruct (is_handshake_type _).
    + case_match; [|done]. destruct (has_connectedHandler _); cbn; [|done].
      etrans; [exact Hs|by eexists].
    + case_decide; [|done]. etrans; [exact Hs|]. apply deliver_extends.
  - cbn zeta. case_decide; [|done]. apply (deliver_extends (set_message _ s)).
Qed.

Lemma bytes_extend bs (s : TcpSession TS) :
  TcpSession.trace s `prefix_of` TcpSession.trace (foldl recv_byte s bs).
Proof.
  revert s. induction bs as [|b bs IH]; intros s; [done|]. cbn. etrans; [|apply IH].
  unfold recv_byte. destruct (pending s) as [op|]; [|done]. case_match; [|done].
  destruct op; [apply header_extends|apply body_extends].
Qed.

Lemma tcp_event_extends e (s : TcpSession TS) : TcpSession.trace s `prefix_of` TcpSession.trace (tcp_handle s e).
Proof.
  destruct e as [chunk| | |k m|k|m|]; cbn [tcp_handle]; try done.
  - apply bytes_extend.
  - destruct (pending s); [|done]. apply (disconnect_extends (set_read None [] s)).
  - destruct (strand s) as [|[m|buf] rest]; [done| |done].
    unfold TcpSession.run_send. cbn. destruct (tlsSession_ s) as [d|]; [|done].
    case_decide; [|done]. by destruct (sec_encrypt _ _).
  - by destruct (writes s !! k).
  - destruct (writes s !! k); [|done]. apply (disconnect_extends (set_output _ _ _ s)).
  - by eexists.
Qed.

Lemma tcp_run_extends es (s : TcpSession TS) : TcpSession.trace s `prefix_of` TcpSession.trace (tcp_run es s).
Proof. revert s. induction es as [|e es IH]; intros s; [done|]. cbn. etrans; [apply tcp_event_extends|apply IH]. Qed.

(** What a session's new outputs post. *)
Definition new_posts (s s' : TcpSession TS) : list net_post :=
  drop (length (TcpSession.trace s)) (TcpSession.trace s') ≫= of_tcp_out.

Lemma new_posts_trans s1 s2 s3 :
  TcpSession.trace s1 `prefix_of` TcpSession.trace s2 →
  TcpSession.trace s2 `prefix_of` TcpSession.trace s3 →
  new_posts s1 s2 ++ new_posts s2 s3 = new_posts s1 s3.
Proof.
  unfold new_posts. intros [a Ha] [b Hb]. rewrite Hb, Ha, <-app_assoc, !drop_app_length.
  rewrite length_app, <-drop_drop, drop_app_length, drop_app_length. by rewrite bind_app.
Qed.

(** Events of one session, without other events between them. *)
Lemma run_tcp_events fuel i es (n : net) s :
  tcps n !! i = Some s →
  net_run new_tls new_dtls getLocalPort fuel (TcpEv i <$> es) n
  = Some (post_all (new_posts s (tcp_run es s)) (set_tcps (<[i := tcp_run es s]> (tcps n)) n)).
Proof.
  revert n s. induction es as [|e es IH]; intros n s Hs.
  - cbn. unfold new_posts. rewrite drop_all, list_insert_id by done. cbn.
    unfold post_all, set_posts. cbn. rewrite app_nil_r. by destruct n.
  - set (s1 := tcp_handle s e). change (tcp_run (e :: es) s) with (tcp_run es s1).
    cbn [fmap list_fmap net_run net_handle]. rewrite Hs. cbn [mbind option_bind]. fold s1.
    rewrite (IH _ s1); [|cbn; by rewrite list_lookup_insert_eq by (by eapply lookup_lt_Some)].
    pose proof (tcp_event_extends e s : TcpSession.trace s `prefix_of` TcpSession.trace s1) as H1.
    rewrite <-(new_posts_trans _ _ _ H1 (tcp_run_extends es s1)). fold (new_posts s s1). f_equal.
    unfold post_all, set_posts, set_tcps. cbn. by rewrite list_insert_insert_eq, app_assoc.
Qed.

(** The chunks of one session, without other events between them. *)
Lemma run_chunks fuel i chunks (n : net) s :
  tcps n !! i = Some s →
  net_run new_tls new_dtls getLocalPort fuel ((λ c, TcpEv i (Recv c)) <$> chunks) n
  = Some (post_all (new_posts s (tcp_run (Recv <$> chunks) s))
            (set_tcps (<[i := tcp_run (Recv <$> chunks) s]> (tcps n)) n)).
Proof. intros Hs. rewrite <-(run_tcp_events fuel i (Recv <$> chunks) n s Hs). by rewrite <-list_fmap_compose. Qed.

(** The callbacks of a message that is no IMAGE, as they reach the owner. *)
Definition owner_calls (c : NetworkCallbacks) (m : Message) : list net_out :=
  (λ p, CbText p.1 p.2) <$> processMessage c m.

Lemma run_process m (n : net) :
  processor_ n = true → msg_type m ≠ mt_value IMAGE →
  run_post new_dtls getLocalPort (PProcess m) n = add_out (owner_calls (cbs n) m) n.
Proof.
  intros Hp Hm. cbn [run_post]. rewrite Hp.
  assert (processMessage (wrapped_cbs (cbs n)) m = processMessage (cbs n) m ∧
          ∀ p, p ∈ processMessage (cbs n) m → p.1 ≠ onImageMeta) as [-> Hno].
  { unfold processMessage. destruct (mt_of_value (msg_type m)) as [t|] eqn:Ht; [|by split; [|set_solver]].
    apply mt_of_value_Some in Ht. rewrite Ht in Hm.
    assert (∀ k p, p ∈ forward (cbs n) k m → p.1 = k) as Hf.
    { unfold forward. intros k p. case_match; [by intros ->%list_elem_of_singleton|].
      by intros Hin%not_elem_of_nil. }
    destruct t; try done; (split; [done|]); intros p Hin;
      first [by apply not_elem_of_nil in Hin | by apply Hf in Hin; rewrite Hin]. }
  unfold owner_calls. revert Hno. generalize (processMessage (cbs n) m). clear Hp Hm.
  intros l Hno. revert n. induction l as [|[c b] l IH]; intros n.
  - cbn. unfold add_out. rewrite app_nil_r. by destruct n.
  - cbn [foldl]. rewrite IH by (intros p Hp; apply Hno; by right).
    specialize (Hno (c, b) (list_elem_of_here _ _)). cbn in Hno.
    destruct c; try done; unfold run_callback, add_out; cbn; by rewrite <-app_assoc.
Qed.

(** Running the posted handlers of messages. *)
Lemma run_processes fuel ms (n : net) :
  processor_ n = true → posts n = PProcess <$> ms → Forall (λ m, msg_type m ≠ mt_value IMAGE) ms →
  ∃ n', net_run new_tls new_dtls getLocalPort fuel (replicate (length ms) RunPost) n = Some n' ∧
    posts n' = [] ∧ out n' = out n ++ (ms ≫= owner_calls (cbs n)) ∧ tcps n' = tcps n.
Proof.
  revert n. induction ms as [|m ms IH]; intros n Hp Hpo Hms.
  - exists n. cbn. by rewrite app_nil_r.
  - apply Forall_cons in Hms as [Hm Hms]. cbn [length replicate net_run net_handle].
    rewrite Hpo. cbn [fmap list_fmap mbind option_bind].
    rewrite (run_process m (set_posts (PProcess <$> ms) n)) by done.
    destruct (IH (add_out (owner_calls (cbs n) m) (set_posts (PProcess <$> ms) n)))
      as (n' & Hr & Hpn & Ho & Ht); [done..|].
    exists n'. split_and!; [exact Hr|done| |done]. rewrite Ho. cbn. by rewrite <-app_assoc.
Qed.
End receiving.

(** ** Lemmas: closing *)
Section closing.
Context {TS DS : Type} `{ST : SecureSession TS, SD : SecureSession DS}.
Context (new_tls : option TS) (new_dtls : DS) (getLocalPort : UdpSession DS → Z).
Abbreviation net := (NetworkService TS DS).
Abbreviation net_run := (net_run new_tls new_dtls getLocalPort).

(** What a closed session goes through: posted handlers run, writes and the read
    fail. *)
Definition closing_events (s : TcpSession TS) : list tcp_event :=
  replicate (length (strand s)) RunPosted ++ replicate (length (strand s) + length (writes s)) (WriteError 0) ++ [ReadError].

Definition ended (o : tcp_out) : Prop := o = CloseSocket ∨ o = OnDisconnect.

(** [s'] follows [s] with ends of the session as its only outputs. *)
Definition ends (s s' : TcpSession TS) : Prop :=
  ∃ o, TcpSession.trace s' = TcpSession.trace s ++ o ∧ Forall ended o.

#[local] Instance ends_preorder : PreOrder ends.
Proof.
  split; [intros s; exists []; by rewrite app_nil_r|].
  intros s1 s2 s3 (o1 & E1 & F1) (o2 & E2 & F2). exists (o1 ++ o2).
  rewrite E2, E1, app_assoc. split; [done|by apply Forall_app].
Qed.

Lemma ends_same s s' : TcpSession.trace s' = TcpSession.trace s → ends s s'.
Proof. intros E. exists []. by rewrite E, app_nil_r. Qed.

Lemma ends_emit o s : ended o → ends s (emit o s).
Proof. intros Ho. exists [o]. split; [done|by apply Forall_singleton]. Qed.

Lemma ends_disconnect s : ends s (handleDisconnect s).
Proof.
  unfold handleDisconnect. destruct (disconnected_ s); [done|]. cbn zeta.
  assert (ends s (close (set_flags true (handshakeCompleted_ s) s))) as H1.
  { etrans; [by apply (ends_same s (set_flags true (handshakeCompleted_ s) s))|]. apply ends_emit. by left. }
  destruct (has_disconnectHandler _); [|done]. etrans; [exact H1|]. apply ends_emit. by right.
Qed.

Lemma disconnect_output (s : TcpSession TS) :
  strand (handleDisconnect s) = strand s ∧ writes (handleDisconnect s) = writes s ∧ pending (handleDisconnect s) = pending s.
Proof. unfold handleDisconnect. destruct (disconnected_ s); [done|]. cbn. by destruct (has_disconnectHandler s). Qed.

Lemma run_posted_all k (s : TcpSession TS) :
  length (strand s) = k →
  let s' := tcp_run (replicate k RunPosted) s in
  strand s' = [] ∧ length (writes s') = k + length (writes s) ∧ ends s s'.
Proof.
  revert s. induction k as [|k IH]; intros s Hk; cbn zeta; [by apply nil_length_inv in Hk|].
  destruct (strand s) as [|p rest] eqn:Hs; [done|]. injection Hk as Hk.
  set (s1 := tcp_handle s RunPosted).
  assert (strand s1 = rest ∧ length (writes s1) = S (length (writes s)) ∧ TcpSession.trace s1 = TcpSession.trace s)
    as (E1 & E2 & E3).
  { unfold s1. cbn [tcp_handle]. rewrite Hs. destruct p as [m|buf]; [|by cbn; rewrite length_app, Nat.add_1_r].
    unfold TcpSession.run_send. cbn. destruct (tlsSession_ s); [case_decide; [destruct (sec_encrypt _ _)|]|];
      by cbn; rewrite length_app, Nat.add_1_r. }
  destruct (IH s1) as (H1 & H2 & H3); [by rewrite E1|]. cbn zeta in *.
  change (tcp_run (replicate (S k) RunPosted) s) with (tcp_run (replicate k RunPosted) s1).
  split_and!; [done|rewrite H2, E2; lia|]. etrans; [by apply ends_same|done].
Qed.

Lemma write_errors_all k (s : TcpSession TS) :
  length (writes s) = k →
  let s' := tcp_run (replicate k (WriteError 0)) s in
  strand s' = strand s ∧ writes s' = [] ∧ ends s s'.
Proof.
  revert s. induction k as [|k IH]; intros s Hk; cbn zeta; [by apply nil_length_inv in Hk|].
  destruct (writes s) as [|w ws] eqn:Hs; [done|]. injection Hk as Hk.
  set (s0 := set_output (strand s) ws (wire s) s).
  assert (tcp_handle s (WriteError 0) = handleDisconnect s0) as E by (cbn [tcp_handle]; by rewrite Hs).
  destruct (disconnect_output s0) as (E1 & E2 & _).
  destruct (IH (handleDisconnect s0)) as (H1 & H2 & H3); [by rewrite E2|]. cbn zeta in *.
  change (tcp_run (replicate (S k) (WriteError 0)) s)
    with (tcp_run (replicate k (WriteError 0)) (tcp_handle s (WriteError 0))). rewrite E.
  split_and!; [by rewrite H1, E1|done|]. etrans; [|exact H3]. etrans; [|apply ends_disconnect]. by apply ends_same.
Qed.

Lemma closing_idle s : tcp_idle (tcp_run (closing_events s) s) = true ∧ ends s (tcp_run (closing_events s) s).
Proof.
  unfold closing_events. rewrite !tcp_run_app.
  destruct (run_posted_all _ s eq_refl) as (H1 & H2 & H3). cbn zeta in *.
  set (s1 := tcp_run (replicate _ RunPosted) s) in *.
  destruct (write_errors_all _ s1 H2) as (W1 & W2 & W3). cbn zeta in *.
  set (s2 := tcp_run (replicate _ (WriteError 0)) s1) in *. rewrite H1 in W1. cbn.
  assert (tcp_idle (match pending s2 with Some _ => handleDisconnect (set_read None [] s2) | None => s2 end) = true ∧
    ends s2 (match pending s2 with Some _ => handleDisconnect (set_read None [] s2) | None => s2 end)) as [Hi He].
  { unfold tcp_idle. destruct (pending s2) eqn:Hp.
    - destruct (disconnect_output (set_read None [] s2)) as (-> & -> & ->). cbn. rewrite W1, W2.
      split; [done|]. etrans; [|apply ends_disconnect]. by apply ends_same.
    - by rewrite W1, W2, Hp. }
  split; [done|]. by etrans; [|etrans].
Qed.

Lemma ended_posts s s' : ends s s' → Forall (λ p, p = PDisconnected) (new_posts s s').
Proof.
  intros (o & E & Ho). unfold new_posts. rewrite E, drop_app_length. clear E.
  induction Ho as [|x o [-> | ->] _ IH]; cbn; [done|done|by constructor].
Qed.

(** Events that need no one else: nothing is received. *)
Definition winds_down (e : net_event) : Prop :=
  match e with
  | ConnectDone ok => ok = false
  | RunPost => True
  | TcpEv _ e => e = RunPosted ∨ e = WriteError 0 ∨ e = ReadError
  | _ => False
  end.

Lemma closing_winds_down i s : Forall winds_down (TcpEv i <$> closing_events s).
Proof.
  apply Forall_fmap. unfold closing_events. apply Forall_app; split; [|apply Forall_app; split].
  - apply Forall_replicate. by left.
  - apply Forall_replicate. by right; left.
  - constructor; [by right; right|done].
Qed.

(** All sessions from the [k]-th on close. *)
Lemma close_all fuel k (n : net) :
  k ≤ length (tcps n) → (∀ i s, i < length (tcps n) - k → tcps n !! i = Some s → tcp_idle s = true) →
  ∃ es ps l, Forall winds_down es ∧ net_run fuel es n = Some (post_all ps (set_tcps l n)) ∧
    Forall (λ p, p = PDisconnected) ps ∧ forallb tcp_idle l = true.
Proof.
  revert n. induction k as [|k IH]; intros n Hk Hi.
  - exists [], [], (tcps n). split; [done|]. split; [cbn; unfold post_all, set_posts, set_tcps; cbn; rewrite app_nil_r; by destruct n|].
    split; [done|]. apply forallb_forall. intros s Hs%list_elem_of_In.
    apply list_elem_of_lookup in Hs as [i Hs]. apply (Hi i s); [|done]. apply lookup_lt_Some in Hs. lia.
  - set (i := length (tcps n) - S k). destruct (lookup_lt_is_Some_2 (tcps n) i) as [s Hs]; [lia|].
    destruct (closing_idle s) as [Hidle Hends]. set (s' := tcp_run (closing_events s) s) in *.
    destruct (IH (post_all (new_posts s s') (set_tcps (<[i := s']> (tcps n)) n))) as (es & ps & l & Hw & Hr & Hp & Hl).
    { cbn. rewrite length_insert. lia. }
    { cbn. rewrite length_insert. intros i' s0 Hlt Hs0. destruct (decide (i' = i)) as [->|Hne].
      - rewrite list_lookup_insert_eq in Hs0 by lia. by injection Hs0 as <-.
      - rewrite list_lookup_insert_ne in Hs0 by done. apply (Hi i' s0); [lia|done]. }
    exists ((TcpEv i <$> closing_events s) ++ es), (new_posts s s' ++ ps), l. split_and!.
    + apply Forall_app. split; [apply closing_winds_down|done].
    + rewrite net_run_app, (run_tcp_events _ _ _ fuel i _ n s Hs). cbn [mbind option_bind]. fold s'. rewrite Hr.
      unfold post_all, set_posts, set_tcps. cbn. by rewrite app_assoc.
    + apply Forall_app. split; [by apply ended_posts|done].
    + done.
Qed.

Lemma run_disconnected fuel (n : net) :
  Forall (λ p, p = PDisconnected) (posts n) →
  ∃ b, net_run fuel (replicate (length (posts n)) RunPost) n = Some (set_connected b (set_posts [] n)).
Proof.
  remember (posts n) as ps eqn:Hps. intros Hall. revert n Hps. induction Hall as [|p ps -> _ IH]; intros n Hps.
  - exists (connected_ n). cbn. f_equal. destruct n. cbn in *. by subst.
  - cbn. rewrite <-Hps. cbn. destruct (IH (set_connected false (set_posts ps n)) eq_refl) as [b Hb].
    exists b. rewrite Hb. done.
Qed.

(** A service told to disconnect with nothing but TCP sessions left winds down. *)
Lemma wind_down fuel (n : net) :
  joining n = true → work_guard_ n = false → posts n = [PShutdown] → forallb udp_idle (udps n) = true →
  ∃ es n', Forall winds_down es ∧ net_run fuel es n = Some n' ∧ joining n' = true ∧ io_idle n' = true.
Proof.
  intros Hj Hg Hp Hu.
  assert (∃ es, Forall winds_down es ∧ net_run fuel es n = Some (set_connecting false n)) as (es0 & Hw0 & Hr0).
  { destruct (connecting n) eqn:Hc.
    - exists [ConnectDone false]. split; [by constructor|]. cbn. by rewrite Hc.
    - exists []. split; [done|]. cbn. f_equal. destruct n. cbn in *. by subst. }
  remember (run_shutdown (set_posts [] (set_connecting false n))) as n1 eqn:Hn1.
  assert (net_run fuel [RunPost] (set_connecting false n) = Some n1) as Hr1 by (cbn; by rewrite Hp, Hn1).
  assert (posts n1 = [] ∧ udps n1 = udps n ∧ connecting n1 = false ∧ joining n1 = true ∧ work_guard_ n1 = false)
    as (P1 & U1 & C1 & J1 & G1).
  { rewrite Hn1. unfold run_shutdown. cbn. by destruct (session_ n). }
  destruct (close_all fuel (length (tcps n1)) n1) as (es & ps & l & Hw & Hr & Hps & Hl); [done|lia|].
  destruct (run_disconnected fuel (post_all ps (set_tcps l n1))) as [b Hb].
  { change (Forall (λ p, p = PDisconnected) (posts n1 ++ ps)). by rewrite P1. }
  eexists (es0 ++ [RunPost] ++ es ++ replicate _ RunPost), _. split_and!.
  - repeat (apply Forall_app; split); [done|by constructor|done|by apply Forall_replicate].
  - rewrite net_run_app, Hr0. cbn [mbind option_bind]. rewrite net_run_app, Hr1. cbn [mbind option_bind].
    rewrite net_run_app, Hr. cbn [mbind option_bind]. exact Hb.
  - done.
  - unfold io_idle. cbn. by rewrite G1, C1, Hl, U1, Hu.
Qed.

(** [disconnect] returns. *)
Lemma disconnect_returns fuel (n : net) :
  io_context_ n = true → joining n = false → posts n = [] → forallb udp_idle (udps n) = true →
  ∃ es n', Forall winds_down es ∧ net_run fuel (Disconnect :: es ++ [JoinReturns]) n = Some n' ∧
    io_context_ n' = false.
Proof.
  intros Hio Hj Hp Hu. pose (n1 := disconnect_begin n).
  assert (n1 = set_guard false true (post_all [PShutdown] n)) as E1 by (unfold n1, disconnect_begin; by rewrite Hio).
  destruct (wind_down fuel n1) as (es & n2 & Hw & Hr & Hj2 & Hi2); [by rewrite E1|by rewrite E1| |by rewrite E1|].
  { rewrite E1. unfold post_all. cbn. by rewrite Hp. }
  exists es, (disconnect_end n2). split; [done|]. split; [|done].
  cbn [NetworkService.net_run net_handle]. rewrite Hj. cbn [mbind option_bind]. fold n1. rewrite net_run_app, Hr.
  cbn. by rewrite Hj2, Hi2.
Qed.
End closing.

(** ** Properties *)

(** Disconnecting after an image hangs: the service never closes a UDP
    session, whose pending receive keeps the [io_context] running; so once
    [disconnect] waits for the thread while a UDP session has its receive pending,
    whatever else happens (messages, timers, TCP errors, closes, posted handlers),
    the join does not return as long as that socket's receive does not fail. *)
Theorem net_join_never_returns {TS DS : Type} `{ST : SecureSession TS, SD : SecureSession DS}
    (new_tls : option TS) (new_dtls : DS) (getLocalPort : UdpSession DS → Z)
    (fuel j : nat) (es : list net_event) (n n' : NetworkService TS DS) :
  udp_pending j n → joining n = true → UdpEv j ReceiveError ∉ es →
  net_run new_tls new_dtls getLocalPort fuel es n = Some n' →
  joining n' = true ∧ io_idle n' = false ∧ JoinReturns ∉ es.
Proof.
  revert n. induction es as [|e es IH]; intros n Hp Hj Hne H.
  - injection H as <-. split_and!; [done|by eapply pending_not_idle|set_solver].
  - cbn in H. apply bind_Some in H as (n1 & H1 & H).
    apply not_elem_of_cons in Hne as [Hne Hnes].
    destruct (net_handle_pending new_tls new_dtls getLocalPort fuel j e n n1 Hp Hj)
      as (Hp1 & Hj1 & Hjr); [congruence|done|].
    destruct (IH n1 Hp1 Hj1 Hnes H) as (? & ? & ?). split_and!; [done|done|].
    apply not_elem_of_cons. split; [congruence|done].
Qed.

(** A plain connection receives an IMAGE message and is then disconnected. *)
Definition demo_net_events : list net_event :=
  [Connect "h" "1" no_callbacks; RunPost; ConnectDone true;
   TcpEv 0 (Recv (message_frame (send_message (mt_value IMAGE) "{}")));
   RunPost; RunPost; RunPost; Disconnect; RunPost; RunPost].

Definition demo_net_run (es : list net_event) :=
  net_run (None : option (TLS.Session (O := RefSSL))) (MediaDTLS.Session_ctor (O := RefSSL) None false)
    (λ _, 5000%Z) 10 es net_initial.

Definition demo_joining : NetworkService (TLS.Session (O := RefSSL)) (MediaDTLS.Session (O := RefSSL)) :=
  default net_initial (demo_net_run demo_net_events).

Lemma net_join_never_returns_witness :
  let n' := default net_initial
    (net_run None (MediaDTLS.Session_ctor (O := RefSSL) None false) (λ _, 5000%Z) 10
       [TcpEv 0 ReadError; RunPost] demo_joining) in
  joining n' = true ∧ io_idle n' = false ∧ JoinReturns ∉ [TcpEv 0 ReadError; RunPost].
Proof.
  cbn zeta.
  apply (net_join_never_returns None (MediaDTLS.Session_ctor (O := RefSSL) None false)
           (λ _, 5000%Z) 10 0 [TcpEv 0 ReadError; RunPost] demo_joining).
  - split; [vm_compute; reflexivity|]. eexists. split; vm_compute; reflexivity.
  - vm_compute. reflexivity.
  - intros [H|H]%elem_of_cons; [done|]. by apply list_elem_of_singleton in H.
  - vm_compute. reflexivity.
Defined.

(** Sending: while the service is not connected a posted [send] changes
    nothing; while it is, exactly one message reaches the current session's
    queue, with the given type, a length equal to its payload's and a payload
    whose text is the JSON body; and a peer of this protocol that receives that
    message runs the callback of its type with that same text. *)
Theorem net_send {TS DS : Type} `{ST : SecureSession TS, SD : SecureSession DS}
    (t : MessageType) (body : string) (n : NetworkService TS DS) :
  body ≠ "" → (Z.of_nat (String.length body) < 2 ^ 32)%Z →
  (connected_ n = false → run_send (mt_value t) body n = n) ∧
  (∀ i s, connected_ n = true → session_ n = Some i → tcps n !! i = Some s →
    ∃ m, tcps (run_send (mt_value t) body n) = <[i := post (PostSend m) s]> (tcps n) ∧
         wf_message m ∧ payload_string (msg_payload m) = body ∧
         ∀ cbs c, callback_for t = Some c → has_callback cbs c = true →
                  processMessage cbs m = [(c, body)]).
Proof.
  intros Hne Hlen. split.
  - intros Hc. unfold run_send. rewrite Hc. by destruct (session_ n).
  - intros i s Hc Hs Hi. unfold run_send. rewrite Hc, Hs. cbn [set_tcps tcps].
    exists (send_message (mt_value t) body).
    pose proof (string_bytes_length body) as Hl.
    assert (string_bytes body ≠ []) as Hnb by (intros H; rewrite H in Hl; by destruct body).
    split_and!.
    + apply list_eq. intros k. destruct (decide (i = k)) as [<-|Hk].
      * rewrite list_lookup_alter_eq, list_lookup_insert_eq by (by eapply lookup_lt_Some).
        by rewrite Hi.
      * by rewrite list_lookup_alter_ne, list_lookup_insert_ne.
    + by apply send_message_wf.
    + apply payload_string_bytes.
    + intros cbs0 c Hcb Hhas. unfold processMessage. cbn [msg_type send_message].
      rewrite mt_of_value_value.
      assert (forward cbs0 c (send_message (mt_value t) body) = [(c, body)]) as Hf.
      { unfold forward. rewrite Hhas, bool_decide_true by done. cbn [andb].
        cbn [send_message msg_payload]. by rewrite payload_string_bytes. }
      destruct t; cbn in Hcb; try done; injection Hcb as <-; exact Hf.
Qed.

Lemma net_send_witness :
  let n := default net_initial (demo_net_run (take 5 demo_net_events)) in
  connected_ n = true ∧
  ∃ m, tcps (run_send 7 "[]" n) = <[0 := post (PostSend m) (default
         (TcpSession_ctor None true true true) (tcps n !! 0))]> (tcps n) ∧ wf_message m.
Proof.
  cbn zeta. split; [vm_compute; reflexivity|].
  destruct (net_send CAMERA "[]" (default net_initial (demo_net_run (take 5 demo_net_events))))
    as [_ H]; [done|done|].
  destruct (H 0 (default (TcpSession_ctor None true true true)
                   (tcps (default net_initial (demo_net_run (take 5 demo_net_events))) !! 0)))
    as (m & Hm & Hwf & _); [vm_compute; reflexivity..|].
  exists m. split; [exact Hm|exact Hwf].
Defined.

(** From the wire to the application: when frames of the application, none of them
    an IMAGE, arrive on a plain or TLS session that waits for a header, in any
    division into chunks, and the posted handlers run, the owner's callbacks have
    run for exactly the messages these frames open to, in order, with their texts,
    and the session waits for the next header. *)
Theorem net_receives {TS DS : Type} `{ST : SecureSession TS, SD : SecureSession DS}
    (new_tls : option TS) (new_dtls : DS) (getLocalPort : UdpSession DS → Z)
    (fuel i : nat) (s : TcpSession TS) (rs : list (Z * list byte)) (ms : list Message)
    (chunks : list (list byte)) (n : NetworkService TS DS) :
  processor_ n = true → posts n = [] → tcps n !! i = Some s → ready s →
  Forall (application_record (has_tls s)) rs → ms = (open_records (tlsSession_ s) rs).1 →
  Forall (λ m, msg_type m ≠ mt_value IMAGE) ms → concat chunks = rs ≫= record_frame →
  ∃ n' s',
    net_run new_tls new_dtls getLocalPort fuel
      (((λ c, TcpEv i (Recv c)) <$> chunks) ++ replicate (length ms) RunPost) n = Some n' ∧
    out n' = out n ++ (ms ≫= λ m, (λ p, CbText p.1 p.2) <$> processMessage (cbs n) m) ∧
    posts n' = [] ∧ tcps n' = <[i := s']> (tcps n) ∧ ready s' ∧
    tlsSession_ s' = (open_records (tlsSession_ s) rs).2.
Proof.
  intros Hp Hpo Hs Hready Hrs -> Hty Hch. set (ms := (open_records _ rs).1) in *.
  rewrite net_run_app, (run_chunks _ _ _ fuel i chunks n s Hs).
  destruct (recv_records rs s Hready Hrs) as (Hr' & Htls & Htr). rewrite <-Hch, <-recv_chunks in Hr', Htls, Htr.
  fold ms in Htr. set (s' := tcp_run (Recv <$> chunks) s) in *. cbn [mbind option_bind].
  set (n1 := post_all _ _).
  assert (posts n1 = PProcess <$> ms) as Hposts.
  { unfold n1, post_all, new_posts. cbn. rewrite Hpo, Htr, drop_app_length. cbn.
    generalize ms. clear. intros ms. induction ms as [|m ms IH]; [done|]. cbn. by rewrite IH. }
  destruct (run_processes new_tls new_dtls getLocalPort fuel ms n1) as (n' & Hr & Hpn & Ho & Ht);
    [done..|].
  exists n', s'. by split_and!.
Qed.

Definition demo_connected : NetworkService (TLS.Session (O := RefSSL)) (MediaDTLS.Session (O := RefSSL)) :=
  default net_initial (demo_net_run
    [Connect "h" "1" {| has_onConnected := true; has_callback := λ _, true; has_onImageData := true |};
     RunPost; ConnectDone true; RunPost]).

Definition demo_message : Message := send_message (mt_value CAMERA) "[]".

Definition demo_session : TcpSession (TLS.Session (O := RefSSL)) :=
  default (TcpSession_ctor None true true true) (tcps demo_connected !! 0).

Lemma net_receives_witness :
  out demo_connected = [CbConnected] ∧
  ∃ n' s',
    net_run None (MediaDTLS.Session_ctor (O := RefSSL) None false) (λ _, 5000%Z) 10
      [TcpEv 0 (Recv (take 3 (message_frame demo_message)));
       TcpEv 0 (Recv (drop 3 (message_frame demo_message))); RunPost] demo_connected = Some n' ∧
    out n' = out demo_connected ++ [CbText onCameraList "[]"] ∧
    posts n' = [] ∧ tcps n' = <[0 := s']> (tcps demo_connected) ∧ ready s' ∧ tlsSession_ s' = None.
Proof.
  split; [reflexivity|].
  apply (net_receives None (MediaDTLS.Session_ctor (O := RefSSL) None false) (λ _, 5000%Z) 10 0
    demo_session [message_record demo_message] [demo_message]
    [take 3 (message_frame demo_message); drop 3 (message_frame demo_message)] demo_connected).
  - reflexivity.
  - reflexivity.
  - reflexivity.
  - by split_and!.
  - apply Forall_singleton. unfold application_record, is_u8, is_u32. vm_compute. split_and!; congruence.
  - reflexivity.
  - by apply Forall_singleton.
  - vm_compute. reflexivity.
Defined.

