(* ===== verification/ThreadPool.v ===== *)
(** * The worker pool (src/Src/Thread)

    Threads, the mutex and the condition variable as a transition system: each
    step is what one thread does while it holds the mutex, or a notification, or
    the end of a task.  [pool_exec] runs one labelled step where its guard holds;
    a step relation and its reachable states are derived from it. *)

From S2P Require Import Prelude.

(** A task: whether its body throws, and whether it was wrapped by the template
    [Submit], whose wrapper stores an exception in the promise. *)
Record Task : Type := { task_id : nat; throws : bool; packaged : bool }.

#[export] Instance Task_eq_dec : EqDecision Task.
Proof. solve_decision. Defined.

(** Where a worker's [WorkLoop] is. *)
Inductive worker : Type :=
| Checking            (* at the wait, about to test the predicate under the lock *)
| Waiting             (* blocked in cv_.wait *)
| Running (t : Task)
| Exited.

#[export] Instance worker_eq_dec : EqDecision worker.
Proof. solve_decision. Defined.

Record ThreadPool : Type := {
  queue_ : list Task;
  stop_ : bool;
  pool_ : list worker;
  notifying : nat;             (* calls about to make their notify_one *)
  notifying_all : bool;        (* the destructor's notify_all *)
  terminated : bool;           (* std::terminate *)
  submitted : list Task;       (* accepted, in order *)
  started : list Task;         (* taken from the queue, in order *)
  finished : list Task;
  promises : list (nat * bool);  (* set_value / set_exception *)
  rejected : list Task;        (* runtime_error: submit on stopped pool *)
  late : bool                  (* something was queued after stop_ was set *)
}.

(** [ThreadPool(thread_count)]: at least one worker. *)
Definition pool_init (thread_count : nat) : ThreadPool := {|
  queue_ := []; stop_ := false;
  pool_ := replicate (if decide (thread_count = 0) then 1 else thread_count) Checking;
  notifying := 0; notifying_all := false; terminated := false;
  submitted := []; started := []; finished := []; promises := []; rejected := []; late := false
|}.

(** *** Field updates *)
Definition set_queue (q : list Task) (s : ThreadPool) : ThreadPool := {|
  queue_ := q; stop_ := stop_ s; pool_ := pool_ s; notifying := notifying s;
  notifying_all := notifying_all s; terminated := terminated s; submitted := submitted s;
  started := started s; finished := finished s; promises := promises s;
  rejected := rejected s; late := late s
|}.

Definition set_worker (i : nat) (w : worker) (s : ThreadPool) : ThreadPool := {|
  queue_ := queue_ s; stop_ := stop_ s; pool_ := <[i := w]> (pool_ s);
  notifying := notifying s; notifying_all := notifying_all s; terminated := terminated s;
  submitted := submitted s; started := started s; finished := finished s;
  promises := promises s; rejected := rejected s; late := late s
|}.

(** [queue_.emplace(task)] and the [notify_one] that follows. *)
Definition enqueue (t : Task) (s : ThreadPool) : ThreadPool := {|
  queue_ := queue_ s ++ [t]; stop_ := stop_ s; pool_ := pool_ s;
  notifying := S (notifying s); notifying_all := notifying_all s; terminated := terminated s;
  submitted := submitted s ++ [t]; started := started s; finished := finished s;
  promises := promises s; rejected := rejected s; late := late s || stop_ s
|}.

Definition reject (t : Task) (s : ThreadPool) : ThreadPool := {|
  queue_ := queue_ s; stop_ := stop_ s; pool_ := pool_ s; notifying := notifying s;
  notifying_all := notifying_all s; terminated := terminated s; submitted := submitted s;
  started := started s; finished := finished s; promises := promises s;
  rejected := rejected s ++ [t]; late := late s
|}.

Definition set_stop (s : ThreadPool) : ThreadPool := {|
  queue_ := queue_ s; stop_ := true; pool_ := pool_ s; notifying := notifying s;
  notifying_all := true; terminated := terminated s; submitted := submitted s;
  started := started s; finished := finished s; promises := promises s;
  rejected := rejected s; late := late s
|}.

Definition set_notifying (n : nat) (s : ThreadPool) : ThreadPool := {|
  queue_ := queue_ s; stop_ := stop_ s; pool_ := pool_ s; notifying := n;
  notifying_all := notifying_all s; terminated := terminated s; submitted := submitted s;
  started := started s; finished := finished s; promises := promises s;
  rejected := rejected s; late := late s
|}.

(** [notify_all]: every waiting worker leaves the wait. *)
Definition wake (w : worker) : worker := match w with Waiting => Checking | _ => w end.

Definition wake_all (s : ThreadPool) : ThreadPool := {|
  queue_ := queue_ s; stop_ := stop_ s; pool_ := wake <$> pool_ s; notifying := notifying s;
  notifying_all := false; terminated := terminated s; submitted := submitted s;
  started := started s; finished := finished s; promises := promises s;
  rejected := rejected s; late := late s
|}.

Definition start_task (t : Task) (s : ThreadPool) : ThreadPool := {|
  queue_ := queue_ s; stop_ := stop_ s; pool_ := pool_ s; notifying := notifying s;
  notifying_all := notifying_all s; terminated := terminated s; submitted := submitted s;
  started := started s ++ [t]; finished := finished s; promises := promises s;
  rejected := rejected s; late := late s
|}.

(** The end of [task()]: a packaged task settles its promise; an exception that
    leaves a raw task leaves the thread function. *)
Definition end_task (t : Task) (s : ThreadPool) : ThreadPool := {|
  queue_ := queue_ s; stop_ := stop_ s; pool_ := pool_ s; notifying := notifying s;
  notifying_all := notifying_all s;
  terminated := terminated s || (throws t && negb (packaged t));
  submitted := submitted s; started := started s; finished := finished s ++ [t];
  promises := if packaged t then promises s ++ [(task_id t, negb (throws t))] else promises s;
  rejected := rejected s; late := late s
|}.

(** *** Operations *)

(** [Submit(std::function<void()>)] does not look at [stop_]. *)
Definition Submit_function (t : Task) (s : ThreadPool) : ThreadPool := enqueue t s.

(** The template [Submit] throws once the pool is stopped. *)
Definition Submit_template (t : Task) (s : ThreadPool) : ThreadPool :=
  if stop_ s then reject t s else enqueue t s.

(** One pass of [WorkLoop] under the lock: the predicate, and either the exit,
    the next task, or the wait. *)
Definition work_check (i : nat) (s : ThreadPool) : ThreadPool :=
  match queue_ s with
  | [] => if stop_ s then set_worker i Exited s else set_worker i Waiting s
  | t :: q => start_task t (set_worker i (Running t) (set_queue q s))
  end.

(** *** Steps *)
Inductive label : Type :=
| SubmitFunction (t : Task)
| SubmitTemplate (t : Task)
| NotifyOne (i : nat)     (* a pending notify_one wakes waiting worker i *)
| NotifyNobody            (* a pending notify_one with no waiting worker *)
| Spurious (i : nat)
| CheckPredicate (i : nat)
| Finish (i : nat)
| Stop                    (* the destructor sets stop_ *)
| NotifyAll.              (* the destructor's notify_all *)

Definition nobody_waits (s : ThreadPool) : bool :=
  forallb (λ w, bool_decide (w ≠ Waiting)) (pool_ s).

Definition pool_exec (l : label) (s : ThreadPool) : option ThreadPool :=
  if terminated s then None
  else match l with
  | SubmitFunction t => if packaged t then None else Some (Submit_function t s)
  | SubmitTemplate t => if packaged t then Some (Submit_template t s) else None
  | NotifyOne i =>
      match notifying s, pool_ s !! i with
      | S n, Some Waiting => Some (set_notifying n (set_worker i Checking s))
      | _, _ => None
      end
  | NotifyNobody =>
      match notifying s with
      | S n => if nobody_waits s then Some (set_notifying n s) else None
      | 0 => None
      end
  | Spurious i =>
      match pool_ s !! i with Some Waiting => Some (set_worker i Checking s) | _ => None end
  | CheckPredicate i =>
      match pool_ s !! i with Some Checking => Some (work_check i s) | _ => None end
  | Finish i =>
      match pool_ s !! i with
      | Some (Running t) => Some (end_task t (set_worker i Checking s))
      | _ => None
      end
  | Stop => if stop_ s then None else Some (set_stop s)
  | NotifyAll => if notifying_all s then Some (wake_all s) else None
  end.

Fixpoint pool_run (ls : list label) (s : ThreadPool) : option ThreadPool :=
  match ls with
  | [] => Some s
  | l :: ls' => s' ← pool_exec l s; pool_run ls' s'
  end.

(** A step of the pool's own threads or of a call in progress: neither a new
    call nor a spurious wakeup. *)
Definition internal (l : label) : bool :=
  match l with
  | SubmitFunction _ | SubmitTemplate _ | Stop | Spurious _ => false
  | _ => true
  end.

Definition pool_step (s s' : ThreadPool) : Prop := ∃ l, pool_exec l s = Some s'.
Definition internal_step (s s' : ThreadPool) : Prop :=
  ∃ l, internal l = true ∧ pool_exec l s = Some s'.

Definition reachable (n : nat) (s : ThreadPool) : Prop := rtc pool_step (pool_init n) s.

(** ** Lemmas *)

Definition running (ws : list worker) : list Task :=
  omap (λ w, match w with Running t => Some t | _ => None end) ws.

Definition active (w : worker) : Prop :=
  match w with Checking | Running _ => True | Waiting | Exited => False end.

#[export] Instance active_dec w : Decision (active w).
Proof. destruct w; apply _. Defined.

(** The weight of what the pool still has to do by itself. *)
Definition weight (w : worker) : nat :=
  match w with Waiting | Exited => 0 | Checking => 1 | Running _ => 2 end.

Definition measure (s : ThreadPool) : nat :=
  2 * length (queue_ s) + 2 * notifying s + sum_list_with weight (pool_ s)
  + (if notifying_all s then S (length (pool_ s)) else 0).

(** Replacing worker [i] in what is computed from the list of workers. *)
Lemma weight_insert (ws : list worker) i w w' :
  ws !! i = Some w →
  sum_list_with weight (<[i := w']> ws) + weight w = sum_list_with weight ws + weight w'.
Proof.
  intros H. destruct (split_at ws i w H) as [Hl Hi]. rewrite Hi. rewrite Hl at 3.
  rewrite !sum_list_with_app. cbn. lia.
Qed.

Lemma running_insert (ws : list worker) i w w' :
  ws !! i = Some w → running (<[i := w']> ws) ++ running [w] ≡ₚ running ws ++ running [w'].
Proof.
  intros H. destruct (split_at ws i w H) as [Hl Hi]. rewrite Hi. rewrite Hl at 3.
  unfold running. rewrite !omap_app. destruct w, w'; cbn; rewrite ?app_nil_r; try done;
    solve_Permutation.
Qed.

Lemma weight_wake ws :
  sum_list_with weight (wake <$> ws) ≤ sum_list_with weight ws + length ws.
Proof. induction ws as [|[] ws IH]; cbn; lia. Qed.

Lemma running_wake ws : running (wake <$> ws) = running ws.
Proof. induction ws as [|[] ws IH]; cbn; [done|..]; unfold running in IH; by rewrite ?IH. Qed.

Lemma nobody_waits_spec s : nobody_waits s = true ↔ Forall (λ w, w ≠ Waiting) (pool_ s).
Proof.
  unfold nobody_waits. rewrite forallb_forall, Forall_forall. split.
  - intros H w Hw. apply list_elem_of_In, H in Hw. by apply bool_decide_eq_true in Hw.
  - intros H w Hw. apply bool_decide_eq_true, H, list_elem_of_In, Hw.
Qed.

Record pool_inv (s : ThreadPool) : Prop := {
  inv_fifo : submitted s = started s ++ queue_ s;
  inv_running : started s ≡ₚ finished s ++ running (pool_ s);
  inv_nonempty : pool_ s ≠ [];
  inv_wakeup :
    queue_ s ≠ [] → 0 < notifying s ∨ Exists active (pool_ s) ∨
                    (Forall (λ w, w = Exited) (pool_ s) ∧ late s = true);
  inv_stop : stop_ s = true → notifying_all s = true ∨ Forall (λ w, w ≠ Waiting) (pool_ s);
  inv_stopping : notifying_all s = true → stop_ s = true;
  inv_exited : Exited ∈ pool_ s → stop_ s = true ∧ (queue_ s = [] ∨ late s = true);
  inv_promises :
    promises s = omap (λ t, if packaged t then Some (task_id t, negb (throws t)) else None)
                   (finished s);
  inv_terminated : terminated s = existsb (λ t, throws t && negb (packaged t)) (finished s);
  inv_rejected : rejected s ≠ [] → stop_ s = true
}.

Lemma exists_active_insert (ws : list worker) i w : i < length ws → active w → Exists active (<[i := w]> ws).
Proof.
  intros Hi Hw. apply Exists_exists. exists w. split; [|done].
  apply list_elem_of_lookup. exists i. by apply list_lookup_insert_eq.
Qed.

Lemma exists_active_other (ws : list worker) i w w0 :
  ws !! i = Some w0 → ¬ active w0 → Exists active ws → Exists active (<[i := w]> ws).
Proof.
  intros H0 Hn. rewrite !Exists_exists. intros (x & Hx & Ha).
  apply list_elem_of_lookup in Hx as [j Hj]. exists x. split; [|done].
  apply list_elem_of_lookup. exists j. destruct (decide (i = j)) as [->|Hne]; [congruence|].
  by rewrite list_lookup_insert_ne.
Qed.

Lemma exited_insert (ws : list worker) i w : Exited ∈ <[i := w]> ws → w = Exited ∨ Exited ∈ ws.
Proof.
  intros H. apply list_elem_of_lookup in H as [j Hj].
  destruct (decide (i = j)) as [->|Hne].
  - left. apply list_lookup_insert_Some in Hj as [(_ & -> & _)|[? _]]; done.
  - right. rewrite list_lookup_insert_ne in Hj by done. apply list_elem_of_lookup. by exists j.
Qed.

Lemma not_waiting_insert (ws : list worker) i w :
  w ≠ Waiting → Forall (λ w, w ≠ Waiting) ws → Forall (λ w, w ≠ Waiting) (<[i := w]> ws).
Proof. intros Hw H. by apply Forall_insert. Qed.

Lemma init_inv n : pool_inv (pool_init n).
Proof.
  split; cbn; try done.
  - unfold running. case_decide; [done|]. induction n as [|n IH]; [done|].
    destruct n as [|n]; [done|]. by apply IH.
  - by case_decide; [|destruct n].
  - intros H. by apply elem_of_replicate in H as [? _].
Qed.

Lemma enqueue_inv t s : pool_inv s → pool_inv (enqueue t s).
Proof.
  intros [Hf Hr Hne Hw Hs Hsi He Hp Ht Hrej]. split; cbn; try done.
  - by rewrite Hf, app_assoc.
  - intros _. left. lia.
  - intros H. destruct (He H) as [-> Hq]. split; [done|]. right. by rewrite orb_true_r.
Qed.

Lemma reject_inv t s : stop_ s = true → pool_inv s → pool_inv (reject t s).
Proof. intros Hst [Hf Hr Hne Hw Hs Hsi He Hp Ht Hrej]. by split. Qed.

Lemma wake_worker_inv i n s :
  pool_ s !! i = Some Waiting → pool_inv s →
  pool_inv (set_notifying n (set_worker i Checking s)).
Proof.
  intros Hi [Hf Hr Hne Hw Hs Hsi He Hp Ht Hrej]. split; cbn; try done.
  - rewrite Hr. pose proof (running_insert _ i _ Checking Hi) as H. cbn in H.
    rewrite !app_nil_r in H. by rewrite H.
  - intros H%(f_equal length). rewrite length_insert in H. by apply nil_length_inv in H.
  - intros _. right. left. apply exists_active_insert; [by eapply lookup_lt_Some|done].
  - intros H. destruct (Hs H) as [?|H']; [by left|right]. by apply not_waiting_insert.
  - intros H. apply He. by destruct (exited_insert _ _ _ H).
Qed.

Lemma check_inv i s : pool_ s !! i = Some Checking → pool_inv s → pool_inv (work_check i s).
Proof.
  intros Hi [Hf Hr Hne Hw Hs Hsi He Hp Ht Hrej]. unfold work_check.
  pose proof (λ w, running_insert _ i _ w Hi) as Hrun. cbn in Hrun.
  assert (∀ w, <[i := w]> (pool_ s) ≠ []) as Hne'.
  { intros w H%(f_equal length). rewrite length_insert in H. by apply nil_length_inv in H. }
  destruct (queue_ s) as [|t q] eqn:Hq; [destruct (stop_ s) eqn:Hst|];
    split; cbn; rewrite ?Hq, ?Hst; try done; auto.
  - specialize (Hrun Exited). rewrite !app_nil_r in Hrun. by rewrite Hr, Hrun.
  - intros _. destruct (Hs eq_refl) as [?|H']; [by left|right]. by apply not_waiting_insert.
  - specialize (Hrun Waiting). rewrite !app_nil_r in Hrun. by rewrite Hr, Hrun.
  - intros H. destruct (exited_insert _ _ _ H) as [?|H']; [done|].
    by destruct (He H') as [? _].
  - by rewrite Hf, <-app_assoc.
  - specialize (Hrun (Running t)). rewrite app_nil_r in Hrun. by rewrite Hr, Hrun, app_assoc.
  - intros _. right. left. apply exists_active_insert; [by eapply lookup_lt_Some|done].
  - intros H. destruct (Hs H) as [?|H']; [by left|right]. by apply not_waiting_insert.
  - intros H. destruct (exited_insert _ _ _ H) as [?|H']; [done|].
    destruct (He H') as [? [?|?]]; [done|]. by auto.
Qed.

Lemma finish_inv i t s :
  pool_ s !! i = Some (Running t) → pool_inv s → pool_inv (end_task t (set_worker i Checking s)).
Proof.
  intros Hi [Hf Hr Hne Hw Hs Hsi He Hp Ht Hrej]. split; cbn; try done.
  - pose proof (running_insert _ i _ Checking Hi) as H. cbn in H. rewrite app_nil_r in H.
    rewrite Hr, <-H. solve_Permutation.
  - intros H%(f_equal length). rewrite length_insert in H. by apply nil_length_inv in H.
  - intros _. right. left. apply exists_active_insert; [by eapply lookup_lt_Some|done].
  - intros H. destruct (Hs H) as [?|H']; [by left|right]. by apply not_waiting_insert.
  - intros H. apply He. by destruct (exited_insert _ _ _ H).
  - rewrite omap_app. cbn. destruct (packaged t); [by rewrite Hp|by rewrite app_nil_r].
  - rewrite existsb_app. cbn. by rewrite orb_false_r, Ht.
Qed.

Lemma stop_inv s : pool_inv s → pool_inv (set_stop s).
Proof.
  intros [Hf Hr Hne Hw Hs Hsi He Hp Ht Hrej]. split; cbn; try done; auto.
  intros H. split; [done|]. by apply He.
Qed.

Lemma wake_all_inv s : notifying_all s = true → pool_inv s → pool_inv (wake_all s).
Proof.
  intros Hn [Hf Hr Hne Hw Hs Hsi He Hp Ht Hrej].
  split; cbn; try done; auto.
  - by rewrite running_wake.
  - intros H. by apply fmap_nil_inv in H.
  - intros H. destruct (Hw H) as [?|[Ha|[Ha ?]]]; [by left|right; left|right; right].
    + rewrite Exists_fmap. eapply Exists_impl; [exact Ha|]. by intros [].
    + split; [|done]. rewrite Forall_fmap. eapply Forall_impl; [exact Ha|]. by intros [].
  - intros _. right. rewrite Forall_fmap. apply Forall_forall. by intros [].
  - intros (w & Hw' & Hin)%list_elem_of_fmap. destruct w; try done. by apply He.
Qed.

Lemma nobody_inv n s :
  notifying s = S n → nobody_waits s = true → pool_inv s → pool_inv (set_notifying n s).
Proof.
  intros Hn Hno%nobody_waits_spec [Hf Hr Hne Hw Hs Hsi He Hp Ht Hrej].
  split; cbn; try done. intros Hq. right.
  destruct (decide (Exists active (pool_ s))) as [Ha|Ha]; [by left|right].
  assert (Forall (λ w, w = Exited) (pool_ s)) as Hall.
  { apply Forall_forall. intros w Hin. rewrite Forall_forall in Hno.
    assert (¬ active w) by (intros ?; apply Ha, Exists_exists; eauto).
    specialize (Hno w Hin). by destruct w. }
  split; [done|]. destruct (pool_ s) as [|w ws]; [done|].
  apply Forall_cons in Hall as [-> _]. destruct He as [_ [?|?]]; [by left|done|done].
Qed.

Lemma pool_exec_inv l s s' : pool_exec l s = Some s' → pool_inv s → pool_inv s'.
Proof.
  intros H Hinv. unfold pool_exec in H. destruct (terminated s); [done|].
  destruct l as [t|t|i| |i|i|i| |]; repeat case_match; simplify_eq.
  - by apply enqueue_inv.
  - unfold Submit_template. case_match; [by apply reject_inv|by apply enqueue_inv].
  - by apply wake_worker_inv.
  - by apply nobody_inv.
  - by apply (wake_worker_inv i (notifying s)).
  - by apply check_inv.
  - by apply finish_inv.
  - by apply stop_inv.
  - by apply wake_all_inv.
Qed.

Lemma reachable_inv n s : reachable n s → pool_inv s.
Proof.
  unfold reachable. apply (rtc_ind_r pool_inv (pool_init n)); [apply init_inv|].
  intros s1 s2 _ [l Hl] IH. by eapply pool_exec_inv.
Qed.

(** Every internal step does some of the work that is left. *)
Lemma internal_decreases s s' : internal_step s s' → measure s' < measure s.
Proof.
  intros (l & Hl & H). unfold pool_exec in H. destruct (terminated s); [done|].
  destruct l as [t|t|i| |i|i|i| |]; try done; repeat case_match; simplify_eq.
  - unfold measure. cbn. rewrite length_insert.
    pose proof (weight_insert (pool_ s) i Waiting Checking ltac:(done)) as Hw. cbn in Hw.
    destruct (notifying_all s); lia.
  - unfold measure. cbn. destruct (notifying_all s); lia.
  - assert (∀ w, sum_list_with weight (<[i := w]> (pool_ s)) + 1
                 = sum_list_with weight (pool_ s) + weight w) as Hw.
    { intros w. by apply (weight_insert (pool_ s) i Checking w). }
    unfold work_check, measure. destruct (queue_ s) as [|t q] eqn:Hq;
      [destruct (stop_ s)|]; cbn; rewrite ?Hq, length_insert; cbn;
      [specialize (Hw Exited)|specialize (Hw Waiting)|specialize (Hw (Running t))];
      cbn in Hw; destruct (notifying_all s); lia.
  - unfold measure. cbn. rewrite length_insert.
    pose proof (weight_insert (pool_ s) i (Running t) Checking ltac:(done)) as Hw. cbn in Hw.
    destruct (notifying_all s); lia.
  - unfold measure. cbn. pose proof (weight_wake (pool_ s)).
    destruct (notifying_all s); [lia|done].
Qed.

Lemma internal_bounded k s s' : nsteps internal_step k s s' → k + measure s' ≤ measure s.
Proof.
  induction 1 as [s|k s1 s2 s3 H _ IH]; [lia|]. apply internal_decreases in H. lia.
Qed.

(** No internal step can be made. *)
Definition stuck (s : ThreadPool) : Prop := ∀ s', ¬ internal_step s s'.

Lemma stuck_workers s :
  stuck s → terminated s = false →
  notifying_all s = false ∧ Forall (λ w, w = Waiting ∨ w = Exited) (pool_ s) ∧
  (0 < notifying s → False).
Proof.
  intros Hst Ht.
  assert (∀ l s', internal l = true → pool_exec l s = Some s' → False) as Hno.
  { intros l s' Hl He. apply (Hst s'). by exists l. }
  assert (Forall (λ w, w = Waiting ∨ w = Exited) (pool_ s)) as Hall.
  { apply Forall_lookup. intros i w Hi. destruct w as [| |t|]; auto; exfalso.
    - apply (Hno (CheckPredicate i) (work_check i s)); [done|]. unfold pool_exec.
      by rewrite Ht, Hi.
    - apply (Hno (Finish i) (end_task t (set_worker i Checking s))); [done|].
      unfold pool_exec. by rewrite Ht, Hi. }
  split_and!; [|done|].
  - destruct (notifying_all s) eqn:Hn; [|done]. exfalso.
    apply (Hno NotifyAll (wake_all s)); [done|]. unfold pool_exec. by rewrite Ht, Hn.
  - intros Hpos. destruct (notifying s) as [|k] eqn:Hk; [lia|].
    destruct (nobody_waits s) eqn:Hw.
    + apply (Hno NotifyNobody (set_notifying k s)); [done|]. unfold pool_exec.
      by rewrite Ht, Hk, Hw.
    + destruct (decide (Exists (λ w, w = Waiting) (pool_ s))) as [Hex|Hex].
      * apply Exists_exists in Hex as (w & [i Hi]%list_elem_of_lookup & ->).
        apply (Hno (NotifyOne i) (set_notifying k (set_worker i Checking s))); [done|].
        unfold pool_exec. by rewrite Ht, Hk, Hi.
      * assert (nobody_waits s = true); [|congruence]. apply nobody_waits_spec.
        apply Forall_forall. intros w Hin ->. apply Hex, Exists_exists. eauto.
Qed.

(** What a pool at rest looks like. *)
Lemma stuck_shape s :
  pool_inv s → stuck s → terminated s = false →
  (stop_ s = false ∧ queue_ s = [] ∧ Forall (λ w, w = Waiting) (pool_ s)) ∨
  (stop_ s = true ∧ Forall (λ w, w = Exited) (pool_ s) ∧ (queue_ s = [] ∨ late s = true)).
Proof.
  intros [Hf Hr Hne Hw Hs Hsi He Hp Ht Hrej] Hst Hterm.
  destruct (stuck_workers s Hst Hterm) as (Hna & Hall & Hnot).
  destruct (stop_ s) eqn:Hstop; [right|left].
  - destruct (Hs eq_refl) as [?|Hnw]; [congruence|].
    assert (Forall (λ w, w = Exited) (pool_ s)) as Hex.
    { rewrite Forall_forall in *. intros w Hin. destruct (Hall w Hin); [|done].
      by destruct (Hnw w Hin). }
    split_and!; try done. destruct (pool_ s) as [|w ws]; [done|].
    apply Forall_cons in Hex as [-> _]. by destruct He as [_ ?]; [left|].
  - assert (Forall (λ w, w = Waiting) (pool_ s)) as Hwait.
    { rewrite Forall_forall in *. intros w Hin. destruct (Hall w Hin) as [?| ->]; [done|].
      by destruct (He Hin). }
    split_and!; [done| |done]. destruct (queue_ s) as [|t q]; [done|]. exfalso.
    destruct Hw as [?|[Ha|[Ha _]]]; [done|by apply Hnot| |].
    + apply Exists_exists in Ha as (w & Hin & Ha). rewrite Forall_forall in Hwait.
      by rewrite (Hwait w Hin) in Ha.
    + destruct (pool_ s) as [|w ws]; [done|].
      apply Forall_cons in Ha as [-> _]. by apply Forall_cons in Hwait as [? _].
Qed.

Lemma internal_keeps s s' :
  internal_step s s' → stop_ s' = stop_ s ∧ late s' = late s ∧ submitted s' = submitted s.
Proof.
  intros (l & Hl & H). unfold pool_exec in H. destruct (terminated s); [done|].
  destruct l as [t|t|i| |i|i|i| |]; try done; repeat case_match; simplify_eq; try done.
  unfold work_check. destruct (queue_ s) as [|t q]; [by destruct (stop_ s) eqn:?|done].
Qed.

(** ** Properties *)

(** Order and accounting: in every reachable state the tasks accepted so far
    are those already started, in the order of their submission, followed by
    those still queued; each started task has finished or is being run by
    exactly one worker, so none runs twice and none is lost; and only a stopped
    pool has rejected anything. *)
Theorem pool_fifo (n : nat) (s : ThreadPool) :
  reachable n s →
  submitted s = started s ++ queue_ s ∧
  started s ≡ₚ finished s ++ running (pool_ s) ∧
  (rejected s ≠ [] → stop_ s = true).
Proof. intros [Hf Hr _ _ _ _ _ _ _ Hrej]%reachable_inv. done. Qed.

Definition demo_task (i : nat) : Task := {| task_id := i; throws := false; packaged := false |}.

(** Two submissions, one of them to a waiting worker. *)
Definition demo_labels : list label :=
  [CheckPredicate 0; SubmitFunction (demo_task 1); SubmitFunction (demo_task 2); NotifyOne 0;
   CheckPredicate 0; CheckPredicate 1].

Definition demo_state : ThreadPool := default (pool_init 2) (pool_run demo_labels (pool_init 2)).

Lemma run_reachable n ls s : pool_run ls (pool_init n) = Some s → reachable n s.
Proof.
  unfold reachable. generalize (pool_init n). induction ls as [|l ls IH]; intros s0 H.
  - injection H as ->. reflexivity.
  - cbn in H. destruct (pool_exec l s0) as [s1|] eqn:Hl; [|done].
    eapply rtc_l; [by exists l|by apply IH].
Qed.

Lemma pool_fifo_witness :
  submitted demo_state = [demo_task 1; demo_task 2] ∧
  submitted demo_state = started demo_state ++ queue_ demo_state.
Proof.
  split; [reflexivity|]. apply (pool_fifo 2 demo_state).
  apply (run_reachable 2 demo_labels). vm_compute; reflexivity.
Defined.

(** C5. No lost wakeup: a reachable pool in which no worker, pending
    notification or destructor can make a step is either open, with an empty
    queue and every worker waiting, or stopped, with every worker gone; a task is
    left in the queue of a stopped pool only if it was queued after the stop. *)
Theorem pool_no_lost_wakeup (n : nat) (s : ThreadPool) :
  reachable n s → terminated s = false → stuck s →
  (stop_ s = false ∧ queue_ s = [] ∧ Forall (λ w, w = Waiting) (pool_ s)) ∨
  (stop_ s = true ∧ Forall (λ w, w = Exited) (pool_ s) ∧ (queue_ s = [] ∨ late s = true)).
Proof. intros Hr Ht Hst. apply stuck_shape; [by eapply reachable_inv|done|done]. Qed.

Definition demo_idle : ThreadPool := default (pool_init 1) (pool_run [CheckPredicate 0] (pool_init 1)).

Lemma pool_no_lost_wakeup_witness :
  queue_ demo_idle = [] ∧
  ((stop_ demo_idle = false ∧ queue_ demo_idle = [] ∧
    Forall (λ w, w = Waiting) (pool_ demo_idle)) ∨
   (stop_ demo_idle = true ∧ Forall (λ w, w = Exited) (pool_ demo_idle) ∧
    (queue_ demo_idle = [] ∨ late demo_idle = true))).
Proof.
  split; [reflexivity|]. apply (pool_no_lost_wakeup 1).
  - apply (run_reachable 1 [CheckPredicate 0]). vm_compute; reflexivity.
  - vm_compute; reflexivity.
  - intros s' (l & Hl & H). destruct l as [t|t|[|i]| |i|[|i]|[|i]| |]; done.
Defined.

(** C34. Shutdown drains the queue and terminates: once a reachable pool is
    stopped and nothing was queued late, the pool's own steps are bounded by a
    measure of the remaining work, and whenever they can go no further, unless a
    raw task threw, every worker has exited (the destructor's joins return),
    the queue is empty and every accepted task has been run to its end. *)
Theorem pool_shutdown (n : nat) (s : ThreadPool) :
  reachable n s → stop_ s = true → late s = false →
  (∀ k s', nsteps internal_step k s s' → k ≤ measure s) ∧
  (∀ s', rtc internal_step s s' → stuck s' →
    terminated s' = true ∨
    (Forall (λ w, w = Exited) (pool_ s') ∧ queue_ s' = [] ∧ finished s' ≡ₚ submitted s)).
Proof.
  intros Hr Hstop Hlate. split.
  - intros k s' H%internal_bounded. lia.
  - intros s' Hsteps Hst.
    assert (stop_ s' = true ∧ late s' = false ∧ submitted s' = submitted s ∧ pool_inv s')
      as (Hstop' & Hlate' & Hsub & Hinv).
    { clear Hst. revert s' Hsteps. apply (rtc_ind_r
        (λ s', stop_ s' = true ∧ late s' = false ∧ submitted s' = submitted s ∧ pool_inv s') s).
      - split_and!; try done. by eapply reachable_inv.
      - intros s1 s2 _ H12 (Hs1 & Hs2 & Hs3 & Hinv).
        destruct (internal_keeps _ _ H12) as (-> & -> & ->).
        split_and!; try done. destruct H12 as (l & _ & Hl). by eapply pool_exec_inv. }
    destruct (terminated s') eqn:Hterm; [by left|right].
    destruct (stuck_shape s' Hinv Hst Hterm) as [(? & _)|(_ & Hex & Hq)]; [congruence|].
    destruct Hq as [Hq|?]; [|congruence]. split_and!; try done.
    destruct Hinv as [Hf Hrun _ _ _ _ _ _ _ _].
    rewrite Hq, app_nil_r in Hf. rewrite <-Hsub, Hf, Hrun.
    assert (running (pool_ s') = []) as ->; [|by rewrite app_nil_r].
    clear -Hex. induction (pool_ s') as [|w ws IH]; [done|].
    apply Forall_cons in Hex as [-> Hex]. by apply IH.
Qed.

Lemma pool_shutdown_witness :
  let s := default (pool_init 1)
             (pool_run [SubmitFunction (demo_task 1); Stop] (pool_init 1)) in
  queue_ s = [demo_task 1] ∧
  ∀ s', rtc internal_step s s' → stuck s' →
    terminated s' = true ∨
    (Forall (λ w, w = Exited) (pool_ s') ∧ queue_ s' = [] ∧ finished s' ≡ₚ [demo_task 1]).
Proof.
  cbn zeta. split; [reflexivity|]. apply (pool_shutdown 1).
  - apply (run_reachable 1 [SubmitFunction (demo_task 1); Stop]). vm_compute; reflexivity.
  - vm_compute; reflexivity.
  - vm_compute; reflexivity.
Defined.

(** Exceptions: the promises settled are exactly those of the finished tasks
    that went through the template [Submit], with a value or with the exception;
    the program is terminated exactly when some finished task that went through
    the plain [Submit] threw. *)
Theorem pool_exceptions (n : nat) (s : ThreadPool) :
  reachable n s →
  promises s = omap (λ t, if packaged t then Some (task_id t, negb (throws t)) else None)
                 (finished s) ∧
  (terminated s = true ↔ ∃ t, t ∈ finished s ∧ throws t = true ∧ packaged t = false).
Proof.
  intros [_ _ _ _ _ _ _ Hp Ht _]%reachable_inv. split; [done|]. rewrite Ht, existsb_exists.
  split; intros (t & Hin & H); exists t.
  - apply andb_true_iff in H as [? H]. apply negb_true_iff in H. by rewrite list_elem_of_In.
  - destruct H as [-> ->]. by rewrite <-list_elem_of_In.
Qed.

Lemma pool_exceptions_witness :
  let bad := {| task_id := 1; throws := true; packaged := false |} in
  let s := default (pool_init 1)
             (pool_run [SubmitFunction bad; CheckPredicate 0; Finish 0] (pool_init 1)) in
  terminated s = true ∧
  (terminated s = true ↔ ∃ t, t ∈ finished s ∧ throws t = true ∧ packaged t = false).
Proof.
  cbn zeta. split; [reflexivity|]. apply (pool_exceptions 1).
  apply (run_reachable 1
    [SubmitFunction {| task_id := 1; throws := true; packaged := false |};
     CheckPredicate 0; Finish 0]). vm_compute; reflexivity.
Defined.
