(* ===== verification/PoolQueue.v ===== *)
(** * The pool as a queue of tasks

    What the rest of the program relies on: a queue from which, whenever a worker is
    free, the oldest task is taken, and tasks that run until they end, at most one per
    worker.  [System.v] runs its tasks this way.  The theorem of this file is that
    [ThreadPool.v], with its mutex, its condition variable and whatever wakeups it
    gets, is such a queue while it is open. *)

From S2P Require Import Prelude ThreadPool.

(** ** The specification *)
Record Queue : Type := { tasks : list Task; in_progress : list Task }.

(** The order of the tasks in progress does not matter. *)
#[export] Instance Queue_equiv : Equiv Queue := λ q q',
  tasks q = tasks q' ∧ in_progress q ≡ₚ in_progress q'.

#[export] Instance Queue_equivalence : Equivalence (≡@{Queue}).
Proof.
  split; [by intros q; split|by intros q q' [? ?]; split|].
  intros q1 q2 q3 [H1 H1'] [H2 H2']. split; [congruence|by etrans].
Qed.

Inductive queue_step (workers : nat) : Queue → Queue → Prop :=
| Push t q : queue_step workers q {| tasks := tasks q ++ [t]; in_progress := in_progress q |}
| Start t ts rs : length rs < workers →
    queue_step workers {| tasks := t :: ts; in_progress := rs |} {| tasks := ts; in_progress := t :: rs |}
| End t ts rs rs' : rs ≡ₚ t :: rs' →
    queue_step workers {| tasks := ts; in_progress := rs |} {| tasks := ts; in_progress := rs' |}.

(** A step of the specification does not look at the order. *)
#[export] Instance queue_step_proper workers :
  Proper ((≡) ==> (≡) ==> impl) (λ q q', ∃ r, queue_step workers q r ∧ r ≡ q').
Proof.
  intros [ts rs] [ts' rs'] [Ht Hr] q1 q2 Hq (r & Hs & Hrq). cbn in Ht, Hr. subst ts'.
  assert (∃ r', queue_step workers {| tasks := ts; in_progress := rs' |} r' ∧ r' ≡ r) as (r' & Hs' & Hr').
  { inversion Hs as [t q|t ts0 rs0 Hl|t ts0 rs0 rs1 Hp]; subst.
    - eexists. by split; [apply Push|split].
    - eexists. split; [apply Start; by rewrite <-Hr|]. split; [done|]. cbn. by rewrite Hr.
    - eexists. split; [apply (End _ t); by rewrite <-Hr|done]. }
  exists r'. split; [done|]. by rewrite Hr', Hrq.
Qed.

(** What the pool is, seen as a queue. *)
Definition queue_of (s : ThreadPool) : Queue :=
  {| tasks := queue_ s; in_progress := running (pool_ s) |}.

(** ** No wakeup is missing

    While a worker waits, every queued task has a notification on its way or a worker
    about to look: so a worker that waits is not forgotten, however long the tasks of
    the others take. *)
Definition checking (ws : list worker) : nat :=
  length (filter (λ w, w = Checking) ws).

#[global] Arguments checking : simpl never.

Record served (workers : nat) (s : ThreadPool) : Prop := {
  sv_inv : pool_inv s;
  sv_size : length (pool_ s) = workers;
  sv_wakeups : Waiting ∈ pool_ s → length (queue_ s) ≤ notifying s + checking (pool_ s)
}.

Definition is_checking (w : worker) : nat := match w with Checking => 1 | _ => 0 end.

Lemma checking_insert (ws : list worker) i w w' :
  ws !! i = Some w → checking (<[i := w']> ws) + is_checking w = checking ws + is_checking w'.
Proof.
  intros H. destruct (split_at ws i w H) as [Hl Hi]. unfold checking. rewrite Hi. rewrite Hl at 3.
  rewrite !filter_app, !length_app, !filter_cons. by destruct w, w'; repeat case_decide; try done; cbn; lia.
Qed.

Lemma waiting_insert (ws : list worker) i w : Waiting ∈ <[i := w]> ws → w = Waiting ∨ Waiting ∈ ws.
Proof.
  intros [j Hj]%list_elem_of_lookup. apply list_lookup_insert_Some in Hj as [(_ & ? & _)|[_ Hj]]; [by left|].
  right. apply list_elem_of_lookup. by exists j.
Qed.

Lemma init_served n : served (length (pool_ (pool_init n))) (pool_init n).
Proof. split; [apply init_inv|done|]. intros _. apply Nat.le_0_l. Qed.

Lemma served_exec workers l s s' : pool_exec l s = Some s' → served workers s → served workers s'.
Proof.
  intros H [Hi Hn Hw]. pose proof (pool_exec_inv _ _ _ H Hi) as Hi'.
  unfold pool_exec in H. destruct (terminated s); [done|].
  destruct l as [t|t|i| |i|i|i| |]; repeat case_match; simplify_eq; (split; [done|..]); try done.
  - cbn. rewrite length_app. intros Hin. specialize (Hw Hin). cbn. lia.
  - unfold Submit_template. by case_match.
  - unfold Submit_template. case_match; [done|]. cbn. rewrite length_app. intros Hin. specialize (Hw Hin). cbn. lia.
  - cbn. by rewrite length_insert.
  - cbn. intros [?|Hin]%waiting_insert; [done|]. specialize (Hw Hin).
    pose proof (checking_insert (pool_ s) i Waiting Checking ltac:(done)) as Hc.
    cbn in Hc. lia.
  - cbn. intros Hin. match goal with H : nobody_waits s = true |- _ => apply nobody_waits_spec in H; rename H into Hno end.
    rewrite Forall_forall in Hno. by destruct (Hno _ Hin).
  - cbn. by rewrite length_insert.
  - cbn. intros [?|Hin]%waiting_insert; [done|]. specialize (Hw Hin).
    pose proof (checking_insert (pool_ s) i Waiting Checking ltac:(done)) as Hc.
    cbn in Hc. lia.
  - unfold work_check. repeat case_match; cbn; by rewrite length_insert.
  - unfold work_check. destruct (queue_ s) as [|t q] eqn:Hq; [case_match; cbn; rewrite Hq; cbn; lia|].
    cbn. intros [?|Hin]%waiting_insert; [done|]. specialize (Hw Hin).
    pose proof (checking_insert (pool_ s) i Checking (Running t) ltac:(done)) as Hc.
    cbn in Hc, Hw. lia.
  - cbn. by rewrite length_insert.
  - cbn. intros [?|Hin]%waiting_insert; [done|]. specialize (Hw Hin).
    match goal with H : pool_ s !! i = Some (Running ?t) |- _ =>
      pose proof (checking_insert (pool_ s) i (Running t) Checking H) as Hc end.
    cbn in Hc. lia.
  - cbn. by rewrite length_fmap.
  - cbn. intros (w & Hw' & _)%list_elem_of_fmap. by destruct w.
Qed.

Lemma reachable_served n s : reachable n s → served (length (pool_ (pool_init n))) s.
Proof.
  unfold reachable. apply (rtc_ind_r (served _) (pool_init n)); [apply init_served|].
  intros s1 s2 _ [l Hl] IH. by eapply served_exec.
Qed.

(** ** Every step of the pool is a step of the queue, or none *)

Lemma running_replace (ws : list worker) i w w' :
  ws !! i = Some w → running [w] = running [w'] → running (<[i := w']> ws) ≡ₚ running ws.
Proof.
  intros H Heq. pose proof (running_insert ws i w w' H) as Hp. rewrite <-Heq in Hp. by apply Permutation_app_inv_r in Hp.
Qed.

Lemma running_le ws : length (running ws) ≤ length ws.
Proof. unfold running. induction ws as [|[] ws IH]; cbn; lia. Qed.

Lemma running_free (ws : list worker) i w :
  ws !! i = Some w → running [w] = [] → length (running ws) < length ws.
Proof.
  intros H Hw. destruct (split_at ws i w H) as [-> _]. unfold running in *. rewrite omap_app.
  change (w :: drop (S i) ws) with ([w] ++ drop (S i) ws). rewrite omap_app, Hw, !length_app. cbn.
  pose proof (running_le (take i ws)). pose proof (running_le (drop (S i) ws)). unfold running in *. lia.
Qed.

Definition steps_to (workers : nat) (q q' : Queue) : Prop := ∃ r, queue_step workers q r ∧ r ≡ q'.

Lemma queue_forward workers l s s' :
  served workers s → pool_exec l s = Some s' →
  queue_of s' ≡ queue_of s ∨ steps_to workers (queue_of s) (queue_of s').
Proof.
  intros [Hi <- Hw] H. unfold pool_exec in H. destruct (terminated s); [done|].
  destruct l as [t|t|i| |i|i|i| |]; repeat case_match; simplify_eq; try (by left).
  - right. eexists. by split; [apply (Push _ t)|].
  - unfold Submit_template. case_match; [by left|right]. eexists. by split; [apply (Push _ t)|].
  - left. split; [done|]. cbn. by eapply running_replace.
  - left. split; [done|]. cbn. by eapply running_replace.
  - unfold work_check. destruct (queue_ s) as [|t q] eqn:Hq.
    + left. case_match; (split; [done|]); cbn; by eapply running_replace.
    + right. exists {| tasks := q; in_progress := t :: running (pool_ s) |}. split.
      * unfold queue_of. rewrite Hq. apply Start. by eapply running_free.
      * split; [done|]. cbn. pose proof (running_insert (pool_ s) i Checking (Running t) ltac:(done)) as Hp.
        cbn in Hp. rewrite app_nil_r in Hp. rewrite Hp. solve_Permutation.
  - right. match goal with H : pool_ s !! i = Some (Running ?t) |- _ =>
      pose proof (running_insert (pool_ s) i (Running t) Checking H) as Hp; cbn in Hp; rewrite app_nil_r in Hp;
      exists {| tasks := queue_ s; in_progress := running (<[i := Checking]> (pool_ s)) |}; split;
        [apply (End _ t); rewrite <-Hp; solve_Permutation|done] end.
  - left. split; [done|]. cbn. by rewrite running_wake.
Qed.

(** ** Every step of the queue is made by the pool, while it is open *)

(** A worker that is not running a task: it looks, or it waits. *)
Lemma free_worker s :
  pool_inv s → stop_ s = false → length (running (pool_ s)) < length (pool_ s) →
  (∃ i, pool_ s !! i = Some Checking) ∨ (checking (pool_ s) = 0 ∧ ∃ i, pool_ s !! i = Some Waiting).
Proof.
  intros Hi Hs Hl. destruct (decide (Exists (λ w, w = Checking) (pool_ s))) as [Hc|Hc].
  { left. apply Exists_exists in Hc as (w & [i H]%list_elem_of_lookup & ->). by exists i. }
  right. split.
  { unfold checking. destruct (filter _ (pool_ s)) as [|w ws] eqn:Hf; [done|]. exfalso.
    assert (w ∈ filter (λ w, w = Checking) (pool_ s)) as Hin by (rewrite Hf; by left).
    apply list_elem_of_filter in Hin as [-> Hin]. apply Hc, Exists_exists. by exists Checking. }
  destruct (decide (Exists (λ w, w = Waiting) (pool_ s))) as [Hw|Hw].
  { apply Exists_exists in Hw as (w & [i H]%list_elem_of_lookup & ->). by exists i. }
  exfalso. assert (Exited ∉ pool_ s) as He by (intros [? _]%(inv_exited s Hi); congruence).
  assert (Forall (λ w, ∃ t, w = Running t) (pool_ s)) as Hall.
  { apply Forall_forall. intros w Hin. destruct w as [| |t|]; [| |by exists t|done]; exfalso.
    - apply Hc, Exists_exists. by exists Checking.
    - apply Hw, Exists_exists. by exists Waiting. }
  assert (length (running (pool_ s)) = length (pool_ s)); [|lia]. clear -Hall.
  induction Hall as [|w ws [t ->] _ IH]; [done|]. cbn. by rewrite <-IH.
Qed.

Lemma look_takes i t q s :
  terminated s = false → pool_ s !! i = Some Checking → queue_ s = t :: q →
  ∃ s', pool_exec (CheckPredicate i) s = Some s' ∧
        queue_of s' ≡ {| tasks := q; in_progress := t :: running (pool_ s) |}.
Proof.
  intros Ht Hi Hq. unfold pool_exec. rewrite Ht, Hi. eexists. split; [done|].
  unfold work_check. rewrite Hq. split; [done|]. cbn.
  pose proof (running_insert (pool_ s) i Checking (Running t) Hi) as Hp. cbn in Hp.
  rewrite app_nil_r in Hp. rewrite Hp. solve_Permutation.
Qed.

(** A free worker takes the oldest task, whatever the others are doing. *)
Lemma takes_task workers s t q :
  served workers s → terminated s = false → stop_ s = false →
  queue_ s = t :: q → length (running (pool_ s)) < workers →
  ∃ ls s', length ls ≤ 2 ∧ Forall (λ l, internal l = true) ls ∧ pool_run ls s = Some s' ∧
           queue_of s' ≡ {| tasks := q; in_progress := t :: running (pool_ s) |}.
Proof.
  intros [Hi <- Hw] Ht Hs Hq Hl. destruct (free_worker s Hi Hs Hl) as [[i Hc]|[Hc [i Hwait]]].
  - destruct (look_takes i t q s Ht Hc Hq) as (s' & He & Hs'). exists [CheckPredicate i], s'.
    cbn [pool_run length]. rewrite He. split_and!; [lia|by repeat constructor|done|done].
  - assert (Waiting ∈ pool_ s) as Hin by (apply list_elem_of_lookup; by exists i).
    specialize (Hw Hin). rewrite Hc, Hq in Hw. cbn in Hw. destruct (notifying s) as [|k] eqn:Hk; [lia|].
    set (s1 := set_notifying k (set_worker i Checking s)).
    assert (pool_ s1 !! i = Some Checking) as H1 by (cbn; apply list_lookup_insert_eq; by eapply lookup_lt_Some).
    destruct (look_takes i t q s1 Ht H1 Hq) as (s' & He & Hs'). exists [NotifyOne i; CheckPredicate i], s'.
    assert (pool_exec (NotifyOne i) s = Some s1) as Hn by (unfold pool_exec; by rewrite Ht, Hk, Hwait).
    cbn [pool_run length]. rewrite Hn. cbn [mbind option_bind]. rewrite He.
    split_and!; [lia|by repeat constructor|done|]. rewrite Hs'. split; [done|]. cbn. f_equiv.
    by eapply running_replace.
Qed.

(** ** Properties *)

(** C6. The pool is a queue of tasks with a fixed number of workers: in every reachable
    state, a step of any thread is a step of the queue (a task put at the end, the
    oldest taken while fewer tasks run than there are workers, one ended) or changes
    nothing of it; and while the pool is open, whatever the queue can do next the pool
    can do in at most two steps without waiting for a running task to end or for a
    spurious wakeup, so a free worker is never forgotten. *)
Theorem pool_refines_queue (n : nat) (s : ThreadPool) :
  reachable n s → terminated s = false →
  let workers := Nat.max 1 n in
  (∀ l s', pool_exec l s = Some s' →
     queue_of s' ≡ queue_of s ∨ steps_to workers (queue_of s) (queue_of s')) ∧
  (stop_ s = false → ∀ q, queue_step workers (queue_of s) q →
     ∃ ls s', length ls ≤ 2 ∧ Forall (λ l, match l with Spurious _ | Stop => False | _ => True end) ls ∧
              pool_run ls s = Some s' ∧ queue_of s' ≡ q).
Proof.
  intros Hr Ht. cbn zeta. pose proof (reachable_served n s Hr) as Hs.
  assert (length (pool_ (pool_init n)) = Nat.max 1 n) as Hn.
  { cbn. rewrite length_replicate. case_decide; lia. }
  rewrite Hn in Hs. split; [intros l s' H; by eapply queue_forward|].
  intros Hst q Hq. inversion Hq as [t q0 Hq0|t ts rs Hl Hq0|t ts rs rs' Hp Hq0]; subst; clear Hq.
  - set (l := if packaged t then SubmitTemplate t else SubmitFunction t).
    assert (pool_exec l s = Some (enqueue t s)) as He.
    { unfold pool_exec, l. rewrite Ht. destruct (packaged t) eqn:Hpk; rewrite Hpk; [|done].
      unfold Submit_template. by rewrite Hst. }
    exists [l], (enqueue t s). cbn [pool_run length]. rewrite He.
    split_and!; [lia|apply Forall_singleton; unfold l; by destruct (packaged t)|done|done].
  - destruct (takes_task (Nat.max 1 n) s t ts) as (ls & s' & H1 & H2 & H3 & H4); [done..|].
    exists ls, s'. split_and!; [done| |done|done]. eapply Forall_impl; [exact H2|]. by intros [].
  - assert (t ∈ running (pool_ s)) as Hin by (rewrite Hp; by left).
    unfold running in Hin. apply list_elem_of_omap in Hin as (w & [i Hi]%list_elem_of_lookup & Hw).
    destruct w as [| |t'|]; try done. injection Hw as ->.
    assert (pool_exec (Finish i) s = Some (end_task t (set_worker i Checking s))) as He
      by (unfold pool_exec; by rewrite Ht, Hi).
    exists [Finish i], (end_task t (set_worker i Checking s)). cbn [pool_run length]. rewrite He.
    split_and!; [lia|by apply Forall_singleton|done|]. split; [done|]. cbn.
    pose proof (running_insert (pool_ s) i (Running t) Checking Hi) as Hri. cbn in Hri. rewrite app_nil_r, Hp in Hri.
    apply (Permutation_app_inv_r [t]). rewrite Hri. solve_Permutation.
Qed.

(** One worker is busy, the other waits, and a task has been submitted. *)
Definition demo_busy : list label :=
  [CheckPredicate 1; SubmitFunction (demo_task 1); CheckPredicate 0; NotifyOne 1; CheckPredicate 1;
   SubmitFunction (demo_task 2)].

Lemma pool_refines_queue_witness :
  ∃ ls s', length ls ≤ 2 ∧
    pool_run ls (default (pool_init 2) (pool_run demo_busy (pool_init 2))) = Some s' ∧
    queue_of s' ≡ {| tasks := []; in_progress := [demo_task 2; demo_task 1] |}.
Proof.
  destruct (pool_refines_queue 2 (default (pool_init 2) (pool_run demo_busy (pool_init 2)))) as [_ H].
  - apply (run_reachable 2 demo_busy). vm_compute; reflexivity.
  - vm_compute; reflexivity.
  - destruct (H ltac:(vm_compute; reflexivity) {| tasks := []; in_progress := [demo_task 2; demo_task 1] |})
      as (ls & s' & H1 & _ & H2 & H3).
    + apply (Start 2 (demo_task 2) [] [demo_task 1]). cbn; lia.
    + exists ls, s'. split_and!; [exact H1|exact H2|exact H3].
Defined.
