(* ===== verification/CameraModel.v ===== *)
(** * The camera grid (src/Qt/Back/Models/CameraModel, src/Src/Config.hpp)

    The rows of the grid with their slot identities, the tile splits and merges,
    the update from the camera store, and the model signals each operation
    emits, in order.  Every operation returns the new model and its signals. *)

From S2P Require Import Prelude Extern Variant CameraStore.

(** ** Config.hpp *)
Record AutoSplitEntry : Type := { as_cameraId : string; as_tileCount : Z }.

Definition AUTO_SPLIT_CAMERA_ID_TILE_MAP : list AutoSplitEntry := [].

Fixpoint tile_count_in (l : list AutoSplitEntry) (cameraId : string) : Z :=
  match l with
  | [] => 1
  | e :: l' => if decide (as_cameraId e = cameraId) then as_tileCount e else tile_count_in l' cameraId
  end.

Definition autoSplitTileCountForCameraId (cameraId : string) : Z :=
  tile_count_in AUTO_SPLIT_CAMERA_ID_TILE_MAP cameraId.

(** ** Data *)
Inductive SplitDirection : Type := SD_None | SD_Col | SD_Row | SD_Grid.

#[export] Instance SplitDirection_eq_dec : EqDecision SplitDirection.
Proof. solve_decision. Defined.

Definition full_rect : QRectF := {| rx := d_zero; ry := d_zero; rw := d_one; rh := d_one |}.

Record CameraEntry : Type := {
  slotId : Z;
  title : QString;
  cameraId : QString;
  isOnline : bool;
  cameraType : QString;
  splitCount : Z;
  splitDirection : SplitDirection;
  cropRect : QRectF;
  splitGroupId : Z;
  splitIndex : Z;
  description : QString;
  width : Z;
  height : Z;
  deviceInfo : DeviceInfo
}.

Definition CameraEntry0 : CameraEntry := {|
  slotId := -1; title := ""; cameraId := ""; isOnline := false; cameraType := "";
  splitCount := 1; splitDirection := SD_None; cropRect := full_rect; splitGroupId := -1;
  splitIndex := 0; description := ""; width := 320; height := 240; deviceInfo := DeviceInfo0
|}.

Inductive Role : Type :=
| SlotIdRole | TitleRole | IsOnlineRole | DescriptionRole | CardWidthRole | CardHeightRole
| CameraTypeRole | SplitCountRole | CropRectRole | SplitDirectionRole | CameraIdRole.

#[export] Instance Role_eq_dec : EqDecision Role.
Proof. solve_decision. Defined.

(** The signals of the model; an empty role list stands for all roles. *)
Inductive model_signal : Type :=
| DataChanged (row : Z) (roles : list Role)
| RowsRemoved (first last : Z)
| RowsInserted (first last : Z)
| ModelReset
| SlotsUpdated (slots : list (Z * QString))
| CameraIdsUpdated (cameraIds : list QString)
| CameraOnline (cameraId : QString)
| SensorDataUpdated (cameraId : QString).

Record CameraModel : Type := {
  nextSlotId_ : Z;
  nextSplitGroupId_ : Z;
  cameras_ : list CameraEntry;
  autoSplitAppliedSlotIds_ : gset Z
}.

Definition CameraModel0 : CameraModel := {|
  nextSlotId_ := 0; nextSplitGroupId_ := 1; cameras_ := []; autoSplitAppliedSlotIds_ := ∅
|}.

Definition set_cameras (l : list CameraEntry) (m : CameraModel) : CameraModel := {|
  nextSlotId_ := nextSlotId_ m; nextSplitGroupId_ := nextSplitGroupId_ m;
  cameras_ := l; autoSplitAppliedSlotIds_ := autoSplitAppliedSlotIds_ m
|}.

Definition set_auto (a : gset Z) (m : CameraModel) : CameraModel := {|
  nextSlotId_ := nextSlotId_ m; nextSplitGroupId_ := nextSplitGroupId_ m;
  cameras_ := cameras_ m; autoSplitAppliedSlotIds_ := a
|}.

(** [index < 0 || index >= cameras_.size()] fails: the row as a [nat]. *)
Definition row_of (index : Z) (m : CameraModel) : option nat :=
  if decide (0 ≤ index < Z.of_nat (length (cameras_ m)))%Z then Some (Z.to_nat index) else None.

(** *** Entry updates *)
Definition with_title (t : QString) (e : CameraEntry) : CameraEntry := {|
  slotId := slotId e; title := t; cameraId := cameraId e; isOnline := isOnline e;
  cameraType := cameraType e; splitCount := splitCount e; splitDirection := splitDirection e;
  cropRect := cropRect e; splitGroupId := splitGroupId e; splitIndex := splitIndex e;
  description := description e; width := width e; height := height e; deviceInfo := deviceInfo e
|}.

Definition with_online (b : bool) (e : CameraEntry) : CameraEntry := {|
  slotId := slotId e; title := title e; cameraId := cameraId e; isOnline := b;
  cameraType := cameraType e; splitCount := splitCount e; splitDirection := splitDirection e;
  cropRect := cropRect e; splitGroupId := splitGroupId e; splitIndex := splitIndex e;
  description := description e; width := width e; height := height e; deviceInfo := deviceInfo e
|}.

Definition with_type (t : QString) (e : CameraEntry) : CameraEntry := {|
  slotId := slotId e; title := title e; cameraId := cameraId e; isOnline := isOnline e;
  cameraType := t; splitCount := splitCount e; splitDirection := splitDirection e;
  cropRect := cropRect e; splitGroupId := splitGroupId e; splitIndex := splitIndex e;
  description := description e; width := width e; height := height e; deviceInfo := deviceInfo e
|}.

Definition with_device (d : DeviceInfo) (e : CameraEntry) : CameraEntry := {|
  slotId := slotId e; title := title e; cameraId := cameraId e; isOnline := isOnline e;
  cameraType := cameraType e; splitCount := splitCount e; splitDirection := splitDirection e;
  cropRect := cropRect e; splitGroupId := splitGroupId e; splitIndex := splitIndex e;
  description := description e; width := width e; height := height e; deviceInfo := d
|}.

(** [e] keeping its slot and sensor data, with the other fields of [c]: what
    the [std::swap]s of [swapSlots] give. *)
Definition swapped_from (c e : CameraEntry) : CameraEntry := {|
  slotId := slotId e; title := title c; cameraId := cameraId c; isOnline := isOnline c;
  cameraType := cameraType c; splitCount := splitCount c; splitDirection := splitDirection c;
  cropRect := cropRect c; splitGroupId := splitGroupId c; splitIndex := splitIndex c;
  description := description c; width := width c; height := height c; deviceInfo := deviceInfo e
|}.

(** ** Signals *)

Definition emitSlotsUpdated (m : CameraModel) : list model_signal :=
  [SlotsUpdated ((λ e, (slotId e, cameraId e)) <$> cameras_ m);
   CameraIdsUpdated
     (foldl (λ cids e,
        if bool_decide (cameraId e ≠ "") && bool_decide (cameraId e ∉ cids)
        then cids ++ [cameraId e] else cids) [] (cameras_ m))].

(** ** Rows *)

(** [setData] on the writable roles. *)
Inductive RoleValue : Type :=
| SetTitle (t : QString) | SetOnline (b : bool) | SetCameraType (t : QString) | SetOther.

Definition setData (index : Z) (v : RoleValue) (m : CameraModel)
    : bool * CameraModel * list model_signal :=
  match row_of index m with
  | None => (false, m, [])
  | Some i =>
      match v with
      | SetTitle t => (true, set_cameras (alter (with_title t) i (cameras_ m)) m,
                       [DataChanged index [TitleRole]])
      | SetOnline b => (true, set_cameras (alter (with_online b) i (cameras_ m)) m,
                        [DataChanged index [IsOnlineRole]])
      | SetCameraType t => (true, set_cameras (alter (with_type t) i (cameras_ m)) m,
                            [DataChanged index [CameraTypeRole]])
      | SetOther => (false, m, [])
      end
  end.

Definition swapRoles : list Role :=
  [TitleRole; IsOnlineRole; DescriptionRole; CameraTypeRole; CropRectRole; SplitCountRole;
   SplitDirectionRole; CameraIdRole].

Definition swapSlots (indexA indexB : Z) (m : CameraModel) : CameraModel * list model_signal :=
  match row_of indexA m, row_of indexB m with
  | Some a, Some b =>
      if decide (indexA = indexB) then (m, [])
      else
        match cameras_ m !! a, cameras_ m !! b with
        | Some ea, Some eb =>
            let m' := set_cameras (<[a := swapped_from eb ea]> (<[b := swapped_from ea eb]> (cameras_ m))) m in
            (m', emitSlotsUpdated m' ++ [DataChanged indexA swapRoles; DataChanged indexB swapRoles])
        | _, _ => (m, [])
        end
  | _, _ => (m, [])
  end.

Definition setOnline (index : Z) (online : bool) (m : CameraModel)
    : CameraModel * list model_signal :=
  match row_of index m with
  | Some i => (set_cameras (alter (with_online online) i (cameras_ m)) m,
               [DataChanged index [IsOnlineRole]])
  | None => (m, [])
  end.

(** ** Splitting *)

Definition computeCropRect (tileIndex tileCount : Z) (direction : SplitDirection) : QRectF :=
  match direction with
  | SD_Col =>
      if bool_decide (tileCount < 2 ∨ 4 < tileCount)%Z then full_rect
      else
        let w := d_div d_one (d_of_Z tileCount) in
        let x := d_mul (d_of_Z tileIndex) w in
        let e := if decide (tileIndex = tileCount - 1)%Z then d_one else d_add x w in
        {| rx := x; ry := d_zero; rw := d_sub e x; rh := d_one |}
  | SD_Row =>
      if bool_decide (tileCount < 2 ∨ 3 < tileCount)%Z then full_rect
      else
        let h := d_div d_one (d_of_Z tileCount) in
        let y := d_mul (d_of_Z tileIndex) h in
        let e := if decide (tileIndex = tileCount - 1)%Z then d_one else d_add y h in
        {| rx := d_zero; ry := y; rw := d_one; rh := d_sub e y |}
  | SD_Grid =>
      if decide (tileCount = 4)%Z then
        {| rx := d_mul (d_of_Z (Z.rem tileIndex 2)) d_half;
           ry := d_mul (d_of_Z (Z.quot tileIndex 2)) d_half; rw := d_half; rh := d_half |}
      else full_rect
  | SD_None => full_rect
  end.

Definition indexBySlotId (s : Z) (m : CameraModel) : Z :=
  index_z (index_where (λ e, bool_decide (slotId e = s)) (cameras_ m)).

Definition valid_split (tileCount : Z) (direction : SplitDirection) : bool :=
  match direction with
  | SD_Col => bool_decide (2 ≤ tileCount ≤ 4)%Z
  | SD_Row => bool_decide (tileCount = 2 ∨ tileCount = 3)%Z
  | SD_Grid => bool_decide (tileCount = 4)%Z
  | SD_None => false
  end.

(** [" [" + number(i + 1) + "/" + number(tileCount) + "]"] *)
Definition tile_suffix (i tileCount : Z) : string :=
  " [" +:+ pretty (i + 1)%Z +:+ "/" +:+ pretty tileCount +:+ "]".

(** Tile [i] of the split of [original]: the members the code does not assign
    keep their defaults. *)
Definition tile (original : CameraEntry) (slot group tileCount i : Z) (d : SplitDirection)
    : CameraEntry := {|
  slotId := slot; title := title original +:+ tile_suffix i tileCount;
  cameraId := cameraId original; isOnline := isOnline original;
  cameraType := cameraType original; splitCount := tileCount; splitDirection := d;
  cropRect := computeCropRect i tileCount d; splitGroupId := group; splitIndex := i;
  description := description original;
  width := width CameraEntry0; height := height CameraEntry0;
  deviceInfo := deviceInfo CameraEntry0
|}.

(** The tiles the loop inserts, in order. *)
Definition tiles (original : CameraEntry) (slot group tileCount : Z) (d : SplitDirection)
    : list CameraEntry :=
  (λ i, tile original (slot + i) group tileCount i d) <$> seqZ 0 tileCount.

Definition splitSlotAtIndex (rowIndex tileCount : Z) (direction : SplitDirection)
    (autoSplit : bool) (m : CameraModel) : bool * CameraModel * list model_signal :=
  match row_of rowIndex m with
  | None => (false, m, [])
  | Some r =>
      match cameras_ m !! r with
      | None => (false, m, [])
      | Some original =>
          if valid_split tileCount direction && bool_decide (splitCount original = 1%Z)
             && isOnline original
          then
            let group := nextSplitGroupId_ m in
            let ts := tiles original (nextSlotId_ m) group tileCount direction in
            let auto := if autoSplit
                        then autoSplitAppliedSlotIds_ m ∪ list_to_set (slotId <$> ts)
                        else autoSplitAppliedSlotIds_ m in
            let m' := {|
              nextSlotId_ := nextSlotId_ m + tileCount;
              nextSplitGroupId_ := nextSplitGroupId_ m + 1;
              cameras_ := take r (cameras_ m) ++ ts ++ drop (S r) (cameras_ m);
              autoSplitAppliedSlotIds_ := auto ∖ {[slotId original]}
            |}%Z in
            (true, m', [RowsRemoved rowIndex rowIndex;
                        RowsInserted rowIndex (rowIndex + tileCount - 1)%Z]
                       ++ emitSlotsUpdated m')
          else (false, m, [])
      end
  end.

(** [direction] as QML passes it: 1 is Row, 2 is Grid, anything else Col. *)
Definition direction_of (direction : Z) : SplitDirection :=
  if decide (direction = 1%Z) then SD_Row
  else if decide (direction = 2%Z) then SD_Grid else SD_Col.

Definition splitSlot (rowIndex tileCount direction : Z) (m : CameraModel)
    : CameraModel * list model_signal :=
  let '(_, m', sig) := splitSlotAtIndex rowIndex tileCount (direction_of direction) false m in
  (m', sig).

(** ** Merging *)

(** [QString::lastIndexOf]. *)
Fixpoint last_index_of (p s : string) : option nat :=
  match s with
  | EmptyString => None
  | String _ s' =>
      match last_index_of p s' with
      | Some k => Some (S k)
      | None => if String.prefix p s then Some 0 else None
      end
  end.

Definition ends_with_bracket (s : string) : bool :=
  bool_decide (String.substring (String.length s - 1) 1 s = "]").

Definition unsplit_title (t : string) : string :=
  match last_index_of " [" t with
  | Some marker => if (0 <? marker)%nat && ends_with_bracket t
                   then String.substring 0 marker t else t
  | None => t
  end.

Definition merged_entry (e : CameraEntry) : CameraEntry := {|
  slotId := slotId e; title := unsplit_title (title e); cameraId := cameraId e;
  isOnline := isOnline e; cameraType := cameraType e; splitCount := 1;
  splitDirection := SD_Col; cropRect := full_rect; splitGroupId := -1; splitIndex := 0;
  description := description e; width := width e; height := height e; deviceInfo := deviceInfo e
|}.

(** The loop that collects the rows of a group, from row [i] on. *)
Fixpoint group_indices_from (i : nat) (g : Z) (l : list CameraEntry) : list nat :=
  match l with
  | [] => []
  | e :: l' => if decide (splitGroupId e = g) then i :: group_indices_from (S i) g l'
               else group_indices_from (S i) g l'
  end.

Definition group_indices (g : Z) (l : list CameraEntry) : list nat := group_indices_from 0 g l.

(** [removeAt] of the given rows, from the last to the first. *)
Definition remove_rows (rows : list nat) (m : CameraModel) : CameraModel * list model_signal :=
  foldr (λ i acc,
    let '(m, sig) := acc in
    (set_auto (autoSplitAppliedSlotIds_ m ∖
               match cameras_ m !! i with Some e => {[slotId e]} | None => ∅ end)
       (set_cameras (delete i (cameras_ m)) m),
     sig ++ [RowsRemoved (Z.of_nat i) (Z.of_nat i)])) (m, []) rows.

Definition mergeGroupByIndex (anyTileRowIndex : Z) (m : CameraModel)
    : bool * CameraModel * list model_signal :=
  match row_of anyTileRowIndex m with
  | None => (false, m, [])
  | Some r =>
      match cameras_ m !! r with
      | None => (false, m, [])
      | Some target =>
          if bool_decide (splitCount target ≤ 1)%Z || bool_decide (splitGroupId target < 0)%Z
          then (false, m, [])
          else
            match group_indices (splitGroupId target) (cameras_ m) with
            | firstPos :: ((_ :: _) as others) =>
                let '(m1, sig) := remove_rows others m in
                let m2 := set_cameras (alter merged_entry firstPos (cameras_ m1)) m1 in
                (true, m2, sig ++ [DataChanged (Z.of_nat firstPos) []] ++ emitSlotsUpdated m2)
            | _ => (false, m, [])
            end
      end
  end.

Definition mergeSlots (anyTileRowIndex tileCount : Z) (m : CameraModel)
    : CameraModel * list model_signal :=
  let '(_, m', sig) := mergeGroupByIndex anyTileRowIndex m in (m', sig).

(** ** Automatic splits and lookups *)

Definition autoSplitForIndex `{T : QtText} (rowIndex : Z) (m : CameraModel)
    : bool * CameraModel * list model_signal :=
  match row_of rowIndex m with
  | None => (false, m, [])
  | Some r =>
      match cameras_ m !! r with
      | None => (false, m, [])
      | Some entry =>
          if negb (isOnline entry) || bool_decide (splitCount entry ≠ 1%Z)
             || bool_decide (slotId entry ∈ autoSplitAppliedSlotIds_ m)
          then (false, m, [])
          else splitSlotAtIndex rowIndex
                 (autoSplitTileCountForCameraId (toStdString (cameraId entry))) SD_Col true m
      end
  end.

Definition applyAutoSplitForSlot `{T : QtText} (s : Z) (m : CameraModel)
    : bool * CameraModel * list model_signal :=
  autoSplitForIndex (indexBySlotId s m) m.

Definition entry_for_slot (s : Z) (m : CameraModel) : option CameraEntry :=
  let idx := indexBySlotId s m in
  if (idx <? 0)%Z then None else cameras_ m !! Z.to_nat idx.

Definition rowForSlot (s : Z) (m : CameraModel) : Z := indexBySlotId s m.
Definition hasSlot (s : Z) (m : CameraModel) : bool := (0 <=? indexBySlotId s m)%Z.

Definition isSlotSplit (s : Z) (m : CameraModel) : bool :=
  match entry_for_slot s m with Some e => (1 <? splitCount e)%Z | None => false end.

Definition titleForSlot (s : Z) (m : CameraModel) : QString :=
  match entry_for_slot s m with Some e => title e | None => "" end.

Definition isOnlineForSlot (s : Z) (m : CameraModel) : bool :=
  match entry_for_slot s m with Some e => isOnline e | None => false end.

Definition cropRectForSlot (s : Z) (m : CameraModel) : QRectF :=
  match entry_for_slot s m with Some e => cropRect e | None => full_rect end.

Definition cameraIdForSlot (s : Z) (m : CameraModel) : QString :=
  match entry_for_slot s m with Some e => cameraId e | None => "" end.

Definition clearAll (m : CameraModel) : CameraModel * list model_signal :=
  (CameraModel0, ModelReset :: emitSlotsUpdated CameraModel0).

(** ** Updates from the store *)

(** [snapshotByCid]: the last item of the snapshot for each non-empty id. *)
Definition snapshot_by_cid `{T : QtText} (snapshot : list CameraData)
    : gmap string CameraData :=
  foldl (λ h cam,
    let cid := fromStdString (cd_cameraId cam) in
    if decide (cid = "") then h else <[cid := cam]> h) ∅ snapshot.

(** One pass of the first loop on an entry: the new entry and its signals. *)
Definition update_entry `{T : QtText} (byCid : gmap string CameraData) (row : Z)
    (e : CameraEntry) : CameraEntry * list model_signal :=
  match byCid !! cameraId e with
  | None =>
      if isOnline e then (with_online false e, [DataChanged row [IsOnlineRole]]) else (e, [])
  | Some snap =>
      let '(e1, s1, r1) :=
        if bool_decide (isOnline e ≠ cd_isOnline snap)
        then (with_online (cd_isOnline snap) e,
              if negb (isOnline e) && cd_isOnline snap then [CameraOnline (cameraId e)] else [],
              [IsOnlineRole])
        else (e, [], []) in
      let ty := fromStdString (cd_cameraType snap) in
      let '(e2, r2) := if decide (cameraType e1 = ty) then (e1, []) else (with_type ty e1, [CameraTypeRole]) in
      let ti := fromStdString (cd_title snap) in
      let '(e3, r3) := if decide (splitCount e2 = 1%Z ∧ title e2 ≠ ti)
                       then (with_title ti e2, [TitleRole]) else (e2, []) in
      let roles := r1 ++ r2 ++ r3 in
      (e3, s1 ++ (if decide (roles = []) then [] else [DataChanged row roles]))
  end.

Definition update_entries `{T : QtText} (byCid : gmap string CameraData)
    (l : list CameraEntry) : list CameraEntry * list model_signal :=
  let rs := imap (λ i e, update_entry byCid (Z.of_nat i) e) l in
  (rs.*1, concat rs.*2).

(** The ids of the entries found in the snapshot. *)
Definition represented (byCid : gmap string CameraData) (l : list CameraEntry) : gset string :=
  list_to_set (filter (λ c, is_Some (byCid !! c)) (cameraId <$> l)).

Definition new_entry `{T : QtText} (slot : Z) (cid : string) (snap : CameraData) : CameraEntry := {|
  slotId := slot; title := fromStdString (cd_title snap); cameraId := cid;
  isOnline := cd_isOnline snap; cameraType := fromStdString (cd_cameraType snap);
  splitCount := 1; splitDirection := splitDirection CameraEntry0; cropRect := full_rect;
  splitGroupId := -1; splitIndex := 0; description := description CameraEntry0;
  width := width CameraEntry0; height := height CameraEntry0;
  deviceInfo := deviceInfo CameraEntry0
|}.

(** The second loop, over the hash in its own order. *)
Definition new_entries `{T : QtText, H : QtHash} (byCid : gmap string CameraData)
    (known : gset string) (slot : Z) : list CameraEntry :=
  imap (λ i p, new_entry (slot + Z.of_nat i) p.1 p.2)
    (filter (λ p, p.1 ∉ known) (qhash_items byCid)).

Definition candidate_slots (l : list CameraEntry) : list Z :=
  slotId <$> filter (λ e, splitCount e = 1%Z ∧ isOnline e = true) l.

Definition onStoreUpdated `{T : QtText, H : QtHash} (snapshot : list CameraData)
    (m : CameraModel) : CameraModel * list model_signal :=
  let byCid := snapshot_by_cid snapshot in
  let '(updated, sig1) := update_entries byCid (cameras_ m) in
  let fresh := new_entries byCid (represented byCid (cameras_ m)) (nextSlotId_ m) in
  let m1 := {|
    nextSlotId_ := nextSlotId_ m + Z.of_nat (length fresh);
    nextSplitGroupId_ := nextSplitGroupId_ m;
    cameras_ := updated ++ fresh;
    autoSplitAppliedSlotIds_ := autoSplitAppliedSlotIds_ m
  |}%Z in
  let n := Z.of_nat (length (cameras_ m)) in
  let sig2 := if decide (fresh = []) then []
              else [RowsInserted n (n + Z.of_nat (length fresh) - 1)%Z] in
  foldl (λ acc s,
      let '(m, sig) := acc in
      let '(_, m', sig') := applyAutoSplitForSlot s m in (m', sig ++ sig'))
    (m1, sig1 ++ sig2 ++ emitSlotsUpdated m1) (candidate_slots (cameras_ m1)).

Definition sensor_info (hum light tilt tmp : double) : DeviceInfo :=
  {| CameraStore.hum := hum; CameraStore.light := light; CameraStore.tilt := tilt;
     CameraStore.tmp := tmp |}.

Definition updateSensorInfo (cid : QString) (hum light tilt tmp : double) (m : CameraModel)
    : CameraModel * list model_signal :=
  (set_cameras ((λ e, if decide (cameraId e = cid)
                      then with_device (sensor_info hum light tilt tmp) e else e) <$> cameras_ m) m,
   if existsb (λ e, bool_decide (cameraId e = cid)) (cameras_ m)
   then [SensorDataUpdated cid] else []).

(** The JSON object, as its fields; [None] is the empty object. *)
Definition sensorInfoForCameraId (cid : QString) (m : CameraModel) : option DeviceInfo :=
  deviceInfo <$> list_find (λ e, cameraId e = cid) (cameras_ m) ≫= λ p, Some p.2.

(** ** Lemmas: layout

    The part of an entry the grid's structure depends on, without its slot. *)
Record Body : Type := {
  b_cameraId : string; b_count : Z; b_dir : SplitDirection; b_rect : QRectF;
  b_group : Z; b_index : Z
}.

Definition body (e : CameraEntry) : Body := {|
  b_cameraId := cameraId e; b_count := splitCount e; b_dir := splitDirection e;
  b_rect := cropRect e; b_group := splitGroupId e; b_index := splitIndex e
|}.

Definition unsplit_body (b : Body) : Prop :=
  b_count b = 1%Z ∧ b_group b = (-1)%Z ∧ b_index b = 0%Z ∧ b_rect b = full_rect.

Definition split_body (next : Z) (b : Body) : Prop :=
  valid_split (b_count b) (b_dir b) = true ∧ (1 ≤ b_group b < next)%Z ∧
  b_rect b = computeCropRect (b_index b) (b_count b) (b_dir b).

(** The tiles of one group: the indices [0 .. n-1] once each, of one camera. *)
Definition group_ok (l : list Body) : Prop :=
  ∃ n d c, (b_index <$> l) ≡ₚ seqZ 0 n ∧
           Forall (λ b, b_count b = n ∧ b_dir b = d ∧ b_cameraId b = c) l.

Definition in_group (g : Z) (b : Body) : Prop := b_group b = g.

#[export] Instance in_group_dec g b : Decision (in_group g b).
Proof. unfold in_group. apply _. Defined.

Definition bodies_ok (next : Z) (l : list Body) : Prop :=
  (1 ≤ next)%Z ∧ Forall (λ b, unsplit_body b ∨ split_body next b) l ∧
  ∀ g, (1 ≤ g)%Z → filter (in_group g) l = [] ∨ group_ok (filter (in_group g) l).

Definition slots_ok (next : Z) (l : list Z) : Prop :=
  (0 ≤ next)%Z ∧ NoDup l ∧ Forall (λ s, (0 ≤ s < next)%Z) l.

(** The invariant of the model. *)
Definition model_inv (m : CameraModel) : Prop :=
  slots_ok (nextSlotId_ m) (slotId <$> cameras_ m) ∧
  bodies_ok (nextSplitGroupId_ m) (body <$> cameras_ m).

#[export] Instance group_ok_perm : Proper ((≡ₚ) ==> iff) group_ok.
Proof.
  assert (∀ l l', l ≡ₚ l' → group_ok l → group_ok l') as H.
  { intros l l' Hp (n & d & c & Hi & Hf). exists n, d, c. by rewrite <-Hp. }
  intros l l' Hp. split; apply H; by rewrite ?Hp.
Qed.

Lemma bodies_ok_perm next l l' : l ≡ₚ l' → bodies_ok next l → bodies_ok next l'.
Proof.
  intros Hp (Hn & Hf & Hg). split_and!; [done|by rewrite <-Hp|].
  intros g H1. assert (filter (in_group g) l ≡ₚ filter (in_group g) l') as Hpg by by rewrite Hp.
  destruct (Hg g H1) as [H|H].
  - left. rewrite H in Hpg. by apply Permutation_nil_l in Hpg.
  - right. by rewrite <-Hpg.
Qed.

Lemma unsplit_group_nil g l :
  (1 ≤ g)%Z → Forall unsplit_body l → filter (in_group g) l = [].
Proof.
  intros Hg Hl. induction Hl as [|b l (_ & Hb & _) _ IH]; [done|].
  rewrite filter_cons_False; [done|]. unfold in_group. lia.
Qed.

Lemma bodies_ok_add next l u :
  Forall unsplit_body u → bodies_ok next l → bodies_ok next (l ++ u).
Proof.
  intros Hu (Hn & Hf & Hg). split_and!; [done| |].
  - apply Forall_app. split; [done|]. eapply Forall_impl; [exact Hu|]. by left.
  - intros g H1. rewrite filter_app, (unsplit_group_nil g u), app_nil_r by done. by apply Hg.
Qed.

Lemma bodies_ok_sub next l u : bodies_ok next (l ++ u) → Forall unsplit_body u → bodies_ok next l.
Proof.
  intros (Hn & Hf & Hg) Hu. apply Forall_app in Hf as [Hf _]. split_and!; [done..|].
  intros g H1. specialize (Hg g H1). rewrite filter_app, (unsplit_group_nil g u), app_nil_r in Hg by done.
  done.
Qed.

Lemma group_below next g l :
  (next ≤ g)%Z → (1 ≤ g)%Z → Forall (λ b, unsplit_body b ∨ split_body next b) l →
  filter (in_group g) l = [].
Proof.
  intros Hle Hg Hl. induction Hl as [|b l Hb _ IH]; [done|].
  rewrite filter_cons_False; [done|]. unfold in_group.
  destruct Hb as [(_ & -> & _)|(_ & ? & _)]; lia.
Qed.

(** A new group of tiles next to the others. *)
Lemma bodies_ok_tiles next l ts n d c :
  bodies_ok next l → valid_split n d = true →
  (b_index <$> ts) = seqZ 0 n →
  Forall (λ b, b_count b = n ∧ b_dir b = d ∧ b_cameraId b = c ∧ b_group b = next ∧
               b_rect b = computeCropRect (b_index b) n d) ts →
  bodies_ok (next + 1) (l ++ ts).
Proof.
  intros (Hn & Hf & Hg) Hv Hi Hts. split_and!; [lia| |].
  - apply Forall_app. split.
    + eapply Forall_impl; [exact Hf|]. intros b [Hb|(H1 & H2 & H3)]; [by left|right].
      split_and!; [done|lia|lia|done].
    + eapply Forall_impl; [exact Hts|]. intros b (<- & <- & _ & Hgr & Hr). right.
      unfold split_body. split_and!; [done|lia|lia|done].
  - intros g H1. rewrite filter_app. destruct (decide (g = next)) as [->|Hne].
    + rewrite (group_below next) by (done || lia). cbn. right.
      assert (filter (in_group next) ts = ts) as ->.
      { clear -Hts. induction Hts as [|b ts (_ & _ & _ & Hb & _) _ IH]; [done|].
        by rewrite filter_cons_True, IH. }
      exists n, d, c. rewrite Hi. split; [done|]. eapply Forall_impl; [exact Hts|]. by intros b (? & ? & ? & _).
    + assert (filter (in_group g) ts = []) as ->.
      { clear -Hts Hne. induction Hts as [|b ts (_ & _ & _ & Hb & _) _ IH]; [done|].
        rewrite filter_cons_False; [done|]. unfold in_group. congruence. }
      rewrite app_nil_r. by apply Hg.
Qed.

(** A whole group taken away. *)
Lemma bodies_ok_drop next g l :
  bodies_ok next l → bodies_ok next (filter (λ b, ¬ in_group g b) l).
Proof.
  intros (Hn & Hf & Hg). split_and!; [done| |].
  - rewrite Forall_forall in *. intros b [_ Hb]%list_elem_of_filter. by apply Hf.
  - intros g' H1. destruct (decide (g' = g)) as [->|Hne].
    + left. clear. induction l as [|b l IH]; [done|].
      destruct (decide (in_group g b)) as [Hb|Hb].
      * rewrite filter_cons_False by tauto. done.
      * rewrite filter_cons_True, filter_cons_False by done. done.
    + assert (filter (in_group g') (filter (λ b, ¬ in_group g b) l) = filter (in_group g') l) as ->.
      { clear -Hne. induction l as [|b l IH]; [done|].
        destruct (decide (in_group g b)) as [Hb|Hb].
        - rewrite filter_cons_False by tauto. rewrite IH. rewrite filter_cons_False; [done|].
          unfold in_group in *. congruence.
        - rewrite (filter_cons_True (λ b, ¬ _)) by done. rewrite !filter_cons. by rewrite IH. }
      by apply Hg.
Qed.

Lemma slots_ok_app next l k :
  slots_ok next l → slots_ok (next + Z.of_nat k) (l ++ seqZ next (Z.of_nat k)).
Proof.
  intros (Hn & Hd & Hr). split_and!; [lia| |].
  - apply NoDup_app. split_and!; [done| |apply NoDup_seqZ].
    intros x Hx Hs%elem_of_seqZ. rewrite Forall_forall in Hr. specialize (Hr x Hx). lia.
  - apply Forall_app. split.
    + eapply Forall_impl; [exact Hr|]. cbn. lia.
    + apply Forall_forall. intros x Hx%elem_of_seqZ. lia.
Qed.

Lemma slots_ok_sub next l l' : l' ⊆+ l → slots_ok next l → slots_ok next l'.
Proof.
  intros Hs (Hn & Hd & Hr). split_and!; [done|by eapply NoDup_submseteq_l|].
  apply submseteq_Permutation in Hs as [k Hk]. rewrite Hk in Hr. by apply Forall_app in Hr as [? _].
Qed.

(** ** Lemmas: the operations on the layout *)

Lemma row_of_lookup index m r :
  row_of index m = Some r →
  r < length (cameras_ m) ∧ index = Z.of_nat r ∧ is_Some (cameras_ m !! r).
Proof.
  unfold row_of. case_decide as H; [|done]. intros [= <-].
  split_and!; [lia|lia|]. apply lookup_lt_is_Some. lia.
Qed.

(** Entries changed outside the layout. *)
Lemma model_inv_same m m' :
  nextSlotId_ m' = nextSlotId_ m → nextSplitGroupId_ m' = nextSplitGroupId_ m →
  slotId <$> cameras_ m' = slotId <$> cameras_ m →
  body <$> cameras_ m' = body <$> cameras_ m → model_inv m → model_inv m'.
Proof. unfold model_inv. by intros -> -> -> ->. Qed.

Lemma alter_layout f i (l : list CameraEntry) :
  (∀ e, slotId (f e) = slotId e ∧ body (f e) = body e) →
  slotId <$> alter f i l = slotId <$> l ∧ body <$> alter f i l = body <$> l.
Proof.
  intros Hf. split; apply list_eq; intros j; rewrite !list_lookup_fmap;
    (destruct (decide (i = j)) as [->|Hne];
     [rewrite list_lookup_alter_eq; destruct (l !! j) as [e|]; [|done]; cbn; f_equal; apply Hf
     |by rewrite list_lookup_alter_ne]).
Qed.

Lemma with_online_layout b e : slotId (with_online b e) = slotId e ∧ body (with_online b e) = body e.
Proof. done. Qed.

Lemma alter_inv f i m :
  (∀ e, slotId (f e) = slotId e ∧ body (f e) = body e) →
  model_inv m → model_inv (set_cameras (alter f i (cameras_ m)) m).
Proof.
  intros Hf. destruct (alter_layout f i (cameras_ m) Hf). by apply model_inv_same.
Qed.

(** A swap permutes the bodies and leaves the slots in place. *)
Lemma swap_layout (l : list CameraEntry) a b ea eb :
  l !! a = Some ea → l !! b = Some eb → a ≠ b →
  let l' := <[a := swapped_from eb ea]> (<[b := swapped_from ea eb]> l) in
  slotId <$> l' = slotId <$> l ∧ (body <$> l') ≡ₚ (body <$> l).
Proof.
  intros Ha Hb Hne. cbn zeta. split.
  - apply list_eq. intros j. rewrite !list_lookup_fmap, !list_lookup_insert.
    repeat case_decide; destruct_and?; subst; rewrite ?Ha, ?Hb; try done.
  - rewrite !list_fmap_insert. cbn [swapped_from].
    change (body (swapped_from eb ea)) with (body eb).
    change (body (swapped_from ea eb)) with (body ea).
    assert ((body <$> l) !! a = Some (body ea)) as Ha' by (by rewrite list_lookup_fmap, Ha).
    assert ((body <$> l) !! b = Some (body eb)) as Hb' by (by rewrite list_lookup_fmap, Hb).
    apply (Permutation_cons_inv (a := body ea)).
    rewrite (insert_swap_Permutation _ a (body ea) (body eb)) by
      (by rewrite list_lookup_insert_ne).
    by apply insert_swap_Permutation.
Qed.

(** *** Splitting *)
Lemma split_inv rowIndex n d auto m :
  model_inv m → model_inv (splitSlotAtIndex rowIndex n d auto m).1.2.
Proof.
  intros [Hs Hb]. unfold splitSlotAtIndex.
  destruct (row_of rowIndex m) as [r|] eqn:Hrow; [|done].
  destruct (cameras_ m !! r) as [o|] eqn:Ho; [|done].
  destruct (valid_split n d && _ && _) eqn:Hg; [|done].
  apply andb_true_iff in Hg as [Hg _]. apply andb_true_iff in Hg as [Hv Hc].
  apply bool_decide_eq_true in Hc. cbn [fst snd]. split; cbn [nextSlotId_ nextSplitGroupId_ cameras_].
  - assert (0 ≤ n)%Z as Hn by (destruct d; cbn in Hv; [done|..];
      apply bool_decide_eq_true in Hv; lia).
    rewrite !fmap_app. unfold tiles. rewrite <-list_fmap_compose.
    replace (slotId ∘ _) with (λ i, (nextSlotId_ m + i)%Z) by done.
    replace ((λ i, nextSlotId_ m + i)%Z <$> seqZ 0 n) with (seqZ (nextSlotId_ m) (Z.of_nat (Z.to_nat n))).
    2: { rewrite Z2Nat.id by done. rewrite fmap_add_seqZ. f_equal. lia. }
    rewrite <-(Z2Nat.id n) at 1 by done.
    destruct (split_at _ _ _ Ho) as [Hl _].
    apply (slots_ok_sub _ ((slotId <$> cameras_ m) ++ seqZ (nextSlotId_ m) (Z.of_nat (Z.to_nat n)))).
    + rewrite Hl at 3. rewrite fmap_app, fmap_cons, <-app_assoc.
      apply submseteq_app; [done|]. cbn [app]. apply submseteq_cons.
      by rewrite Permutation_app_comm.
    + by apply slots_ok_app.
  - destruct (split_at _ _ _ Ho) as [Hl _].
    assert (unsplit_body (body o)) as Hun.
    { destruct Hb as (_ & Hb & _). rewrite Forall_forall in Hb.
      destruct (Hb (body o)) as [?|(Hv' & _)]; [|done|].
      - apply list_elem_of_fmap_2, list_elem_of_lookup. eauto.
      - exfalso. cbn in Hv'. rewrite Hc in Hv'.
        destruct (splitDirection o); cbn in Hv'; [done|..]; apply bool_decide_eq_true in Hv'; lia. }
    apply (bodies_ok_perm _ ((body <$> take r (cameras_ m) ++ drop (S r) (cameras_ m))
                             ++ (body <$> tiles o (nextSlotId_ m) (nextSplitGroupId_ m) n d))).
    { rewrite !fmap_app. solve_Permutation. }
    apply bodies_ok_tiles with (n := n) (d := d) (c := cameraId o); [|done|..].
    + apply (bodies_ok_sub _ _ [body o]); [|by constructor].
      eapply bodies_ok_perm; [|exact Hb]. rewrite Hl at 1. rewrite !fmap_app, fmap_cons.
      solve_Permutation.
    + unfold tiles. rewrite <-!list_fmap_compose. apply list_fmap_id.
    + rewrite Forall_fmap. unfold tiles. rewrite Forall_fmap. apply Forall_forall. done.
Qed.

(** *** Merging *)
Definition del_rows (rows : list nat) (l : list CameraEntry) : list CameraEntry :=
  foldr (λ i l, delete i l) l rows.

Lemma remove_rows_cameras rows m :
  cameras_ (remove_rows rows m).1 = del_rows rows (cameras_ m) ∧
  nextSlotId_ (remove_rows rows m).1 = nextSlotId_ m ∧
  nextSplitGroupId_ (remove_rows rows m).1 = nextSplitGroupId_ m.
Proof.
  unfold remove_rows, del_rows. induction rows as [|i rows (IH1 & IH2 & IH3)]; [done|].
  cbn [foldr]. destruct (foldr _ (m, []) rows) as [m' sig]. cbn in *.
  by rewrite IH1, IH2, IH3.
Qed.

Definition gid_is (g : Z) (e : CameraEntry) : Prop := splitGroupId e = g.

#[export] Instance gid_is_dec g e : Decision (gid_is g e).
Proof. unfold gid_is. apply _. Defined.

Lemma group_indices_shift k g l :
  group_indices_from (S k) g l = S <$> group_indices_from k g l.
Proof.
  revert k. induction l as [|e l IH]; intros k; [done|]. cbn.
  case_decide; cbn; by rewrite IH.
Qed.

Lemma group_indices_cons g e l :
  group_indices g (e :: l)
  = (if decide (gid_is g e) then [0] else []) ++ (S <$> group_indices g l).
Proof.
  unfold group_indices. cbn [group_indices_from]. rewrite group_indices_shift.
  unfold gid_is. by destruct (decide (splitGroupId e = g)).
Qed.

Lemma del_rows_shift rows e l : del_rows (S <$> rows) (e :: l) = e :: del_rows rows l.
Proof. unfold del_rows. induction rows as [|i rows IH]; [done|]. cbn. by rewrite IH. Qed.

Lemma del_group g l : del_rows (group_indices g l) l = filter (λ e, ¬ gid_is g e) l.
Proof.
  induction l as [|e l IH]; [done|]. rewrite group_indices_cons. case_decide as Hg; cbn [app].
  - rewrite filter_cons_False by tauto. unfold del_rows. cbn [foldr].
    change (foldr _ (e :: l) (S <$> group_indices g l))
      with (del_rows (S <$> group_indices g l) (e :: l)).
    rewrite del_rows_shift. cbn. by rewrite IH.
  - rewrite filter_cons_True by done. by rewrite del_rows_shift, IH.
Qed.

(** The rows after a merge: the first of the group merged, the others gone. *)
Fixpoint merge_list (g : Z) (l : list CameraEntry) : list CameraEntry :=
  match l with
  | [] => []
  | e :: l' =>
      if decide (gid_is g e) then merged_entry e :: filter (λ e, ¬ gid_is g e) l'
      else e :: merge_list g l'
  end.

Lemma merge_list_spec g l first others :
  group_indices g l = first :: others →
  alter merged_entry first (del_rows others l) = merge_list g l.
Proof.
  revert first others. induction l as [|e l IH]; intros first others H; [done|].
  rewrite group_indices_cons in H. cbn [merge_list]. case_decide as Hg; cbn [app] in H.
  - injection H as <- <-. rewrite del_rows_shift. cbn. by rewrite del_group.
  - destruct (group_indices g l) as [|f' o'] eqn:Hl; [done|]. injection H as <- <-.
    rewrite del_rows_shift. cbn. f_equal. by apply IH.
Qed.

Lemma merge_list_body g (l : list CameraEntry) :
  Exists (gid_is g) l →
  ∃ b, unsplit_body b ∧
       (body <$> merge_list g l) ≡ₚ b :: filter (λ b, ¬ in_group g b) (body <$> l).
Proof.
  assert (∀ l : list CameraEntry, body <$> filter (λ e, ¬ gid_is g e) l
               = filter (λ b, ¬ in_group g b) (body <$> l)) as Hfil.
  { intros k. induction k as [|e k IH]; [done|]. rewrite fmap_cons.
    destruct (decide (gid_is g e)) as [He|He].
    - by rewrite !filter_cons_False by (intros Hn; by apply Hn).
    - by rewrite !filter_cons_True, fmap_cons, IH by done. }
  intros H. induction H as [e l He|e l _ (b & Hb & IH)]; cbn [merge_list].
  - rewrite decide_True by done. exists (body (merged_entry e)). split; [done|].
    rewrite !fmap_cons, (filter_cons_False _ (body e)); [by rewrite Hfil|].
    intros Hn. by apply Hn.
  - case_decide as Hg.
    + exists (body (merged_entry e)). split; [done|].
      rewrite !fmap_cons, (filter_cons_False _ (body e)); [by rewrite Hfil|].
      intros Hn. by apply Hn.
    + exists b. split; [done|]. rewrite !fmap_cons, filter_cons_True by done.
      rewrite IH. solve_Permutation.
Qed.

Lemma merge_list_slots g (l : list CameraEntry) : slotId <$> merge_list g l ⊆+ slotId <$> l.
Proof.
  assert (∀ l : list CameraEntry, slotId <$> filter (λ e, ¬ gid_is g e) l ⊆+ slotId <$> l) as Hfil.
  { intros k. apply sublist_submseteq, fmap_sublist, sublist_filter. }
  induction l as [|e l IH]; [done|]. cbn [merge_list]. case_decide; rewrite !fmap_cons.
  - apply submseteq_skip, Hfil.
  - by apply submseteq_skip.
Qed.

Lemma merge_result index m :
  model_inv m →
  (mergeGroupByIndex index m).1.2 = m ∨
  ∃ g, ((0 ≤ g)%Z ∧ Exists (gid_is g) (cameras_ m)) ∧
    cameras_ (mergeGroupByIndex index m).1.2 = merge_list g (cameras_ m) ∧
    nextSlotId_ (mergeGroupByIndex index m).1.2 = nextSlotId_ m ∧
    nextSplitGroupId_ (mergeGroupByIndex index m).1.2 = nextSplitGroupId_ m.
Proof.
  intros _. unfold mergeGroupByIndex. destruct (row_of index m) as [r|]; [|by left].
  destruct (cameras_ m !! r) as [t|] eqn:Ht; [|by left].
  destruct (_ || _) eqn:Hor; [by left|]. apply orb_false_iff in Hor as [_ Hge%bool_decide_eq_false].
  destruct (group_indices (splitGroupId t) (cameras_ m)) as [|f [|f2 rest]] eqn:Hgi;
    [by left|by left|right].
  destruct (remove_rows_cameras (f2 :: rest) m) as (Hc & Hn1 & Hn2).
  destruct (remove_rows (f2 :: rest) m) as [m1 sig]. cbn [fst snd] in *.
  exists (splitGroupId t). split_and!; try done; [lia| |].
  - apply Exists_exists. exists t. split; [apply list_elem_of_lookup; eauto|done].
  - cbn. rewrite Hc. by apply merge_list_spec.
Qed.

Lemma merge_inv index m : model_inv m → model_inv (mergeGroupByIndex index m).1.2.
Proof.
  intros Hm. destruct (merge_result index m Hm) as [->|(g & [_ Hex] & Hc & Hn & Hg)]; [done|].
  destruct Hm as [Hs Hb]. unfold model_inv. rewrite Hc, Hn, Hg. split.
  - eapply slots_ok_sub; [apply merge_list_slots|done].
  - destruct (merge_list_body g _ Hex) as (b & Hub & Hp).
    eapply bodies_ok_perm; [symmetry; exact Hp|].
    eapply bodies_ok_perm; [apply (Permutation_app_comm _ [b])|].
    apply bodies_ok_add; [by constructor|]. by apply bodies_ok_drop.
Qed.

(** *** Store updates *)
Section store.
Context `{T : QtText, H : QtHash}.

Lemma auto_split_none s m : applyAutoSplitForSlot s m = (false, m, []).
Proof.
  unfold applyAutoSplitForSlot, autoSplitForIndex.
  destruct (row_of _ m) as [r|] eqn:Hr; [|done].
  destruct (cameras_ m !! r) as [e|] eqn:He; [|done]. destruct (_ || _); [done|].
  unfold splitSlotAtIndex. by rewrite Hr, He.
Qed.

Lemma update_entry_layout byCid row e :
  slotId (update_entry byCid row e).1 = slotId e ∧ body (update_entry byCid row e).1 = body e.
Proof.
  unfold update_entry. destruct (byCid !! cameraId e) as [snap|]; [|by case_match].
  destruct (bool_decide (isOnline e ≠ _)); repeat case_decide; done.
Qed.

Lemma update_entries_fst byCid l :
  (update_entries byCid l).1 = imap (λ i e, (update_entry byCid (Z.of_nat i) e).1) l.
Proof. unfold update_entries. cbn. by rewrite fmap_imap. Qed.

Lemma update_entries_layout byCid l :
  slotId <$> (update_entries byCid l).1 = slotId <$> l ∧
  body <$> (update_entries byCid l).1 = body <$> l.
Proof.
  rewrite update_entries_fst. split; apply list_eq; intros i;
    rewrite !list_lookup_fmap, list_lookup_imap; destruct (l !! i); cbn; [|done| |done];
    f_equal; apply update_entry_layout.
Qed.

Lemma new_entries_slots byCid known slot :
  slotId <$> new_entries byCid known slot
  = seqZ slot (Z.of_nat (length (new_entries byCid known slot))).
Proof.
  unfold new_entries. rewrite length_imap. rewrite fmap_imap.
  generalize (filter (λ p, p.1 ∉ known) (qhash_items byCid)). intros l.
  apply list_eq. intros i. rewrite list_lookup_imap. destruct (l !! i) as [p|] eqn:Hi; cbn.
  - apply lookup_lt_Some in Hi. symmetry. apply lookup_seqZ. lia.
  - apply lookup_ge_None in Hi. symmetry. apply lookup_ge_None. rewrite length_seqZ. lia.
Qed.

Lemma new_entries_unsplit byCid known slot :
  Forall unsplit_body (body <$> new_entries byCid known slot).
Proof.
  rewrite Forall_fmap. apply Forall_lookup. intros i e He. unfold new_entries in He.
  rewrite list_lookup_imap in He. destruct (_ !! i); [|done]. injection He as <-. done.
Qed.

(** The model after a store update, with the table of automatic splits as it is
    compiled in. *)
Definition after_store (snapshot : list CameraData) (m : CameraModel) : CameraModel :=
  let byCid := snapshot_by_cid snapshot in
  let fresh := new_entries byCid (represented byCid (cameras_ m)) (nextSlotId_ m) in
  {| nextSlotId_ := nextSlotId_ m + Z.of_nat (length fresh);
     nextSplitGroupId_ := nextSplitGroupId_ m;
     cameras_ := (update_entries byCid (cameras_ m)).1 ++ fresh;
     autoSplitAppliedSlotIds_ := autoSplitAppliedSlotIds_ m |}%Z.

Lemma onStoreUpdated_eq snapshot m :
  onStoreUpdated snapshot m
  = (after_store snapshot m,
     (update_entries (snapshot_by_cid snapshot) (cameras_ m)).2 ++
     (let byCid := snapshot_by_cid snapshot in
      let fresh := new_entries byCid (represented byCid (cameras_ m)) (nextSlotId_ m) in
      let n := Z.of_nat (length (cameras_ m)) in
      if decide (fresh = []) then [] else [RowsInserted n (n + Z.of_nat (length fresh) - 1)%Z]) ++
     emitSlotsUpdated (after_store snapshot m)).
Proof.
  unfold onStoreUpdated, after_store. cbn zeta.
  destruct (update_entries _ _) as [updated sig1]. cbn [fst snd].
  match goal with |- foldl _ ?p ?l = _ => generalize p; generalize l end.
  intros l. induction l as [|s l IH]; intros [m' sig]; [done|]. cbn [foldl].
  rewrite auto_split_none, app_nil_r. apply IH.
Qed.

Lemma store_inv snapshot m : model_inv m → model_inv (onStoreUpdated snapshot m).1.
Proof.
  intros [Hs Hb]. rewrite onStoreUpdated_eq. cbn [fst].
  destruct (update_entries_layout (snapshot_by_cid snapshot) (cameras_ m)) as [H1 H2].
  split; cbn [after_store cameras_ nextSlotId_ nextSplitGroupId_]; rewrite fmap_app.
  - rewrite H1, new_entries_slots. by apply slots_ok_app.
  - rewrite H2. apply bodies_ok_add; [apply new_entries_unsplit|done].
Qed.

(** ** Operations as data *)
Inductive model_op : Type :=
| OpSetData (index : Z) (v : RoleValue)
| OpSwap (indexA indexB : Z)
| OpSetOnline (index : Z) (online : bool)
| OpSplit (rowIndex tileCount direction : Z)
| OpMerge (row tileCount : Z)
| OpAutoSplit (slot : Z)
| OpClear
| OpStore (snapshot : list CameraData)
| OpSensor (cid : string) (hum light tilt tmp : double).

Definition run_op (op : model_op) (m : CameraModel) : CameraModel * list model_signal :=
  match op with
  | OpSetData i v => let '(_, m', s) := setData i v m in (m', s)
  | OpSwap a b => swapSlots a b m
  | OpSetOnline i b => setOnline i b m
  | OpSplit r n d => splitSlot r n d m
  | OpMerge r n => mergeSlots r n m
  | OpAutoSplit s => let '(_, m', sg) := applyAutoSplitForSlot s m in (m', sg)
  | OpClear => clearAll m
  | OpStore snap => onStoreUpdated snap m
  | OpSensor c h l t p => updateSensorInfo c h l t p m
  end.

Definition run_ops (ops : list model_op) (m : CameraModel) : CameraModel :=
  foldl (λ m op, (run_op op m).1) m ops.

Lemma model0_inv : model_inv CameraModel0.
Proof.
  split; [split_and!; [done|constructor|constructor]|].
  split_and!; [done|constructor|]. by left.
Qed.

Lemma run_op_inv op m : model_inv m → model_inv (run_op op m).1.
Proof.
  intros Hm. destruct op as [i v|a b|i b|r n d|r n|s| |snap|c h l t p]; cbn [run_op].
  - unfold setData. destruct (row_of i m); [|done]. destruct v; cbn; try done; by apply alter_inv.
  - unfold swapSlots. destruct (row_of a m) as [ra|] eqn:Ha; [|done].
    destruct (row_of b m) as [rb|] eqn:Hb; [|done]. case_decide as Hne; [done|].
    destruct (row_of_lookup _ _ _ Ha) as (_ & -> & [ea Hea]).
    destruct (row_of_lookup _ _ _ Hb) as (_ & -> & [eb Heb]). rewrite Hea, Heb. cbn [fst].
    destruct (swap_layout (cameras_ m) ra rb ea eb Hea Heb) as [H1 H2]; [congruence|].
    destruct Hm as [Hs Hbd]. split; cbn [set_cameras cameras_ nextSlotId_ nextSplitGroupId_].
    + by rewrite H1.
    + eapply bodies_ok_perm; [symmetry; exact H2|done].
  - unfold setOnline. destruct (row_of i m); [|done]. by apply alter_inv.
  - unfold splitSlot. pose proof (split_inv r n (direction_of d) false m Hm) as Hi.
    by destruct (splitSlotAtIndex _ _ _ _ m) as [[? ?] ?].
  - unfold mergeSlots. pose proof (merge_inv r m Hm) as Hi.
    by destruct (mergeGroupByIndex r m) as [[? ?] ?].
  - by rewrite auto_split_none.
  - apply model0_inv.
  - by apply store_inv.
  - eapply model_inv_same; [..|exact Hm]; cbn; [done|done| |]; rewrite <-list_fmap_compose;
      apply list_fmap_ext; intros j e _; cbn; by case_decide.
Qed.

Lemma run_ops_inv ops m : model_inv m → model_inv (run_ops ops m).
Proof.
  revert m. induction ops as [|op ops IH]; intros m Hm; [done|]. by apply IH, run_op_inv.
Qed.
End store.

(** ** Lemmas: the signals a view replays

    A view that keeps the number of rows by the signals alone; [None] when a
    signal names rows the view does not have. *)
Fixpoint replay (n : Z) (sigs : list model_signal) : option Z :=
  match sigs with
  | [] => Some n
  | s :: rest =>
      match s with
      | DataChanged row _ => if bool_decide (0 ≤ row < n)%Z then replay n rest else None
      | RowsRemoved a b =>
          if bool_decide (0 ≤ a ≤ b ∧ b < n)%Z then replay (n - (b - a + 1)) rest else None
      | RowsInserted a b =>
          if bool_decide (0 ≤ a ≤ n ∧ a ≤ b)%Z then replay (n + (b - a + 1)) rest else None
      | ModelReset => replay 0 rest
      | _ => replay n rest
      end
  end.

Definition rows (m : CameraModel) : Z := Z.of_nat (length (cameras_ m)).

Lemma replay_app n a b : replay n (a ++ b) = replay n a ≫= λ n', replay n' b.
Proof.
  revert n. induction a as [|s a IH]; intros n; [done|].
  destruct s; cbn; try case_bool_decide; done.
Qed.

Lemma replay_emit n m : replay n (emitSlotsUpdated m) = Some n.
Proof. done. Qed.

Lemma replay_changed n row roles : (0 ≤ row < n)%Z → replay n [DataChanged row roles] = Some n.
Proof. intros Hr. cbn. by rewrite bool_decide_true. Qed.

(** The removals of a merge: increasing rows, removed from the last. *)
Fixpoint fits (n : nat) (ix : list nat) : Prop :=
  match ix with [] => True | i :: rest => i + length rest < n ∧ fits n rest end.

Lemma fits_mono n n' ix : n ≤ n' → fits n ix → fits n' ix.
Proof. intros Hle. induction ix as [|i ix IH]; [done|]. intros [? ?]. split; [lia|auto]. Qed.

Lemma group_indices_fits k g l :
  fits (k + length l) (group_indices_from k g l) ∧
  length (group_indices_from k g l) ≤ length l.
Proof.
  revert k. induction l as [|e l IH]; intros k; [done|]. destruct (IH (S k)) as [H1 H2].
  cbn. replace (k + S (length l)) with (S k + length l) by lia.
  case_decide; cbn; [|split; [done|lia]]. split_and!; [lia|done|lia].
Qed.

Lemma del_rows_length ix l : fits (length l) ix → length (del_rows ix l) + length ix = length l.
Proof.
  unfold del_rows. induction ix as [|i ix IH]; intros Hf; [cbn; lia|]. destruct Hf as [Hi Hf].
  cbn. specialize (IH Hf). rewrite length_delete by (apply lookup_lt_is_Some; lia). lia.
Qed.

Lemma remove_rows_replay ix m :
  fits (length (cameras_ m)) ix →
  replay (rows m) (remove_rows ix m).2 = Some (rows (remove_rows ix m).1).
Proof.
  intros Hf. unfold rows. rewrite (proj1 (remove_rows_cameras ix m)).
  revert Hf. induction ix as [|i ix IH]; intros Hf; [done|]. destruct Hf as [Hi Hf].
  pose proof (del_rows_length ix _ Hf) as Hl. specialize (IH Hf).
  unfold remove_rows in *. cbn [foldr].
  destruct (foldr _ (m, []) ix) as [m1 sig] eqn:Hm1. cbn [snd] in IH |- *.
  rewrite replay_app, IH. cbn. rewrite bool_decide_true by lia.
  change (foldr _ (cameras_ m) ix) with (del_rows ix (cameras_ m)).
  rewrite length_delete by (apply lookup_lt_is_Some; lia). f_equal. lia.
Qed.

Lemma split_replay r n d auto m :
  replay (rows m) (splitSlotAtIndex r n d auto m).2 = Some (rows (splitSlotAtIndex r n d auto m).1.2).
Proof.
  unfold splitSlotAtIndex. destruct (row_of r m) as [i|] eqn:Hr; [|done].
  destruct (cameras_ m !! i) as [o|] eqn:Ho; [|done].
  destruct (valid_split n d && _ && _) eqn:Hg; [|done].
  apply andb_true_iff in Hg as [Hg _]. apply andb_true_iff in Hg as [Hv _].
  assert (2 ≤ n)%Z by (destruct d; cbn in Hv; [done|..]; apply bool_decide_eq_true in Hv; lia).
  destruct (row_of_lookup _ _ _ Hr) as (Hlt & -> & _).
  cbn [snd fst]. rewrite replay_app. unfold rows. cbn [replay].
  rewrite !bool_decide_true by lia. cbn [mbind option_bind]. rewrite replay_emit. f_equal.
  cbn [cameras_]. rewrite !length_app, length_take, length_drop. unfold tiles.
  rewrite length_fmap, length_seqZ. lia.
Qed.

Lemma merge_replay r m :
  replay (rows m) (mergeGroupByIndex r m).2 = Some (rows (mergeGroupByIndex r m).1.2).
Proof.
  unfold mergeGroupByIndex. destruct (row_of r m) as [i|]; [|done].
  destruct (cameras_ m !! i) as [t|]; [|done]. destruct (_ || _); [done|].
  destruct (group_indices_fits 0 (splitGroupId t) (cameras_ m)) as [Hf _].
  fold (group_indices (splitGroupId t) (cameras_ m)) in Hf. cbn [Nat.add] in Hf.
  destruct (group_indices (splitGroupId t) (cameras_ m)) as [|f [|f2 rest]]; [done|done|].
  destruct Hf as [Hlt Hf]. pose proof (remove_rows_replay _ m Hf) as Hrep.
  pose proof (del_rows_length _ _ Hf) as Hlen.
  rewrite <-(proj1 (remove_rows_cameras _ m)) in Hlen.
  destruct (remove_rows (f2 :: rest) m) as [m1 sig]. cbn [fst snd] in *.
  rewrite !replay_app, Hrep. unfold rows in *. cbn [mbind option_bind].
  rewrite replay_app, replay_changed by lia. cbn [mbind option_bind]. rewrite replay_emit.
  cbn [set_cameras cameras_]. by rewrite length_alter.
Qed.

Section store_replay.
Context `{T : QtText, H : QtHash}.

Lemma update_entry_replay byCid row e n :
  (0 ≤ row < n)%Z → replay n (update_entry byCid row e).2 = Some n.
Proof.
  intros Hr. unfold update_entry. destruct (byCid !! cameraId e) as [s|].
  - destruct (bool_decide _); [destruct (negb _ && _)|]; repeat case_decide; cbn;
      rewrite ?bool_decide_true by done; done.
  - destruct (isOnline e); [by apply replay_changed|done].
Qed.

Lemma update_entries_replay byCid l n :
  (Z.of_nat (length l) ≤ n)%Z → replay n (update_entries byCid l).2 = Some n.
Proof.
  intros Hn. unfold update_entries. cbn [snd]. rewrite fmap_imap.
  assert (∀ k, (Z.of_nat (k + length l) ≤ n)%Z →
    replay n (concat (imap (λ i e, (update_entry byCid (Z.of_nat (k + i)) e).2) l)) = Some n) as Hk.
  2: { exact (Hk 0 Hn). }
  clear Hn. induction l as [|e l IH]; intros k Hk; [done|]. cbn in Hk. cbn [imap concat].
  rewrite replay_app, update_entry_replay by lia. cbn [mbind option_bind].
  rewrite <-(IH (S k)) by lia. do 2 f_equal. apply imap_ext. intros i x _. cbn. do 3 f_equal. lia.
Qed.

Lemma store_replay snapshot m :
  replay (rows m) (onStoreUpdated snapshot m).2 = Some (rows (onStoreUpdated snapshot m).1).
Proof.
  rewrite onStoreUpdated_eq. cbn [fst snd]. rewrite replay_app.
  rewrite update_entries_replay by done. cbn [mbind option_bind].
  set (fresh := new_entries _ _ _).
  assert (rows (after_store snapshot m) = rows m + Z.of_nat (length fresh))%Z as ->.
  { unfold rows, after_store. cbn [cameras_]. rewrite length_app, Nat2Z.inj_add. f_equal.
    f_equal. rewrite update_entries_fst. apply length_imap. }
  rewrite replay_app. unfold rows. case_decide as Hf.
  - rewrite Hf. cbn. f_equal. lia.
  - assert (0 < length fresh) by (destruct fresh; [done|cbn; lia]).
    cbn [replay]. rewrite bool_decide_true by lia. cbn [mbind option_bind].
    rewrite replay_emit. f_equal. lia.
Qed.
End store_replay.

(** ** Lemmas: titles and tiles *)

Lemma last_index_of_app t suf :
  suf ≠ "" → last_index_of " [" suf = Some 0 →
  last_index_of " [" (t +:+ suf) = Some (String.length t).
Proof.
  intros _ Hs. induction t as [|c t IH]; [by rewrite app_string_nil_l|].
  rewrite app_string_cons. cbn [last_index_of]. by rewrite IH.
Qed.

Lemma substring_last t suf c :
  String.substring (String.length suf) 1 (suf +:+ String c "") = String c "" →
  String.substring (String.length (t +:+ suf +:+ String c "") - 1) 1 (t +:+ suf +:+ String c "")
  = String c "".
Proof.
  intros Hs. rewrite <-app_string_assoc, app_string_length. cbn [String.length].
  replace (String.length (t +:+ suf) + 1 - 1) with (String.length (t +:+ suf)) by lia.
  by rewrite substring_shift.
Qed.

Lemma unsplit_tile_title t n :
  t ≠ "" → (2 ≤ n ≤ 4)%Z → unsplit_title (t +:+ tile_suffix 0 n) = t.
Proof.
  intros Ht Hn. assert (n = 2 ∨ n = 3 ∨ n = 4)%Z as Hc by lia.
  assert (∃ s, tile_suffix 0 n = s +:+ "]" ∧ last_index_of " [" (tile_suffix 0 n) = Some 0 ∧
          String.substring (String.length s) 1 (s +:+ "]") = "]") as (s & Hs & Hl & Hsub).
  { exists (" [1/" +:+ pretty n). destruct Hc as [->|[->| ->]]; vm_compute; done. }
  unfold unsplit_title. rewrite last_index_of_app; [|by rewrite Hs; destruct s|done].
  assert (String.length t ≠ 0) by (by destruct t).
  replace (0 <? String.length t) with true by (symmetry; apply Nat.ltb_lt; lia).
  assert (ends_with_bracket (t +:+ tile_suffix 0 n) = true) as ->.
  { unfold ends_with_bracket. apply bool_decide_eq_true. rewrite Hs. by apply substring_last. }
  cbn. apply substring_app.
Qed.

(** The rectangles along the axis of a split: where each begins, and its extent. *)
Definition axis_of (d : SplitDirection) (r : QRectF) : double * double :=
  match d with SD_Row => (ry r, rh r) | _ => (rx r, rw r) end.

(** Each rectangle ends, in double arithmetic, where the next begins. *)
Fixpoint chained (from : double) (l : list (double * double)) : bool :=
  match l with
  | [] => bool_decide (from = d_one)
  | (x, w) :: l' => bool_decide (x = from) && chained (d_add x w) l'
  end.

Definition strip_rects (n : Z) (d : SplitDirection) : list QRectF :=
  (λ i, computeCropRect i n d) <$> seqZ 0 n.

(** *** Splitting and then merging *)
Lemma split_cameras m r e n d auto :
  cameras_ m !! r = Some e → isOnline e = true → splitCount e = 1%Z → valid_split n d = true →
  cameras_ (splitSlotAtIndex (Z.of_nat r) n d auto m).1.2
  = take r (cameras_ m) ++ tiles e (nextSlotId_ m) (nextSplitGroupId_ m) n d
    ++ drop (S r) (cameras_ m).
Proof.
  intros Hr Hon Hc Hv. unfold splitSlotAtIndex, row_of. pose proof (lookup_lt_Some _ _ _ Hr).
  rewrite decide_True by lia. by rewrite Nat2Z.id, Hr, Hv, Hon, Hc.
Qed.

Lemma group_indices_length k g l :
  length (group_indices_from k g l) = length (filter (gid_is g) l).
Proof.
  revert k. induction l as [|e l IH]; intros k; [done|]. cbn [group_indices_from].
  destruct (decide (splitGroupId e = g)) as [Hg|Hg].
  - rewrite filter_cons_True by done. cbn. by rewrite IH.
  - by rewrite filter_cons_False, IH by done.
Qed.

Lemma merge_at m r t n :
  cameras_ m !! r = Some t → (1 < splitCount t)%Z → (0 ≤ splitGroupId t)%Z →
  2 ≤ length (filter (gid_is (splitGroupId t)) (cameras_ m)) →
  cameras_ (mergeSlots (Z.of_nat r) n m).1
  = merge_list (splitGroupId t) (cameras_ m).
Proof.
  intros Hr Hc Hg Hlen. unfold mergeSlots, mergeGroupByIndex, row_of.
  pose proof (lookup_lt_Some _ _ _ Hr). rewrite decide_True by lia.
  rewrite Nat2Z.id, Hr, !bool_decide_false by lia. cbn [orb].
  rewrite <-(group_indices_length 0) in Hlen.
  fold (group_indices (splitGroupId t) (cameras_ m)) in Hlen.
  destruct (group_indices _ _) as [|f [|f2 rest]] eqn:Hgi; [cbn in Hlen; lia..|].
  pose proof (proj1 (remove_rows_cameras (f2 :: rest) m)) as Hcam.
  destruct (remove_rows (f2 :: rest) m) as [m1 sig]. cbn [fst set_cameras cameras_] in *.
  rewrite Hcam. by apply merge_list_spec.
Qed.

Lemma merge_list_other g l l' :
  Forall (λ e, ¬ gid_is g e) l → merge_list g (l ++ l') = l ++ merge_list g l'.
Proof. intros Hl. induction Hl as [|x l Hx _ IH]; [done|]. cbn. by rewrite decide_False, IH. Qed.

Lemma filter_other g l :
  Forall (λ e, ¬ gid_is g e) l →
  filter (λ e, ¬ gid_is g e) l = l ∧ filter (gid_is g) l = [].
Proof.
  intros Hl. induction Hl as [|x l Hx _ [IH1 IH2]]; [done|].
  by rewrite filter_cons_True, filter_cons_False, IH1, IH2.
Qed.

Lemma filter_tiles e slot g n d z :
  let ts := (λ i, tile e (slot + i) g n i d) <$> z in
  filter (λ e, ¬ gid_is g e) ts = [] ∧ filter (gid_is g) ts = ts.
Proof.
  cbn zeta. induction z as [|i z [IH1 IH2]]; [done|]. cbn [fmap list_fmap].
  rewrite filter_cons_False, filter_cons_True, IH1, IH2; [done|done|].
  intros Hno. by apply Hno.
Qed.

(** A group number not handed out yet is in no entry. *)
Lemma fresh_group m : model_inv m → Forall (λ e, ¬ gid_is (nextSplitGroupId_ m) e) (cameras_ m).
Proof.
  intros [_ (Hge & Hf & _)]. rewrite Forall_fmap in Hf. eapply Forall_impl; [exact Hf|].
  intros e [(_ & Hg & _)|(_ & Hg & _)]; cbn in Hg; unfold gid_is; lia.
Qed.

Lemma merge_list_split m r e n d :
  model_inv m → cameras_ m !! r = Some e → (2 ≤ n)%Z →
  let g := nextSplitGroupId_ m in
  let l := take r (cameras_ m) ++ tiles e (nextSlotId_ m) g n d ++ drop (S r) (cameras_ m) in
  2 ≤ length (filter (gid_is g) l) ∧
  merge_list g l = <[r := merged_entry (tile e (nextSlotId_ m) g n 0 d)]> (cameras_ m).
Proof.
  intros Hinv Hr Hn. cbn zeta. pose proof (fresh_group m Hinv) as Hfr.
  destruct (split_at _ _ _ Hr) as [Hl Hins]. rewrite Hins.
  rewrite Hl in Hfr. apply Forall_app in Hfr as [Hpre Hpost]. apply Forall_cons in Hpost as [_ Hpost].
  destruct (filter_other _ _ Hpost) as [Hp1 Hp2]. destruct (filter_other _ _ Hpre) as [_ Hq2].
  unfold tiles. split.
  - rewrite !filter_app, Hp2, Hq2. rewrite (proj2 (filter_tiles _ _ _ _ _ _)).
    rewrite app_nil_r. cbn [app]. rewrite length_fmap, length_seqZ. lia.
  - rewrite merge_list_other by done. f_equal. rewrite (seqZ_cons 0) by lia.
    cbn [fmap list_fmap app merge_list]. rewrite decide_True by done.
    rewrite Z.add_0_r. f_equal. rewrite filter_app, Hp1.
    by rewrite (proj1 (filter_tiles _ _ _ _ _ _)).
Qed.

(** *** The content of a store update *)
Section store_content.
Context `{T : QtText, H : QtHash}.

Lemma update_entry_content byCid row e :
  let e' := (update_entry byCid row e).1 in
  match byCid !! cameraId e with
  | Some s => isOnline e' = cd_isOnline s ∧ cameraType e' = fromStdString (cd_cameraType s) ∧
              title e' = (if decide (splitCount e = 1%Z) then fromStdString (cd_title s)
                          else title e)
  | None => isOnline e' = false ∧ title e' = title e ∧ cameraType e' = cameraType e
  end.
Proof.
  cbn zeta. unfold update_entry. destruct (byCid !! cameraId e) as [s|].
  - destruct (decide (isOnline e = cd_isOnline s)) as [Hon|Hon];
      [rewrite bool_decide_false by tauto|rewrite bool_decide_true by done];
      repeat (case_decide; cbn in * ); destruct_and?; split_and!; try done; try tauto.
    all: match goal with
         | H : ¬ (_ ∧ title ?x ≠ ?t) |- title ?x = ?t =>
             destruct (decide (title x = t)); [done|tauto]
         end.
  - by destruct (isOnline e) eqn:?.
Qed.

Lemma update_entries_cids byCid l :
  cameraId <$> (update_entries byCid l).1 = cameraId <$> l.
Proof.
  destruct (update_entries_layout byCid l) as [_ Hb].
  apply (f_equal (fmap b_cameraId)) in Hb. by rewrite <-!list_fmap_compose in Hb.
Qed.

Lemma new_entries_cids byCid known slot :
  cameraId <$> new_entries byCid known slot ≡ₚ base.elements (dom byCid ∖ known).
Proof.
  unfold new_entries. rewrite fmap_imap.
  assert (∀ l : list (string * CameraData),
            imap (λ i p, cameraId (new_entry (slot + Z.of_nat i) p.1 p.2)) l = l.*1) as ->.
  { intros l. apply list_eq. intros i.
    rewrite list_lookup_imap, list_lookup_fmap. by destruct (l !! i). }
  assert (qhash_items byCid ≡ₚ map_to_list byCid) as Hp by apply qhash_items_perm.
  apply NoDup_Permutation; [|apply NoDup_elements|].
  - eapply NoDup_submseteq_l; [apply sublist_submseteq, fmap_sublist, sublist_filter|].
    rewrite Hp. apply NoDup_fst_map_to_list.
  - intros c. rewrite elem_of_elements, elem_of_difference, elem_of_dom. split.
    + intros ([c' s] & -> & [Hk Hin]%list_elem_of_filter)%list_elem_of_fmap.
      rewrite Hp in Hin. apply elem_of_map_to_list in Hin. by eauto.
    + intros [[s Hs] Hk]. apply list_elem_of_fmap. exists (c, s). split; [done|].
      apply list_elem_of_filter. split; [done|]. rewrite Hp. by apply elem_of_map_to_list.
Qed.
End store_content.

(** ** Properties *)

(** C9. The grid invariant, over any sequence of operations from the empty
    model: slot ids are distinct and below the next one to be handed out; an
    entry is either whole (full frame, no group) or a tile with a valid split,
    the crop rectangle of its index and a group number already handed out; and
    the tiles of a group are indices 0 to n-1, once each, of one split of one
    camera. *)
Theorem camera_model_invariant `{T : QtText, H : QtHash} (ops : list model_op) :
  model_inv (run_ops ops CameraModel0).
Proof. apply run_ops_inv, model0_inv. Qed.

(** C23. The signals describe the rows: for every operation on every model, a view
    that starts with the model's row count and replays the emitted insertions,
    removals, resets and changes never meets a signal about a row it does not
    have, and ends with the new model's row count. *)
Theorem camera_rows_replay `{T : QtText, H : QtHash} (op : model_op) (m : CameraModel) :
  replay (rows m) (run_op op m).2 = Some (rows (run_op op m).1).
Proof.
  destruct op as [i v|a b|i b|r n d|r n|s| |snap|c h l t p]; cbn [run_op].
  - unfold setData. destruct (row_of i m) as [j|] eqn:Hi; [|done].
    destruct (row_of_lookup _ _ _ Hi) as (Hj & -> & _).
    destruct v; cbn [snd fst]; try done; unfold rows;
      rewrite replay_changed by lia; cbn [set_cameras cameras_]; by rewrite length_alter.
  - unfold swapSlots. destruct (row_of a m) as [ra|] eqn:Ha; [|done].
    destruct (row_of b m) as [rb|] eqn:Hb; [|done]. case_decide; [done|].
    destruct (row_of_lookup _ _ _ Ha) as (Hra & -> & [ea ->]).
    destruct (row_of_lookup _ _ _ Hb) as (Hrb & -> & [eb ->]). unfold rows.
    cbn [snd fst]. rewrite replay_app, replay_emit. cbn.
    rewrite !bool_decide_true by lia. by rewrite !length_insert.
  - unfold setOnline. destruct (row_of i m) as [j|] eqn:Hi; [|done].
    destruct (row_of_lookup _ _ _ Hi) as (Hj & -> & _). unfold rows.
    cbn [snd fst]. rewrite replay_changed by lia. cbn [set_cameras cameras_].
    by rewrite length_alter.
  - unfold splitSlot. pose proof (split_replay r n (direction_of d) false m) as Hs.
    by destruct (splitSlotAtIndex _ _ _ _ m) as [[? ?] ?].
  - unfold mergeSlots. pose proof (merge_replay r m) as Hs.
    by destruct (mergeGroupByIndex r m) as [[? ?] ?].
  - by rewrite auto_split_none.
  - done.
  - apply store_replay.
  - unfold updateSensorInfo. unfold rows. cbn. rewrite length_fmap. by destruct (existsb _ _).
Qed.

(** Merging undoes splitting, up to what the split forgets: in a model that
    satisfies the invariant, splitting an online unsplit row with a non-empty
    title into a valid number of tiles and then merging from any of the new tiles
    gives back the same rows, the split row with its title, camera, type and
    description, but under the first tile's slot id, with direction Col, default
    card size and no sensor data. *)
Theorem camera_split_merge (m : CameraModel) (r : nat) (e : CameraEntry) (n k : Z)
    (direction : Z) :
  model_inv m → cameras_ m !! r = Some e → title e ≠ "" → isOnline e = true →
  splitCount e = 1%Z → valid_split n (direction_of direction) = true → (0 ≤ k < n)%Z →
  cameras_ (mergeSlots (Z.of_nat r + k) n (splitSlot (Z.of_nat r) n direction m).1).1
  = <[r := {| slotId := nextSlotId_ m; title := title e; cameraId := cameraId e;
              isOnline := true; cameraType := cameraType e; splitCount := 1;
              splitDirection := SD_Col; cropRect := full_rect; splitGroupId := -1;
              splitIndex := 0; description := description e; width := 320; height := 240;
              deviceInfo := DeviceInfo0 |}]> (cameras_ m).
Proof.
  intros Hinv Hr Ht Hon Hc Hv Hk. set (d := direction_of direction) in *.
  assert (2 ≤ n ≤ 4)%Z as Hn by (destruct d; cbn in Hv; [done|..];
    apply bool_decide_eq_true in Hv; lia).
  assert (cameras_ (splitSlot (Z.of_nat r) n direction m).1
          = take r (cameras_ m) ++ tiles e (nextSlotId_ m) (nextSplitGroupId_ m) n d
            ++ drop (S r) (cameras_ m)) as Hcam.
  { rewrite <-(split_cameras m r e n d false) by done. unfold splitSlot. fold d.
    by destruct (splitSlotAtIndex _ _ _ _ _) as [[? ?] ?]. }
  set (m1 := (splitSlot (Z.of_nat r) n direction m).1) in *.
  destruct (merge_list_split m r e n d Hinv Hr) as [Hlen Hml]; [lia|].
  rewrite <-Hcam in Hlen, Hml.
  assert (cameras_ m1 !! (r + Z.to_nat k) =
          Some (tile e (nextSlotId_ m + k) (nextSplitGroupId_ m) n k d)) as Hlook.
  { pose proof (lookup_lt_Some _ _ _ Hr). rewrite Hcam, lookup_app_r by (rewrite length_take; lia).
    rewrite length_take, Nat.min_l by lia. replace (r + Z.to_nat k - r) with (Z.to_nat k) by lia.
    unfold tiles. rewrite lookup_app_l by (rewrite length_fmap, length_seqZ; lia).
    rewrite list_lookup_fmap, lookup_seqZ_lt by lia. cbn. do 2 f_equal; lia. }
  replace (Z.of_nat r + k)%Z with (Z.of_nat (r + Z.to_nat k)) by lia.
  destruct Hinv as [_ (Hge & _)].
  rewrite (merge_at m1 _ _ n Hlook) by (cbn; done || lia). cbn [tile splitGroupId].
  rewrite Hml. f_equal. unfold merged_entry, tile. cbn [title].
  by rewrite unsplit_tile_title, Hon.
Qed.

Definition demo_entry : CameraEntry := {|
  slotId := 0; title := "lobby"; cameraId := "10.0.0.1/0"; isOnline := true;
  cameraType := "HANWHA"; splitCount := 1; splitDirection := SD_None; cropRect := full_rect;
  splitGroupId := -1; splitIndex := 0; description := ""; width := 320; height := 240;
  deviceInfo := DeviceInfo0
|}.

Definition demo_model : CameraModel := {|
  nextSlotId_ := 1; nextSplitGroupId_ := 1; cameras_ := [demo_entry];
  autoSplitAppliedSlotIds_ := ∅
|}.

Lemma camera_split_merge_witness :
  title <$> cameras_ (mergeSlots 2 3 (splitSlot 0 3 1 demo_model).1).1 = ["lobby"] ∧
  cameras_ (mergeSlots 2 3 (splitSlot 0 3 1 demo_model).1).1
  = [{| slotId := 1; title := "lobby"; cameraId := "10.0.0.1/0"; isOnline := true;
        cameraType := "HANWHA"; splitCount := 1; splitDirection := SD_Col;
        cropRect := full_rect; splitGroupId := -1; splitIndex := 0; description := "";
        width := 320; height := 240; deviceInfo := DeviceInfo0 |}].
Proof.
  split; [vm_compute; reflexivity|].
  apply (camera_split_merge demo_model 0 demo_entry 3 2 1).
  - split; [split_and!; [done|by_decide|by_decide]|]. assert (Forall unsplit_body (body <$> [demo_entry])) as Hu
      by (constructor; [by split_and!|constructor]).
    split_and!; [done| |intros g Hg; left; by apply unsplit_group_nil].
    eapply Forall_impl; [exact Hu|]. by left.
  - reflexivity.
  - done.
  - reflexivity.
  - reflexivity.
  - reflexivity.
  - lia.
Defined.

(** The tiles cover the frame exactly: for every valid strip split the crop
    rectangles, computed in IEEE doubles, begin at 0, each ends where the next
    begins, the last ends at 1, and they span the other axis fully; the grid
    split gives the four quadrants. *)
Theorem camera_crop_tiling (n : Z) (d : SplitDirection) :
  valid_split n d = true →
  match d with
  | SD_Col => chained d_zero ((λ r, (rx r, rw r)) <$> strip_rects n d) = true ∧
              Forall (λ r, ry r = d_zero ∧ rh r = d_one) (strip_rects n d)
  | SD_Row => chained d_zero ((λ r, (ry r, rh r)) <$> strip_rects n d) = true ∧
              Forall (λ r, rx r = d_zero ∧ rw r = d_one) (strip_rects n d)
  | SD_Grid => strip_rects n d =
      [{| rx := d_zero; ry := d_zero; rw := d_half; rh := d_half |};
       {| rx := d_half; ry := d_zero; rw := d_half; rh := d_half |};
       {| rx := d_zero; ry := d_half; rw := d_half; rh := d_half |};
       {| rx := d_half; ry := d_half; rw := d_half; rh := d_half |}]
  | SD_None => False
  end.
Proof.
  intros Hv. destruct d; cbn in Hv; [done|..]; apply bool_decide_eq_true in Hv.
  - assert (n = 2 ∨ n = 3 ∨ n = 4)%Z as [->|[->| ->]] by lia; split; by_decide.
  - destruct Hv as [->| ->]; split; by_decide.
  - subst. by_decide.
Qed.

Lemma camera_crop_tiling_witness :
  chained d_zero ((λ r, (rx r, rw r)) <$> strip_rects 3 SD_Col) = true.
Proof. apply (camera_crop_tiling 3 SD_Col). reflexivity. Defined.

(** Every camera of the snapshot has a row after the update. *)
Lemma store_has_rows `{T : QtText, H : QtHash} (snapshot : list CameraData) (m : CameraModel) c :
  is_Some (snapshot_by_cid snapshot !! c) → c ∈ cameraId <$> cameras_ (onStoreUpdated snapshot m).1.
Proof.
  intros Hc. rewrite onStoreUpdated_eq. cbn [fst after_store cameras_].
  set (byCid := snapshot_by_cid snapshot) in *. rewrite fmap_app, elem_of_app.
  destruct (decide (c ∈ represented byCid (cameras_ m))) as [Hin|Hin].
  - left. unfold represented in Hin. apply elem_of_list_to_set, list_elem_of_filter in Hin.
    rewrite update_entries_cids. apply Hin.
  - right. rewrite new_entries_cids, elem_of_elements. set_solver by (apply elem_of_dom; eauto).
Qed.

Lemma snapshot_by_cid_elem `{T : QtText} (snapshot : list CameraData) cam :
  cam ∈ snapshot → fromStdString (cd_cameraId cam) ≠ "" →
  is_Some (snapshot_by_cid snapshot !! fromStdString (cd_cameraId cam)).
Proof.
  intros Hin Hne. unfold snapshot_by_cid. induction snapshot as [|cam' snapshot IH] using rev_ind.
  { by apply not_elem_of_nil in Hin. }
  rewrite foldl_app. cbn. apply elem_of_app in Hin as [Hin|Hin%list_elem_of_singleton]; [|subst cam'].
  - specialize (IH Hin). case_decide; [done|]. apply lookup_insert_is_Some'. by right.
  - rewrite decide_False by done. rewrite lookup_insert_eq. by eexists.
Qed.

Lemma snapshot_by_cid_from `{T : QtText} (snapshot : list CameraData) c :
  is_Some (snapshot_by_cid snapshot !! c) → ∃ cam, cam ∈ snapshot ∧ c = fromStdString (cd_cameraId cam).
Proof.
  unfold snapshot_by_cid. induction snapshot as [|cam snapshot IH] using rev_ind.
  { cbn. rewrite lookup_empty. by intros [? ?]. }
  rewrite foldl_app. cbn. setoid_rewrite elem_of_app. case_decide.
  - intros (cam' & ? & ?)%IH. exists cam'. by split; [left|].
  - rewrite lookup_insert_is_Some'. intros [<-|(cam' & ? & ?)%IH]; [exists cam; split; [right; by left|done]|].
    exists cam'. by split; [left|].
Qed.

(** The rows after an update are the old ones and cameras of the snapshot. *)
Lemma store_rows_from `{T : QtText, H : QtHash} (snapshot : list CameraData) (m : CameraModel) c :
  c ∈ cameraId <$> cameras_ (onStoreUpdated snapshot m).1 →
  c ∈ cameraId <$> cameras_ m ∨ ∃ cam, cam ∈ snapshot ∧ c = fromStdString (cd_cameraId cam).
Proof.
  rewrite onStoreUpdated_eq. cbn [fst after_store cameras_]. rewrite fmap_app, elem_of_app, update_entries_cids.
  intros [?|Hc]; [by left|right]. rewrite new_entries_cids, elem_of_elements in Hc.
  apply snapshot_by_cid_from, elem_of_dom. set_solver.
Qed.

(** A store update keeps the grid and adds the new cameras: every existing row
    stays where it is, with its slot, camera and split; it is online exactly when
    its camera is in the snapshot as online, offline when the camera is missing,
    takes the snapshot's type, and its title if it is not a tile; the cameras of
    the snapshot that had no row, each once, are appended under fresh slot ids in
    the hash's order; and every camera of the snapshot then has a row. *)
Theorem camera_store_update `{T : QtText, H : QtHash} (snapshot : list CameraData)
    (m : CameraModel) :
  let byCid := snapshot_by_cid snapshot in
  let m' := (onStoreUpdated snapshot m).1 in
  (∀ i e, cameras_ m !! i = Some e →
    ∃ e', cameras_ m' !! i = Some e' ∧ slotId e' = slotId e ∧ body e' = body e ∧
      match byCid !! cameraId e with
      | Some s => isOnline e' = cd_isOnline s ∧ cameraType e' = fromStdString (cd_cameraType s) ∧
                  title e' = (if decide (splitCount e = 1%Z) then fromStdString (cd_title s)
                              else title e)
      | None => isOnline e' = false ∧ title e' = title e ∧ cameraType e' = cameraType e
      end) ∧
  (∃ fresh, cameras_ m' = take (length (cameras_ m)) (cameras_ m') ++ fresh ∧
    slotId <$> fresh = seqZ (nextSlotId_ m) (Z.of_nat (length fresh)) ∧
    cameraId <$> fresh ≡ₚ
      base.elements (dom byCid ∖ represented byCid (cameras_ m))) ∧
  (∀ c s, byCid !! c = Some s → c ∈ cameraId <$> cameras_ m').
Proof.
  cbn zeta. rewrite onStoreUpdated_eq. cbn [fst after_store cameras_].
  set (byCid := snapshot_by_cid snapshot). set (fresh := new_entries _ _ _).
  assert (length (update_entries byCid (cameras_ m)).1 = length (cameras_ m)) as Hlen
    by (rewrite update_entries_fst; apply length_imap).
  assert (cameraId <$> fresh ≡ₚ base.elements (dom byCid ∖ represented byCid (cameras_ m))) as Hfresh.
  { apply new_entries_cids. }
  split_and!.
  - intros i e He. exists (update_entry byCid (Z.of_nat i) e).1.
    rewrite lookup_app_l by (rewrite Hlen; by eapply lookup_lt_Some).
    rewrite update_entries_fst, list_lookup_imap, He. cbn.
    destruct (update_entry_layout byCid (Z.of_nat i) e) as [-> ->].
    split_and!; try done. apply update_entry_content.
  - exists fresh. rewrite <-Hlen at 1. rewrite take_app_length. split_and!; [done| |done].
    apply new_entries_slots.
  - intros c s Hc. pose proof (store_has_rows snapshot m c (ex_intro _ s Hc)) as Hr.
    rewrite onStoreUpdated_eq in Hr. exact Hr.
Qed.

(** Swapping moves the content, not the identity, and leaves the sensor data
    behind: after swapping two rows each keeps its slot id and takes every other
    field of the other row except the sensor data, so the data shown with a camera
    after a swap is the other camera's; all other rows are unchanged. *)
Theorem camera_swap_slots (m : CameraModel) (a b : nat) (ea eb : CameraEntry) :
  cameras_ m !! a = Some ea → cameras_ m !! b = Some eb → a ≠ b →
  let m' := (swapSlots (Z.of_nat a) (Z.of_nat b) m).1 in
  (∃ e, cameras_ m' !! a = Some e ∧ slotId e = slotId ea ∧ body e = body eb ∧
        title e = title eb ∧ isOnline e = isOnline eb ∧ cameraType e = cameraType eb ∧
        deviceInfo e = deviceInfo ea) ∧
  (∃ e, cameras_ m' !! b = Some e ∧ slotId e = slotId eb ∧ body e = body ea ∧
        title e = title ea ∧ isOnline e = isOnline ea ∧ cameraType e = cameraType ea ∧
        deviceInfo e = deviceInfo eb) ∧
  (∀ i, i ≠ a → i ≠ b → cameras_ m' !! i = cameras_ m !! i).
Proof.
  intros Ha Hb Hne. cbn zeta. unfold swapSlots, row_of.
  pose proof (lookup_lt_Some _ _ _ Ha). pose proof (lookup_lt_Some _ _ _ Hb).
  rewrite !decide_True, decide_False by lia. rewrite !Nat2Z.id, Ha, Hb.
  cbn [fst set_cameras cameras_]. split_and!.
  - exists (swapped_from eb ea). split; [|done].
    apply list_lookup_insert_eq. by rewrite length_insert.
  - exists (swapped_from ea eb). split; [|done].
    rewrite list_lookup_insert_ne by done. by apply list_lookup_insert_eq.
  - intros i Hia Hib. by rewrite !list_lookup_insert_ne by done.
Qed.

(** Two cameras, the second with a humidity reading. *)
Definition demo_pair : CameraModel :=
  set_cameras [demo_entry;
               with_device (sensor_info d_half d_zero d_zero d_zero) (with_title "yard" demo_entry)]
    demo_model.

Lemma camera_swap_slots_witness :
  ∃ e, cameras_ (swapSlots 0 1 demo_pair).1 !! 0 = Some e ∧ title e = "yard" ∧
       deviceInfo e = DeviceInfo0.
Proof.
  destruct (camera_swap_slots demo_pair 0 1 demo_entry
    (with_device (sensor_info d_half d_zero d_zero d_zero) (with_title "yard" demo_entry)))
    as [(e & He & _ & _ & Ht & _ & _ & Hd) _]; [reflexivity|reflexivity|done|].
  exists e. split; [exact He|]. split; [exact Ht|exact Hd].
Defined.
