(* ===== verification/CameraIds.v ===== *)
(** * The cameras of the grid (src/Qt/Back/Models/CameraModel)

    Which cameras have a row: no operation of the model but [clearAll] takes a camera
    out of the grid.  Splits and swaps move its rows, a merge keeps one of them, and
    an update marks a camera that is missing from the packet as offline. *)

From S2P Require Import Prelude Extern CameraStore CameraModel.

(** The ids of the rows. *)
Definition grid_ids (m : CameraModel) : list QString := cameraId <$> cameras_ m.

Lemma alter_ids f i (l : list CameraEntry) :
  (∀ e, cameraId (f e) = cameraId e) → cameraId <$> alter f i l = cameraId <$> l.
Proof.
  intros Hf. apply list_eq. intros j. rewrite !list_lookup_fmap. destruct (decide (i = j)) as [->|Hne].
  - rewrite list_lookup_alter_eq. destruct (l !! j) as [e|]; [|done]. cbn. by rewrite Hf.
  - by rewrite list_lookup_alter_ne.
Qed.

Lemma body_ids (l l' : list CameraEntry) : body <$> l ≡ₚ body <$> l' → cameraId <$> l ≡ₚ cameraId <$> l'.
Proof.
  intros H. assert (∀ k : list CameraEntry, cameraId <$> k = b_cameraId <$> (body <$> k)) as E.
  { intros k. by rewrite <-list_fmap_compose. }
  rewrite !E. by rewrite H.
Qed.

Lemma tiles_ids o slot group n d id :
  (0 < n)%Z → id ∈ cameraId <$> tiles o slot group n d ↔ id = cameraId o.
Proof.
  intros Hn. unfold tiles. rewrite <-list_fmap_compose, list_elem_of_fmap. split.
  - by intros (i & -> & _).
  - intros ->. exists 0%Z. split; [done|]. apply elem_of_seqZ. lia.
Qed.

Lemma valid_split_pos n d : valid_split n d = true → (0 < n)%Z.
Proof. destruct d; cbn; [done|..]; intros H%bool_decide_eq_true; lia. Qed.

Lemma split_ids r n d auto m id :
  id ∈ grid_ids (splitSlotAtIndex r n d auto m).1.2 ↔ id ∈ grid_ids m.
Proof.
  unfold grid_ids, splitSlotAtIndex. destruct (row_of r m) as [i|] eqn:Hrow; [|done].
  destruct (cameras_ m !! i) as [o|] eqn:Ho; [|done].
  destruct (valid_split n d && _ && _) eqn:Hg; [|done].
  apply andb_true_iff in Hg as [[Hv _]%andb_true_iff _]. cbn.
  destruct (split_at _ _ _ Ho) as [Hl _]. rewrite Hl at 3.
  rewrite !fmap_app, fmap_cons, !elem_of_app, elem_of_cons, tiles_ids by (by eapply valid_split_pos). done.
Qed.

(** The rows of a group are of one camera. *)
Definition one_camera (g : Z) (l : list CameraEntry) : Prop :=
  ∀ e e', e ∈ l → e' ∈ l → gid_is g e → gid_is g e' → cameraId e = cameraId e'.

Lemma group_one_camera g m :
  model_inv m → (0 ≤ g)%Z → Exists (gid_is g) (cameras_ m) → one_camera g (cameras_ m).
Proof.
  intros [_ (_ & Hb & Hgr)] Hg (e0 & He0 & Hg0)%Exists_exists.
  assert (1 ≤ g)%Z as H1.
  { rewrite Forall_forall in Hb. unfold gid_is in Hg0.
    destruct (Hb (body e0)) as [(_ & Hm1 & _)|(_ & Hr & _)]; [by apply list_elem_of_fmap_2|cbn in *; lia..]. }
  assert (∀ e, e ∈ cameras_ m → gid_is g e → body e ∈ filter (in_group g) (body <$> cameras_ m)) as Hin.
  { intros e He Hge. apply list_elem_of_filter. split; [done|by apply list_elem_of_fmap_2]. }
  intros e e' He He' Hge Hge'. destruct (Hgr g H1) as [Hn|(n & d & c & _ & Hc)].
  - apply (Hin e He) in Hge. rewrite Hn in Hge. by apply not_elem_of_nil in Hge.
  - rewrite Forall_forall in Hc.
    destruct (Hc _ (Hin e He Hge)) as (_ & _ & E1), (Hc _ (Hin e' He' Hge')) as (_ & _ & E2).
    cbn in *. congruence.
Qed.

Lemma merge_list_ids g l id :
  one_camera g l → id ∈ cameraId <$> l → id ∈ cameraId <$> merge_list g l.
Proof.
  induction l as [|e l IH]; intros Hone; [done|]. rewrite fmap_cons, elem_of_cons. cbn [merge_list].
  destruct (decide (gid_is g e)) as [Hg|Hg]; rewrite fmap_cons, elem_of_cons.
  - intros [->|(e' & -> & He')%list_elem_of_fmap]; [by left|].
    destruct (decide (gid_is g e')) as [Hg'|Hg'].
    + left. change (cameraId (merged_entry e)) with (cameraId e). apply Hone; [by right|by left|done|done].
    + right. apply list_elem_of_fmap_2, list_elem_of_filter. by split.
  - intros [->|Hin]; [by left|]. right. apply IH; [|done].
    intros e1 e2 H1 H2. apply Hone; by right.
Qed.

Lemma merge_ids r m id :
  model_inv m → id ∈ grid_ids m → id ∈ grid_ids (mergeGroupByIndex r m).1.2.
Proof.
  intros Hm Hid. unfold grid_ids in *.
  destruct (merge_result r m Hm) as [->|(g & [Hg Hex] & -> & _)]; [done|].
  apply merge_list_ids; [by apply group_one_camera|done].
Qed.


(** No operation but [clearAll] takes a camera out of the grid. *)
Lemma run_op_keeps_ids `{T : QtText, H : QtHash} op m id :
  model_inv m → op ≠ OpClear → id ∈ grid_ids m → id ∈ grid_ids (run_op op m).1.
Proof.
  intros Hm Hop Hid. destruct op as [i v|a b|i b|r n d|r n|s| |snap|c h l t p]; cbn [run_op]; [..|done| |].
  - unfold setData. destruct (row_of i m); [|done].
    destruct v; cbn; try done; unfold grid_ids; cbn; by rewrite alter_ids.
  - unfold swapSlots. destruct (row_of a m) as [ra|] eqn:Ha; [|done].
    destruct (row_of b m) as [rb|] eqn:Hb; [|done]. case_decide as Hne; [done|].
    destruct (row_of_lookup _ _ _ Ha) as (_ & -> & [ea Hea]).
    destruct (row_of_lookup _ _ _ Hb) as (_ & -> & [eb Heb]). rewrite Hea, Heb.
    destruct (swap_layout (cameras_ m) ra rb ea eb Hea Heb) as [_ Hp]; [congruence|].
    apply body_ids in Hp. unfold grid_ids in *. cbn. by rewrite Hp.
  - unfold setOnline. destruct (row_of i m); [|done]. unfold grid_ids. cbn. by rewrite alter_ids.
  - unfold splitSlot. pose proof (split_ids r n (direction_of d) false m id) as Hs.
    destruct (splitSlotAtIndex _ _ _ _ m) as [[? ?] ?]. by apply Hs.
  - unfold mergeSlots. pose proof (merge_ids r m id Hm Hid) as Hs.
    by destruct (mergeGroupByIndex r m) as [[? ?] ?].
  - by rewrite auto_split_none.
  - rewrite onStoreUpdated_eq. unfold grid_ids in *. cbn [fst after_store cameras_]. rewrite fmap_app. apply elem_of_app. left.
    by rewrite update_entries_cids.
  - unfold updateSensorInfo, grid_ids in *. cbn. rewrite <-list_fmap_compose.
    replace (_ <$> cameras_ m) with (cameraId <$> cameras_ m); [done|].
    apply list_fmap_ext. intros j e _. cbn. by case_decide.
Qed.

Lemma merge_list_ids_from g l id : id ∈ cameraId <$> merge_list g l → id ∈ cameraId <$> l.
Proof.
  induction l as [|e l IH]; [done|]. cbn [merge_list]. case_decide; rewrite !fmap_cons, !elem_of_cons.
  - intros [?|(e' & -> & He')%list_elem_of_fmap]; [by left|right]. apply list_elem_of_fmap_2.
    by apply list_elem_of_filter in He' as [_ ?].
  - intros [?|?]; [by left|right; by apply IH].
Qed.

(** Rows are added for the cameras of an update only. *)
Lemma run_op_ids_from `{T : QtText, H : QtHash} op m id :
  model_inv m → id ∈ grid_ids (run_op op m).1 →
  id ∈ grid_ids m ∨ ∃ snap cam, op = OpStore snap ∧ cam ∈ snap ∧ id = fromStdString (cd_cameraId cam).
Proof.
  intros Hm Hid. revert Hid. destruct op as [i v|a b|i b|r n d|r n|s| |snap|c h l t p]; cbn [run_op]; [intros Hid; left; revert Hid..| | |].
  - unfold setData. destruct (row_of i m); [|done].
    destruct v; cbn; try done; unfold grid_ids; cbn; by rewrite alter_ids.
  - unfold swapSlots. destruct (row_of a m) as [ra|] eqn:Ha; [|done].
    destruct (row_of b m) as [rb|] eqn:Hb; [|done]. case_decide as Hne; [done|].
    destruct (row_of_lookup _ _ _ Ha) as (_ & -> & [ea Hea]).
    destruct (row_of_lookup _ _ _ Hb) as (_ & -> & [eb Heb]). rewrite Hea, Heb.
    destruct (swap_layout (cameras_ m) ra rb ea eb Hea Heb) as [_ Hp]; [congruence|].
    apply body_ids in Hp. unfold grid_ids in *. cbn. by rewrite Hp.
  - unfold setOnline. destruct (row_of i m); [|done]. unfold grid_ids. cbn. by rewrite alter_ids.
  - unfold splitSlot. pose proof (split_ids r n (direction_of d) false m id) as Hs.
    destruct (splitSlotAtIndex _ _ _ _ m) as [[? ?] ?]. by apply Hs.
  - unfold mergeSlots. pose proof (merge_result r m Hm) as Hs.
    destruct (mergeGroupByIndex r m) as [[? m'] ?]. cbn. unfold grid_ids. cbn in Hs.
    destruct Hs as [->|(g & _ & -> & _)]; [done|]. apply merge_list_ids_from.
  - by rewrite auto_split_none.
  - by intros ?%elem_of_nil.
  - intros [?|(cam & Hc & ->)]%store_rows_from; [by left|right]. by exists snap, cam.
  - intros Hid. left. revert Hid. unfold updateSensorInfo, grid_ids in *. cbn. rewrite <-list_fmap_compose.
    replace (_ <$> cameras_ m) with (cameraId <$> cameras_ m); [done|].
    apply list_fmap_ext. intros j e _. cbn. by case_decide.
Qed.
