(* ===== verification/DeviceModel.v ===== *)
(** * The device list (src/Qt/Back/Models/DeviceModel)

    The rows QML shows for the devices, updated from the snapshots of the device
    store, with an index from addresses to rows that is rebuilt after each update,
    and the lookups QML makes by address and by camera id. *)

From S2P Require Import Prelude Extern RowIndex DeviceStore.

(** ** Data *)
Record DeviceEntry : Type := {
  de_ip : QString;
  de_cameraId : QString;
  de_type : QString;
  de_isOnline : bool;
  de_cpu : double;
  de_memory : double;
  de_temp : double;
  de_uptime : Z;
  de_lastUpdate : Z;
  de_hasMotor : bool;
  de_hasIr : bool;
  de_hasHeater : bool;
  de_history : list DeviceSnapshot
}.

Inductive device_signal : Type :=
| DevDataChanged (row : Z)
| DevRowsInserted (first last : Z)
| DevModelReset
| HistoryUpdated (ip : QString).

Record DeviceModel : Type := {
  devices_ : list DeviceEntry;
  byIp_ : gmap QString nat
}.

Definition DeviceModel0 : DeviceModel := {| devices_ := []; byIp_ := ∅ |}.

Definition set_devices (l : list DeviceEntry) (m : DeviceModel) : DeviceModel :=
  {| devices_ := l; byIp_ := byIp_ m |}.

(** ** Lookups by address *)

Definition findIndexByIp (a : QString) (m : DeviceModel) : Z := index_z (byIp_ m !! a).

(** [devices_[idx]]; [None]: the index is out of range. *)
Definition device_at (idx : Z) (m : DeviceModel) : option DeviceEntry :=
  if decide (0 ≤ idx)%Z then devices_ m !! Z.to_nat idx else None.

Definition hasDevice (a : QString) (m : DeviceModel) : bool := (0 <=? findIndexByIp a m)%Z.

(** [idx >= 0 ? devices_[idx].field : dflt]; [None]: out of range. *)
Definition field_at {A} (field : DeviceEntry → A) (dflt : A) (idx : Z) (m : DeviceModel)
    : option A :=
  if (0 <=? idx)%Z then field <$> device_at idx m else Some dflt.

(** ** [onStoreUpdated] *)
Section update.
Context `{T : QtText}.

(** The entry of a snapshot item. *)
Definition new_entry (snap : DeviceIntegrated) : DeviceEntry := {|
  de_ip := fromStdString (ip snap); de_cameraId := fromStdString (cameraId snap);
  de_type := fromStdString (type snap); de_isOnline := isOnline snap; de_cpu := cpu snap;
  de_memory := memory snap; de_temp := temp snap; de_uptime := uptime snap;
  de_lastUpdate := lastUpdate snap; de_hasMotor := hasMotor snap; de_hasIr := hasIr snap;
  de_hasHeater := hasHeater snap; de_history := history snap
|}.

(** The update of an existing entry assigns every member but the address. *)
Definition update_entry (snap : DeviceIntegrated) (e : DeviceEntry) : DeviceEntry := {|
  de_ip := de_ip e; de_cameraId := fromStdString (cameraId snap);
  de_type := fromStdString (type snap); de_isOnline := isOnline snap; de_cpu := cpu snap;
  de_memory := memory snap; de_temp := temp snap; de_uptime := uptime snap;
  de_lastUpdate := lastUpdate snap; de_hasMotor := hasMotor snap; de_hasIr := hasIr snap;
  de_hasHeater := hasHeater snap; de_history := history snap
|}.

(** One iteration of the loop; [None]: [devices_[idx]] is out of range. *)
Definition update_one (snap : DeviceIntegrated) (m : DeviceModel)
    : option (DeviceModel * list device_signal) :=
  let a := fromStdString (ip snap) in
  let idx := findIndexByIp a m in
  if (0 <=? idx)%Z then
    match device_at idx m with
    | Some _ => Some (set_devices (alter (update_entry snap) (Z.to_nat idx) (devices_ m)) m,
                      [DevDataChanged idx; HistoryUpdated a])
    | None => None
    end
  else
    let n := Z.of_nat (length (devices_ m)) in
    Some (set_devices (devices_ m ++ [new_entry snap]) m, [DevRowsInserted n n; HistoryUpdated a]).

Fixpoint update_all (snapshot : list DeviceIntegrated) (m : DeviceModel)
    : option (DeviceModel * list device_signal) :=
  match snapshot with
  | [] => Some (m, [])
  | snap :: rest =>
      '(m1, s1) ← update_one snap m;
      '(m2, s2) ← update_all rest m1;
      Some (m2, s1 ++ s2)
  end.

(** [byIp_.clear()] and the loop that fills it again. *)
Definition rebuild (l : list DeviceEntry) : gmap QString nat := row_index de_ip l.

Definition onStoreUpdated (snapshot : list DeviceIntegrated) (m : DeviceModel)
    : option (DeviceModel * list device_signal) :=
  '(m1, sigs) ← update_all snapshot m;
  Some ({| devices_ := devices_ m1; byIp_ := rebuild (devices_ m1) |}, sigs).

End update.

Definition clearAll (m : DeviceModel) : DeviceModel * list device_signal :=
  (DeviceModel0, [DevModelReset]).

(** ** Lookups by camera id *)

Definition findIndexByCameraId (c : QString) (m : DeviceModel) : Z :=
  index_z (index_where (λ e, bool_decide (de_cameraId e = c)) (devices_ m)).

Definition deviceIp (c : QString) (m : DeviceModel) : option QString :=
  field_at de_ip "" (findIndexByCameraId c m) m.
Definition hasDeviceByCameraId (c : QString) (m : DeviceModel) : bool :=
  (0 <=? findIndexByCameraId c m)%Z.

(** ** The QML properties, named as in the source *)
Definition cameraId (a : QString) (m : DeviceModel) : option QString :=
  field_at de_cameraId "" (findIndexByIp a m) m.
Definition cpu (a : QString) (m : DeviceModel) : option double :=
  field_at de_cpu d_zero (findIndexByIp a m) m.
Definition memory (a : QString) (m : DeviceModel) : option double :=
  field_at de_memory d_zero (findIndexByIp a m) m.
Definition temp (a : QString) (m : DeviceModel) : option double :=
  field_at de_temp d_zero (findIndexByIp a m) m.
Definition getHistory (a : QString) (m : DeviceModel) : option (list DeviceSnapshot) :=
  field_at de_history [] (findIndexByIp a m) m.
Definition hasMotor (c : QString) (m : DeviceModel) : option bool :=
  field_at de_hasMotor false (findIndexByCameraId c m) m.
Definition hasIr (c : QString) (m : DeviceModel) : option bool :=
  field_at de_hasIr false (findIndexByCameraId c m) m.
Definition hasHeater (c : QString) (m : DeviceModel) : option bool :=
  field_at de_hasHeater false (findIndexByCameraId c m) m.

(** ** Lemmas: the index *)

Lemma rebuild_lookup l a i :
  rebuild l !! a = Some i ↔
  (∃ e, l !! i = Some e ∧ de_ip e = a) ∧ ∀ j e, i < j → l !! j = Some e → de_ip e ≠ a.
Proof. apply row_index_lookup. Qed.

Lemma rebuild_None l a : rebuild l !! a = None ↔ a ∉ de_ip <$> l.
Proof. apply row_index_None. Qed.

(** The index is the one of the rows. *)
Definition indexed (m : DeviceModel) : Prop := byIp_ m = rebuild (devices_ m).

(** ** Lemmas: one update *)
Section update_lemmas.
Context `{T : QtText}.

(** The last item of the snapshot for an address. *)
Definition last_snap (a : QString) (snapshot : list DeviceIntegrated) : option DeviceIntegrated :=
  last (filter (λ s, fromStdString (ip s) = a) snapshot).

(** A row after the update: the row the index names is refreshed. *)
Definition refresh (idx : gmap QString nat) (snapshot : list DeviceIntegrated) (i : nat)
    (e : DeviceEntry) : DeviceEntry :=
  match last_snap (de_ip e) snapshot with
  | Some s => if bool_decide (idx !! de_ip e = Some i) then new_entry s else e
  | None => e
  end.

(** The rows for the items whose address the index does not know. *)
Definition fresh (idx : gmap QString nat) (snapshot : list DeviceIntegrated) : list DeviceEntry :=
  new_entry <$> filter (λ s, idx !! fromStdString (ip s) = None) snapshot.

(** The signals of an update from [n] rows. *)
Fixpoint update_signals (idx : gmap QString nat) (n : nat) (snapshot : list DeviceIntegrated)
    : list device_signal :=
  match snapshot with
  | [] => []
  | s :: rest =>
      let a := fromStdString (ip s) in
      match idx !! a with
      | Some i => DevDataChanged (Z.of_nat i) :: HistoryUpdated a :: update_signals idx n rest
      | None => DevRowsInserted (Z.of_nat n) (Z.of_nat n) :: HistoryUpdated a
                :: update_signals idx (S n) rest
      end
  end.

Lemma last_snap_cons a s rest :
  last_snap a (s :: rest) =
  match last_snap a rest with
  | Some s' => Some s'
  | None => if decide (fromStdString (ip s) = a) then Some s else None
  end.
Proof.
  unfold last_snap. rewrite filter_cons. case_decide; [|by destruct (last _)].
  by rewrite last_cons.
Qed.

Lemma refresh_ip idx snapshot i e : de_ip (refresh idx snapshot i e) = de_ip e.
Proof.
  unfold refresh, last_snap. destruct (last _) as [s|] eqn:Hl; [|done]. case_bool_decide; [|done].
  apply last_Some_elem_of, list_elem_of_filter in Hl as [? _]. done.
Qed.

Lemma update_entry_new s e : de_ip e = fromStdString (ip s) → update_entry s e = new_entry s.
Proof. unfold update_entry, new_entry. by intros ->. Qed.

(** The loop, from any rows whose addresses agree with the index. *)
Lemma update_all_spec idx snapshot m :
  byIp_ m = idx → (∀ a i, idx !! a = Some i → ∃ e, devices_ m !! i = Some e ∧ de_ip e = a) →
  update_all snapshot m
  = Some (set_devices (imap (refresh idx snapshot) (devices_ m) ++ fresh idx snapshot) m,
          update_signals idx (length (devices_ m)) snapshot).
Proof.
  revert m. induction snapshot as [|s rest IH]; intros m Hidx Hok.
  { cbn. unfold fresh. cbn. rewrite app_nil_r.
    replace (imap (refresh idx []) (devices_ m)) with (devices_ m); [by destruct m|].
    apply list_eq. intros i. rewrite list_lookup_imap. by destruct (devices_ m !! i). }
  cbn [update_all update_signals]. unfold update_one, findIndexByIp. rewrite Hidx, index_z_nonneg.
  set (a := fromStdString (ip s)). destruct (idx !! a) as [i|] eqn:Ha.
  - destruct (Hok a i Ha) as (e & He & Hea).
    rewrite bool_decide_true by (by eexists). cbn [index_z]. unfold device_at.
    rewrite decide_True, Nat2Z.id, He by lia. cbn [mbind option_bind].
    rewrite IH; cbn [set_devices devices_ byIp_ mbind option_bind]; [|done|].
    + rewrite length_alter. do 2 f_equal. unfold set_devices. cbn. f_equal. f_equal.
      * apply list_eq. intros j. rewrite !list_lookup_imap.
        destruct (decide (i = j)) as [<-|Hij].
        -- rewrite list_lookup_alter_eq, He. cbn. f_equal. rewrite (update_entry_new s e) by done.
           unfold refresh. cbn [de_ip new_entry]. fold a. rewrite Hea, last_snap_cons, Ha.
           rewrite bool_decide_true by done. rewrite decide_True by done.
           by destruct (last_snap a rest).
        -- rewrite list_lookup_alter_ne by done. destruct (devices_ m !! j) as [e'|]; [|done].
           cbn. f_equal. unfold refresh. rewrite last_snap_cons.
           destruct (last_snap (de_ip e') rest); [done|]. case_decide as Heq; [|done].
           fold a in Heq. rewrite <-Heq, Ha, bool_decide_false by congruence. done.
      * unfold fresh. cbn. rewrite decide_False by (fold a; by rewrite Ha). done.
    + intros b k Hb. destruct (Hok b k Hb) as (e' & He' & Heb).
      destruct (decide (i = k)) as [<-|Hik].
      * rewrite list_lookup_alter_eq, He'. eexists; split; [done|]. done.
      * rewrite list_lookup_alter_ne by done. by exists e'.
  - rewrite bool_decide_false by (by intros []). cbn [mbind option_bind].
    rewrite IH; cbn [set_devices devices_ byIp_ mbind option_bind]; [|done|].
    + rewrite length_app. cbn [length]. rewrite Nat.add_1_r. do 2 f_equal.
      unfold set_devices. cbn. f_equal. rewrite imap_app. cbn. unfold fresh. cbn.
      rewrite decide_True by done. rewrite <-app_assoc. cbn. f_equal.
      * apply imap_ext. intros j e' He'. unfold refresh. rewrite last_snap_cons.
        destruct (last_snap (de_ip e') rest); [done|]. case_decide as Heq; [|done].
        fold a in Heq. rewrite <-Heq, Ha. done.
      * f_equal. unfold refresh. cbn [de_ip new_entry]. fold a. rewrite Ha.
        by destruct (last_snap a rest).
    + intros b k Hb. destruct (Hok b k Hb) as (e' & He' & Heb). exists e'.
      split; [by apply lookup_app_l_Some|done].
Qed.

Lemma indexed_ok m : indexed m →
  ∀ a i, byIp_ m !! a = Some i → ∃ e, devices_ m !! i = Some e ∧ de_ip e = a.
Proof. intros -> a i [H _]%rebuild_lookup. done. Qed.

Lemma onStoreUpdated_spec snapshot m : indexed m →
  let rows := imap (refresh (byIp_ m) snapshot) (devices_ m) ++ fresh (byIp_ m) snapshot in
  onStoreUpdated snapshot m
  = Some ({| devices_ := rows; byIp_ := rebuild rows |},
          update_signals (byIp_ m) (length (devices_ m)) snapshot).
Proof.
  intros Hm. cbn zeta. unfold onStoreUpdated.
  by rewrite (update_all_spec (byIp_ m)) by (done || by apply indexed_ok).
Qed.
End update_lemmas.

(** ** Lemmas: the model as a map from addresses to entries *)

(** What the lookups by address see. *)
Definition entry_by (a : QString) (m : DeviceModel) : option DeviceEntry :=
  byIp_ m !! a ≫= λ i, devices_ m !! i.

Lemma rebuild_entry l a :
  (rebuild l !! a ≫= λ i, l !! i) = last (filter (λ e, de_ip e = a) l).
Proof. apply row_index_entry. Qed.

Lemma rebuild_ips l l' : de_ip <$> l = de_ip <$> l' → rebuild l = rebuild l'.
Proof. apply row_index_keys. Qed.

Lemma entry_by_indexed m a : indexed m → entry_by a m = last (filter (λ e, de_ip e = a) (devices_ m)).
Proof. unfold entry_by. intros ->. apply rebuild_entry. Qed.

(** In an indexed model no lookup is out of range. *)
Lemma field_at_entry {A} (f : DeviceEntry → A) dflt a m : indexed m →
  field_at f dflt (findIndexByIp a m) m = Some (from_option f dflt (entry_by a m)).
Proof.
  intros Hm. unfold field_at, findIndexByIp, entry_by. rewrite index_z_nonneg.
  destruct (byIp_ m !! a) as [i|] eqn:Hi; cbn.
  - destruct (indexed_ok m Hm a i Hi) as (e & He & _). unfold device_at.
    rewrite decide_True, Nat2Z.id, He by lia. done.
  - done.
Qed.

Section entry.
Context `{T : QtText}.

Lemma refresh_ips idx snapshot l : de_ip <$> imap (refresh idx snapshot) l = de_ip <$> l.
Proof.
  apply list_eq. intros i. rewrite !list_lookup_fmap, list_lookup_imap.
  destruct (l !! i); [|done]. cbn. by rewrite refresh_ip.
Qed.

Lemma refresh_entry snapshot l a :
  last (filter (λ e, de_ip e = a) (imap (refresh (rebuild l) snapshot) l))
  = match last_snap a snapshot with
    | Some s => match rebuild l !! a with Some _ => Some (new_entry s) | None => None end
    | None => last (filter (λ e, de_ip e = a) l)
    end.
Proof.
  rewrite <-(rebuild_entry l), <-rebuild_entry,
    (rebuild_ips (imap (refresh (rebuild l) snapshot) l) l) by apply refresh_ips.
  destruct (rebuild l !! a) as [i|] eqn:Hi; cbn; [|by destruct (last_snap a snapshot)].
  apply rebuild_lookup in Hi as Hl. destruct Hl as [(e & He & <-) _].
  rewrite list_lookup_imap, He. cbn. unfold refresh.
  destruct (last_snap (de_ip e) snapshot) as [s|]; [|done]. by rewrite bool_decide_true.
Qed.

Lemma fresh_entry idx snapshot a :
  last (filter (λ e, de_ip e = a) (fresh idx snapshot))
  = match idx !! a with Some _ => None | None => new_entry <$> last_snap a snapshot end.
Proof.
  unfold last_snap, fresh. induction snapshot as [|s rest IH] using rev_ind.
  { cbn. by destruct (idx !! a). }
  rewrite !filter_app, fmap_app, filter_app, !last_app. cbn.
  destruct (decide (fromStdString (ip s) = a)) as [Hsa|Hsa].
  - rewrite Hsa. cbn. destruct (idx !! a) eqn:Ha; cbn.
    + by rewrite decide_False by done.
    + rewrite decide_True by done. cbn. by rewrite decide_True.
  - rewrite IH. cbn. case_decide; cbn; [|done]. by rewrite decide_False.
Qed.

Lemma update_entry_by snapshot m a : indexed m →
  last (filter (λ e, de_ip e = a)
     (imap (refresh (byIp_ m) snapshot) (devices_ m) ++ fresh (byIp_ m) snapshot))
  = match last_snap a snapshot with
    | Some s => Some (new_entry s)
    | None => entry_by a m
    end.
Proof.
  intros Hm. rewrite entry_by_indexed, filter_app, last_app, fresh_entry by done.
  rewrite Hm, refresh_entry. destruct (rebuild (devices_ m) !! a); [done|].
  by destruct (last_snap a snapshot).
Qed.

(** *** Operations from the empty model *)
Inductive device_op : Type :=
| DStoreUpdated (snapshot : list DeviceIntegrated)
| DClearAll.

Definition run_op (op : device_op) (m : DeviceModel) : option (DeviceModel * list device_signal) :=
  match op with
  | DStoreUpdated snapshot => onStoreUpdated snapshot m
  | DClearAll => Some (clearAll m)
  end.

Fixpoint run_ops (ops : list device_op) (m : DeviceModel)
    : option (DeviceModel * list device_signal) :=
  match ops with
  | [] => Some (m, [])
  | op :: rest =>
      '(m1, s1) ← run_op op m;
      '(m2, s2) ← run_ops rest m1;
      Some (m2, s1 ++ s2)
  end.

Lemma run_op_indexed op m : indexed m →
  ∃ m' sigs, run_op op m = Some (m', sigs) ∧ indexed m'.
Proof.
  intros Hm. destruct op as [snapshot|]; cbn [run_op].
  - rewrite onStoreUpdated_spec by done. by repeat eexists.
  - by repeat eexists.
Qed.

Lemma run_ops_indexed ops m : indexed m →
  ∃ m' sigs, run_ops ops m = Some (m', sigs) ∧ indexed m'.
Proof.
  revert m. induction ops as [|op ops IH]; intros m Hm; [by repeat eexists|].
  destruct (run_op_indexed op m Hm) as (m1 & s1 & H1 & Hm1).
  destruct (IH m1 Hm1) as (m2 & s2 & H2 & Hm2).
  exists m2, (s1 ++ s2). cbn. rewrite H1. cbn. rewrite H2. done.
Qed.

(** *** The rows a view draws from the signals: how many there are. *)
Fixpoint replay (n : Z) (sigs : list device_signal) : option Z :=
  match sigs with
  | [] => Some n
  | DevDataChanged r :: rest => if decide (0 ≤ r < n)%Z then replay n rest else None
  | DevRowsInserted f l :: rest =>
      if decide (0 ≤ f ≤ n ∧ f ≤ l)%Z then replay (n + (l - f + 1)) rest else None
  | DevModelReset :: rest => replay 0 rest
  | HistoryUpdated _ :: rest => replay n rest
  end.

Lemma update_signals_replay idx n snapshot :
  (∀ a i, idx !! a = Some i → i < n) →
  replay (Z.of_nat n) (update_signals idx n snapshot)
  = Some (Z.of_nat (n + length (fresh idx snapshot))).
Proof.
  revert n. induction snapshot as [|s rest IH]; intros n Hidx; cbn.
  { do 2 f_equal. lia. }
  unfold fresh. cbn. destruct (idx !! fromStdString (ip s)) as [i|] eqn:Hi; cbn.
  - rewrite decide_True by (apply Hidx in Hi; lia). by apply IH.
  - rewrite decide_True by lia. fold (fresh idx rest).
    replace (Z.of_nat n + _)%Z with (Z.of_nat (S n)) by lia.
    rewrite IH; [|intros a i Ha; apply Hidx in Ha; lia].
    rewrite decide_True by done. unfold fresh. rewrite !length_fmap. cbn [length].
    by rewrite Nat.add_succ_r.
Qed.

(** An update of a model that operations have reached. *)
Lemma device_ops_update ops snapshot m s0 :
  run_ops ops DeviceModel0 = Some (m, s0) →
  ∃ m' sigs, onStoreUpdated snapshot m = Some (m', sigs) ∧ indexed m' ∧
    ∀ a, entry_by a m' = match last_snap a snapshot with
                         | Some s => Some (new_entry s)
                         | None => entry_by a m
                         end.
Proof.
  intros Hm. destruct (run_ops_indexed ops DeviceModel0 eq_refl) as (m1 & s1 & Hm1 & Hi).
  rewrite Hm in Hm1. injection Hm1 as <- <-.
  eexists _, _. rewrite onStoreUpdated_spec by done. split_and!; [done|done|].
  intros a. rewrite entry_by_indexed by done. by apply update_entry_by.
Qed.
End entry.

(** ** Properties *)

(** C27. The model as a map: after any sequence of updates and resets no row access
    is out of range, and an update with any snapshot succeeds; afterwards each
    address finds the entry of the snapshot's last item for it, or what it found
    before when the snapshot does not name it; rows keep their places and
    addresses and new ones follow; and the model signals describe exactly the
    change of the number of rows. *)
Theorem device_model_lookup `{T : QtText} (ops : list device_op) (snapshot : list DeviceIntegrated) :
  ∃ m s0 m' sigs,
    run_ops ops DeviceModel0 = Some (m, s0) ∧
    onStoreUpdated snapshot m = Some (m', sigs) ∧
    (∀ a, entry_by a m' = match last_snap a snapshot with
                          | Some s => Some (new_entry s)
                          | None => entry_by a m
                          end) ∧
    (∀ A (f : DeviceEntry → A) dflt a,
      field_at f dflt (findIndexByIp a m') m' = Some (from_option f dflt (entry_by a m'))) ∧
    (de_ip <$> devices_ m) `prefix_of` (de_ip <$> devices_ m') ∧
    replay (Z.of_nat (length (devices_ m))) sigs = Some (Z.of_nat (length (devices_ m'))).
Proof.
  destruct (run_ops_indexed ops DeviceModel0 eq_refl) as (m & s0 & Hm & Hi).
  pose proof (onStoreUpdated_spec snapshot m Hi) as Hu. cbn zeta in Hu.
  eexists m, s0, _, _. split; [exact Hm|]. split; [exact Hu|]. cbn [devices_ byIp_]. split_and!.
  - intros a. rewrite entry_by_indexed by done. by apply update_entry_by.
  - intros A f dflt a. by apply field_at_entry.
  - rewrite fmap_app, refresh_ips. by eexists.
  - rewrite update_signals_replay, length_app, length_imap; [done|].
    intros a i Ha. destruct (indexed_ok m Hi a i Ha) as (e & He & _). by eapply lookup_lt_Some.
Qed.

(** An item whose address no other item has is the last one for it. *)
Lemma last_snap_unique `{T : QtText} (l : list DeviceIntegrated) d :
  NoDup ((λ d, fromStdString (ip d)) <$> l) → d ∈ l → last_snap (fromStdString (ip d)) l = Some d.
Proof.
  induction l as [|s l IH]; intros Hnd Hd; [by apply not_elem_of_nil in Hd|].
  rewrite fmap_cons in Hnd. apply NoDup_cons in Hnd as [Hs Hnd].
  apply elem_of_cons in Hd as [->|Hd].
  - rewrite last_snap_cons. destruct (last_snap _ l) as [s'|] eqn:Hl; [|by rewrite decide_True].
    apply last_Some_elem_of, list_elem_of_filter in Hl as [Heq Hin]. destruct Hs.
    apply list_elem_of_fmap. by exists s'.
  - rewrite last_snap_cons, IH by done. done.
Qed.

(** [getHistory] of the store at an address only one device has. *)
Lemma store_history_unique (st : DeviceStore) d :
  NoDup (ip <$> DeviceStore.devices_ st) → d ∈ DeviceStore.devices_ st →
  DeviceStore.getHistory (ip d) st = history d.
Proof.
  intros Hnd [i Hi]%list_elem_of_lookup. unfold DeviceStore.getHistory.
  destruct (index_where _ _) as [k|] eqn:Hk.
  - apply index_where_Some in Hk as (x & Hx & Hip%bool_decide_eq_true & _).
    assert (k = i) as ->; [|by rewrite Hi].
    eapply (NoDup_lookup _ k i (ip d) Hnd); rewrite list_lookup_fmap.
    + rewrite Hx. cbn. by rewrite Hip.
    + by rewrite Hi.
  - apply index_where_None in Hk. rewrite Forall_lookup in Hk. specialize (Hk i d Hi).
    by apply bool_decide_eq_false in Hk.
Qed.

(** The model shows the store: when the devices of a store have distinct
    addresses and their list reaches a model in any reachable state, every
    lookup QML makes by the address of a device returns what the store holds for
    it, its history included. *)
Theorem device_model_agrees `{T : QtText} (ops : list device_op) (st : DeviceStore)
    (m m' : DeviceModel) (s0 sigs : list device_signal) :
  run_ops ops DeviceModel0 = Some (m, s0) →
  NoDup ((λ d, fromStdString (ip d)) <$> snapshot st) →
  onStoreUpdated (snapshot st) m = Some (m', sigs) →
  ∀ d, d ∈ snapshot st →
    let a := fromStdString (ip d) in
    hasDevice a m' = true ∧
    cameraId a m' = Some (fromStdString (DeviceStore.cameraId d)) ∧
    cpu a m' = Some (DeviceStore.cpu d) ∧ memory a m' = Some (DeviceStore.memory d) ∧
    temp a m' = Some (DeviceStore.temp d) ∧
    getHistory a m' = Some (DeviceStore.getHistory (ip d) st).
Proof.
  intros Hm Hnd Hu d Hd. cbn zeta.
  destruct (device_ops_update ops (snapshot st) m s0 Hm) as (m2 & s2 & Hu2 & Hidx & He).
  rewrite Hu in Hu2. injection Hu2 as <- <-.
  specialize (He (fromStdString (ip d))). rewrite last_snap_unique in He by done.
  assert (NoDup (ip <$> DeviceStore.devices_ st)) as Hnd2.
  { eapply (NoDup_fmap_1 fromStdString). by rewrite <-list_fmap_compose. }
  rewrite store_history_unique by done.
  unfold cameraId, cpu, memory, temp, getHistory. rewrite !field_at_entry, !He by done.
  split_and!; try done. unfold hasDevice, findIndexByIp. rewrite index_z_nonneg.
  apply bool_decide_eq_true. unfold entry_by in He. by destruct (byIp_ m' !! _).
Qed.

Definition demo_device (a : string) : DeviceIntegrated := addSnapshot
  {| sn_timestamp := 1; sn_cpu := d_one; sn_memory := d_zero; sn_temp := d_zero; sn_uptime := 7 |}
  (set_ip a DeviceIntegrated0).

Definition demo_store : DeviceStore :=
  {| DeviceStore.devices_ := [demo_device "10.0.0.1"; demo_device "10.0.0.2"] |}.

Definition demo_before : option (DeviceModel * list device_signal) :=
  run_ops (T := RefText) [DStoreUpdated [demo_device "10.0.0.2"]] DeviceModel0.

Lemma device_model_agrees_witness :
  let m := default (DeviceModel0, []) demo_before in
  let m' := default (DeviceModel0, []) (onStoreUpdated (T := RefText) (snapshot demo_store) m.1) in
  findIndexByIp "10.0.0.2" m'.1 = 0%Z ∧
  getHistory "10.0.0.2" m'.1 = Some (DeviceStore.getHistory "10.0.0.2" demo_store) ∧
  DeviceStore.getHistory "10.0.0.2" demo_store ≠ [].
Proof.
  cbn zeta. split; [by vm_compute|]. split; [|by vm_compute].
  refine (proj2 (proj2 (proj2 (proj2 (proj2
    (device_model_agrees (T := RefText) [DStoreUpdated [demo_device "10.0.0.2"]] demo_store
      (default (DeviceModel0, []) demo_before).1
      (default (DeviceModel0, []) (onStoreUpdated (T := RefText) (snapshot demo_store)
         (default (DeviceModel0, []) demo_before).1)).1
      (default (DeviceModel0, []) demo_before).2
      (default (DeviceModel0, []) (onStoreUpdated (T := RefText) (snapshot demo_store)
         (default (DeviceModel0, []) demo_before).1)).2
      _ _ _ (demo_device "10.0.0.2") _)))))).
  - vm_compute. reflexivity.
  - apply (bool_decide_unpack _). vm_compute. exact I.
  - vm_compute. reflexivity.
  - apply list_elem_of_In. right. left. reflexivity.
Defined.
