(* ===== verification/UserModel.v ===== *)
(** * The user list (src/Qt/Back/Models/UserModel, src/Src/Domain/User.hpp)

    The rows of the admin page, with an index from user ids to rows.  They are
    replaced as a whole, by a snapshot of users or by the server's list of users
    that wait for approval. *)

From S2P Require Import Prelude Extern RowIndex.

(** ** Data *)

Inductive UserRole : Type := UR_User | UR_Admin | UR_Pending.

#[export] Instance UserRole_eq_dec : EqDecision UserRole.
Proof. solve_decision. Defined.

(** [lastLogin]: the [time_t] of the time point. *)
Record UserData : Type := {
  ud_userId : string;
  ud_username : string;
  ud_email : string;
  ud_role : UserRole;
  ud_isOnline : bool;
  ud_lastLogin : Z;
  ud_ipAddress : string;
  ud_activeCameras : Z
}.

Record UserEntry : Type := {
  ue_userId : QString;
  ue_username : QString;
  ue_email : QString;
  ue_role : QString;
  ue_isOnline : bool;
  ue_lastLogin : QDateTime;
  ue_ipAddress : QString;
  ue_activeCameras : Z
}.

Inductive user_signal : Type := UserModelReset | CountChanged.

Record UserModel : Type := {
  users_ : list UserEntry;
  byId_ : gmap QString nat
}.

Definition UserModel0 : UserModel := {| users_ := []; byId_ := ∅ |}.

(** ** Operations *)

(** Both lists are filled entry by entry, [byId_[entry.userId] = i]. *)
Definition of_rows (rows : list UserEntry) : UserModel :=
  {| users_ := rows; byId_ := row_index ue_userId rows |}.

Definition count (m : UserModel) : Z := Z.of_nat (length (users_ m)).

Definition clearAll (m : UserModel) : UserModel * list user_signal := (UserModel0, [UserModelReset; CountChanged]).

Definition findIndexByUserId (userId : QString) (m : UserModel) : Z := index_z (byId_ m !! userId).

(** [users_[idx]]; the inner [None]: out of range. *)
Definition user_field {A} (field : UserEntry → A) (dflt : A) (userId : QString) (m : UserModel) : option A :=
  let idx := findIndexByUserId userId m in
  if (idx <? 0)%Z then Some dflt else field <$> users_ m !! Z.to_nat idx.

Definition getUsernameById (userId : QString) (m : UserModel) : option QString := user_field ue_username "" userId m.

Definition isUserAdmin (userId : QString) (m : UserModel) : option bool :=
  user_field (λ u, bool_decide (ue_role u = "admin")) false userId m.

Section updates.
Context `{T : QtText, Q : QtJson, P : QtParse}.

Definition user_entry (data : UserData) : UserEntry := {|
  ue_userId := fromStdString (ud_userId data); ue_username := fromStdString (ud_username data);
  ue_email := fromStdString (ud_email data);
  ue_role := if decide (ud_role data = UR_Admin) then "admin" else "user";
  ue_isOnline := ud_isOnline data; ue_lastLogin := Some (ud_lastLogin data * 1000)%Z;
  ue_ipAddress := fromStdString (ud_ipAddress data); ue_activeCameras := ud_activeCameras data
|}.

Definition onStoreUpdated (snapshot : list UserData) (m : UserModel) : UserModel * list user_signal :=
  (of_rows (user_entry <$> snapshot), [UserModelReset; CountChanged]).

(** [ISODateWithMs], then the format of the server. *)
Definition parse_created (s : QString) : QDateTime :=
  match date_iso s with Some d => Some d | None => date_format s "yyyy-MM-dd HH:mm:ss" end.

Definition pending_entry (u : qobject) : UserEntry := {|
  ue_userId := q_string u "username"; ue_username := q_string u "username"; ue_email := q_string u "email";
  ue_role := "pending"; ue_isOnline := false; ue_lastLogin := parse_created (q_string u "created");
  ue_ipAddress := ""; ue_activeCameras := 0
|}.

Definition onPendingListReceived (json : QString) (m : UserModel) : UserModel * list user_signal :=
  match qjson_object json with
  | None => (m, [])
  | Some obj =>
      if negb (q_bool obj "success") then (m, [])
      else (of_rows (pending_entry <$> q_objects obj "users"), [UserModelReset; CountChanged])
  end.
End updates.

(** ** Lemmas *)

Definition user_indexed (m : UserModel) : Prop := byId_ m = row_index ue_userId (users_ m).

(** The last row with the id. *)
Definition last_user (userId : QString) (rows : list UserEntry) : option UserEntry :=
  last (filter (λ e, ue_userId e = userId) rows).

Lemma user_field_last {A} (f : UserEntry → A) d a m :
  user_indexed m → user_field f d a m = Some (from_option f d (last_user a (users_ m))).
Proof.
  intros Hm. unfold user_field, findIndexByUserId, last_user. rewrite <-row_index_entry, Hm.
  destruct (row_index ue_userId (users_ m) !! a) as [i|] eqn:Hi; cbn; [|done].
  rewrite (proj2 (Z.ltb_ge _ _)) by lia. rewrite Nat2Z.id.
  apply row_index_lookup in Hi as [(e & He & _) _]. by rewrite He.
Qed.

(** ** Runs *)

Inductive user_op : Type :=
| UserStore (snapshot : list UserData)
| PendingList (json : QString)
| UserClear.

Section runs.
Context `{T : QtText, Q : QtJson, P : QtParse}.

Definition user_exec (op : user_op) (m : UserModel) : UserModel * list user_signal :=
  match op with
  | UserStore s => onStoreUpdated s m
  | PendingList j => onPendingListReceived j m
  | UserClear => clearAll m
  end.

Definition user_run (ops : list user_op) (m : UserModel) : UserModel := foldl (λ m op, (user_exec op m).1) m ops.

Lemma user_exec_indexed op m : user_indexed m → user_indexed (user_exec op m).1.
Proof.
  intros Hm. destruct op as [s|j|]; cbn; [done| |done]. unfold onPendingListReceived.
  destruct (qjson_object j) as [o|]; [|done]. by destruct (q_bool o "success").
Qed.

Lemma user_run_indexed ops m : user_indexed m → user_indexed (user_run ops m).
Proof.
  revert m. induction ops as [|op ops IH]; intros m Hm; [done|]. cbn. by apply IH, user_exec_indexed.
Qed.
End runs.

(** ** Properties *)

(** The user list: in every reachable state no lookup is out of range, and a
    lookup by id sees the last row with that id.  A list of pending users
    replaces all rows, in order, when its document is an object with "success"
    and changes nothing otherwise; a pending user is never an admin, and when it
    was created is read in ISO form or else in the server's.  A snapshot gives
    one row per user, whose role is admin exactly for admins. *)
Theorem user_model_lists `{T : QtText, Q : QtJson, P : QtParse} (ops : list user_op) (userId json : QString)
    (snapshot : list UserData) :
  let m := user_run ops UserModel0 in
  let row := last_user userId (users_ m) in
  getUsernameById userId m = Some (from_option ue_username "" row) ∧
  isUserAdmin userId m = Some (from_option (λ u, bool_decide (ue_role u = "admin")) false row) ∧
  (onPendingListReceived json m = (m, []) ∨
   ∃ obj, qjson_object json = Some obj ∧ q_bool obj "success" = true ∧
     let m' := (onPendingListReceived json m).1 in
     users_ m' = pending_entry <$> q_objects obj "users" ∧ isUserAdmin userId m' = Some false ∧
     ∀ i u e, q_objects obj "users" !! i = Some u → users_ m' !! i = Some e →
       date_iso (q_string u "created") = None →
       ue_lastLogin e = date_format (q_string u "created") "yyyy-MM-dd HH:mm:ss") ∧
  (let m' := (onStoreUpdated snapshot m).1 in
   users_ m' = user_entry <$> snapshot ∧
   isUserAdmin userId m' = Some (from_option (λ d, bool_decide (ud_role d = UR_Admin)) false
     (last (filter (λ d, fromStdString (ud_userId d) = userId) snapshot)))).
Proof.
  cbn zeta. assert (user_indexed (user_run ops UserModel0)) as Hm by (by apply user_run_indexed).
  generalize dependent (user_run ops UserModel0). intros m Hm. split_and!.
  - by apply user_field_last.
  - by apply user_field_last.
  - unfold onPendingListReceived. destruct (qjson_object json) as [o|]; [|by left].
    destruct (q_bool o "success") eqn:Hs; [|by left]. right. exists o. split_and!; [done|done|done| |].
    + unfold isUserAdmin. rewrite user_field_last by done. f_equal.
      destruct (last_user userId _) as [e|] eqn:He; [|done]. cbn. unfold last_user in He.
      apply last_Some_elem_of in He. apply list_elem_of_filter in He as [_ He]. cbn in He.
      apply list_elem_of_fmap in He as (u & -> & _). done.
    + cbn. intros i u e Hu. rewrite list_lookup_fmap, Hu. intros [= <-] Hd. cbn. unfold parse_created. by rewrite Hd.
  - done.
  - unfold isUserAdmin. rewrite user_field_last by done. f_equal. unfold last_user. cbn.
    induction snapshot as [|d l IH] using rev_ind; [done|].
    rewrite fmap_app, !filter_app, !last_app. cbn.
    case_decide; cbn; [|done]. unfold user_entry. cbn. by repeat case_decide; case_bool_decide.
Qed.
