(* ===== verification/ListModels.v ===== *)
(** * What QML reads from the list models

    [rowCount], [data] and [roleNames] of CameraModel, DeviceModel and UserModel:
    the values of a row by role number, as typed variants.  The three are
    instances of one interface, class [ListModel], with its law [ListModelLaws]. *)

From S2P Require Import Prelude Extern Variant CameraStore DeviceStore CameraModel DeviceModel UserModel.

(** ** The interface *)

(** A model with rows of one type and an enumeration of roles, in the order of the
    declaration; [role_type] is what QML may expect of a role. *)
Class ListModel (M : Type) : Type := {
  row_type : Type;
  role : Type;
  role_enum : list role;
  model_rows : M → list row_type;
  role_value : role → row_type → QVariant;
  role_names : list (role * string);
  role_type : role → qtype
}.

(** The table of the names has every role of the enumeration once, and no name twice. *)
Class ListModelLaws {M} (L : ListModel M) : Prop := {
  role_value_typed (r : role) (e : row_type) : type_of (role_value r e) = Some (role_type r);
  role_enum_NoDup : NoDup role_enum;
  role_enum_all (r : role) : r ∈ role_enum;
  role_names_all (r : role) : r ∈ role_names.*1;
  role_names_roles : NoDup role_names.*1;
  role_names_names : NoDup role_names.*2
}.

(** [Qt::UserRole + 1], the number of the first role. *)
Definition first_role : Z := 257.

Section list_model.
Context {M : Type} `{L : !ListModel M, E : !EqDecision role}.

(** The number of a role: its place in the enumeration. *)
Definition role_number (r : role) : Z :=
  first_role + Z.of_nat (default 0 (fst <$> list_find (λ x, x = r) role_enum)).

Definition role_of (n : Z) : option role :=
  if (first_role <=? n)%Z then role_enum !! Z.to_nat (n - first_role) else None.

(** [parent] is valid for a child of a row, which a list has not. *)
Definition rowCount (parent_valid : bool) (m : M) : Z :=
  if parent_valid then 0%Z else Z.of_nat (length (model_rows m)).

(** [index]: the row of a valid index. *)
Definition data (index : option nat) (n : Z) (m : M) : QVariant :=
  match index with
  | None => QVInvalid
  | Some i =>
      match model_rows m !! i, role_of n with
      | Some e, Some r => role_value r e
      | _, _ => QVInvalid
      end
  end.

Definition roleNames : list (Z * string) := (λ x, (role_number x.1, x.2)) <$> role_names.

(** What QML reads as [model.name] in a row: [data] at the number with this name. *)
Definition by_name (index : option nat) (name : string) (m : M) : QVariant :=
  match list_find (λ x, x.2 = name) roleNames with
  | Some (_, (n, _)) => data index n m
  | None => QVInvalid
  end.
End list_model.

(** ** The three models *)

Definition camera_value (r : CameraModel.Role) (cam : CameraEntry) : QVariant :=
  match r with
  | SlotIdRole => QVInt (slotId cam)
  | TitleRole => QVString (title cam)
  | IsOnlineRole => QVBool (CameraModel.isOnline cam)
  | DescriptionRole => QVString (description cam)
  | CardWidthRole => QVInt (CameraModel.width cam)
  | CardHeightRole => QVInt (CameraModel.height cam)
  | CameraTypeRole => QVString (cameraType cam)
  | SplitCountRole => QVInt (splitCount cam)
  | CropRectRole => QVRectF (cropRect cam)
  | SplitDirectionRole =>
      QVInt (match splitDirection cam with SD_None => 0 | SD_Col => 1 | SD_Row => 2 | SD_Grid => 3 end)
  | CameraIdRole => QVString (CameraModel.cameraId cam)
  end.

Definition camera_role_names : list (CameraModel.Role * string) :=
  [(SlotIdRole, "slotId"); (TitleRole, "title"); (IsOnlineRole, "isOnline"); (DescriptionRole, "description");
   (CardWidthRole, "cardWidth"); (CardHeightRole, "cardHeight"); (CameraTypeRole, "cameraType");
   (SplitCountRole, "splitCount"); (CropRectRole, "cropRect"); (SplitDirectionRole, "splitDirection");
   (CameraIdRole, "cameraId")].

Definition camera_role_type (r : CameraModel.Role) : qtype :=
  match r with
  | SlotIdRole | CardWidthRole | CardHeightRole | SplitCountRole | SplitDirectionRole => TInt
  | TitleRole | DescriptionRole | CameraTypeRole | CameraIdRole => TString
  | IsOnlineRole => TBool
  | CropRectRole => TRectF
  end.

Definition camera_roles : list CameraModel.Role :=
  [SlotIdRole; TitleRole; IsOnlineRole; DescriptionRole; CardWidthRole; CardHeightRole; CameraTypeRole;
   SplitCountRole; CropRectRole; SplitDirectionRole; CameraIdRole].

#[export] Instance camera_list : ListModel CameraModel := {|
  role_enum := camera_roles; model_rows := cameras_; role_value := camera_value;
  role_names := camera_role_names; role_type := camera_role_type
|}.

Inductive DeviceRole : Type :=
| DR_Ip | DR_CameraId | DR_Type | DR_IsOnline | DR_Cpu | DR_Memory | DR_Temp | DR_Uptime | DR_HasMotor
| DR_HasIr | DR_HasHeater.

#[export] Instance DeviceRole_eq_dec : EqDecision DeviceRole.
Proof. solve_decision. Defined.

Definition device_value (r : DeviceRole) (d : DeviceEntry) : QVariant :=
  match r with
  | DR_Ip => QVString (de_ip d)
  | DR_CameraId => QVString (de_cameraId d)
  | DR_Type => QVString (de_type d)
  | DR_IsOnline => QVBool (de_isOnline d)
  | DR_Cpu => QVDouble (de_cpu d)
  | DR_Memory => QVDouble (de_memory d)
  | DR_Temp => QVDouble (de_temp d)
  | DR_Uptime => QVInt (de_uptime d)
  | DR_HasMotor => QVBool (de_hasMotor d)
  | DR_HasIr => QVBool (de_hasIr d)
  | DR_HasHeater => QVBool (de_hasHeater d)
  end.

Definition device_role_names : list (DeviceRole * string) :=
  [(DR_Ip, "ip"); (DR_CameraId, "cameraId"); (DR_Type, "type"); (DR_IsOnline, "isOnline"); (DR_Cpu, "cpu");
   (DR_Memory, "memory"); (DR_Temp, "temp"); (DR_Uptime, "uptime"); (DR_HasMotor, "hasMotor");
   (DR_HasIr, "hasIr"); (DR_HasHeater, "hasHeater")].

Definition device_role_type (r : DeviceRole) : qtype :=
  match r with
  | DR_Ip | DR_CameraId | DR_Type => TString
  | DR_IsOnline | DR_HasMotor | DR_HasIr | DR_HasHeater => TBool
  | DR_Cpu | DR_Memory | DR_Temp => TDouble
  | DR_Uptime => TInt
  end.

Definition device_roles : list DeviceRole :=
  [DR_Ip; DR_CameraId; DR_Type; DR_IsOnline; DR_Cpu; DR_Memory; DR_Temp; DR_Uptime; DR_HasMotor; DR_HasIr;
   DR_HasHeater].

#[export] Instance device_list : ListModel DeviceModel := {|
  role_enum := device_roles; model_rows := DeviceModel.devices_; role_value := device_value;
  role_names := device_role_names; role_type := device_role_type
|}.

Inductive UserRoles : Type :=
| UR_Id | UR_Username | UR_Email | UR_Role | UR_IsOnline | UR_LastLogin | UR_IpAddress | UR_ActiveCameras.

#[export] Instance UserRoles_eq_dec : EqDecision UserRoles.
Proof. solve_decision. Defined.

Definition user_value (r : UserRoles) (u : UserEntry) : QVariant :=
  match r with
  | UR_Id => QVString (ue_userId u)
  | UR_Username => QVString (ue_username u)
  | UR_Email => QVString (ue_email u)
  | UR_Role => QVString (ue_role u)
  | UR_IsOnline => QVBool (ue_isOnline u)
  | UR_LastLogin => QVDateTime (ue_lastLogin u)
  | UR_IpAddress => QVString (ue_ipAddress u)
  | UR_ActiveCameras => QVInt (ue_activeCameras u)
  end.

Definition user_role_names : list (UserRoles * string) :=
  [(UR_Id, "userId"); (UR_Username, "username"); (UR_Email, "email"); (UR_Role, "role");
   (UR_IsOnline, "isOnline"); (UR_LastLogin, "lastLogin"); (UR_IpAddress, "ipAddress");
   (UR_ActiveCameras, "activeCameras")].

Definition user_role_type (r : UserRoles) : qtype :=
  match r with
  | UR_IsOnline => TBool
  | UR_LastLogin => TDateTime
  | UR_ActiveCameras => TInt
  | _ => TString
  end.

Definition user_roles : list UserRoles :=
  [UR_Id; UR_Username; UR_Email; UR_Role; UR_IsOnline; UR_LastLogin; UR_IpAddress; UR_ActiveCameras].

#[export] Instance user_list : ListModel UserModel := {|
  role_enum := user_roles; model_rows := users_; role_value := user_value; role_names := user_role_names;
  role_type := user_role_type
|}.

(** ** The laws *)

#[export] Instance camera_list_laws : ListModelLaws camera_list.
Proof. split; [by intros [] e|by_decide|intros []; by_decide|intros []; by_decide|by_decide|by_decide]. Qed.

#[export] Instance device_list_laws : ListModelLaws device_list.
Proof. split; [by intros [] e|by_decide|intros []; by_decide|intros []; by_decide|by_decide|by_decide]. Qed.

#[export] Instance user_list_laws : ListModelLaws user_list.
Proof. split; [by intros [] e|by_decide|intros []; by_decide|intros []; by_decide|by_decide|by_decide]. Qed.

Section typed.
Context {M : Type} (L : ListModel M) `{!EqDecision role, !ListModelLaws L}.

Lemma role_of_number (r : role) : role_of (role_number r) = Some r.
Proof.
  unfold role_of, role_number. destruct (list_find_elem_of (λ x, x = r) role_enum r (role_enum_all r) eq_refl) as [[i x] Hf].
  rewrite Hf. apply list_find_Some in Hf as (Hi & -> & _). cbn. rewrite (proj2 (Z.leb_le _ _)) by (unfold first_role; lia).
  by replace (Z.to_nat _) with i by (unfold first_role; lia).
Qed.

Lemma role_number_inj (r1 r2 : role) : role_number r1 = role_number r2 → r1 = r2.
Proof. intros Hn. apply (inj Some). by rewrite <-!role_of_number, Hn. Qed.

Lemma roleNames_numbers : roleNames.*1 = role_number <$> role_names.*1.
Proof. unfold roleNames. by rewrite <-!list_fmap_compose. Qed.

(** The table as a map from names to roles. *)
Definition role_named (name : string) : option role :=
  '(_, (n, _)) ← list_find (λ x, x.2 = name) roleNames; role_of n.

Lemma by_name_role m i e name :
  model_rows m !! i = Some e →
  by_name (Some i) name m = from_option (λ r, role_value r e) QVInvalid (role_named name).
Proof.
  intros He. unfold by_name, role_named. destruct (list_find _ _) as [[k [n x]]|]; [|done]. cbn. rewrite He.
  by destruct (role_of n).
Qed.
End typed.

(** What a typed model gives its readers. *)
Definition well_typed {M} (L : ListModel M) `{!EqDecision role} : Prop :=
  (∀ m index n,
     type_of (data index n m) =
     match index, role_of n with
     | Some i, Some r => if decide ((Z.of_nat i < rowCount false m)%Z) then Some (role_type r) else None
     | _, _ => None
     end) ∧
  NoDup roleNames.*1 ∧ NoDup roleNames.*2 ∧ (∀ n, n ∈ roleNames.*1 ↔ is_Some (role_of n)).

Lemma model_well_typed {M} (L : ListModel M) `{!EqDecision role, !ListModelLaws L} : well_typed L.
Proof.
  split_and!.
  - intros m [i|] n; [|done]. unfold data, rowCount. destruct (role_of n) as [r|]; [|by destruct (model_rows m !! i)].
    destruct (model_rows m !! i) as [e|] eqn:He.
    + rewrite role_value_typed. apply lookup_lt_Some in He. by rewrite decide_True by lia.
    + apply lookup_ge_None in He. by rewrite decide_False by lia.
  - rewrite roleNames_numbers. apply NoDup_fmap_2_strong; [|apply role_names_roles].
    intros r1 r2 _ _. apply role_number_inj. done.
  - unfold roleNames. rewrite <-list_fmap_compose. apply role_names_names.
  - intros n. rewrite roleNames_numbers, list_elem_of_fmap. split.
    + intros (r & -> & _). rewrite role_of_number; [by eexists|done].
    + intros [r Hr]. exists r. split; [|apply role_names_all]. unfold role_of in Hr. unfold role_number.
      destruct (first_role <=? n)%Z eqn:Hn; [|done]. apply Z.leb_le in Hn.
      destruct (list_find_elem_of (λ x, x = r) role_enum r (role_enum_all r) eq_refl) as [[i x] Hf].
      rewrite Hf. apply list_find_Some in Hf as (Hi & -> & _). cbn.
      pose proof (NoDup_lookup _ _ _ _ role_enum_NoDup Hi Hr). lia.
Qed.

(** The names QML can read in a row are those of the table, and each gives this value. *)
Definition shows {M} (L : ListModel M) `{!EqDecision role} (table : list (string * (row_type → QVariant))) : Prop :=
  roleNames.*2 = table.*1 ∧
  ∀ m i e, model_rows m !! i = Some e → Forall (λ x, by_name (Some i) x.1 m = x.2 e) table.

Lemma shows_by_role {M} (L : ListModel M) `{!EqDecision role} (table : list (string * (row_type → QVariant))) :
  roleNames.*2 = table.*1 →
  (∀ e, Forall (λ x, from_option (λ r, role_value r e) QVInvalid (role_named L x.1) = x.2 e) table) →
  shows L table.
Proof.
  intros Hn Ht. split; [done|]. intros m i e He. eapply Forall_impl; [apply (Ht e)|]. intros x Hx.
  by rewrite (by_name_role _ _ _ _ _ He).
Qed.

(** ** Properties *)

(** C30. What QML reads from a list model: for the cameras, the devices and the users,
    [data] returns a value of the type of the role exactly for a row below
    [rowCount] and a role of the model, and an invalid variant for every other index
    or number; [roleNames] gives each role of the enumeration, numbered from
    [Qt::UserRole + 1], exactly one name, all different; and reading a row by name
    gives the field of that row the name stands for, for every one of the names. *)
Theorem model_data_typed :
  (well_typed camera_list ∧ well_typed device_list ∧ well_typed user_list) ∧
  shows camera_list
    [("slotId", λ c, QVInt (slotId c)); ("title", λ c, QVString (title c));
     ("isOnline", λ c, QVBool (CameraModel.isOnline c)); ("description", λ c, QVString (description c));
     ("cardWidth", λ c, QVInt (CameraModel.width c)); ("cardHeight", λ c, QVInt (CameraModel.height c));
     ("cameraType", λ c, QVString (cameraType c)); ("splitCount", λ c, QVInt (splitCount c));
     ("cropRect", λ c, QVRectF (cropRect c));
     ("splitDirection", λ c, QVInt (match splitDirection c with SD_None => 0 | SD_Col => 1 | SD_Row => 2 | SD_Grid => 3 end));
     ("cameraId", λ c, QVString (CameraModel.cameraId c))] ∧
  shows device_list
    [("ip", λ d, QVString (de_ip d)); ("cameraId", λ d, QVString (de_cameraId d));
     ("type", λ d, QVString (de_type d)); ("isOnline", λ d, QVBool (de_isOnline d));
     ("cpu", λ d, QVDouble (de_cpu d)); ("memory", λ d, QVDouble (de_memory d));
     ("temp", λ d, QVDouble (de_temp d)); ("uptime", λ d, QVInt (de_uptime d));
     ("hasMotor", λ d, QVBool (de_hasMotor d)); ("hasIr", λ d, QVBool (de_hasIr d));
     ("hasHeater", λ d, QVBool (de_hasHeater d))] ∧
  shows user_list
    [("userId", λ u, QVString (ue_userId u)); ("username", λ u, QVString (ue_username u));
     ("email", λ u, QVString (ue_email u)); ("role", λ u, QVString (ue_role u));
     ("isOnline", λ u, QVBool (ue_isOnline u)); ("lastLogin", λ u, QVDateTime (ue_lastLogin u));
     ("ipAddress", λ u, QVString (ue_ipAddress u)); ("activeCameras", λ u, QVInt (ue_activeCameras u))].
Proof.
  split; [split; [|split]; exact (model_well_typed _)|].
  split_and!; apply shows_by_role; try reflexivity; intros e; repeat constructor.
Qed.
