(* ===== verification/Settings.v ===== *)
(** * Application settings (src/Qt/Back/Controllers/SettingsController)

    The user's settings live in a [QSettings] store and are read and written as
    variants; the deployment's settings come from a JSON file.  The store and the
    file system are arguments. *)

From S2P Require Import Prelude Extern Variant.

(** ** Parameters *)

(** The contents of a [QSettings] store. *)
Abbreviation Store := (gmap string QVariant).

(** [QFile::exists], a file's text ([None]: it cannot be opened), and a path in the
    directory of the program. *)
Class QtFiles : Type := {
  file_exists : QString → bool;
  file_text : QString → option QString;
  app_path : QString → QString
}.

(** ** State *)
Record SettingsController : Type := {
  darkMode_ : bool;
  alarmSound_ : bool;
  defaultGrid_ : Z;
  logLevel_ : QString;
  resolutions_ : list QString;
  defaultResolution_ : QString;
  serverIp_ : QString;
  fps_ : Z
}.

Definition Settings0 : SettingsController := {|
  darkMode_ := true; alarmSound_ := true; defaultGrid_ := 4; logLevel_ := "INFO"; resolutions_ := [];
  defaultResolution_ := ""; serverIp_ := "192.168.0.58"; fps_ := 30
|}.

Inductive settings_signal : Type :=
| DarkModeChanged | AlarmSoundChanged | DefaultGridChanged | LogLevelChanged | DefaultResolutionChanged
| ServerIpChanged | FpsChanged.

(** The settings of the user, in the order of [save]. *)
Definition with_user (dark sound : bool) (grid : Z) (log : QString) (c : SettingsController) : SettingsController := {|
  darkMode_ := dark; alarmSound_ := sound; defaultGrid_ := grid; logLevel_ := log; resolutions_ := resolutions_ c;
  defaultResolution_ := defaultResolution_ c; serverIp_ := serverIp_ c; fps_ := fps_ c
|}.

Definition with_resolution (l : list QString) (r : QString) (c : SettingsController) : SettingsController := {|
  darkMode_ := darkMode_ c; alarmSound_ := alarmSound_ c; defaultGrid_ := defaultGrid_ c; logLevel_ := logLevel_ c;
  resolutions_ := l; defaultResolution_ := r; serverIp_ := serverIp_ c; fps_ := fps_ c
|}.

Definition with_server (ip : QString) (fps : Z) (c : SettingsController) : SettingsController := {|
  darkMode_ := darkMode_ c; alarmSound_ := alarmSound_ c; defaultGrid_ := defaultGrid_ c; logLevel_ := logLevel_ c;
  resolutions_ := resolutions_ c; defaultResolution_ := defaultResolution_ c; serverIp_ := ip; fps_ := fps
|}.

(** ** Operations *)

Definition setDarkMode (v : bool) (c : SettingsController) : SettingsController * list settings_signal :=
  if decide (darkMode_ c = v) then (c, [])
  else (with_user v (alarmSound_ c) (defaultGrid_ c) (logLevel_ c) c, [DarkModeChanged]).

Definition setAlarmSound (v : bool) (c : SettingsController) : SettingsController * list settings_signal :=
  if decide (alarmSound_ c = v) then (c, [])
  else (with_user (darkMode_ c) v (defaultGrid_ c) (logLevel_ c) c, [AlarmSoundChanged]).

Definition setDefaultGrid (v : Z) (c : SettingsController) : SettingsController * list settings_signal :=
  if decide (defaultGrid_ c = v) then (c, [])
  else (with_user (darkMode_ c) (alarmSound_ c) v (logLevel_ c) c, [DefaultGridChanged]).

Definition setLogLevel (v : QString) (c : SettingsController) : SettingsController * list settings_signal :=
  if decide (logLevel_ c = v) then (c, [])
  else (with_user (darkMode_ c) (alarmSound_ c) (defaultGrid_ c) v c, [LogLevelChanged]).

Definition setDefaultResolution (v : QString) (c : SettingsController) : SettingsController * list settings_signal :=
  if decide (defaultResolution_ c = v) then (c, [])
  else (with_resolution (resolutions_ c) v c, [DefaultResolutionChanged]).

Section store.
Context `{V : QtVariant, Q : QtJson, P : QtParse, F : QtFiles}.

(** [s.setValue(key, v)] and [s.value(key, dflt)] *)
Definition setValue (key : string) (v : QVariant) (s : Store) : Store := <[key := persisted v]> s.
Definition value (key : string) (dflt : QVariant) (s : Store) : QVariant := default dflt (s !! key).

Definition save (c : SettingsController) (s : Store) : Store :=
  setValue "ui/logLevel" (QVString (logLevel_ c))
    (setValue "ui/defaultGrid" (QVInt (defaultGrid_ c))
      (setValue "ui/alarmSound" (QVBool (alarmSound_ c))
        (setValue "ui/darkMode" (QVBool (darkMode_ c)) s))).

Definition settings_path : QString :=
  if file_exists "Settings.json" then "Settings.json" else app_path "Settings.json".

(** The members of the file that are there. *)
Definition load_server (obj : qobject) (c : SettingsController) : SettingsController * list settings_signal :=
  if q_contains obj "ServerIP" then (with_server (q_string obj "ServerIP") (fps_ c) c, [ServerIpChanged]) else (c, []).

Definition load_fps (obj : qobject) (c : SettingsController) : SettingsController * list settings_signal :=
  if q_contains obj "FPS" then
    let fps := to_int (q_string obj "FPS") in
    (with_server (serverIp_ c) (if (fps <=? 0)%Z then 30%Z else fps) c, [FpsChanged])
  else (c, []).

Definition load_resolutions (obj : qobject) (c : SettingsController) : SettingsController :=
  if q_contains obj "Resolution" then with_resolution (q_strings obj "Resolution") (defaultResolution_ c) c else c.

Definition load_file (c : SettingsController) : SettingsController * list settings_signal :=
  match file_text settings_path with
  | None => (c, [])
  | Some data =>
      match qjson_object data with
      | None => (c, [])
      | Some obj =>
          let '(c1, s1) := load_server obj c in
          let '(c2, s2) := load_fps obj c1 in
          (load_resolutions obj c2, s1 ++ s2)
      end
  end.

(** The default resolution: the stored one if it is listed, or else the first; with
    no list, the stored one or else "192.168.0.58". *)
Definition load_default (s : Store) (c : SettingsController) : SettingsController :=
  let dflt := match resolutions_ c with [] => "192.168.0.58" | r :: _ => r end in
  let r := v_toString (value "ui/defaultResolution" (QVString dflt) s) in
  match resolutions_ c with
  | first :: _ => with_resolution (resolutions_ c) (if decide (r ∈ resolutions_ c) then r else first) c
  | [] => with_resolution [] r c
  end.

Definition load (s : Store) (c : SettingsController) : SettingsController * list settings_signal :=
  let c1 := with_user (v_toBool (value "ui/darkMode" (QVBool false) s))
                      (v_toBool (value "ui/alarmSound" (QVBool true) s))
                      (v_toInt (value "ui/defaultGrid" (QVInt 4) s))
                      (v_toString (value "ui/logLevel" (QVString "INFO") s)) c in
  let '(c2, sigs) := load_file c1 in
  (load_default s c2, sigs).

(** The constructor. *)
Definition SettingsController_ctor (s : Store) : SettingsController := (load s Settings0).1.

Inductive settings_op : Type :=
| SetDarkMode (v : bool) | SetAlarmSound (v : bool) | SetDefaultGrid (v : Z) | SetLogLevel (v : QString)
| SetDefaultResolution (v : QString) | Save | Load.

Definition settings_exec (op : settings_op) (y : SettingsController * Store) : (SettingsController * Store) * list settings_signal :=
  let '(c, s) := y in
  match op with
  | SetDarkMode v => let '(c', l) := setDarkMode v c in ((c', s), l)
  | SetAlarmSound v => let '(c', l) := setAlarmSound v c in ((c', s), l)
  | SetDefaultGrid v => let '(c', l) := setDefaultGrid v c in ((c', s), l)
  | SetLogLevel v => let '(c', l) := setLogLevel v c in ((c', s), l)
  | SetDefaultResolution v => let '(c', l) := setDefaultResolution v c in ((c', s), l)
  | Save => ((c, save c s), [])
  | Load => let '(c', l) := load s c in ((c', s), l)
  end.

Definition settings_run (ops : list settings_op) (y : SettingsController * Store) : SettingsController * Store :=
  foldl (λ y op, (settings_exec op y).1) y ops.

(** ** Lemmas *)

Lemma load_default_frame s c :
  (darkMode_ (load_default s c), alarmSound_ (load_default s c), defaultGrid_ (load_default s c),
   logLevel_ (load_default s c), resolutions_ (load_default s c), serverIp_ (load_default s c),
   fps_ (load_default s c))
  = (darkMode_ c, alarmSound_ c, defaultGrid_ c, logLevel_ c, resolutions_ c, serverIp_ c, fps_ c).
Proof. unfold load_default. destruct c as [? ? ? ? [|r l] ? ? ?]; done. Qed.

Lemma load_default_listed s c :
  resolutions_ c ≠ [] → defaultResolution_ (load_default s c) ∈ resolutions_ c.
Proof.
  unfold load_default. destruct (resolutions_ c) as [|r l] eqn:Hr; [done|]. intros _.
  cbn [defaultResolution_ with_resolution]. case_decide; [done|left].
Qed.

Lemma load_file_frame c :
  (darkMode_ (load_file c).1, alarmSound_ (load_file c).1, defaultGrid_ (load_file c).1, logLevel_ (load_file c).1)
  = (darkMode_ c, alarmSound_ c, defaultGrid_ c, logLevel_ c) ∧ ((0 < fps_ c)%Z → (0 < fps_ (load_file c).1)%Z).
Proof.
  unfold load_file. destruct (file_text _) as [t|]; [|done]. destruct (qjson_object t) as [o|]; [|done].
  unfold load_server, load_fps, load_resolutions.
  destruct (q_contains o "ServerIP"), (q_contains o "FPS"), (q_contains o "Resolution"); cbn; (split; [done|]);
    try done; intros _; destruct (_ <=? 0)%Z eqn:E; lia.
Qed.

Lemma load_spec s c :
  let c' := (load s c).1 in
  darkMode_ c' = v_toBool (value "ui/darkMode" (QVBool false) s) ∧
  alarmSound_ c' = v_toBool (value "ui/alarmSound" (QVBool true) s) ∧
  defaultGrid_ c' = v_toInt (value "ui/defaultGrid" (QVInt 4) s) ∧
  logLevel_ c' = v_toString (value "ui/logLevel" (QVString "INFO") s) ∧
  ((0 < fps_ c)%Z → (0 < fps_ c')%Z) ∧
  (resolutions_ c' ≠ [] → defaultResolution_ c' ∈ resolutions_ c').
Proof.
  cbn zeta. unfold load.
  match goal with |- context [load_file ?x] => pose proof (load_file_frame x) as [Hf Hp]; destruct (load_file x) as [c2 sigs] end.
  cbn [fst] in *. injection Hf as H1 H2 H3 H4.
  pose proof (load_default_frame s c2) as Hd. injection Hd as D1 D2 D3 D4 D5 D6 D7.
  rewrite D1, D2, D3, D4, D5, D7, H1, H2, H3, H4. cbn [fps_ with_user] in Hp. split_and!; try done.
  by apply load_default_listed.
Qed.

Lemma run_fps ops y : (0 < fps_ y.1)%Z → (0 < fps_ (settings_run ops y).1)%Z.
Proof.
  revert y. induction ops as [|op ops IH]; intros [c s] Hc; [done|]. cbn. apply IH. cbn in Hc |- *.
  destruct op; cbn; try done;
    try (unfold setDarkMode, setAlarmSound, setDefaultGrid, setLogLevel, setDefaultResolution; by case_decide).
  destruct (load_spec s c) as (_ & _ & _ & _ & H & _). destruct (load s c). by apply H.
Qed.
End store.

(** Lookups of literal keys. *)
Ltac lookup_keys := repeat first [rewrite lookup_insert_eq | rewrite lookup_insert_ne by discriminate].

(** ** Properties *)

(** C39. Settings survive a restart: after any use of the controller, [save] and a new
    controller on the store give back the theme, the alarm sound, the grid and
    the log level, whatever the settings file says; a second save changes
    nothing of the first.  The default resolution is not saved: the store keeps what
    it had for it, and when the file lists resolutions the new controller has the
    stored one, read as text, if it is listed, and the first of the list if it is
    not or if nothing is stored. *)
Theorem settings_roundtrip `{V : QtVariant, L : !QtVariantLaws V, Q : QtJson, P : QtParse, F : QtFiles}
    (ops : list settings_op) (c0 : SettingsController) (s0 : Store) :
  let '(c, s) := settings_run ops (c0, s0) in
  let s' := save c s in
  let c' := SettingsController_ctor s' in
  darkMode_ c' = darkMode_ c ∧ alarmSound_ c' = alarmSound_ c ∧ defaultGrid_ c' = defaultGrid_ c ∧
  logLevel_ c' = logLevel_ c ∧ save c' s' = s' ∧
  s' !! "ui/defaultResolution" = s !! "ui/defaultResolution" ∧
  (∀ first rest, resolutions_ c' = first :: rest →
     defaultResolution_ c' = match s !! "ui/defaultResolution" with
                             | Some v => if decide (v_toString v ∈ first :: rest) then v_toString v else first
                             | None => first
                             end).
Proof.
  destruct (settings_run ops (c0, s0)) as [c s]. cbn zeta. unfold SettingsController_ctor.
  destruct (load_spec (save c s) Settings0) as (H1 & H2 & H3 & H4 & _ & _).
  assert (value "ui/darkMode" (QVBool false) (save c s) = persisted (QVBool (darkMode_ c)) ∧
          value "ui/alarmSound" (QVBool true) (save c s) = persisted (QVBool (alarmSound_ c)) ∧
          value "ui/defaultGrid" (QVInt 4) (save c s) = persisted (QVInt (defaultGrid_ c)) ∧
          value "ui/logLevel" (QVString "INFO") (save c s) = persisted (QVString (logLevel_ c))) as (V1 & V2 & V3 & V4).
  { unfold value, save, setValue. split_and!; by lookup_keys. }
  rewrite V1, persisted_bool in H1. rewrite V2, persisted_bool in H2. rewrite V3, persisted_int in H3.
  rewrite V4, persisted_string in H4. split_and!; try done.
  - unfold save at 1. rewrite H1, H2, H3, H4. unfold setValue.
    by rewrite !insert_id by (unfold save, setValue; lookup_keys; done).
  - unfold save, setValue. by lookup_keys.
  - intros first rest. unfold load. destruct (load_file _) as [c2 sigs]. cbn [fst].
    pose proof (load_default_frame (save c s) c2) as Hd. injection Hd as _ _ _ _ D5 _ _. rewrite D5.
    intros Hr. unfold load_default. rewrite Hr. cbn [defaultResolution_ with_resolution].
    assert (value "ui/defaultResolution" (QVString first) (save c s) = default (QVString first) (s !! "ui/defaultResolution"))
      as -> by (unfold value, save, setValue; by lookup_keys).
    destruct (s !! "ui/defaultResolution") as [v|]; [done|]. cbn [default]. rewrite toString_string. by case_decide.
Qed.

(** *** Example: a settings file with a list of resolutions and a numeric rate *)

Definition demo_settings_doc : list (string * jval) :=
  [("Resolution", JArr [JStr "3840x2160"; JStr "1920x1080"]); ("FPS", JInt 60); ("ServerIP", JStr "10.0.0.9")].

Definition RefFiles : QtFiles := {|
  file_exists p := bool_decide (p = "Settings.json");
  file_text p := if decide (p = "Settings.json") then Some "doc" else None;
  app_path p := "/app/" +:+ p
|}.

Definition demo_settings_json : QtJson := RefQtJson [("doc", demo_settings_doc)].

Definition demo_settings_run (s : Store) : SettingsController * Store :=
  settings_run (V := RefVariant) (Q := demo_settings_json) (P := RefParse [] [] []) (F := RefFiles)
    [Load; SetDarkMode true; SetDefaultGrid 9; SetDefaultResolution "1920x1080"] (Settings0, s).

Definition demo_settings_again (s : Store) : SettingsController :=
  SettingsController_ctor (V := RefVariant) (Q := demo_settings_json) (P := RefParse [] [] []) (F := RefFiles)
    (save (V := RefVariant) (demo_settings_run s).1 (demo_settings_run s).2).

(** The choice is lost; a resolution another program stored is used if it is listed. *)
Lemma settings_roundtrip_witness :
  defaultResolution_ (demo_settings_run ∅).1 = "1920x1080" ∧ defaultResolution_ (demo_settings_again ∅) = "3840x2160" ∧
  defaultResolution_ (demo_settings_again {["ui/defaultResolution" := QVString "1920x1080"]}) = "1920x1080" ∧
  fps_ (demo_settings_again ∅) = 30%Z ∧ darkMode_ (demo_settings_again ∅) = darkMode_ (demo_settings_run ∅).1.
Proof.
  pose proof (λ s, settings_roundtrip (V := RefVariant) (Q := demo_settings_json) (P := RefParse [] [] []) (F := RefFiles)
    [Load; SetDarkMode true; SetDefaultGrid 9; SetDefaultResolution "1920x1080"] Settings0 s) as H.
  split; [by vm_compute|]. split; [|split; [|split; [by vm_compute|]]].
  - specialize (H ∅). cbn zeta in H. change (settings_run _ _) with (demo_settings_run ∅) in H.
    unfold demo_settings_again. destruct (demo_settings_run ∅) as [c s] eqn:E. cbn [fst snd]. destruct H as (_ & _ & _ & _ & _ & _ & H).
    rewrite (H "3840x2160" ["1920x1080"]); [|vm_compute in E; injection E as <- <-; by vm_compute].
    assert (s !! "ui/defaultResolution" = None) as -> by (vm_compute in E; injection E as <- <-; by vm_compute). done.
  - specialize (H {["ui/defaultResolution" := QVString "1920x1080"]}). cbn zeta in H.
    change (settings_run _ _) with (demo_settings_run {["ui/defaultResolution" := QVString "1920x1080"]}) in H.
    unfold demo_settings_again. destruct (demo_settings_run {[_ := _]}) as [c s] eqn:E. cbn [fst snd]. destruct H as (_ & _ & _ & _ & _ & _ & H).
    rewrite (H "3840x2160" ["1920x1080"]); [|vm_compute in E; injection E as <- <-; by vm_compute].
    assert (s !! "ui/defaultResolution" = Some (QVString "1920x1080")) as -> by (vm_compute in E; injection E as <- <-; by vm_compute).
    by vm_compute.
  - specialize (H ∅). cbn zeta in H. change (settings_run _ _) with (demo_settings_run ∅) in H.
    unfold demo_settings_again. destruct (demo_settings_run ∅) as [c s]. by destruct H.
Defined.

(** Settings files: whatever the store and the file hold and whatever is done with
    the controller, the frame rate is positive; a rate that does not read as a
    positive number, such as one written as a JSON number, gives 30.  A default
    resolution is in the list when there is one.  Without a readable file that
    holds an object everything keeps its default, and the resolution nobody
    stored is the address of the server. *)
Theorem settings_file `{V : QtVariant, L : !QtVariantLaws V, Q : QtJson, P : QtParse, F : QtFiles}
    (ops : list settings_op) (s : Store) :
  let c := SettingsController_ctor s in
  (0 < fps_ (settings_run ops (c, s)).1)%Z ∧
  (resolutions_ c ≠ [] → defaultResolution_ c ∈ resolutions_ c) ∧
  (∀ data obj, file_text settings_path = Some data → qjson_object data = Some obj →
     let rate := to_int (q_string obj "FPS") in
     fps_ c = if q_contains obj "FPS" && (0 <? rate)%Z then rate else 30%Z) ∧
  (file_text settings_path ≫= qjson_object = None →
     serverIp_ c = "192.168.0.58" ∧ fps_ c = 30%Z ∧ resolutions_ c = [] ∧
     (s !! "ui/defaultResolution" = None → defaultResolution_ c = "192.168.0.58")).
Proof.
  cbn zeta. unfold SettingsController_ctor. destruct (load_spec s Settings0) as (_ & _ & _ & _ & Hf & Hr).
  split_and!; [by apply run_fps, Hf|done| |]; clear Hf Hr; unfold load, load_file.
  - intros data obj -> ->. unfold load_server, load_fps, load_resolutions.
    match goal with |- context [fst (let '(_, _) := ?x in (load_default s _, _))] => set (y := x) end.
    destruct y as [c2 sigs] eqn:Hy. unfold y in Hy. cbn [fst].
    pose proof (load_default_frame s c2) as Hd. injection Hd as _ _ _ _ _ _ D7. rewrite D7. clear D7 y.
    destruct (q_contains obj "ServerIP"), (q_contains obj "FPS"), (q_contains obj "Resolution");
      injection Hy as <- _; cbn; try done; rewrite Z.leb_antisym; by destruct (0 <? _)%Z.
  - intros H. assert (∀ c, match file_text settings_path with
                           | Some data => match qjson_object data with
                                          | Some obj => let '(c1, s1) := load_server obj c in
                                                        let '(c2, s2) := load_fps obj c1 in
                                                        (load_resolutions obj c2, s1 ++ s2)
                                          | None => (c, []) end
                           | None => (c, []) end = (c, [])) as Hn.
    { intros c. destruct (file_text _) as [t|]; [|done]. cbn in H. by rewrite H. }
    rewrite Hn. cbn. split_and!; [done|done|done|]. intros Hs. unfold value. rewrite Hs. apply toString_string.
Qed.

Lemma settings_file_witness :
  let c := SettingsController_ctor (V := RefVariant) (Q := RefQtJson []) (P := RefParse [] [] []) (F := RefFiles) ∅ in
  defaultResolution_ c = "192.168.0.58" ∧ serverIp_ c = "192.168.0.58" ∧ fps_ c = 30%Z.
Proof.
  cbn zeta.
  destruct (settings_file (V := RefVariant) (Q := RefQtJson []) (P := RefParse [] [] []) (F := RefFiles) [] ∅)
    as (_ & _ & _ & H).
  destruct (H eq_refl) as (Hip & Hf & _ & Hd). split; [by apply Hd|]. by split.
Defined.
