(* ===== verification/AppController.v ===== *)
(** * Navigation and detached windows (src/Qt/Back/Controllers/AppController)

    The page shown, the requests QML answers, and a registry of detached camera
    windows.  The registry holds [QPointer]s: a window that is destroyed stays in
    it as a null entry until something removes it.  Which windows exist ([alive])
    belongs to QML and is an argument. *)

From S2P Require Import Prelude Extern Variant.

(** ** State *)

(** The identity of a window. *)
Definition window : Type := nat.

Record AppController : Type := {
  currentPage_ : QString;
  cameraWindows_ : list window;      (* the windows the QPointers were made of *)
  engine_ : bool                     (* set *)
}.

Definition AppController0 : AppController := {| currentPage_ := "Login"; cameraWindows_ := []; engine_ := false |}.

(** What [detachCameraWindow] hands to the new window. *)
Record window_props : Type := {
  sourceSlotId : Z;
  sourceTitle : QString;
  sourceCameraId : QString;
  sourceOnline : bool;
  sourceCropRect : QRectF
}.

Inductive app_out : Type :=
| CurrentPageChanged
| NavigateTo (page : QString)
| OptionDialogRequested
| LogoutRequested
| CloseWindow (w : window)
| CreateWindow (props : window_props) (x y : Z).

Definition set_page (p : QString) (c : AppController) : AppController :=
  {| currentPage_ := p; cameraWindows_ := cameraWindows_ c; engine_ := engine_ c |}.

Definition set_windows (l : list window) (c : AppController) : AppController :=
  {| currentPage_ := currentPage_ c; cameraWindows_ := l; engine_ := engine_ c |}.

(** ** Operations *)

Definition navigate (page : QString) (c : AppController) : AppController * list app_out :=
  if decide (currentPage_ c = page) then (c, []) else (set_page page c, [CurrentPageChanged; NavigateTo page]).

Definition openOptionDialog (c : AppController) : AppController * list app_out := (c, [OptionDialogRequested]).

Definition setEngine (engine : bool) (c : AppController) : AppController :=
  {| currentPage_ := currentPage_ c; cameraWindows_ := cameraWindows_ c; engine_ := engine |}.

(** What a pointer of the registry points to. *)
Definition deref (alive : gset window) (p : window) : option window := if decide (p ∈ alive) then Some p else None.

(** [win]: a window that exists, or null. *)
Definition registerCameraWindow (alive : gset window) (win : option window) (c : AppController) : AppController :=
  match win with
  | None => c
  | Some w =>
      if existsb (λ p, bool_decide (deref alive p = Some w)) (cameraWindows_ c) then c
      else set_windows (cameraWindows_ c ++ [w]) c
  end.

(** Backwards over the list; entries equal to [win] or null are removed. *)
Definition unregisterCameraWindow (alive : gset window) (win : option window) (c : AppController) : AppController :=
  set_windows (filter (λ p, deref alive p ≠ win ∧ deref alive p ≠ None) (cameraWindows_ c)) c.

Definition closeAllCameraWindows (alive : gset window) (c : AppController) : AppController * list app_out :=
  (set_windows [] c, CloseWindow <$> omap (deref alive) (cameraWindows_ c)).

Definition shutdown (alive : gset window) (c : AppController) : AppController * list app_out :=
  closeAllCameraWindows alive c.

Definition logout (alive : gset window) (c : AppController) : AppController * list app_out :=
  let '(c1, o1) := closeAllCameraWindows alive c in
  let '(c2, o2) := navigate "Login" c1 in
  (c2, o1 ++ [LogoutRequested] ++ o2).

(** [ready]: the component loaded; [created]: it gave a window. *)
Definition detachCameraWindow (ready created : bool) (slotId : Z) (title cameraId : QString) (isOnline : bool)
    (cropRect : QRectF) (globalX globalY : Z) (c : AppController) : AppController * list app_out :=
  if negb (engine_ c) then (c, [])
  else if negb ready then (c, [])
  else if created then
    (c, [CreateWindow {| sourceSlotId := slotId; sourceTitle := title; sourceCameraId := cameraId;
                         sourceOnline := isOnline; sourceCropRect := cropRect |} globalX globalY])
  else (c, []).

(** ** Runs, with QML's windows *)

Inductive app_op : Type :=
| Navigate (page : QString)
| Logout
| OpenOptionDialog
| Register (w : option window)      (* a window that exists, or null *)
| Unregister (w : option window)
| CloseAll
| Shutdown
| Detach (ready created : bool) (props : window_props) (x y : Z)
| Born (w : window)                 (* QML: a window comes into being *)
| Destroyed (w : window).           (* and is destroyed *)

(** [None]: a pointer to a destroyed window is passed. *)
Definition app_exec (op : app_op) (y : gset window * AppController) : option ((gset window * AppController) * list app_out) :=
  let '(alive, c) := y in
  let exists_ w := match w with Some w => bool_decide (w ∈ alive) | None => true end in
  match op with
  | Navigate page => let '(c', o) := navigate page c in Some ((alive, c'), o)
  | Logout => let '(c', o) := logout alive c in Some ((alive, c'), o)
  | OpenOptionDialog => let '(c', o) := openOptionDialog c in Some ((alive, c'), o)
  | Register w => if exists_ w then Some ((alive, registerCameraWindow alive w c), []) else None
  | Unregister w => if exists_ w then Some ((alive, unregisterCameraWindow alive w c), []) else None
  | CloseAll => let '(c', o) := closeAllCameraWindows alive c in Some ((alive, c'), o)
  | Shutdown => let '(c', o) := shutdown alive c in Some ((alive, c'), o)
  | Detach ready created p x y =>
      let '(c', o) := detachCameraWindow ready created (sourceSlotId p) (sourceTitle p) (sourceCameraId p)
                        (sourceOnline p) (sourceCropRect p) x y c in Some ((alive, c'), o)
  | Born w => if decide (w ∈ alive ∨ w ∈ cameraWindows_ c) then None else Some (({[w]} ∪ alive, c), [])
  | Destroyed w => Some ((alive ∖ {[w]}, c), [])
  end.

Fixpoint app_run (ops : list app_op) (y : gset window * AppController) : option ((gset window * AppController) * list app_out) :=
  match ops with
  | [] => Some (y, [])
  | op :: ops' =>
      '(y1, o1) ← app_exec op y;
      '(y2, o2) ← app_run ops' y1;
      Some (y2, o1 ++ o2)
  end.

(** ** Lemmas *)

Lemma deref_Some alive p w : deref alive p = Some w ↔ p = w ∧ w ∈ alive.
Proof. unfold deref. case_decide; naive_solver. Qed.

Lemma omap_deref alive (l : list window) : omap (deref alive) l = filter (λ p, p ∈ alive) l.
Proof.
  induction l as [|p l IH]; [done|]. rewrite filter_cons, <-IH. cbn.
  unfold deref at 1. by case_decide.
Qed.

Lemma register_windows alive w c :
  w ∈ alive →
  cameraWindows_ (registerCameraWindow alive (Some w) c)
  = if decide (w ∈ cameraWindows_ c) then cameraWindows_ c else cameraWindows_ c ++ [w].
Proof.
  intros Hw. cbn. destruct (existsb _ _) eqn:He.
  - apply existsb_exists in He as (p & Hp%list_elem_of_In & [-> _]%bool_decide_eq_true%deref_Some).
    by rewrite decide_True.
  - rewrite decide_False; [done|]. intros Hin. apply not_true_iff_false in He. apply He, existsb_exists.
    exists w. split; [by apply list_elem_of_In|]. by apply bool_decide_eq_true, deref_Some.
Qed.

Lemma unregister_windows alive win c p :
  p ∈ cameraWindows_ (unregisterCameraWindow alive win c) ↔
  p ∈ cameraWindows_ c ∧ p ∈ alive ∧ Some p ≠ win.
Proof.
  cbn. rewrite list_elem_of_filter. unfold deref. case_decide; naive_solver.
Qed.

Lemma app_exec_NoDup op y y' o :
  NoDup (cameraWindows_ y.2) → app_exec op y = Some (y', o) → NoDup (cameraWindows_ y'.2).
Proof.
  destruct y as [alive c]. cbn [snd]. intros Hc.
  destruct op as [page| | |[w|]|w| | |r cr p x1 y1|w|w]; cbn.
  - unfold navigate. case_decide; by intros [= <- <-].
  - unfold navigate. case_decide; intros [= <- <-]; constructor.
  - by intros [= <- <-].
  - case_bool_decide as Hw; [|done]. intros H. apply (f_equal (fmap fst)) in H. cbn in H. injection H as <-.
    change (NoDup (cameraWindows_ (registerCameraWindow alive (Some w) c))). rewrite register_windows by done.
    case_decide; [done|]. apply NoDup_app. split; [done|]. split; [set_solver|apply NoDup_singleton].
  - by intros [= <- <-].
  - destruct w as [w|]; [case_bool_decide; [|done]|]; intros [= <- <-]; by apply NoDup_filter.
  - intros [= <- <-]. constructor.
  - intros [= <- <-]. constructor.
  - unfold detachCameraWindow. destruct (engine_ c), r, cr; by intros [= <- <-].
  - case_decide; [done|]. by intros [= <- <-].
  - by intros [= <- <-].
Qed.

Lemma app_run_NoDup ops y y' o :
  NoDup (cameraWindows_ y.2) → app_run ops y = Some (y', o) → NoDup (cameraWindows_ y'.2).
Proof.
  revert y y' o. induction ops as [|op ops IH]; intros y y' o Hy; cbn; [by intros [= <- <-]|].
  intros ([y1 o1] & H1 & ([y2 o2] & H2 & [= <- <-])%bind_Some)%bind_Some.
  eapply IH; [|done]. by eapply app_exec_NoDup.
Qed.

(** ** Properties *)

(** The windows: in every reachable state no window is registered twice, and a
    logout closes exactly the registered windows that still exist, each once,
    before it asks for the logout, empties the registry and ends on the login
    page.  Registering adds a window that is not there; unregistering removes the
    window and every destroyed one and keeps the others; a navigation to the
    current page does nothing, another one is announced once. *)
Theorem app_windows (ops : list app_op) (alive : gset window) (c : AppController) (o : list app_out) :
  app_run ops (∅, AppController0) = Some ((alive, c), o) →
  NoDup (cameraWindows_ c) ∧
  (let '(c', out) := logout alive c in
   cameraWindows_ c' = [] ∧ currentPage_ c' = "Login" ∧
   ∃ closed rest, out = (CloseWindow <$> closed) ++ LogoutRequested :: rest ∧
     NoDup closed ∧ (∀ w, w ∈ closed ↔ w ∈ cameraWindows_ c ∧ w ∈ alive) ∧
     (rest = [] ∨ rest = [CurrentPageChanged; NavigateTo "Login"])) ∧
  (∀ w, w ∈ alive →
     (∀ p, p ∈ cameraWindows_ (registerCameraWindow alive (Some w) c) ↔ p ∈ cameraWindows_ c ∨ p = w) ∧
     (∀ p, p ∈ cameraWindows_ (unregisterCameraWindow alive (Some w) c) ↔
           p ∈ cameraWindows_ c ∧ p ∈ alive ∧ p ≠ w)) ∧
  (∀ page, (navigate page c).2 = (if decide (currentPage_ c = page) then [] else [CurrentPageChanged; NavigateTo page]) ∧
     currentPage_ (navigate page c).1 = page).
Proof.
  intros H. apply app_run_NoDup in H as Hc; [|constructor]. cbn in Hc. split_and!; [done| | |].
  - unfold logout, closeAllCameraWindows. rewrite omap_deref. unfold navigate. cbn [currentPage_ set_windows].
    case_decide as Hp; (split_and!; [done|by cbn|]).
    + exists (filter (λ p, p ∈ alive) (cameraWindows_ c)), []. split_and!; [done|by apply NoDup_filter| |by left].
      intros w. rewrite list_elem_of_filter. tauto.
    + exists (filter (λ p, p ∈ alive) (cameraWindows_ c)), [CurrentPageChanged; NavigateTo "Login"].
      split_and!; [done|by apply NoDup_filter| |by right]. intros w. rewrite list_elem_of_filter. tauto.
  - intros w Hw. split; intros p.
    + rewrite register_windows by done. case_decide; set_solver.
    + rewrite unregister_windows. naive_solver.
  - intros page. unfold navigate. by case_decide.
Qed.

Lemma app_windows_witness :
  let ops := [Navigate "Dashboard"; Born 1; Register (Some 1); Register (Some 1); Born 2; Register (Some 2);
              Destroyed 2; Unregister (Some 1); Register (Some 1)] in
  match app_run ops (∅, AppController0) with
  | Some ((alive, c), _) => cameraWindows_ c = [1] ∧ NoDup (cameraWindows_ c)
  | None => False
  end.
Proof.
  cbn zeta. destruct (app_run _ _) as [[[alive c] o]|] eqn:H; [|by vm_compute in H].
  split; [vm_compute in H; by injection H as _ <-|]. by apply (app_windows _ _ _ _ H).
Defined.
