(* ===== verification/AiImageModel.v ===== *)
(** * Recent pictures per camera (src/Qt/Back/Models/AiImageModel)

    A queue of at most twenty events for each camera id, filled by the IMAGE task. *)

From S2P Require Import Prelude Extern.

Record AiImageEvent : Type := {
  ai_cameraId : QString;
  ai_deviceName : QString;
  ai_trackId : Z;
  ai_frameIndex : Z;
  ai_totalFrames : Z;
  ai_timestamp : Z;
  ai_base64Image : QString
}.

Definition MAX_EVENTS_PER_CAMERA : nat := 20.

(** [eventsByCameraId_]. *)
Abbreviation AiImageModel := (gmap QString (list AiImageEvent)) (only parsing).

(** [onImageReceivedBase64]; the result is the argument of [aiEventReceived]. *)
Definition onImageReceivedBase64 (cameraId deviceName : QString)
    (trackId frameIndex totalFrames timestamp : Z) (base64Image : QString) (m : AiImageModel)
    : AiImageModel * QString :=
  let ev := {| ai_cameraId := cameraId; ai_deviceName := deviceName; ai_trackId := trackId;
               ai_frameIndex := frameIndex; ai_totalFrames := totalFrames;
               ai_timestamp := timestamp; ai_base64Image := base64Image |} in
  (<[cameraId := trim_front MAX_EVENTS_PER_CAMERA (default [] (m !! cameraId) ++ [ev])]> m, cameraId).

Definition getEventsForCamera (cameraId : QString) (m : AiImageModel) : list AiImageEvent :=
  default [] (m !! cameraId).

Definition getLatestEvent (cameraId : QString) (m : AiImageModel) : option AiImageEvent :=
  match m !! cameraId with Some q => last q | None => None end.

Definition getRecentEvents `{M : QtMap} (ip : QString) (m : AiImageModel) : list AiImageEvent :=
  concat ((filter (λ p, starts_with p.1 ip = true) (qmap_items m)).*2).

Definition clearAll (m : AiImageModel) : AiImageModel := ∅.

(** ** Lemmas *)

Definition receive (m : AiImageModel) (e : AiImageEvent) : AiImageModel :=
  (onImageReceivedBase64 (ai_cameraId e) (ai_deviceName e) (ai_trackId e) (ai_frameIndex e)
     (ai_totalFrames e) (ai_timestamp e) (ai_base64Image e) m).1.

Lemma receive_lookup m e c :
  receive m e !! c =
  if decide (ai_cameraId e = c)
  then Some (trim_front MAX_EVENTS_PER_CAMERA (default [] (m !! c) ++ [e])) else m !! c.
Proof.
  unfold receive. cbn. destruct (decide (ai_cameraId e = c)) as [<-|Hne].
  - rewrite lookup_insert_eq. by destruct e.
  - by rewrite lookup_insert_ne.
Qed.

(** After any events from the empty model, a camera has the newest twenty of its
    events, oldest first, and its latest event is the last one received for it. *)
Theorem ai_events_newest (es : list AiImageEvent) (c : QString) :
  let m := foldl receive ∅ es in
  let mine := filter (λ e, ai_cameraId e = c) es in
  getEventsForCamera c m = trim_front MAX_EVENTS_PER_CAMERA mine ∧
  getLatestEvent c m = last mine.
Proof.
  cbn zeta. induction es as [|e es [IH IHl]] using rev_ind; [by split|].
  rewrite foldl_app, filter_app. cbn [foldl]. unfold getEventsForCamera, getLatestEvent in *.
  rewrite receive_lookup. cbn. destruct (decide (ai_cameraId e = c)) as [He|He].
  - rewrite IH. cbn. split; [by apply trim_front_snoc|].
    rewrite last_snoc, trim_front_drop, length_app. cbn.
    destruct (decide (length (trim_front MAX_EVENTS_PER_CAMERA (filter (λ e, ai_cameraId e = c) es)) + 1
                      ≤ MAX_EVENTS_PER_CAMERA)) as [Hle|Hgt].
    + replace (_ - _) with 0 by lia. by rewrite drop_0, last_snoc.
    + rewrite drop_app_le by (unfold MAX_EVENTS_PER_CAMERA in *; lia). by rewrite last_snoc.
  - by rewrite app_nil_r.
Qed.
