(* ===== verification/ServerStatusModel.v ===== *)
(** * The status properties (src/Qt/Back/Services/ServerStatus)

    What the dashboard shows of the last AVAILABLE packet, with a history of the
    last sixty server samples, filled from the snapshots of the status store. *)

From S2P Require Import Prelude Extern ServerStatusStore.

Record DeviceStatus : Type := {
  sd_ip : QString;
  sd_cpu : double;
  sd_memory : double;
  sd_temp : double;
  sd_uptime : Z;
  sd_pendingEvents : Z
}.

(** [ServerStatus]; a history item has its fields but [available]. *)
Record ServerStatus : Type := {
  sv_cpu : double;
  sv_memory : double;
  sv_temp : double;
  sv_uptime : Z;
  sv_available : bool;
  sv_timestamp : Z
}.

Record ServerStatusModel : Type := {
  server_ : ServerStatus;
  devices_ : list DeviceStatus;
  serverHistory_ : list ServerStatus
}.

Definition ServerStatusModel0 : ServerStatusModel := {|
  server_ := {| sv_cpu := d_zero; sv_memory := d_zero; sv_temp := d_zero; sv_uptime := 0;
                sv_available := false; sv_timestamp := 0 |};
  devices_ := []; serverHistory_ := []
|}.

Section model.
Context `{T : QtText}.

Definition device_status (d : DeviceStatusData) : DeviceStatus := {|
  sd_ip := fromStdString (ds_ip d); sd_cpu := ds_cpu d; sd_memory := ds_memory d;
  sd_temp := ds_temp d; sd_uptime := ds_uptime d; sd_pendingEvents := ds_pendingEvents d
|}.

Definition server_status (d : ServerStatusData) : ServerStatus := {|
  sv_cpu := ss_cpu d; sv_memory := ss_memory d; sv_temp := ss_temp d; sv_uptime := ss_uptime d;
  sv_available := ss_available d; sv_timestamp := ss_timestamp d
|}.

Definition onStoreUpdated (d : ServerStatusData) (m : ServerStatusModel) : ServerStatusModel :=
  let s := server_status d in
  {| server_ := s;
     devices_ := device_status <$> ss_devices d;
     serverHistory_ :=
       if sv_available s then
         let h := serverHistory_ m ++ [s] in
         if decide (60 < length h) then tail h else h
       else serverHistory_ m |}.

(** The loops of [deviceCpu], [deviceMemory], [deviceTemp] and [deviceUptime]. *)
Definition device_field {A} (f : DeviceStatus → A) (dflt : A) (ip : QString) (m : ServerStatusModel) : A :=
  match index_where (λ d, bool_decide (sd_ip d = ip)) (devices_ m) with
  | Some i => from_option f dflt (devices_ m !! i)
  | None => dflt
  end.

Definition deviceCpu := device_field sd_cpu d_zero.
Definition deviceMemory := device_field sd_memory d_zero.
Definition deviceTemp := device_field sd_temp d_zero.
Definition deviceUptime := device_field sd_uptime 0%Z.
Definition getServerHistory (m : ServerStatusModel) : list ServerStatus := serverHistory_ m.

(** After any updates from the start the model shows the last one, and the history
    is the newest sixty of those with server data, oldest first. *)
Theorem server_model_history (ds : list ServerStatusData) :
  let m := foldl (λ m d, onStoreUpdated d m) ServerStatusModel0 ds in
  getServerHistory m = trim_front 60 (server_status <$> filter (λ d, ss_available d = true) ds) ∧
  ∀ d, last ds = Some d → server_ m = server_status d ∧ devices_ m = device_status <$> ss_devices d.
Proof.
  cbn zeta. induction ds as [|d ds [IH _]] using rev_ind; [done|].
  rewrite foldl_app, filter_app. cbn [foldl]. unfold getServerHistory in *. split.
  - cbn [onStoreUpdated serverHistory_ sv_available server_status]. rewrite IH, fmap_app.
    set (l := server_status <$> _). rewrite filter_cons, filter_nil.
    destruct (ss_available d);
      [rewrite (decide_True (P := true = true)) by done|
       rewrite (decide_False (P := false = true)) by done; cbn; by rewrite app_nil_r].
    cbn [fmap list_fmap].
    rewrite <-(trim_front_snoc 60 (trim_front 60 l) l) by done.
    pose proof (trim_front_length 60 l) as Hh. revert Hh. generalize (trim_front 60 l). intros h Hh.
    rewrite trim_front_drop, length_app. cbn [length]. case_decide as Hd.
    + replace (length h + 1 - 60) with 1 by lia. by destruct h.
    + by replace (length h + 1 - 60) with 0 by lia.
  - intros d' Hd. rewrite last_snoc in Hd. by injection Hd as <-.
Qed.
End model.
