(* ===== verification/NetworkBridge.v ===== *)
(** * The network bridge (src/Qt/Back/Services/NetworkBridge)

    Turns the application's commands into messages of the network service, and the
    service's callbacks into signals.  Device states are collected and sent by a
    single-shot timer.  The state is [pendingStates_] and whether the timer runs;
    calls to the service and emitted signals are results. *)

From S2P Require Import Prelude Extern Protocol MessageProcessor.

(** ** Message bodies *)

(** One pass of the loop of [buildJson]: the text so far and [first]. *)
Definition build_step (acc : string * bool) (p : string * string) : string * bool :=
  let '(s, first) := acc in
  let '(k, v) := p in
  if str_empty v then acc
  else (s +:+ (if first : bool then "" else ",") +:+ dq +:+ k +:+ dq +:+ ":" +:+ dq +:+ v +:+ dq,
        false).

Definition buildJson (pairs : list (string * string)) : string :=
  (foldl build_step ("{", true) pairs).1 +:+ "}".

(** ** Calls on the service, and signals *)

Inductive svc_call : Type :=
| SvcConnect (host port : string) (purpose : QString)
| SvcDisconnect
| SvcSend (messageType : Z) (body : string).

Inductive bridge_signal : Type :=
| connectedForLogin
| connectedForSignup
| loginSuccess (state username : QString)
| loginFailed (errorMessage : QString)
| signupSuccess (message : QString)
| signupFailed (errorMessage : QString)
| cameraListReceived (json : QString)
| deviceStatusReceived (json : QString)
| aiResultReceived (json : QString)
| metaResultReceived (json : QString)
| imageMetaReceived (json : QString)
| pendingListReceived (json : QString)
| imageDataReceived (payload : list byte) (meta : QString).

(** ** State *)

Record DeviceState : Type := { ds_motor : QString; ds_ir : QString; ds_heater : QString }.

Definition DeviceState0 : DeviceState := {| ds_motor := ""; ds_ir := ""; ds_heater := "" |}.

#[export] Instance DeviceState_eq_dec : EqDecision DeviceState.
Proof. solve_decision. Defined.

Record NetworkBridge : Type := {
  pendingStates_ : gmap QString DeviceState;
  debounce_active : bool
}.

Definition NetworkBridge0 : NetworkBridge := {| pendingStates_ := ∅; debounce_active := false |}.

Section bridge.
Context `{T : QtText}.

Definition connectToServer (host port purpose : QString) : list svc_call :=
  [SvcConnect (toStdString host) (toStdString port) purpose].

Definition disconnect : list svc_call := [SvcDisconnect].

Definition sendLogin (id pw : QString) : list svc_call :=
  [SvcSend (mt_value LOGIN) (buildJson [("id", toStdString id); ("pw", toStdString pw)])].

Definition sendSignup (id email pw : QString) : list svc_call :=
  [SvcSend (mt_value ASSIGN)
     (buildJson [("action", "register"); ("id", toStdString id); ("email", toStdString email);
                 ("pw", toStdString pw)])].

Definition sendListPending : list svc_call :=
  [SvcSend (mt_value ASSIGN)
     ("{" +:+ dq +:+ "action" +:+ dq +:+ ":" +:+ dq +:+ "list_pending" +:+ dq +:+ "}")].

Definition sendApprove (targetId : QString) : list svc_call :=
  [SvcSend (mt_value ASSIGN)
     (buildJson [("action", "approve"); ("target_id", toStdString targetId)])].

(** *** Device commands *)

Definition device_body (a : QString) (st : DeviceState) : string :=
  buildJson [("device", toStdString a); ("motor", toStdString (ds_motor st));
             ("ir", toStdString (ds_ir st)); ("heater", toStdString (ds_heater st))].

Definition is_state_cmd (motor : QString) : bool :=
  bool_decide (motor = "auto") || bool_decide (motor = "unauto").

Definition is_action (motor ir heater : QString) : bool :=
  (negb (str_empty motor) && negb (is_state_cmd motor))
  || (bool_decide (ir = "on") || bool_decide (ir = "off"))
  || (bool_decide (heater = "on") || bool_decide (heater = "off")).

(** The pending state of a device after a command, and [updated]. *)
Definition update_pending (motor ir heater : QString) (st : DeviceState) : DeviceState * bool :=
  let '(st, u) :=
    if negb (str_empty motor) then
      if is_state_cmd motor
      then ({| ds_motor := motor; ds_ir := ds_ir st; ds_heater := ds_heater st |}, true)
      else (st, false)
    else (st, false) in
  let '(st, u) :=
    if negb (str_empty ir)
    then ({| ds_motor := ds_motor st; ds_ir := ir; ds_heater := ds_heater st |}, true)
    else (st, u) in
  if negb (str_empty heater)
  then ({| ds_motor := ds_motor st; ds_ir := ds_ir st; ds_heater := heater |}, true)
  else (st, u).

Definition sendDevice (deviceIp motor ir heater : QString) (b : NetworkBridge)
    : NetworkBridge * list svc_call :=
  if str_empty deviceIp then (b, [])
  else
    let calls :=
      if is_action motor ir heater
      then [SvcSend (mt_value DEVICE)
              (device_body deviceIp {| ds_motor := motor; ds_ir := ir; ds_heater := heater |})]
      else [] in
    let '(st, updated) :=
      update_pending motor ir heater (default DeviceState0 (pendingStates_ b !! deviceIp)) in
    ({| pendingStates_ := <[deviceIp := st]> (pendingStates_ b);
        debounce_active := debounce_active b || updated |}, calls).

Definition nothing_pending (st : DeviceState) : bool :=
  str_empty (ds_motor st) && str_empty (ds_ir st) && str_empty (ds_heater st).

(** The timer's slot; the timer is single-shot. *)
Definition processPendingStates `{M : QtMap} (b : NetworkBridge) : NetworkBridge * list svc_call :=
  ({| pendingStates_ := ∅; debounce_active := false |},
   (λ p, SvcSend (mt_value DEVICE) (device_body p.1 p.2))
     <$> filter (λ p, nothing_pending p.2 = false) (qmap_items (pendingStates_ b))).

(** ** Callbacks *)

(** The callback given to the service for each message, run with its text, as the
    signals its queued function emits. *)
Definition login_result `{Q : QtJson} (q : QString) : list bridge_signal :=
  match qjson_object q with
  | None => []
  | Some obj =>
      if q_bool obj "success" then [loginSuccess (q_string obj "state") (q_string obj "username")]
      else [loginFailed (q_string obj "message")]
  end.

Definition login_fail `{Q : QtJson} (purpose q : QString) : list bridge_signal :=
  let obj := default qobject_empty (qjson_object q) in
  let msg := if q_contains obj "error" then q_string obj "error" else q_string obj "message" in
  let msg := if str_empty msg then q else msg in
  let ctx := q_string obj "context" in
  if decide (ctx = "login") then [loginFailed msg]
  else if decide (ctx = "signup") then [signupFailed msg]
  else if decide (purpose = "login") then [loginFailed msg] else [signupFailed msg].

Definition on_callback `{Q : QtJson} (purpose : QString) (c : callback) (s : string)
    : list bridge_signal :=
  let q := fromStdString s in
  match c with
  | onLoginResult => login_result q
  | onLoginFail => login_fail purpose q
  | onCameraList => [cameraListReceived q]
  | onDeviceStatus => [deviceStatusReceived q]
  | onAiResult => [aiResultReceived q]
  | onMetaResult => [metaResultReceived q]
  | onImageMeta => [imageMetaReceived q]
  | onAssign => [pendingListReceived q]
  end.

Definition on_connected_callback (purpose : QString) : list bridge_signal :=
  if decide (purpose = "login") then [connectedForLogin]
  else if decide (purpose = "signup") then [connectedForSignup] else [].

Definition on_image_data (data : list byte) (meta : string) : list bridge_signal :=
  [imageDataReceived data (fromStdString meta)].

(** [cbs], as [connectToServer] fills it. *)
Definition bridge_callbacks : NetworkCallbacks :=
  {| has_onConnected := true; has_callback := λ _, true; has_onImageData := true |}.

End bridge.

(** ** A reader of flat objects

    The documents [buildJson] writes when no text needs escaping: an object whose
    members and values are strings without quotes, backslashes or control
    characters. *)

Definition plain_char (c : Ascii.ascii) : bool :=
  bool_decide (c ≠ quote) && bool_decide (c ≠ "\"%char) && (32 <=? Ascii.nat_of_ascii c)%nat.

Fixpoint plain (s : string) : bool :=
  match s with
  | EmptyString => true
  | String c s' => plain_char c && plain s'
  end.

(** The text up to the closing quote, and what follows it. *)
Fixpoint read_text (s : string) : option (string * string) :=
  match s with
  | EmptyString => None
  | String c s' =>
      if decide (c = quote) then Some ("", s')
      else if plain_char c then '(t, r) ← read_text s'; Some (String c t, r) else None
  end.

(** The rest of [s] after [p]. *)
Fixpoint after (p s : string) : option string :=
  match p, s with
  | EmptyString, _ => Some s
  | String a p', String b s' => if decide (a = b) then after p' s' else None
  | _, EmptyString => None
  end.

Definition read_string (s : string) : option (string * string) := after dq s ≫= read_text.

Definition read_pair (s : string) : option (string * string * string) :=
  '(k, r) ← read_string s;
  r ← after ":" r;
  '(v, r) ← read_string r;
  Some (k, v, r).

(** The members after the first, up to the end of the document. *)
Fixpoint read_more (fuel : nat) (s : string) : option (list (string * string)) :=
  match fuel with
  | 0 => None
  | S fuel =>
      match after "," s with
      | None => if decide (s = "}") then Some [] else None
      | Some r => '(k, v, r) ← read_pair r; l ← read_more fuel r; Some ((k, v) :: l)
      end
  end.

Definition read_object (s : string) : option (list (string * string)) :=
  r ← after "{" s;
  if decide (r = "}") then Some []
  else '(k, v, r) ← read_pair r; l ← read_more (String.length s) r; Some ((k, v) :: l).

(** ** Lemmas: reading what [buildJson] writes *)

Lemma read_text_plain t r : plain t = true → read_text (t +:+ dq +:+ r) = Some (t, r).
Proof.
  induction t as [|c t IH]; intros Hp; [done|].
  cbn in Hp. apply andb_true_iff in Hp as [Hc Hp]. rewrite app_string_cons. cbn [read_text].
  rewrite Hc. rewrite decide_False; [by rewrite IH|].
  intros ->. done.
Qed.

Lemma after_app p r : after p (p +:+ r) = Some r.
Proof. induction p as [|c p IH]; [done|]. rewrite app_string_cons. cbn. by rewrite decide_True. Qed.

(** A member as it is written. *)
Definition member_text (p : string * string) : string :=
  dq +:+ p.1 +:+ dq +:+ ":" +:+ dq +:+ p.2 +:+ dq.

Definition plain_pair (p : string * string) : Prop := plain p.1 = true ∧ plain p.2 = true.

Lemma read_pair_member p r : plain_pair p → read_pair (member_text p +:+ r) = Some (p.1, p.2, r).
Proof.
  intros [Hk Hv]. unfold read_pair, read_string, member_text.
  rewrite !app_string_assoc, after_app. cbn [mbind option_bind].
  rewrite read_text_plain by done. cbn [mbind option_bind].
  rewrite after_app. cbn [mbind option_bind]. rewrite after_app. cbn [mbind option_bind].
  by rewrite read_text_plain.
Qed.

Fixpoint more_text (l : list (string * string)) : string :=
  match l with
  | [] => "}"
  | p :: l' => "," +:+ member_text p +:+ more_text l'
  end.

Lemma read_more_text l fuel : Forall plain_pair l → length l < fuel →
  read_more fuel (more_text l) = Some l.
Proof.
  revert fuel. induction l as [|p l IH]; intros [|fuel] Hl Hf; cbn [length] in Hf; try lia.
  - done.
  - apply Forall_cons in Hl as [Hp Hl]. cbn [read_more more_text]. rewrite after_app.
    cbn [mbind option_bind]. rewrite read_pair_member by done. cbn [mbind option_bind].
    rewrite IH by (done || lia). by destruct p.
Qed.

(** The members that are written. *)
Definition written (pairs : list (string * string)) : list (string * string) :=
  filter (λ p, p.2 ≠ "") pairs.

Lemma build_fold pairs s :
  (foldl build_step (s, false) pairs).1 +:+ "}" = s +:+ more_text (written pairs).
Proof.
  revert s. induction pairs as [|[k v] pairs IH]; intros s; [done|].
  cbn [foldl build_step]. unfold written. rewrite filter_cons. cbn [snd].
  destruct (str_empty v) eqn:Hv.
  - apply str_empty_true in Hv. rewrite decide_False by (by intros H). apply IH.
  - apply str_empty_false in Hv. rewrite decide_True by done. rewrite IH. cbn [more_text].
    unfold member_text. cbn [fst snd]. by rewrite !app_string_assoc.
Qed.

Lemma buildJson_text pairs :
  buildJson pairs = match written pairs with
                    | [] => "{}"
                    | p :: l => "{" +:+ member_text p +:+ more_text l
                    end.
Proof.
  unfold buildJson. induction pairs as [|[k v] pairs IH]; [done|].
  cbn [foldl build_step]. unfold written. rewrite filter_cons. cbn [snd].
  destruct (str_empty v) eqn:Hv.
  - apply str_empty_true in Hv. rewrite decide_False by (by intros H). apply IH.
  - apply str_empty_false in Hv. rewrite decide_True by done. rewrite build_fold.
    unfold member_text. cbn [fst snd]. by rewrite !app_string_assoc.
Qed.

Lemma more_text_length l : length l < String.length (more_text l).
Proof.
  induction l as [|p l IH]; cbn [more_text length]; [cbn; lia|].
  rewrite !app_string_length. cbn. lia.
Qed.

Lemma read_buildJson pairs :
  Forall plain_pair (written pairs) → read_object (buildJson pairs) = Some (written pairs).
Proof.
  rewrite buildJson_text. destruct (written pairs) as [|p l] eqn:Hw; intros Hp; [done|].
  apply Forall_cons in Hp as [Hp Hl]. unfold read_object. rewrite after_app.
  cbn [mbind option_bind].
  rewrite decide_False by (by destruct p as [k v]).
  rewrite read_pair_member by done. cbn [mbind option_bind].
  rewrite read_more_text; [by destruct p|done|].
  rewrite !app_string_length. pose proof (more_text_length l). lia.
Qed.

(** ** Lemmas: device commands *)

Record device_cmd : Type := { dc_ip : QString; dc_motor : QString; dc_ir : QString; dc_heater : QString }.

(** The motor state a command sets: movements set none. *)
Definition dc_mode (c : device_cmd) : QString :=
  if is_state_cmd (dc_motor c) then dc_motor c else "".

(** The last non-empty value a list of commands gives a field of device [a]. *)
Definition last_set (f : device_cmd → QString) (a : QString) (cmds : list device_cmd) : QString :=
  default "" (last (filter (λ v, v ≠ "") (f <$> filter (λ c, dc_ip c = a) cmds))).

Definition state_of (a : QString) (cmds : list device_cmd) : DeviceState :=
  {| ds_motor := last_set dc_mode a cmds; ds_ir := last_set dc_ir a cmds;
     ds_heater := last_set dc_heater a cmds |}.

Lemma last_set_snoc f a cmds c :
  last_set f a (cmds ++ [c]) = if decide (dc_ip c = a ∧ f c ≠ "") then f c else last_set f a cmds.
Proof.
  unfold last_set. rewrite filter_app, filter_cons. cbn. destruct (decide (dc_ip c = a)) as [Ha|Ha].
  - rewrite fmap_app, filter_app, last_app. cbn. destruct (decide (f c = "")) as [He|He].
    + rewrite decide_False by tauto. cbn. by rewrite decide_False by tauto.
    + rewrite decide_True by done. cbn. by rewrite decide_True.
  - rewrite app_nil_r. by rewrite decide_False by tauto.
Qed.

Section commands.
Context `{T : QtText}.

Definition run_cmd (acc : NetworkBridge * list svc_call) (c : device_cmd)
    : NetworkBridge * list svc_call :=
  let '(b, calls) := acc in
  let '(b', new) := sendDevice (dc_ip c) (dc_motor c) (dc_ir c) (dc_heater c) b in
  (b', calls ++ new).

(** The commands since the timer last ran. *)
Definition run_cmds (cmds : list device_cmd) : NetworkBridge * list svc_call :=
  foldl run_cmd (NetworkBridge0, []) cmds.

(** What a command sends at once. *)
Definition immediate (c : device_cmd) : list svc_call :=
  if negb (str_empty (dc_ip c)) && is_action (dc_motor c) (dc_ir c) (dc_heater c)
  then [SvcSend (mt_value DEVICE)
          (device_body (dc_ip c) {| ds_motor := dc_motor c; ds_ir := dc_ir c; ds_heater := dc_heater c |})]
  else [].

Lemma immediate_eq c :
  immediate c =
  if str_empty (dc_ip c) then []
  else if is_action (dc_motor c) (dc_ir c) (dc_heater c)
  then [SvcSend (mt_value DEVICE)
          (device_body (dc_ip c) {| ds_motor := dc_motor c; ds_ir := dc_ir c; ds_heater := dc_heater c |})]
  else [].
Proof. unfold immediate. by destruct (str_empty (dc_ip c)). Qed.

Lemma update_pending_mode motor ir heater st :
  let mode := if is_state_cmd motor then motor else "" in
  update_pending motor ir heater st
  = ({| ds_motor := if decide (mode ≠ "") then mode else ds_motor st;
        ds_ir := if decide (ir ≠ "") then ir else ds_ir st;
        ds_heater := if decide (heater ≠ "") then heater else ds_heater st |},
     negb (str_empty mode && str_empty ir && str_empty heater)).
Proof.
  assert (is_state_cmd "" = false) as He by done. cbn zeta. unfold update_pending, str_empty.
  destruct (decide (motor = "")) as [->|Hm]; [rewrite He|destruct (is_state_cmd motor)];
    destruct (decide (ir = "")) as [->|Hi], (decide (heater = "")) as [->|Hh];
    repeat first [rewrite bool_decide_true by done | rewrite bool_decide_false by done
                 | rewrite decide_True by done | rewrite decide_False by tauto]; cbn;
    by destruct st.
Qed.

Lemma last_set_same f cmds c :
  last_set f (dc_ip c) (cmds ++ [c]) = if decide (f c ≠ "") then f c else last_set f (dc_ip c) cmds.
Proof.
  rewrite last_set_snoc. destruct (decide (f c ≠ "")); [by rewrite decide_True|].
  by rewrite decide_False by tauto.
Qed.

Lemma update_pending_state c cmds :
  update_pending (dc_motor c) (dc_ir c) (dc_heater c) (state_of (dc_ip c) cmds)
  = (state_of (dc_ip c) (cmds ++ [c]),
     negb (str_empty (dc_mode c) && str_empty (dc_ir c) && str_empty (dc_heater c))).
Proof. rewrite update_pending_mode. unfold state_of. by rewrite !last_set_same. Qed.

Lemma state_of_other a cmds c : dc_ip c ≠ a → state_of a (cmds ++ [c]) = state_of a cmds.
Proof. intros H. unfold state_of. rewrite !last_set_snoc. by rewrite !decide_False by tauto. Qed.

Lemma state_of_fresh a cmds : Forall (λ c, dc_ip c ≠ a) cmds → state_of a cmds = DeviceState0.
Proof.
  intros H. unfold state_of, last_set.
  assert (filter (λ c, dc_ip c = a) cmds = []) as ->; [|done].
  induction H as [|c cmds Hc _ IH]; [done|]. by rewrite filter_cons_False.
Qed.

Lemma nothing_pending_spec st : nothing_pending st = true ↔ st = DeviceState0.
Proof.
  unfold nothing_pending. rewrite !andb_true_iff, !str_empty_true. destruct st as [m i h]; cbn.
  split; [intros [[-> ->] ->]; done|by intros [= -> -> ->]].
Qed.

Lemma state_of_pending cmds c :
  negb (str_empty (dc_mode c) && str_empty (dc_ir c) && str_empty (dc_heater c)) = true →
  nothing_pending (state_of (dc_ip c) (cmds ++ [c])) = false.
Proof.
  intros H. apply not_true_iff_false. rewrite nothing_pending_spec. unfold state_of.
  rewrite !last_set_snoc. intros [= H1 H2 H3]. apply negb_true_iff in H.
  apply not_true_iff_false in H. apply H. rewrite !andb_true_iff, !str_empty_true.
  split_and!; [destruct (decide (dc_mode c = "")) as [?|Hn]|destruct (decide (dc_ir c = "")) as [?|Hn]
              |destruct (decide (dc_heater c = "")) as [?|Hn]]; try done.
  - by rewrite decide_True in H1.
  - by rewrite decide_True in H2.
  - by rewrite decide_True in H3.
Qed.

(** A command that sets nothing leaves the state. *)
Lemma state_of_keep cmds c a :
  negb (str_empty (dc_mode c) && str_empty (dc_ir c) && str_empty (dc_heater c)) = false →
  state_of a (cmds ++ [c]) = state_of a cmds.
Proof.
  rewrite negb_false_iff, !andb_true_iff, !str_empty_true. intros [[Hm Hi] Hh].
  unfold state_of. rewrite !last_set_snoc. by rewrite !decide_False by tauto.
Qed.

(** A pending state stays pending. *)
Lemma state_of_mono cmds c a :
  nothing_pending (state_of a cmds) = false → nothing_pending (state_of a (cmds ++ [c])) = false.
Proof.
  intros H. destruct (decide (dc_ip c = a)) as [<-|Hne]; [|by rewrite state_of_other].
  destruct (negb (str_empty (dc_mode c) && str_empty (dc_ir c) && str_empty (dc_heater c))) eqn:Hs.
  - by apply state_of_pending.
  - by rewrite state_of_keep.
Qed.

(** Whether some device has something to send. *)
Definition some_pending (cmds : list device_cmd) : Prop :=
  ∃ a, a ≠ "" ∧ nothing_pending (state_of a cmds) = false.

Definition named (a : QString) (cmds : list device_cmd) : Prop :=
  a ≠ "" ∧ Exists (λ c, dc_ip c = a) cmds.

#[local] Instance named_dec a cmds : Decision (named a cmds).
Proof. unfold named. apply _. Defined.

Lemma named_snoc a cmds c : named a (cmds ++ [c]) ↔ named a cmds ∨ (a ≠ "" ∧ dc_ip c = a).
Proof. unfold named. rewrite Exists_app, Exists_cons, Exists_nil. tauto. Qed.

Lemma not_named_state a cmds : a ≠ "" → ¬ named a cmds → state_of a cmds = DeviceState0.
Proof.
  intros Ha Hn. apply state_of_fresh. apply Forall_forall. intros c Hc Hip. apply Hn.
  split; [done|]. apply Exists_exists. by exists c.
Qed.

Lemma pending_named a cmds :
  a ≠ "" → nothing_pending (state_of a cmds) = false → named a cmds.
Proof.
  intros Ha H. destruct (decide (named a cmds)) as [?|Hn]; [done|].
  by rewrite (not_named_state a cmds Ha Hn) in H.
Qed.

Lemma some_pending_snoc cmds c :
  some_pending (cmds ++ [c]) ↔
  some_pending cmds ∨
  (dc_ip c ≠ "" ∧
   negb (str_empty (dc_mode c) && str_empty (dc_ir c) && str_empty (dc_heater c)) = true).
Proof.
  split.
  - intros (a & Ha & H). destruct (decide (dc_ip c = a)) as [<-|Hne].
    + destruct (negb _) eqn:Hs; [by right|]. left. exists (dc_ip c).
      by rewrite state_of_keep in H.
    + left. exists a. by rewrite state_of_other in H.
  - intros [(a & Ha & H)|[Ha H]].
    + exists a. split; [done|]. by apply state_of_mono.
    + exists (dc_ip c). split; [done|]. by apply state_of_pending.
Qed.

Lemma run_cmds_snoc cmds c : run_cmds (cmds ++ [c]) = run_cmd (run_cmds cmds) c.
Proof. unfold run_cmds. by rewrite foldl_app. Qed.

Lemma run_cmds_spec cmds :
  (run_cmds cmds).2 = cmds ≫= immediate ∧
  (debounce_active (run_cmds cmds).1 = true ↔ some_pending cmds) ∧
  ∀ a, pendingStates_ (run_cmds cmds).1 !! a
       = if decide (named a cmds) then Some (state_of a cmds) else None.
Proof.
  induction cmds as [|c cmds (IH2 & IHd & IHp)] using rev_ind.
  { split_and!; [done|by split; [|intros (a & _ & H)]|].
    intros a. rewrite decide_False; [done|]. intros [_ H]. by apply Exists_nil in H. }
  rewrite run_cmds_snoc, bind_app, some_pending_snoc. cbn [mbind list_bind]. rewrite app_nil_r.
  destruct (run_cmds cmds) as [b calls]. cbn [fst snd] in *. subst calls.
  unfold run_cmd, sendDevice. rewrite (immediate_eq c). destruct (str_empty (dc_ip c)) eqn:Hip.
  - apply str_empty_true in Hip. cbn. rewrite app_nil_r. split_and!; [done| |].
    + rewrite IHd. tauto.
    + intros a. rewrite IHp. destruct (decide (named a cmds)) as [Hn|Hn].
      * rewrite decide_True by (apply named_snoc; tauto). f_equal.
        rewrite state_of_other; [done|]. destruct Hn. congruence.
      * rewrite decide_False; [done|]. rewrite named_snoc. intros [?|[? ?]]; congruence.
  - apply str_empty_false in Hip.
    assert (default DeviceState0 (pendingStates_ b !! dc_ip c) = state_of (dc_ip c) cmds) as ->.
    { rewrite IHp. case_decide as Hn; [done|]. cbn. by rewrite not_named_state. }
    rewrite update_pending_state. cbn. split_and!.
    + done.
    + rewrite orb_true_iff, IHd. tauto.
    + intros a. destruct (decide (dc_ip c = a)) as [<-|Hne].
      * rewrite lookup_insert_eq, decide_True; [done|]. apply named_snoc. by right.
      * rewrite lookup_insert_ne, IHp, state_of_other by done.
        destruct (decide (named a cmds)) as [Hn|Hn].
        -- rewrite decide_True; [done|]. apply named_snoc. by left.
        -- rewrite decide_False; [done|]. rewrite named_snoc. tauto.
Qed.

(** The messages the timer sends. *)
Lemma process_spec `{M : QtMap} cmds :
  let '(b', calls) := processPendingStates (run_cmds cmds).1 in
  b' = NetworkBridge0 ∧
  ∃ addrs, NoDup addrs ∧
    (∀ a, a ∈ addrs ↔ a ≠ "" ∧ nothing_pending (state_of a cmds) = false) ∧
    calls = (λ a, SvcSend (mt_value DEVICE) (device_body a (state_of a cmds))) <$> addrs.
Proof.
  destruct (run_cmds_spec cmds) as (_ & _ & Hp). set (b := (run_cmds cmds).1) in *.
  unfold processPendingStates. split; [done|].
  set (items := filter _ _).
  assert (∀ a st, (a, st) ∈ items ↔ pendingStates_ b !! a = Some st ∧ nothing_pending st = false) as Hin.
  { intros a st. unfold items. rewrite list_elem_of_filter, (qmap_items_perm (pendingStates_ b)).
    rewrite elem_of_map_to_list. cbn. tauto. }
  exists (items.*1). split_and!.
  - apply (NoDup_submseteq_l _ (map_to_list (pendingStates_ b)).*1); [|apply NoDup_fst_map_to_list].
    rewrite <-qmap_items_perm. unfold items. apply sublist_submseteq, fmap_sublist, sublist_filter.
  - intros a. rewrite list_elem_of_fmap. split.
    + intros ([a' st] & -> & Hst%Hin). cbn. rewrite Hp in Hst. case_decide as Hn; [|by destruct Hst].
      destruct Hn as [? _], Hst as [[= <-] ?]. done.
    + intros [Ha H]. exists (a, state_of a cmds). split; [done|]. apply Hin. split; [|done].
      rewrite Hp. by rewrite decide_True by (by apply pending_named).
  - rewrite <-list_fmap_compose. apply list_fmap_ext. intros i [a st] Hi.
    apply list_elem_of_lookup_2, Hin in Hi as [Hst _]. rewrite Hp in Hst.
    case_decide; [|done]. by injection Hst as <-.
Qed.
End commands.

(** ** Properties *)

(** Message bodies: when the non-empty values have nothing to escape, a reader
    of flat objects gets back exactly the members with non-empty values, in
    order; but values are not escaped, so a value that contains a quote can add
    members of its own: the text of an object with one crafted member is the
    text of an object with two. *)
Theorem bridge_json (pairs : list (string * string)) :
  (Forall plain_pair (written pairs) → read_object (buildJson pairs) = Some (written pairs)) ∧
  (∀ before k0 v0 k v, v0 ≠ "" → v ≠ "" →
    buildJson (before ++ (k0, v0 +:+ dq +:+ "," +:+ dq +:+ k +:+ dq +:+ ":" +:+ dq +:+ v) :: pairs)
    = buildJson (before ++ (k0, v0) :: (k, v) :: pairs)).
Proof.
  split; [apply read_buildJson|]. intros before k0 v0 k v Hv0 Hv. unfold buildJson.
  rewrite !foldl_app. destruct (foldl build_step ("{", true) before) as [s first].
  cbn [foldl build_step].
  rewrite (proj2 (str_empty_false (v0 +:+ _))) by (by apply app_string_ne_empty_l).
  rewrite (proj2 (str_empty_false v0)) by done. cbn [foldl build_step].
  rewrite (proj2 (str_empty_false v)) by done.
  cbn [foldl build_step].
  f_equal. f_equal. f_equal. by rewrite !app_string_assoc.
Qed.

Lemma bridge_json_witness :
  read_object (buildJson [("device", "10.0.0.1"); ("motor", ""); ("ir", "on")])
  = Some [("device", "10.0.0.1"); ("ir", "on")] ∧
  buildJson [("id", "bob" +:+ dq +:+ "," +:+ dq +:+ "role" +:+ dq +:+ ":" +:+ dq +:+ "admin");
             ("pw", "x")]
  = buildJson [("id", "bob"); ("role", "admin"); ("pw", "x")].
Proof.
  split.
  - apply (bridge_json [("device", "10.0.0.1"); ("motor", ""); ("ir", "on")]).
    repeat apply Forall_cons_2; [..|apply Forall_nil_2]; by split.
  - apply (proj2 (bridge_json [("pw", "x")]) [] "id" "bob" "role" "admin"); done.
Defined.

(** C32. Device commands are debounced without loss: after any commands since the
    timer last ran, exactly the actions among them have been sent, each at once;
    the timer is running exactly when some device has a state to send; and when
    it runs it sends one message for each such device, with the last non-empty
    value given for each field, and starts over empty.  Of the motor only "auto" and
    "unauto" are state: the code sends nothing after a movement (the assignment of
    "unauto" that a comment announces for it is commented out). *)
Theorem bridge_debounce `{T : QtText, M : QtMap} (cmds : list device_cmd) :
  let '(b, calls) := run_cmds cmds in
  calls = cmds ≫= immediate ∧
  (debounce_active b = true ↔ ∃ a, a ≠ "" ∧ nothing_pending (state_of a cmds) = false) ∧
  let '(b', sent) := processPendingStates b in
  b' = NetworkBridge0 ∧
  ∃ addrs, NoDup addrs ∧
    (∀ a, a ∈ addrs ↔ a ≠ "" ∧ nothing_pending (state_of a cmds) = false) ∧
    sent = (λ a, SvcSend (mt_value DEVICE) (device_body a (state_of a cmds))) <$> addrs.
Proof.
  pose proof (run_cmds_spec cmds) as (Hc & Hd & _). pose proof (process_spec cmds) as Hp.
  destruct (run_cmds cmds) as [b calls]. cbn [fst snd] in *. done.
Qed.
