(* ===== verification/Auth.v ===== *)
(** * Login and sign-up (src/Qt/Back/Controllers/AuthController)

    The two controllers as state machines over the bridge's signals and the user's
    commands; [isConnected] of the bridge is an input of the commands.  A step
    returns the new state, the calls on the bridge and the signals emitted, in
    order. *)

From S2P Require Import Prelude Extern Protocol MessageProcessor NetworkBridge.

(** ** [AuthController] *)

Inductive auth_out : Type :=
| Call (c : svc_call)
| isLoadingChanged
| isErrorChanged
| errorMessageChanged
| stateChanged
| usernameChanged
| LoginSuccess
| LogoutRequested
| SignupSuccess (message : QString).

Record AuthController : Type := {
  bridge_ : bool;                  (* a bridge is set *)
  host_ : QString;
  port_ : QString;
  isLoading_ : bool;
  isError_ : bool;
  errorMessage_ : QString
}.

Definition AuthController_ctor (bridge : bool) (host port : QString) : AuthController :=
  {| bridge_ := bridge; host_ := host; port_ := port; isLoading_ := false; isError_ := false;
     errorMessage_ := "" |}.

Definition setLoading (v : bool) (a : AuthController) : AuthController * list auth_out :=
  if Bool.eqb (isLoading_ a) v then (a, [])
  else ({| bridge_ := bridge_ a; host_ := host_ a; port_ := port_ a; isLoading_ := v;
           isError_ := isError_ a; errorMessage_ := errorMessage_ a |}, [isLoadingChanged]).

Definition setError (msg : QString) (a : AuthController) : AuthController * list auth_out :=
  ({| bridge_ := bridge_ a; host_ := host_ a; port_ := port_ a; isLoading_ := isLoading_ a;
      isError_ := true; errorMessage_ := msg |}, [isErrorChanged; errorMessageChanged]).

Definition clearError (a : AuthController) : AuthController * list auth_out :=
  ({| bridge_ := bridge_ a; host_ := host_ a; port_ := port_ a; isLoading_ := isLoading_ a;
      isError_ := false; errorMessage_ := "" |}, [isErrorChanged; errorMessageChanged]).

(** [clearError(); setLoading(true);] *)
Definition begin_request (a : AuthController) : AuthController * list auth_out :=
  let '(a, o1) := clearError a in
  let '(a, o2) := setLoading true a in
  (a, o1 ++ o2).

(** Calls on the bridge, when there is one. *)
Definition on_bridge (a : AuthController) (calls : list svc_call) : list auth_out :=
  if bridge_ a then Call <$> calls else [].

(** ** [LoginController] *)

Record LoginController : Type := {
  lg_auth : AuthController;
  state_ : QString;
  username_ : QString;
  lg_pendingId_ : QString;
  lg_pendingPassword_ : QString
}.

Definition LoginController_ctor (bridge : bool) (host port : QString) : LoginController :=
  {| lg_auth := AuthController_ctor bridge host port; state_ := ""; username_ := "";
     lg_pendingId_ := ""; lg_pendingPassword_ := "" |}.

Section login.
Context `{T : QtText}.

Definition lg_onConnected (l : LoginController) : LoginController * list auth_out :=
  if bridge_ (lg_auth l) && negb (str_empty (lg_pendingId_ l)) then
    ({| lg_auth := lg_auth l; state_ := state_ l; username_ := username_ l; lg_pendingId_ := "";
        lg_pendingPassword_ := "" |},
     Call <$> sendLogin (lg_pendingId_ l) (lg_pendingPassword_ l))
  else (l, []).

Definition login (id password : QString) (isConnected : bool) (l : LoginController)
    : LoginController * list auth_out :=
  if str_empty id || str_empty password then
    let '(a, o) := setError "ID and Password cannot be empty" (lg_auth l) in
    ({| lg_auth := a; state_ := state_ l; username_ := username_ l;
        lg_pendingId_ := lg_pendingId_ l; lg_pendingPassword_ := lg_pendingPassword_ l |}, o)
  else
    let '(a, o) := begin_request (lg_auth l) in
    let l := {| lg_auth := a; state_ := state_ l; username_ := username_ l;
                lg_pendingId_ := id; lg_pendingPassword_ := password |} in
    if bridge_ a then
      if isConnected then let '(l, o') := lg_onConnected l in (l, o ++ o')
      else (l, o ++ (Call <$> connectToServer (host_ a) (port_ a) "login"))
    else (l, o).

Definition handleLoginSuccess (state username : QString) (l : LoginController)
    : LoginController * list auth_out :=
  let '(a, o) := setLoading false (lg_auth l) in
  ({| lg_auth := a; state_ := state; username_ := username; lg_pendingId_ := lg_pendingId_ l;
      lg_pendingPassword_ := lg_pendingPassword_ l |},
   o ++ [stateChanged; usernameChanged; LoginSuccess]).

Definition handleLoginFailed (error : QString) (l : LoginController)
    : LoginController * list auth_out :=
  let '(a, o1) := setLoading false (lg_auth l) in
  let '(a, o2) := setError error a in
  ({| lg_auth := a; state_ := state_ l; username_ := username_ l;
      lg_pendingId_ := lg_pendingId_ l; lg_pendingPassword_ := lg_pendingPassword_ l |},
   o1 ++ on_bridge (lg_auth l) disconnect ++ o2).

Definition logout (l : LoginController) : LoginController * list auth_out :=
  let '(a, o1) := setLoading false (lg_auth l) in
  let '(a, o2) := clearError a in
  ({| lg_auth := a; state_ := ""; username_ := ""; lg_pendingId_ := ""; lg_pendingPassword_ := "" |},
   on_bridge (lg_auth l) disconnect ++ [stateChanged; usernameChanged] ++ o1 ++ o2
   ++ [LogoutRequested]).

End login.

(** ** [SignupController] *)

Record SignupController : Type := {
  sg_auth : AuthController;
  sg_pendingId_ : QString;
  pendingEmail_ : QString;
  sg_pendingPassword_ : QString
}.

Definition SignupController_ctor (bridge : bool) (host port : QString) : SignupController :=
  {| sg_auth := AuthController_ctor bridge host port; sg_pendingId_ := ""; pendingEmail_ := "";
     sg_pendingPassword_ := "" |}.

Section signup.
Context `{T : QtText}.

Definition sg_with_auth (a : AuthController) (s : SignupController) : SignupController :=
  {| sg_auth := a; sg_pendingId_ := sg_pendingId_ s; pendingEmail_ := pendingEmail_ s;
     sg_pendingPassword_ := sg_pendingPassword_ s |}.

Definition sg_onConnected (s : SignupController) : SignupController * list auth_out :=
  if bridge_ (sg_auth s) && negb (str_empty (sg_pendingId_ s)) then
    ({| sg_auth := sg_auth s; sg_pendingId_ := ""; pendingEmail_ := ""; sg_pendingPassword_ := "" |},
     Call <$> sendSignup (sg_pendingId_ s) (pendingEmail_ s) (sg_pendingPassword_ s))
  else (s, []).

Definition signup (id email password : QString) (isConnected : bool) (s : SignupController)
    : SignupController * list auth_out :=
  if str_empty id || str_empty email || str_empty password then
    let '(a, o) := setError "모든 항목을 입력해야 합니다." (sg_auth s) in (sg_with_auth a s, o)
  else
    let '(a, o) := begin_request (sg_auth s) in
    let s := {| sg_auth := a; sg_pendingId_ := id; pendingEmail_ := email;
                sg_pendingPassword_ := password |} in
    if bridge_ a then
      if isConnected then let '(s, o') := sg_onConnected s in (s, o ++ o')
      else (s, o ++ (Call <$> connectToServer (host_ a) (port_ a) "signup"))
    else (s, o).

Definition handleSignupSuccess (message : QString) (s : SignupController)
    : SignupController * list auth_out :=
  let '(a, o) := setLoading false (sg_auth s) in
  (sg_with_auth a s, o ++ on_bridge (sg_auth s) disconnect ++ [SignupSuccess message]).

Definition handleSignupFailed (error : QString) (s : SignupController)
    : SignupController * list auth_out :=
  let '(a, o1) := setLoading false (sg_auth s) in
  let '(a, o2) := setError error a in
  (sg_with_auth a s, o1 ++ on_bridge (sg_auth s) disconnect ++ o2).

End signup.

(** ** The controllers on the bridge's signals, as their constructors connect them *)

Record Controllers : Type := { login_ : LoginController; signup_ : SignupController }.

Definition set_login (l : LoginController * list auth_out) (c : Controllers)
    : Controllers * list auth_out := ({| login_ := l.1; signup_ := signup_ c |}, l.2).
Definition set_signup (s : SignupController * list auth_out) (c : Controllers)
    : Controllers * list auth_out := ({| login_ := login_ c; signup_ := s.1 |}, s.2).

Section wiring.
Context `{T : QtText, Q : QtJson}.

Definition on_signal (sig : bridge_signal) (c : Controllers) : Controllers * list auth_out :=
  match sig with
  | loginSuccess st u => set_login (handleLoginSuccess st u (login_ c)) c
  | loginFailed e => set_login (handleLoginFailed e (login_ c)) c
  | connectedForLogin => set_login (lg_onConnected (login_ c)) c
  | signupSuccess m => set_signup (handleSignupSuccess m (signup_ c)) c
  | signupFailed e => set_signup (handleSignupFailed e (signup_ c)) c
  | connectedForSignup => set_signup (sg_onConnected (signup_ c)) c
  | _ => (c, [])
  end.

(** What happens to the controllers: commands of the user, and callbacks of the
    service with the purpose of the connection they belong to. *)
Inductive auth_event : Type :=
| ELogin (id password : QString) (isConnected : bool)
| ESignup (id email password : QString) (isConnected : bool)
| ELogout
| EConnected (purpose : QString)
| ECallback (purpose : QString) (k : callback) (body : string).

Definition on_signals (sigs : list bridge_signal) (c : Controllers) : Controllers * list auth_out :=
  foldl (λ acc sig, let '(c, o) := on_signal sig acc.1 in (c, acc.2 ++ o)) (c, []) sigs.

Definition auth_handle (e : auth_event) (c : Controllers) : Controllers * list auth_out :=
  match e with
  | ELogin id pw conn => set_login (login id pw conn (login_ c)) c
  | ESignup id em pw conn => set_signup (signup id em pw conn (signup_ c)) c
  | ELogout => set_login (logout (login_ c)) c
  | EConnected purpose => on_signals (on_connected_callback purpose) c
  | ECallback purpose k body => on_signals (on_callback purpose k body) c
  end.

Definition auth_run (es : list auth_event) (c : Controllers) : Controllers * list auth_out :=
  foldl (λ acc e, let '(c, o) := auth_handle e acc.1 in (c, acc.2 ++ o)) (c, []) es.

End wiring.

(** ** Lemmas *)
Section lemmas.
Context `{T : QtText, Q : QtJson}.

Lemma auth_run_snoc es e c :
  auth_run (es ++ [e]) c
  = (let '(c', o) := auth_handle e (auth_run es c).1 in (c', (auth_run es c).2 ++ o)).
Proof. unfold auth_run. by rewrite foldl_app. Qed.

Definition signup_loading (c : Controllers) : bool := isLoading_ (sg_auth (signup_ c)).

(** Outputs that report no finished sign-up. *)
Definition quiet (o : list auth_out) : Prop := Forall (λ x, ∀ m, x ≠ SignupSuccess m) o.

(** A step that neither ends the sign-up nor reports its success. *)
Definition keeps_waiting (r : Controllers * list auth_out) : Prop :=
  signup_loading r.1 = true ∧ quiet r.2.

Lemma quiet_calls (calls : list svc_call) : quiet (Call <$> calls).
Proof. apply Forall_fmap, Forall_forall. done. Qed.

Lemma quiet_bridge a calls : quiet (on_bridge a calls).
Proof. unfold on_bridge. destruct (bridge_ a); [apply quiet_calls|by constructor]. Qed.

Lemma quiet_loading v a : quiet (setLoading v a).2.
Proof. unfold setLoading. destruct (Bool.eqb _ _); by repeat constructor. Qed.

Lemma quiet_begin a : quiet (begin_request a).2.
Proof.
  unfold begin_request. cbn. pose proof (quiet_loading true (clearError a).1) as H.
  cbn in H. destruct (setLoading _ _). repeat constructor; done.
Qed.

Lemma quiet_login_connected l : quiet (lg_onConnected l).2.
Proof. unfold lg_onConnected. destruct (_ && _); [apply quiet_calls|by constructor]. Qed.

Lemma quiet_signup_connected s : quiet (sg_onConnected s).2.
Proof. unfold sg_onConnected. destruct (_ && _); [apply quiet_calls|by constructor]. Qed.

(** Closes [quiet o] for an output built from the pieces above. *)
Ltac quiet :=
  repeat first [apply Forall_app_2 | apply Forall_cons_2 | apply Forall_nil_2 | done
               | apply quiet_bridge | apply quiet_calls].

Lemma quiet_login id pw conn l : quiet (login id pw conn l).2.
Proof.
  unfold login. destruct (_ || _); [cbn; quiet|].
  pose proof (quiet_begin (lg_auth l)). destruct (begin_request (lg_auth l)) as [a o].
  destruct (bridge_ a); [|done]. destruct conn; [|cbn; quiet].
  match goal with |- context [lg_onConnected ?l'] => pose proof (quiet_login_connected l') end.
  destruct (lg_onConnected _). cbn in *. quiet.
Qed.

Lemma quiet_signup id em pw conn s : quiet (signup id em pw conn s).2.
Proof.
  unfold signup. destruct (_ || _); [cbn; quiet|].
  pose proof (quiet_begin (sg_auth s)). destruct (begin_request (sg_auth s)) as [a o].
  destruct (bridge_ a); [|done]. destruct conn; [|cbn; quiet].
  match goal with |- context [sg_onConnected ?s'] => pose proof (quiet_signup_connected s') end.
  destruct (sg_onConnected _). cbn in *. quiet.
Qed.

Lemma quiet_logout l : quiet (logout l).2.
Proof.
  unfold logout. pose proof (quiet_loading false (lg_auth l)).
  destruct (setLoading _ _) as [a o]. cbn in *. quiet.
Qed.

Lemma quiet_login_success st u l : quiet (handleLoginSuccess st u l).2.
Proof.
  unfold handleLoginSuccess. pose proof (quiet_loading false (lg_auth l)).
  destruct (setLoading _ _) as [a o]. cbn in *. quiet.
Qed.

Lemma quiet_login_failed e l : quiet (handleLoginFailed e l).2.
Proof.
  unfold handleLoginFailed. pose proof (quiet_loading false (lg_auth l)).
  destruct (setLoading _ _) as [a o]. cbn in *. quiet.
Qed.

(** *** What the commands leave of [isLoading_] *)

Lemma setLoading_value v a : isLoading_ (setLoading v a).1 = v.
Proof. unfold setLoading. destruct (Bool.eqb (isLoading_ a) v) eqn:H; [by apply Bool.eqb_prop|done]. Qed.

Lemma begin_request_loading a : isLoading_ (begin_request a).1 = true.
Proof.
  unfold begin_request. cbn. pose proof (setLoading_value true (clearError a).1) as H.
  cbn in H. by destruct (setLoading _ _).
Qed.

Lemma sg_onConnected_auth s : sg_auth (sg_onConnected s).1 = sg_auth s.
Proof. unfold sg_onConnected. by destruct (_ && _). Qed.

Lemma signup_loads id em pw conn s :
  isLoading_ (sg_auth s) = true → isLoading_ (sg_auth (signup id em pw conn s).1) = true.
Proof.
  intros Hl. unfold signup. destruct (_ || _); [done|].
  pose proof (begin_request_loading (sg_auth s)). destruct (begin_request (sg_auth s)) as [a o].
  destruct (bridge_ a); [|done]. destruct conn; [|done].
  match goal with |- context [sg_onConnected ?s'] => pose proof (sg_onConnected_auth s') as Ha end.
  destruct (sg_onConnected _). cbn in *. by rewrite Ha.
Qed.

(** The signals of the callbacks but the failure one. *)
Definition harmless (sig : bridge_signal) : Prop :=
  match sig with signupSuccess _ | signupFailed _ => False | _ => True end.

Lemma on_signal_waits sig c : harmless sig → signup_loading c = true → keeps_waiting (on_signal sig c).
Proof.
  intros Hh Hc. unfold keeps_waiting, signup_loading in *.
  destruct sig; cbn; try done; (split; [rewrite ?sg_onConnected_auth; done|]);
    eauto using quiet_login_connected, quiet_signup_connected, quiet_login_success, quiet_login_failed;
    by constructor.
Qed.

Lemma on_signals_waits sigs c :
  Forall harmless sigs → signup_loading c = true → keeps_waiting (on_signals sigs c).
Proof.
  intros Hs Hc. unfold on_signals.
  assert (keeps_waiting (c, [] : list auth_out)) as H0 by (split; [done|by constructor]).
  revert H0. generalize (c, [] : list auth_out). clear c Hc.
  induction Hs as [|sig sigs Hsig _ IH]; intros acc Hacc; [done|]. cbn. apply IH.
  destruct acc as [c o], Hacc as [Hc Ho].
  destruct (on_signal_waits sig c Hsig Hc) as [Hc' Ho'].
  cbn [fst snd] in *. destruct (on_signal sig c) as [c' o']. split; [done|]. by apply Forall_app_2.
Qed.

Lemma callback_harmless purpose k body :
  k ≠ onLoginFail → Forall harmless (on_callback purpose k body).
Proof.
  intros Hk. destruct k; try done; cbn; try (by apply Forall_singleton).
  unfold login_result. destruct (qjson_object _); [|by constructor].
  by case_match; apply Forall_singleton.
Qed.

Lemma auth_handle_waits e c :
  (∀ p body, e ≠ ECallback p onLoginFail body) → signup_loading c = true →
  keeps_waiting (auth_handle e c).
Proof.
  intros He Hc. destruct e as [id pw conn|id em pw conn| |p|p k body]; cbn [auth_handle].
  - split; [done|]. apply quiet_login.
  - split; [by apply signup_loads|apply quiet_signup].
  - split; [done|]. apply quiet_logout.
  - apply on_signals_waits; [|done]. unfold on_connected_callback.
    repeat case_decide; by repeat constructor.
  - apply on_signals_waits; [|done]. apply callback_harmless. intros ->. by eapply He.
Qed.

(** *** Login requests *)

(** The bodies of the LOGIN messages among the outputs, in order. *)
Definition login_bodies (o : list auth_out) : list string :=
  omap (λ x, match x with
             | Call (SvcSend t body) => if decide (t = mt_value LOGIN) then Some body else None
             | _ => None
             end) o.

#[global] Arguments login_bodies : simpl never.

Definition login_body (id pw : QString) : string :=
  buildJson [("id", toStdString id); ("pw", toStdString pw)].

(** The login commands that are accepted, as the bodies they ask for. *)
Definition accepted (es : list auth_event) : list string :=
  omap (λ e, match e with
             | ELogin id pw _ => if str_empty id || str_empty pw then None else Some (login_body id pw)
             | _ => None
             end) es.

(** What is still to be sent. *)
Definition waiting (c : Controllers) : list string :=
  if str_empty (lg_pendingId_ (login_ c)) then []
  else [login_body (lg_pendingId_ (login_ c)) (lg_pendingPassword_ (login_ c))].

(** No password is kept without its id. *)
Definition erased (c : Controllers) : Prop :=
  lg_pendingId_ (login_ c) = "" → lg_pendingPassword_ (login_ c) = "".

Lemma accepted_snoc es e : accepted (es ++ [e]) = accepted es ++ accepted [e].
Proof. apply omap_app. Qed.

Lemma login_bodies_app o1 o2 : login_bodies (o1 ++ o2) = login_bodies o1 ++ login_bodies o2.
Proof. apply omap_app. Qed.

Lemma bodies_bridge a : login_bodies (on_bridge a disconnect) = [].
Proof. unfold on_bridge. by destruct (bridge_ a). Qed.

Lemma bodies_loading v a : login_bodies (setLoading v a).2 = [].
Proof. unfold setLoading. by destruct (Bool.eqb _ _). Qed.

Lemma bodies_begin a :
  login_bodies (begin_request a).2 = [] ∧ bridge_ (begin_request a).1 = bridge_ a.
Proof.
  unfold begin_request. cbn. unfold setLoading. cbn. by destruct (Bool.eqb _ _).
Qed.

Lemma bodies_send_login id pw : login_bodies (Call <$> sendLogin id pw) = [login_body id pw].
Proof. reflexivity. Qed.

Lemma bodies_connect host port p : login_bodies (Call <$> connectToServer host port p) = [].
Proof. reflexivity. Qed.

(** A step sends only what was waiting or is asked for now, and erases passwords
    with their ids. *)
Definition sends_from (c : Controllers) (extra : list string) (r : Controllers * list auth_out) : Prop :=
  (login_bodies r.2 ++ waiting r.1) `sublist_of` (waiting c ++ extra) ∧ (erased c → erased r.1).

Lemma login_connected_bodies l c :
  login_ c = l →
  let r := set_login (lg_onConnected l) c in
  sends_from c [] r ∧ (bridge_ (lg_auth l) = true → login_bodies r.2 = waiting c).
Proof.
  intros <-. cbn zeta. unfold sends_from, set_login, lg_onConnected, waiting, erased. rewrite app_nil_r.
  destruct (bridge_ _), (str_empty _) eqn:Hid; cbn; rewrite ?Hid; split_and!; done.
Qed.

Lemma login_sends id pw conn c :
  let r := set_login (login id pw conn (login_ c)) c in
  sends_from c (accepted [ELogin id pw conn]) r ∧
  (bridge_ (lg_auth (login_ c)) = true → str_empty id || str_empty pw = false →
   login_bodies r.2 = (if conn then [login_body id pw] else []) ∧
   waiting r.1 = (if conn then [] else [login_body id pw]) ∧
   bridge_ (lg_auth (login_ r.1)) = true).
Proof.
  cbn zeta. unfold sends_from, login, accepted. cbn [omap list_omap].
  destruct (str_empty id || str_empty pw) eqn:He.
  { cbn. by rewrite app_nil_r. }
  apply orb_false_iff in He as [Hid Hpw].
  destruct (bodies_begin (lg_auth (login_ c))) as [Hb Hbr].
  destruct (begin_request (lg_auth (login_ c))) as [a o]. cbn in Hb, Hbr.
  apply str_empty_false in Hid as Hid'.
  destruct (bridge_ a) eqn:Ha; [destruct conn|]; unfold lg_onConnected, waiting, erased;
    cbn [lg_auth lg_pendingId_ lg_pendingPassword_ set_login login_ fst snd];
    rewrite ?Ha, ?Hid; cbn [andb negb]; cbn [fst snd lg_pendingId_ lg_pendingPassword_];
    rewrite ?login_bodies_app, ?bodies_send_login, ?bodies_connect, ?Hb, ?Hid;
    change (str_empty "") with true; cbn [app]; rewrite ?app_nil_r, ?Hb; cbn [app].
  - split; [split; [by apply sublist_inserts_l|done]|done].
  - split; [split; [by apply sublist_inserts_l|congruence]|done].
  - split; [split; [by apply sublist_inserts_l|congruence]|congruence].
Qed.

Lemma signup_bodies id em pw conn s : login_bodies (signup id em pw conn s).2 = [].
Proof.
  unfold signup. destruct (_ || _); [done|].
  destruct (bodies_begin (sg_auth s)) as [Hb _]. destruct (begin_request _) as [a o]. cbn in Hb.
  destruct (bridge_ a) eqn:Ha; [|done]. destruct conn; cbn [snd].
  - unfold sg_onConnected. cbn. rewrite Ha. destruct (negb _); cbn; by rewrite login_bodies_app, Hb.
  - by rewrite login_bodies_app, Hb.
Qed.

Lemma same_login_sends c c' o :
  login_ c' = login_ c → login_bodies o = [] → sends_from c [] (c', o).
Proof.
  intros Hl Ho. unfold sends_from, waiting, erased. cbn. by rewrite Hl, Ho, app_nil_r.
Qed.

Lemma on_signal_sends sig c : sends_from c [] (on_signal sig c).
Proof.
  destruct sig; cbn; try (by apply same_login_sends).
  - by apply login_connected_bodies.
  - apply same_login_sends; [done|]. unfold sg_onConnected. by destruct (_ && _).
  - unfold sends_from, handleLoginSuccess. pose proof (bodies_loading false (lg_auth (login_ c))) as H.
    destruct (setLoading _ _) as [a o]. cbn in *.
    rewrite login_bodies_app, H, (app_nil_r (waiting c)). split; [reflexivity|done].
  - unfold sends_from, handleLoginFailed. pose proof (bodies_loading false (lg_auth (login_ c))) as H.
    destruct (setLoading _ _) as [a o]. cbn in *.
    rewrite !login_bodies_app, H, bodies_bridge, (app_nil_r (waiting c)). split; [reflexivity|done].
  - apply same_login_sends; [done|]. unfold handleSignupSuccess.
    pose proof (bodies_loading false (sg_auth (signup_ c))) as H. destruct (setLoading _ _) as [a o].
    cbn in *. by rewrite !login_bodies_app, H, bodies_bridge.
  - apply same_login_sends; [done|]. unfold handleSignupFailed.
    pose proof (bodies_loading false (sg_auth (signup_ c))) as H. destruct (setLoading _ _) as [a o].
    cbn in *. by rewrite !login_bodies_app, H, bodies_bridge.
Qed.

Lemma sends_from_trans c r extra r' :
  sends_from c extra r → sends_from r.1 [] r' → sends_from c extra (r'.1, r.2 ++ r'.2).
Proof.
  intros [Hs He] [Hs' He']. split; [|cbn; tauto]. cbn. rewrite app_nil_r in Hs'.
  rewrite login_bodies_app, <-app_assoc. etrans; [|exact Hs]. by apply sublist_app.
Qed.

Lemma on_signals_sends sigs c : sends_from c [] (on_signals sigs c).
Proof.
  unfold on_signals. assert (sends_from c [] (c, [] : list auth_out)) as H0 by (by apply same_login_sends).
  revert H0. generalize (c, [] : list auth_out).
  induction sigs as [|sig sigs IH]; intros acc Hacc; [done|]. cbn. apply IH.
  pose proof (sends_from_trans c acc [] _ Hacc (on_signal_sends sig acc.1)) as H.
  by destruct (on_signal sig acc.1).
Qed.

Lemma auth_handle_sends e c : sends_from c (accepted [e]) (auth_handle e c).
Proof.
  destruct e as [id pw conn|id em pw conn| |p|p k body]; cbn [auth_handle].
  - apply login_sends.
  - apply same_login_sends; [done|]. apply signup_bodies.
  - unfold sends_from, logout, waiting, erased. pose proof (bodies_loading false (lg_auth (login_ c))) as H.
    destruct (setLoading _ _) as [a o]. cbn [snd] in H. cbn [clearError set_login fst snd].
    rewrite !login_bodies_app, bodies_bridge, H. split; [apply sublist_nil_l|done].
  - apply on_signals_sends.
  - apply on_signals_sends.
Qed.

Lemma auth_run_sends es c :
  waiting c = [] → erased c →
  (login_bodies (auth_run es c).2 ++ waiting (auth_run es c).1) `sublist_of` accepted es ∧
  erased (auth_run es c).1.
Proof.
  intros Hw He. induction es as [|e es [IHs IHe]] using rev_ind.
  { cbn. by rewrite Hw. }
  rewrite auth_run_snoc. destruct (auth_handle_sends e (auth_run es c).1) as [Hs Hk].
  destruct (auth_handle e (auth_run es c).1) as [c' o]. cbn in *. split; [|by apply Hk].
  rewrite login_bodies_app, <-app_assoc, accepted_snoc. etrans; [|apply sublist_app; [exact IHs|reflexivity]].
  rewrite <-app_assoc. by apply sublist_app.
Qed.

(** A login command with both fields, on controllers that have a bridge. *)
Lemma login_now id pw c :
  bridge_ (lg_auth (login_ c)) = true → id ≠ "" → pw ≠ "" →
  login_bodies (auth_handle (ELogin id pw true) c).2 = [login_body id pw].
Proof.
  intros Hb Hid Hpw. destruct (login_sends id pw true c) as [_ H].
  apply H; [done|]. by rewrite !(proj2 (str_empty_false _)).
Qed.

Lemma login_later id pw c :
  bridge_ (lg_auth (login_ c)) = true → id ≠ "" → pw ≠ "" →
  let '(c1, o1) := auth_handle (ELogin id pw false) c in
  (∃ h p, Call (SvcConnect h p "login") ∈ o1) ∧ login_bodies o1 = [] ∧
  login_bodies (auth_handle (EConnected "login") c1).2 = [login_body id pw].
Proof.
  intros Hb Hid Hpw. destruct (login_sends id pw false c) as [_ H].
  destruct H as (Ho & Hw & Hb1); [done|by rewrite !(proj2 (str_empty_false _))|].
  cbn [auth_handle]. assert (∃ h p, Call (SvcConnect h p "login") ∈ (login id pw false (login_ c)).2) as Hc.
  { unfold login. rewrite !(proj2 (str_empty_false _)) by done. cbn [orb].
    pose proof (bodies_begin (lg_auth (login_ c))) as [_ Hbr].
    destruct (begin_request _) as [a o]. cbn in Hbr. rewrite Hbr, Hb. cbn.
    eexists _, _. apply elem_of_app. right. by apply list_elem_of_singleton. }
  destruct (set_login (login id pw false (login_ c)) c) as [c1 o1] eqn:Hr.
  cbn [fst snd] in *. split_and!; [|done|].
  - unfold set_login in Hr. injection Hr as <- <-. exact Hc.
  - destruct (login_connected_bodies (login_ c1) c1 eq_refl) as [_ Hs].
    rewrite <-Hw, <-(Hs Hb1). done.
Qed.

(** A step that keeps waiting, after one that does. *)
Lemma auth_run_waits es c :
  (∀ p body, ECallback p onLoginFail body ∉ es) → signup_loading c = true →
  keeps_waiting (auth_run es c).
Proof.
  intros Hes Hc. induction es as [|e es IH] using rev_ind; [split; [done|by constructor]|].
  destruct IH as [Hl Hq]; [intros p body H; apply (Hes p body), elem_of_app; by left|].
  rewrite auth_run_snoc. destruct (auth_handle_waits e (auth_run es c).1) as [Hl' Hq']; [|done|].
  - intros p body ->. apply (Hes p body), elem_of_app. right. by apply list_elem_of_singleton.
  - destruct (auth_handle e _) as [c' o']. split; [done|]. by apply Forall_app_2.
Qed.
End lemmas.

(** ** Properties *)

(** C36. Credentials: over any sequence of commands, connections and messages from
    the start, the LOGIN messages sent are the accepted login commands, in order
    and each at most once; no password is kept without its id; and a command
    with both fields is sent at once when connected, and otherwise asks for a
    connection and is sent when that connection is reported. *)
Theorem login_requests `{T : QtText, Q : QtJson} (bridge : bool) (host port : QString)
    (es : list auth_event) :
  let '(c, o) := auth_run es {| login_ := LoginController_ctor bridge host port;
                                signup_ := SignupController_ctor bridge host port |} in
  login_bodies o `sublist_of` accepted es ∧
  (lg_pendingId_ (login_ c) = "" → lg_pendingPassword_ (login_ c) = "") ∧
  (∀ id pw, bridge_ (lg_auth (login_ c)) = true → id ≠ "" → pw ≠ "" →
    login_bodies (auth_handle (ELogin id pw true) c).2 = [login_body id pw] ∧
    let '(c1, o1) := auth_handle (ELogin id pw false) c in
    (∃ h p, Call (SvcConnect h p "login") ∈ o1) ∧ login_bodies o1 = [] ∧
    login_bodies (auth_handle (EConnected "login") c1).2 = [login_body id pw]).
Proof.
  set (c0 := {| login_ := _; signup_ := _ |}).
  destruct (auth_run_sends es c0) as [Hs He]; [done|done|].
  destruct (auth_run es c0) as [c o]. cbn [fst snd] in *. split_and!.
  - etrans; [|exact Hs]. by apply sublist_inserts_r.
  - exact He.
  - intros id pw Hb Hid Hpw. split; [by apply login_now|by apply login_later].
Qed.

(** A sign-up is never reported done: whatever arrives (connections, messages
    of every kind with any text, login, logout and further sign-up commands), as
    long as it is not a failure message, a loading sign-up stays loading and no
    success is signalled; and the success message of the server, for whichever
    request it answers, goes to the login controller and logs it in. *)
Theorem signup_never_completes `{T : QtText, Q : QtJson} (c : Controllers) (es : list auth_event) :
  isLoading_ (sg_auth (signup_ c)) = true →
  (∀ p body, ECallback p onLoginFail body ∉ es) →
  let '(c', o) := auth_run es c in
  isLoading_ (sg_auth (signup_ c')) = true ∧ (∀ m, SignupSuccess m ∉ o) ∧
  (∀ p body obj, qjson_object (fromStdString body) = Some obj → q_bool obj "success" = true →
    let '(c'', o') := auth_handle (ECallback p onLoginResult body) c' in
    LoginSuccess ∈ o' ∧ state_ (login_ c'') = q_string obj "state" ∧
    username_ (login_ c'') = q_string obj "username" ∧ signup_ c'' = signup_ c').
Proof.
  intros Hl Hes. destruct (auth_run_waits es c Hes Hl) as [Hl' Hq].
  destruct (auth_run es c) as [c' o]. cbn [fst snd] in *. split_and!.
  - done.
  - intros m Hm. unfold quiet in Hq. rewrite Forall_forall in Hq. by eapply Hq.
  - intros p body obj Hobj Hs. cbn [auth_handle on_callback]. unfold login_result. rewrite Hobj, Hs.
    unfold on_signals, handleLoginSuccess. cbn. unfold handleLoginSuccess.
    destruct (setLoading _ _) as [a o']. cbn. split_and!; try done.
    apply elem_of_app. right. do 2 right. left.
Qed.

Definition demo_controllers : Controllers :=
  {| login_ := LoginController_ctor true "h" "1"; signup_ := SignupController_ctor true "h" "1" |}.

Definition demo_success : QtJson :=
  RefQtJson [("ok", [("success", JBool true); ("state", JStr "user"); ("username", JStr "bob")])].

Definition demo_signup : list auth_event :=
  [EConnected "signup"; ECallback "signup" onLoginResult "ok"].

Lemma signup_never_completes_witness :
  let c := (auth_handle (T := RefText) (Q := demo_success) (ESignup "bob" "b@x" "pw" false)
              demo_controllers).1 in
  isLoading_ (sg_auth (signup_ (auth_run (T := RefText) (Q := demo_success) demo_signup c).1)) = true ∧
  LoginSuccess ∈ (auth_run (T := RefText) (Q := demo_success) demo_signup c).2.
Proof.
  cbn zeta. split.
  - apply (signup_never_completes (T := RefText) (Q := demo_success)
      (auth_handle (T := RefText) (Q := demo_success) (ESignup "bob" "b@x" "pw" false)
              demo_controllers).1 demo_signup); [reflexivity|].
    intros p body [H|[H|H]%elem_of_cons]%elem_of_cons; [done|done|by apply not_elem_of_nil in H].
  - apply list_elem_of_In. vm_compute. tauto.
Defined.
