(* ===== verification/Video.v ===== *)
(** * The decoder of one stream (src/Src/Network/Video)

    [Video] reads one RTSP stream on a thread of its own: it opens the stream,
    decodes its first video stream, drops frames that come sooner than the frame
    limit, passes the others to its callback, and opens again when the stream
    ends.  What FFmpeg returns, what the clock shows and what the thread sees in
    the stop flag are arguments ([Attempt], [LoopStep]); what the code does is a
    trace of events. *)

From Stdlib Require Import Strings.Byte.
From S2P Require Import Prelude.

Local Open Scope Z_scope.

(** ** Data *)

(** The bytes that can be read from a pointer, by their offset. *)
Definition plane : Type := Z → option byte.

Record FramePayload : Type := {
  dataY : option plane;
  dataUV : option plane;
  width : Z;
  height : Z;
  strideY : Z;
  strideUV : Z
}.

(** The pixel formats the code names. *)
Inductive pixel_format : Type := PIX_D3D11 | PIX_NV12 | PIX_NV21 | PIX_OTHER.

Record AVFrame : Type := {
  av_format : pixel_format;
  av_width : Z;
  av_height : Z;
  av_data0 : option plane;
  av_data1 : option plane;
  av_linesize0 : Z;
  av_linesize1 : Z
}.

(** A frame the decoder returns: with the result of its transfer to [swFrame] and
    the frame this gives, the time in ns and the limit in ms at its test. *)
Record Decoded : Type := {
  dc_frame : AVFrame;
  dc_hwRet : Z;
  dc_swFrame : AVFrame;
  dc_now : Z;
  dc_limit : Z
}.

(** One pass of the read loop: the flag it sees, and what [av_read_frame] and the
    decoder return. *)
Record Read : Type := {
  rd_stop : bool;
  rd_ret : Z;
  rd_stream : Z;
  rd_frames : list Decoded
}.

(** What the library returns in one attempt. *)
Record Attempt : Type := {
  at_open : Z;                (* avformat_open_input *)
  at_options_left : bool;     (* some options were not consumed *)
  at_info : Z;                (* avformat_find_stream_info *)
  at_is_video : list bool;    (* codec_type == AVMEDIA_TYPE_VIDEO, by stream *)
  at_hwdevice : Z;            (* av_hwdevice_ctx_create *)
  at_open2 : Z;               (* avcodec_open2 *)
  at_reads : list Read
}.

(** One pass of the decode loop: the flag before and after the attempt. *)
Record LoopStep : Type := {
  ls_stop : bool;
  ls_attempt : Attempt;
  ls_stopped : bool
}.

(** What the code owns in the library. *)
Inductive resource : Type :=
| RFrame | RSwFrame | RPacket | ROptions | RFormat | RHwDevice | RCodec.

#[export] Instance resource_eq_dec : EqDecision resource.
Proof. solve_decision. Defined.

Inductive video_event : Type :=
| Acquire (r : resource)
| Release (r : resource)
| Use (r : resource)
| Accepted (now limit : Z) (p : option FramePayload)  (* a frame that passes the limit; the callback's argument *)
| Sleep (ms : Z)
| Spawn (url : string)
| Join.

Record Video : Type := {
  formatCtx_ : bool;                (* not null *)
  codecCtx_ : bool;
  videoStreamIndex_ : Z;
  decodeThread_ : option string;    (* joinable: the stream it decodes *)
  stopThread_ : bool;
  lastFrameTime_ : Z;               (* ns since the epoch of the clock *)
  fpsLimitMs_ : Z;
  onFrameReady : bool               (* set *)
}.

Definition Video0 : Video := {|
  formatCtx_ := false; codecCtx_ := false; videoStreamIndex_ := -1; decodeThread_ := None;
  stopThread_ := false; lastFrameTime_ := 0; fpsLimitMs_ := 33; onFrameReady := false
|}.

Definition set_ctx (fmt cod : bool) (index : Z) (v : Video) : Video := {|
  formatCtx_ := fmt; codecCtx_ := cod; videoStreamIndex_ := index; decodeThread_ := decodeThread_ v;
  stopThread_ := stopThread_ v; lastFrameTime_ := lastFrameTime_ v; fpsLimitMs_ := fpsLimitMs_ v;
  onFrameReady := onFrameReady v
|}.

Definition set_last (t : Z) (v : Video) : Video := {|
  formatCtx_ := formatCtx_ v; codecCtx_ := codecCtx_ v; videoStreamIndex_ := videoStreamIndex_ v;
  decodeThread_ := decodeThread_ v; stopThread_ := stopThread_ v; lastFrameTime_ := t;
  fpsLimitMs_ := fpsLimitMs_ v; onFrameReady := onFrameReady v
|}.

Definition set_limit (ms : Z) (v : Video) : Video := {|
  formatCtx_ := formatCtx_ v; codecCtx_ := codecCtx_ v; videoStreamIndex_ := videoStreamIndex_ v;
  decodeThread_ := decodeThread_ v; stopThread_ := stopThread_ v; lastFrameTime_ := lastFrameTime_ v;
  fpsLimitMs_ := ms; onFrameReady := onFrameReady v
|}.

Definition set_thread (t : option string) (stop : bool) (v : Video) : Video := {|
  formatCtx_ := formatCtx_ v; codecCtx_ := codecCtx_ v; videoStreamIndex_ := videoStreamIndex_ v;
  decodeThread_ := t; stopThread_ := stop; lastFrameTime_ := lastFrameTime_ v;
  fpsLimitMs_ := fpsLimitMs_ v; onFrameReady := onFrameReady v
|}.

Definition set_onFrameReady (v : Video) : Video := {|
  formatCtx_ := formatCtx_ v; codecCtx_ := codecCtx_ v; videoStreamIndex_ := videoStreamIndex_ v;
  decodeThread_ := decodeThread_ v; stopThread_ := stopThread_ v; lastFrameTime_ := lastFrameTime_ v;
  fpsLimitMs_ := fpsLimitMs_ v; onFrameReady := true
|}.

(** ** The decode thread *)

(** [fpsLimit > 0 ? 1000 / fpsLimit : 33] *)
Definition limit_of (fps : Z) : Z := if 0 <? fps then 1000 ÷ fps else 33.

Definition cleanupFFmpeg (v : Video) : Video * list video_event :=
  (set_ctx false false (-1) v,
   (if codecCtx_ v then [Release RCodec] else []) ++ (if formatCtx_ v then [Release RFormat] else [])).

(** [elapsedMs]: whole milliseconds, towards zero. *)
Definition elapsed_ms (now last : Z) : Z := (now - last) ÷ 1000000.

(** The frame the code goes on with; [None]: the transfer failed. *)
Definition target_frame (d : Decoded) : option AVFrame :=
  match av_format (dc_frame d) with
  | PIX_D3D11 => if dc_hwRet d <? 0 then None else Some (dc_swFrame d)
  | _ => Some (dc_frame d)
  end.

(** What the callback gets. *)
Definition payload_of (callback : bool) (f : AVFrame) : option FramePayload :=
  match av_format f with
  | PIX_NV12 | PIX_NV21 =>
      if callback then
        Some {| dataY := av_data0 f; dataUV := av_data1 f; width := av_width f; height := av_height f;
                strideY := av_linesize0 f; strideUV := av_linesize1 f |}
      else None
  | _ => None
  end.

(** The loop over [avcodec_receive_frame]: the new [lastFrameTime_]. *)
Fixpoint receive_frames (callback : bool) (fs : list Decoded) (last : Z) : Z * list video_event :=
  match fs with
  | [] => (last, [])
  | d :: rest =>
      match target_frame d with
      | None => let '(l, ev) := receive_frames callback rest last in (l, [Use RFrame; Use RSwFrame] ++ ev)
      | Some f =>
          if (av_width f <=? 0) || (av_height f <=? 0) then
            let '(l, ev) := receive_frames callback rest last in (l, Use RFrame :: ev)
          else
            let elapsedMs := elapsed_ms (dc_now d) last in
            if elapsedMs <? dc_limit d then
              let sleepMs := dc_limit d - elapsedMs in
              (last, Use RFrame :: (if 0 <? sleepMs then [Sleep sleepMs] else []))
            else
              let '(l, ev) := receive_frames callback rest (dc_now d) in
              (l, [Use RFrame; Accepted (dc_now d) (dc_limit d) (payload_of callback f)] ++ ev)
      end
  end.

(** The loop over [av_read_frame]; [None]: it is still running. *)
Fixpoint read_loop (rs : list Read) (v : Video) : option (Video * list video_event) :=
  match rs with
  | [] => None
  | r :: rest =>
      if rd_stop r then Some (v, [])
      else if rd_ret r <? 0 then Some (v, [Use RFormat; Use RPacket])
      else
        let '(last, ev) :=
          if rd_stream r =? videoStreamIndex_ v then
            let '(l, ev) := receive_frames (onFrameReady v) (rd_frames r) (lastFrameTime_ v) in
            (l, [Use RCodec] ++ ev)
          else (lastFrameTime_ v, []) in
        '(v', ev') ← read_loop rest (set_last last v);
        Some (v', [Use RFormat; Use RPacket] ++ ev ++ [Use RPacket] ++ ev')
  end.

(** The end of an attempt, successful or not. *)
Definition free_locals (options : bool) : list video_event :=
  [Release RFrame; Release RSwFrame; Release RPacket] ++ (if options then [Release ROptions] else []).

(** [cleanupAndFail] *)
Definition cleanupAndFail (options : bool) (v : Video) : option (bool * Video * list video_event) :=
  let '(v', ev) := cleanupFFmpeg v in Some (false, v', free_locals options ++ ev).

(** From the opened codec on. *)
Definition decode (rs : list Read) (v : Video) : option (bool * Video * list video_event) :=
  '(v1, ev1) ← read_loop rs v;
  let '(v2, ev2) := cleanupFFmpeg v1 in
  Some (true, v2, ev1 ++ free_locals false ++ ev2).

Definition after {A} (ev : list video_event) (r : option (A * list video_event)) : option (A * list video_event) :=
  '(a, ev') ← r; Some (a, ev ++ ev').

(** [None]: the attempt is still running.  A failed [avformat_open_input] frees the
    context it was given; a successful one or a failed one may leave options. *)
Definition tryOnceFFmpeg (t : Attempt) (v : Video) : option (bool * Video * list video_event) :=
  let v := set_ctx true (codecCtx_ v) (videoStreamIndex_ v) v in
  after ([Acquire RFrame; Acquire RSwFrame; Acquire RPacket; Acquire RFormat; Acquire ROptions; Use RFormat]
         ++ (if at_options_left t then [] else [Release ROptions]))
  (if negb (at_open t =? 0) then
     after [Release RFormat] (cleanupAndFail (at_options_left t) (set_ctx false (codecCtx_ v) (videoStreamIndex_ v) v))
   else
     after ((if at_options_left t then [Release ROptions] else []) ++ [Use RFormat])
     (if at_info t <? 0 then cleanupAndFail false v
      else
        let index := index_z (index_where id (at_is_video t)) in
        let v := set_ctx true (codecCtx_ v) index v in
        if index =? -1 then cleanupAndFail false v
        else
          let v := set_ctx true true index v in
          after ([Use RFormat; Acquire RCodec]
                 ++ (if 0 <=? at_hwdevice t then [Acquire RHwDevice; Use RCodec; Release RHwDevice] else [])
                 ++ [Use RCodec])
          (if at_open2 t <? 0 then cleanupAndFail false v else decode (at_reads t) v))).

(** The thread; [None]: it is still running. *)
Fixpoint decodeLoopFFmpeg (steps : list LoopStep) (v : Video) : option (Video * list video_event) :=
  match steps with
  | [] => None
  | s :: rest =>
      if ls_stop s then Some (v, [])
      else
        '(ok, v1, ev1) ← tryOnceFFmpeg (ls_attempt s) v;
        if ls_stopped s then Some (v1, ev1)
        else
          '(v2, ev2) ← decodeLoopFFmpeg rest v1;
          Some (v2, ev1 ++ (if (ok : bool) then [] else [Sleep 3000]) ++ ev2)
  end.

(** ** The calls of the owner *)

Definition setFpsLimit (fps : Z) (v : Video) : Video := set_limit (limit_of fps) v.

(** [steps]: what the thread went through since it was started; [None]: [join]
    does not return yet. *)
Definition stopStream (steps : list LoopStep) (v : Video) : option (Video * list video_event) :=
  '(v1, ev1) ← match decodeThread_ v with
               | Some _ => '(v', ev) ← decodeLoopFFmpeg steps v; Some (v', ev ++ [Join])
               | None => Some (v, [])
               end;
  let '(v2, ev2) := cleanupFFmpeg v1 in
  Some (set_thread None true v2, ev1 ++ ev2).

Definition startStream (steps : list LoopStep) (url : string) (fpsLimit : Z) (v : Video)
    : option (Video * list video_event) :=
  if str_empty url then Some (v, [])
  else
    '(v1, ev) ← stopStream steps v;
    Some (set_thread (Some url) false (set_limit (limit_of fpsLimit) v1), ev ++ [Spawn url]).

(** What the owner does, with what the thread went through before. *)
Inductive video_call : Type :=
| Start (steps : list LoopStep) (url : string) (fpsLimit : Z)
| Stop (steps : list LoopStep)
| SetFps (fps : Z).

Definition video_exec (c : video_call) (v : Video) : option (Video * list video_event) :=
  match c with
  | Start steps url fps => startStream steps url fps v
  | Stop steps => stopStream steps v
  | SetFps fps => Some (setFpsLimit fps v, [])
  end.

Fixpoint video_run (cs : list video_call) (v : Video) : option (Video * list video_event) :=
  match cs with
  | [] => Some (v, [])
  | c :: cs' =>
      '(v1, ev1) ← video_exec c v;
      '(v2, ev2) ← video_run cs' v1;
      Some (v2, ev1 ++ ev2)
  end.

(** ** What a trace owns, and when it accepts frames *)

Inductive owned : Type := Res (r : resource) | Thread.

#[export] Instance owned_eq_dec : EqDecision owned.
Proof. solve_decision. Defined.

Definition take_one (o : owned) (l : list owned) : option (list owned) :=
  if decide (o ∈ l) then None else Some (o :: l).

Definition drop_one (o : owned) (l : list owned) : option (list owned) :=
  if decide (o ∈ l) then Some (filter (λ x, x ≠ o) l) else None.

(** What is owned after an event; [None]: it takes what is already owned (the old
    one is lost), or frees or uses what is not. *)
Definition own_step (e : video_event) (l : list owned) : option (list owned) :=
  match e with
  | Acquire r => take_one (Res r) l
  | Spawn _ => take_one Thread l
  | Release r => drop_one (Res r) l
  | Join => drop_one Thread l
  | Use r => if decide (Res r ∈ l) then Some l else None
  | Accepted _ _ _ | Sleep _ => Some l
  end.

Fixpoint owns (ev : list video_event) (l : list owned) : option (list owned) :=
  match ev with
  | [] => Some l
  | e :: ev' => l' ← own_step e l; owns ev' l'
  end.

(** The accepted frames with their time and limit. *)
Definition accepted_of (e : video_event) : option (Z * Z) :=
  match e with Accepted now limit _ => Some (now, limit) | _ => None end.

Definition accepts (ev : list video_event) : list (Z * Z) := omap accepted_of ev.

(** Each time is at least its limit after the one before. *)
Fixpoint spaced (last : Z) (l : list (Z * Z)) : Prop :=
  match l with
  | [] => True
  | (now, limit) :: l' => limit ≤ elapsed_ms now last ∧ spaced now l'
  end.

Definition final_time (last : Z) (l : list (Z * Z)) : Z := foldl (λ _ p, p.1) last l.

(** The callback only gets frames with a size. *)
Definition sized (e : video_event) : Prop :=
  match e with Accepted _ _ (Some p) => 0 < width p ∧ 0 < height p | _ => True end.

(** From owning [l] at [lastFrameTime_ = t] to owning [l'] at [t']. *)
Definition traces (l : list owned) (t : Z) (l' : list owned) (t' : Z) (ev : list video_event) : Prop :=
  owns ev l = Some l' ∧ spaced t (accepts ev) ∧ t' = final_time t (accepts ev) ∧ Forall sized ev.

Lemma owns_app e1 e2 l : owns (e1 ++ e2) l = owns e1 l ≫= owns e2.
Proof.
  revert l. induction e1 as [|e e1 IH]; intros l; [done|]. cbn.
  destruct (own_step e l); cbn; [apply IH|done].
Qed.

Lemma spaced_app t a b : spaced t (a ++ b) ↔ spaced t a ∧ spaced (final_time t a) b.
Proof.
  revert t. induction a as [|[n m] a IH]; intros t; cbn; [naive_solver|].
  rewrite IH. unfold final_time. cbn. tauto.
Qed.

Lemma traces_app l t l1 t1 l2 t2 e1 e2 :
  traces l t l1 t1 e1 → traces l1 t1 l2 t2 e2 → traces l t l2 t2 (e1 ++ e2).
Proof.
  intros (Ho1 & Hs1 & -> & Hf1) (Ho2 & Hs2 & -> & Hf2). split_and!.
  - by rewrite owns_app, Ho1.
  - unfold accepts. rewrite omap_app. by apply spaced_app.
  - unfold accepts, final_time. by rewrite omap_app, foldl_app.
  - by apply Forall_app.
Qed.

(** A part of a trace without accepted frames. *)
Lemma traces_plain l t l' ev :
  accepts ev = [] → owns ev l = Some l' → traces l t l' t ev.
Proof.
  intros Ha Ho. unfold traces. rewrite Ha. split_and!; [done..|].
  clear Ho. induction ev as [|e ev IH]; [by constructor|].
  constructor; [by destruct e|]. apply IH. by destruct e.
Qed.

Lemma traces_nil l t : traces l t l t [].
Proof. by apply traces_plain. Qed.

(** Owning the five things the read loop uses. *)
Definition reading (l : list owned) : Prop :=
  Res RFrame ∈ l ∧ Res RSwFrame ∈ l ∧ Res RPacket ∈ l ∧ Res RFormat ∈ l ∧ Res RCodec ∈ l.

Lemma owns_uses rs l : Forall (λ r, Res r ∈ l) rs → owns (Use <$> rs) l = Some l.
Proof. induction 1 as [|r rs Hr _ IH]; [done|]. cbn. by rewrite decide_True. Qed.

Lemma traces_uses rs l t : Forall (λ r, Res r ∈ l) rs → traces l t l t (Use <$> rs).
Proof.
  intros H. apply traces_plain; [|by apply owns_uses]. clear H. by induction rs.
Qed.

Lemma receive_traces cb fs t l :
  reading l → traces l t l (receive_frames cb fs t).1 (receive_frames cb fs t).2.
Proof.
  intros Hl. pose proof Hl as (Hf & Hs & _). revert t. induction fs as [|d fs IH]; intros t; cbn [receive_frames].
  { apply traces_nil. }
  destruct (target_frame d) as [f|].
  - destruct ((av_width f <=? 0) || (av_height f <=? 0)) eqn:Hwh.
    { specialize (IH t). destruct (receive_frames cb fs t) as [t' ev]. cbn in IH |- *.
      apply (traces_app _ _ _ _ _ _ [_] ev (traces_uses [RFrame] l t ltac:(by repeat constructor)) IH). }
    apply orb_false_iff in Hwh as [Hw Hh]. apply Z.leb_gt in Hw, Hh.
    destruct (elapsed_ms (dc_now d) t <? dc_limit d) eqn:He; cbn [fst snd].
    { apply (traces_app _ _ _ _ _ _ [_] _ (traces_uses [RFrame] l t ltac:(by repeat constructor))).
      by destruct (0 <? _); apply traces_plain. }
    apply Z.ltb_ge in He. specialize (IH (dc_now d)).
    destruct (receive_frames cb fs (dc_now d)) as [t' ev]. cbn [fst snd] in IH |- *.
    apply (traces_app _ _ _ _ _ _ [_] _ (traces_uses [RFrame] l t ltac:(by repeat constructor))).
    apply (traces_app l t l (dc_now d) l t' [_] ev); [|done].
    split_and!; [done|done|done|]. constructor; [|done]. cbn. unfold payload_of.
    by destruct (av_format f), cb.
  - specialize (IH t). destruct (receive_frames cb fs t) as [t' ev]. cbn in IH |- *.
    apply (traces_app _ _ _ _ _ _ [_; _] ev (traces_uses [RFrame; RSwFrame] l t ltac:(by repeat constructor)) IH).
Qed.

(** Every field but the time of the last frame. *)
Definition same_but_time (v v' : Video) : Prop := v' = set_last (lastFrameTime_ v') v.

Lemma read_loop_traces rs v v' ev l :
  reading l → read_loop rs v = Some (v', ev) →
  same_but_time v v' ∧ traces l (lastFrameTime_ v) l (lastFrameTime_ v') ev.
Proof.
  intros Hl. pose proof Hl as (_ & _ & Hp & Hf & Hc). revert v v' ev.
  induction rs as [|r rs IH]; intros v v' ev; [done|]. cbn [read_loop].
  destruct (rd_stop r).
  { intros [= <- <-]. split; [by destruct v|apply traces_nil]. }
  destruct (rd_ret r <? 0).
  { intros [= <- <-]. split; [by destruct v|].
    apply (traces_uses [RFormat; RPacket] l _). by repeat constructor. }
  destruct (if rd_stream r =? videoStreamIndex_ v then _ else _) as [t1 ev1] eqn:H1.
  assert (traces l (lastFrameTime_ v) l t1 ev1) as Ht1.
  { destruct (rd_stream r =? videoStreamIndex_ v); [|injection H1 as <- <-; apply traces_nil].
    pose proof (receive_traces (onFrameReady v) (rd_frames r) (lastFrameTime_ v) l Hl) as Hr.
    destruct (receive_frames _ _ _) as [t2 ev2]. injection H1 as <- <-.
    apply (traces_app _ _ _ _ _ _ [_] ev2 (traces_uses [RCodec] l _ ltac:(by repeat constructor)) Hr). }
  intros ([v2 ev2] & H2 & [= <- <-])%bind_Some.
  destruct (IH _ _ _ H2) as [Hv2 Ht2]. split; [by unfold same_but_time in *; rewrite Hv2|].
  apply (traces_app _ _ _ _ _ _ [_; _] _ (traces_uses [RFormat; RPacket] l _ ltac:(by repeat constructor))).
  eapply traces_app; [exact Ht1|].
  apply (traces_app _ _ _ _ _ _ [_] _ (traces_uses [RPacket] l _ ltac:(by repeat constructor))).
  exact Ht2.
Qed.

Definition idle (v : Video) : Prop := formatCtx_ v = false ∧ codecCtx_ v = false.

(** An attempt leaves the contexts null; of the rest it only sets the time. *)
Definition attempted (v v' : Video) : Prop := v' = set_last (lastFrameTime_ v') (set_ctx false false (-1) v).

Lemma after_Some {A} ev (r : option (A * list video_event)) a ev' :
  after ev r = Some (a, ev') → ∃ ev1, r = Some (a, ev1) ∧ ev' = ev ++ ev1.
Proof. unfold after. destruct r as [[b ev1]|]; [|done]. intros [= <- <-]. by exists ev1. Qed.

(** What an attempt owns on the way. *)
Definition own_opening (options : bool) (l : list resource) : list owned :=
  (if options then [Res ROptions] else []) ++ (Res <$> l) ++ [Thread].

Lemma cleanup_traces options v ok v' ev :
  cleanupAndFail options v = Some (ok, v', ev) →
  ok = false ∧ attempted v v' ∧
  traces (own_opening options ((if codecCtx_ v then [RCodec] else []) ++ (if formatCtx_ v then [RFormat] else [])
                               ++ [RPacket; RSwFrame; RFrame]))
         (lastFrameTime_ v) [Thread] (lastFrameTime_ v') ev.
Proof.
  unfold cleanupAndFail, cleanupFFmpeg. intros [= <- <- <-].
  split; [done|]. split; [by destruct v|]. cbn.
  by destruct options, (codecCtx_ v), (formatCtx_ v); apply traces_plain.
Qed.

Lemma decode_traces rs v ok v' ev :
  formatCtx_ v = true → codecCtx_ v = true → decode rs v = Some (ok, v', ev) →
  ok = true ∧ attempted v v' ∧
  traces (own_opening false [RCodec; RFormat; RPacket; RSwFrame; RFrame])
         (lastFrameTime_ v) [Thread] (lastFrameTime_ v') ev.
Proof.
  intros Hf Hc. unfold decode. intros ([v1 ev1] & H1 & H)%bind_Some. injection H as <- <- <-.
  apply (read_loop_traces _ _ _ _ (own_opening false [RCodec; RFormat; RPacket; RSwFrame; RFrame])) in H1
    as [Hv1 Ht1]; [|split_and!; by_decide].
  assert (codecCtx_ v1 = true ∧ formatCtx_ v1 = true) as [-> ->] by (rewrite Hv1; by split).
  split; [done|]. split; [unfold attempted; by rewrite Hv1|].
  eapply traces_app; [exact Ht1|]. by apply traces_plain.
Qed.

Lemma tryOnce_traces t v ok v' ev :
  idle v → tryOnceFFmpeg t v = Some (ok, v', ev) →
  attempted v v' ∧ traces [Thread] (lastFrameTime_ v) [Thread] (lastFrameTime_ v') ev.
Proof.
  intros [Hf Hc]. unfold tryOnceFFmpeg.
  intros (ev1 & H & ->)%after_Some.
  assert (∀ l ev1, traces l (lastFrameTime_ v) [Thread] (lastFrameTime_ v') ev1 →
    l = own_opening (at_options_left t) [RFormat; RPacket; RSwFrame; RFrame] →
    traces [Thread] (lastFrameTime_ v) [Thread] (lastFrameTime_ v')
      (([Acquire RFrame; Acquire RSwFrame; Acquire RPacket; Acquire RFormat; Acquire ROptions; Use RFormat]
         ++ (if at_options_left t then [] else [Release ROptions])) ++ ev1)) as Hopen.
  { intros l ev2 H2 ->. eapply traces_app; [|exact H2]. by destruct (at_options_left t); apply traces_plain. }
  destruct (negb (at_open t =? 0)).
  { apply after_Some in H as (ev2 & H & ->). apply cleanup_traces in H as (_ & Hv & H).
    split; [exact Hv|]. cbn in H. rewrite Hc in H.
    eapply Hopen; [|done]. eapply traces_app; [|exact H].
    by destruct (at_options_left t); apply traces_plain. }
  apply after_Some in H as (ev2 & H & ->).
  enough (attempted v v' ∧ traces (own_opening false [RFormat; RPacket; RSwFrame; RFrame])
            (lastFrameTime_ v) [Thread] (lastFrameTime_ v') ev2) as [Hv Ht].
  { split; [done|]. eapply Hopen; [|done]. eapply traces_app; [|exact Ht].
    by destruct (at_options_left t); apply traces_plain. }
  clear Hopen. destruct (at_info t <? 0).
  { apply cleanup_traces in H as (_ & Hv & H). cbn in H. rewrite Hc in H.
    split; [exact Hv|exact H]. }
  destruct (index_z _ =? -1).
  { apply cleanup_traces in H as (_ & Hv & H). cbn in H. rewrite Hc in H.
    split; [exact Hv|exact H]. }
  apply after_Some in H as (ev3 & H & ->).
  enough (attempted v v' ∧ traces (own_opening false [RCodec; RFormat; RPacket; RSwFrame; RFrame])
            (lastFrameTime_ v) [Thread] (lastFrameTime_ v') ev3) as [Hv Ht].
  { split; [done|]. eapply traces_app; [|exact Ht]. by destruct (0 <=? _); apply traces_plain. }
  destruct (at_open2 t <? 0).
  - apply cleanup_traces in H as (_ & Hv & H).
    split; [exact Hv|exact H].
  - apply decode_traces in H as (_ & Hv & H); [|done|done].
    split; [exact Hv|exact H].
Qed.

(** The members the thread does not write. *)
Definition same_owner (v v' : Video) : Prop :=
  decodeThread_ v' = decodeThread_ v ∧ stopThread_ v' = stopThread_ v ∧ fpsLimitMs_ v' = fpsLimitMs_ v ∧
  onFrameReady v' = onFrameReady v.

Lemma attempted_owner v v' : attempted v v' → idle v' ∧ same_owner v v'.
Proof. by intros ->. Qed.

Lemma decodeLoop_traces steps v v' ev :
  idle v → decodeLoopFFmpeg steps v = Some (v', ev) →
  idle v' ∧ same_owner v v' ∧ traces [Thread] (lastFrameTime_ v) [Thread] (lastFrameTime_ v') ev.
Proof.
  revert v v' ev. induction steps as [|s steps IH]; intros v v' ev Hi; [done|]. cbn.
  destruct (ls_stop s); [intros [= <- <-]; split_and!; [apply Hi..|by split_and!|apply traces_nil]|].
  intros ([[ok v1] ev1] & H1 & H)%bind_Some.
  apply tryOnce_traces in H1 as [(Hi1 & (Ht1 & Hs1 & Hl1 & Ho1))%attempted_owner Htr1]; [|done].
  destruct (ls_stopped s); [by injection H as <- <-|].
  apply bind_Some in H as ([v2 ev2] & H2 & [= <- <-]).
  destruct (IH _ _ _ Hi1 H2) as (Hi2 & (Ht2 & Hs2 & Hl2 & Ho2) & Htr2). split; [done|].
  split; [split_and!; congruence|]. eapply traces_app; [exact Htr1|].
  eapply traces_app; [|exact Htr2]. by destruct ok; apply traces_plain.
Qed.

(** What the owner owns between its calls. *)
Definition thread_of (v : Video) : list owned := match decodeThread_ v with Some _ => [Thread] | None => [] end.

Lemma stop_traces steps v v' ev :
  idle v → stopStream steps v = Some (v', ev) →
  idle v' ∧ decodeThread_ v' = None ∧ stopThread_ v' = true ∧
  traces (thread_of v) (lastFrameTime_ v) [] (lastFrameTime_ v') ev.
Proof.
  intros Hi. unfold stopStream, thread_of. intros ([v1 ev1] & H1 & H)%bind_Some.
  enough (idle v1 ∧ traces (match decodeThread_ v with Some _ => [Thread] | None => [] end)
                      (lastFrameTime_ v) [] (lastFrameTime_ v1) ev1) as [[Hf Hc] Ht].
  { unfold cleanupFFmpeg in H. rewrite Hf, Hc in H. injection H as <- <-. by rewrite app_nil_r. }
  destruct (decodeThread_ v); [|injection H1 as <- <-; split; [done|apply traces_nil]].
  apply bind_Some in H1 as ([v2 ev2] & H2 & [= <- <-]).
  apply decodeLoop_traces in H2 as (Hi2 & _ & Ht2); [|done]. split; [done|].
  eapply traces_app; [exact Ht2|]. by apply traces_plain.
Qed.

Lemma video_exec_traces c v v' ev :
  idle v → video_exec c v = Some (v', ev) →
  idle v' ∧ traces (thread_of v) (lastFrameTime_ v) (thread_of v') (lastFrameTime_ v') ev.
Proof.
  intros Hi. destruct c as [steps url fps|steps|fps]; cbn.
  - unfold startStream. destruct (str_empty url); [intros [= <- <-]; split; [done|apply traces_nil]|].
    intros ([v1 ev1] & H1 & [= <- <-])%bind_Some.
    apply stop_traces in H1 as (Hi1 & _ & _ & Ht1); [|done]. split; [done|].
    eapply traces_app; [exact Ht1|]. by apply traces_plain.
  - intros H. apply stop_traces in H as (Hi1 & Hd & _ & Ht1); [|done]. split; [done|].
    unfold thread_of at 2. by rewrite Hd.
  - intros [= <- <-]. split; [done|apply traces_nil].
Qed.

Lemma video_run_traces cs v v' ev :
  idle v → video_run cs v = Some (v', ev) →
  idle v' ∧ traces (thread_of v) (lastFrameTime_ v) (thread_of v') (lastFrameTime_ v') ev.
Proof.
  revert v v' ev. induction cs as [|c cs IH]; intros v v' ev Hi; cbn.
  { intros [= <- <-]. split; [done|apply traces_nil]. }
  intros ([v1 ev1] & H1 & ([v2 ev2] & H2 & [= <- <-])%bind_Some)%bind_Some.
  apply video_exec_traces in H1 as [Hi1 Ht1]; [|done].
  destruct (IH _ _ _ Hi1 H2) as [Hi2 Ht2]. split; [done|]. by eapply traces_app.
Qed.

(** *** Spacing *)

Lemma elapsed_ge m now last : 0 < m → m ≤ elapsed_ms now last → m * 1000000 ≤ now - last.
Proof.
  unfold elapsed_ms. intros Hm H.
  destruct (Z.le_gt_cases 0 (now - last)) as [Hle|Hlt].
  - rewrite Z.quot_div_nonneg in H by lia. pose proof (Z.mul_div_le (now - last) 1000000). lia.
  - pose proof (Z.quot_opp_l (now - last) 1000000 ltac:(lia)) as Ho.
    pose proof (Z.quot_pos (- (now - last)) 1000000 ltac:(lia) ltac:(lia)). lia.
Qed.

Lemma spaced_span t l m :
  spaced t l → 0 < m → Forall (λ p, m ≤ p.2) l →
  Z.of_nat (length l) * m * 1000000 ≤ final_time t l - t.
Proof.
  intros Hs Hm Hl. revert t Hs. induction Hl as [|[n lim] l Hlim Hl IH]; intros t Hs; [cbn; lia|].
  destruct Hs as [He Hs]. specialize (IH n Hs). cbn in Hlim.
  pose proof (elapsed_ge m n t Hm ltac:(lia)) as Hn.
  unfold final_time in *. cbn [foldl fst length] in *. lia.
Qed.

(** *** When the thread ends *)

Definition stop_read : Read := {| rd_stop := true; rd_ret := 0; rd_stream := 0; rd_frames := [] |}.

(** Whatever the thread is at, the next thing it sees is the flag. *)
Definition seen_stop (s : LoopStep) : LoopStep :=
  let t := ls_attempt s in
  {| ls_stop := ls_stop s;
     ls_attempt := {| at_open := at_open t; at_options_left := at_options_left t; at_info := at_info t;
                      at_is_video := at_is_video t; at_hwdevice := at_hwdevice t; at_open2 := at_open2 t;
                      at_reads := at_reads t ++ [stop_read] |};
     ls_stopped := ls_stopped s |}.

Definition Attempt0 : Attempt := {|
  at_open := 0; at_options_left := false; at_info := 0; at_is_video := [true]; at_hwdevice := -1;
  at_open2 := 0; at_reads := []
|}.

Definition stop_step : LoopStep := {| ls_stop := true; ls_attempt := Attempt0; ls_stopped := true |}.

Definition then_stop (steps : list LoopStep) : list LoopStep := (seen_stop <$> steps) ++ [stop_step].

Lemma read_loop_stop rs v :
  ∃ r, read_loop (rs ++ [stop_read]) v = Some r ∧ (∀ r', read_loop rs v = Some r' → r' = r).
Proof.
  revert v. induction rs as [|r rs IH]; intros v; cbn; [by eexists|].
  destruct (rd_stop r); [by eexists; split; [|intros ? [= <-]]|].
  destruct (rd_ret r <? 0); [by eexists; split; [|intros ? [= <-]]|].
  destruct (if rd_stream r =? videoStreamIndex_ v then _ else _) as [t1 ev1].
  destruct (IH (set_last t1 v)) as ([v2 ev2] & Hr & Hr'). rewrite Hr. cbn. eexists. split; [done|].
  intros r' ([v3 ev3] & H3 & [= <-])%bind_Some. by specialize (Hr' _ H3) as [= <- <-].
Qed.

(** [r2] returns, and as [r1] does when that one returns. *)
Definition extends {A} (r1 r2 : option A) : Prop := ∃ a, r2 = Some a ∧ (∀ a', r1 = Some a' → a' = a).

Lemma extends_refl {A} (a : A) : extends (Some a) (Some a).
Proof. exists a. split; [done|]. by intros ? [= <-]. Qed.

Lemma extends_bind {A B} (r1 r2 : option A) (f1 f2 : A → option B) :
  extends r1 r2 → (∀ a, extends (f1 a) (f2 a)) → extends (r1 ≫= f1) (r2 ≫= f2).
Proof.
  intros (a & -> & H) Hf. destruct (Hf a) as (b & Hb & Hb'). exists b. split; [done|].
  intros b' (a' & ->%H & Hfa)%bind_Some. by apply Hb'.
Qed.

Lemma decodeLoop_stop steps v : extends (decodeLoopFFmpeg steps v) (decodeLoopFFmpeg (then_stop steps) v).
Proof.
  assert (∀ rs w, extends (decode rs w) (decode (rs ++ [stop_read]) w)) as Hd.
  { intros rs w. apply extends_bind; [apply read_loop_stop|].
    intros [v1 ev1]. destruct (cleanupFFmpeg v1). apply extends_refl. }
  assert (∀ s w, extends (tryOnceFFmpeg (ls_attempt s) w) (tryOnceFFmpeg (ls_attempt (seen_stop s)) w)) as Ht.
  { intros s w. unfold tryOnceFFmpeg. cbn [seen_stop ls_attempt at_open at_options_left at_info at_is_video
      at_hwdevice at_open2 at_reads].
    apply extends_bind; [|intros [[ok v1] ev1]; apply extends_refl].
    destruct (negb _); [apply extends_refl|].
    apply extends_bind; [|intros [[ok v1] ev1]; apply extends_refl].
    destruct (_ <? 0); [apply extends_refl|]. destruct (_ =? _); [apply extends_refl|].
    apply extends_bind; [|intros [[ok v1] ev1]; apply extends_refl].
    destruct (_ <? 0); [apply extends_refl|apply Hd]. }
  unfold then_stop. revert v. induction steps as [|s steps IH]; intros v; cbn [fmap list_fmap app decodeLoopFFmpeg].
  { cbn. eexists. by split. }
  cbn [seen_stop ls_stop ls_stopped]. destruct (ls_stop s); [apply extends_refl|].
  apply extends_bind; [apply Ht|]. intros [[ok v1] ev1]. destruct (ls_stopped s); [apply extends_refl|].
  apply extends_bind; [apply IH|]. intros [v2 ev2]. apply extends_refl.
Qed.

(** The waits of a trace, in ms. *)
Definition sleeps (ev : list video_event) : list Z :=
  omap (λ e, match e with Sleep ms => Some ms | _ => None end) ev.

(** The streams opened. *)
Definition opened (ev : list video_event) : nat := 
  length (omap (λ e, match e with Acquire RFormat => Some tt | _ => None end) ev).

Lemma loop_repeat (t : Attempt) ok ev1 w :
  tryOnceFFmpeg t w = Some (ok, set_ctx false false (-1) w, ev1) →
  tryOnceFFmpeg t (set_ctx false false (-1) w) = Some (ok, set_ctx false false (-1) w, ev1) →
  ∀ n, ∃ v' ev,
    decodeLoopFFmpeg (replicate n {| ls_stop := false; ls_attempt := t; ls_stopped := false |} ++ [stop_step]) w
    = Some (v', ev) ∧
    sleeps ev = mjoin (replicate n (sleeps ev1 ++ if ok then [] else [3000])) ∧ opened ev = (n * opened ev1)%nat.
Proof.
  intros Hw Hc n.
  assert (∀ w', tryOnceFFmpeg t w' = Some (ok, set_ctx false false (-1) w, ev1) → ∃ v' ev,
    decodeLoopFFmpeg (replicate n {| ls_stop := false; ls_attempt := t; ls_stopped := false |} ++ [stop_step]) w'
    = Some (v', ev) ∧
    sleeps ev = mjoin (replicate n (sleeps ev1 ++ if ok then [] else [3000])) ∧ opened ev = (n * opened ev1)%nat)
    as H; [|by apply H].
  induction n as [|n IH]; intros w' Hw'; cbn; [by eexists _, _|].
  rewrite Hw'. cbn. destruct (IH _ Hc) as (v' & ev & Hr & Hs & Ho). rewrite Hr. cbn.
  eexists _, _. split; [done|]. unfold sleeps, opened in *. rewrite !omap_app, !length_app, Hs, Ho.
  split; [by destruct ok; cbn; rewrite <-?app_assoc, ?app_nil_r|]. destruct ok; cbn; lia.
Qed.

(** ** Properties *)

(** C20. The decoder neither leaks nor misuses what it allocates: over any sequence
    of starts, stops and changes of the limit, whatever the library returns and
    whenever the threads see the stop flag, no frame, packet, dictionary, context
    or hardware reference is overwritten while owned, used when it is not owned
    or freed twice, at most one decode thread runs at a time, and after the calls
    only that thread is left; a stop then leaves nothing, with both contexts
    null.  The callback only ever gets frames of positive size. *)
Theorem video_resources (cs : list video_call) (v : Video) (ev : list video_event) :
  video_run cs Video0 = Some (v, ev) →
  owns ev [] = Some (thread_of v) ∧ Forall sized ev ∧
  ∀ steps v' ev', stopStream steps v = Some (v', ev') →
    owns (ev ++ ev') [] = Some [] ∧ idle v' ∧ decodeThread_ v' = None.
Proof.
  intros H. apply video_run_traces in H as [Hi (Ho & _ & _ & Hs)]; [|done].
  split_and!; [done|done|]. intros steps v' ev' Hst.
  apply stop_traces in Hst as (Hi' & Hd & _ & (Ho' & _)); [|done].
  split_and!; [|apply Hi'..|done]. rewrite owns_app. change (owns ev [] = Some (thread_of v)) in Ho. by rewrite Ho.
Qed.

(** C35. The frame limit: in any run, the frames that pass are spaced by the limit
    that was in force: when every limit after the [i]-th one is at least [m] ms,
    the [j]-th passes at least [(j - i) * m] ms after the [i]-th, across
    reconnections and restarts of the stream.  For a frame rate from 1 to 1000
    set with [setFpsLimit] the limit is positive; above 1000 it is 0 and frames
    are not limited. *)
Theorem video_throttle (cs : list video_call) (v : Video) (ev : list video_event)
    (i j : nat) (ti tj li lj m : Z) :
  video_run cs Video0 = Some (v, ev) →
  accepts ev !! i = Some (ti, li) → accepts ev !! j = Some (tj, lj) → (i ≤ j)%nat → 0 < m →
  (∀ k t l, (i < k ≤ j)%nat → accepts ev !! k = Some (t, l) → m ≤ l) →
  Z.of_nat (j - i) * m * 1000000 ≤ tj - ti ∧
  (∀ fps, 1 ≤ fps ≤ 1000 → 0 < limit_of fps ∧ (limit_of fps) * fps ≤ 1000) ∧
  (∀ fps, 1000 < fps → limit_of fps = 0).
Proof.
  intros H Hti Htj Hij Hm Hl. split_and!.
  - apply video_run_traces in H as [_ (_ & Hs & _)]; [|done].
    generalize dependent (lastFrameTime_ Video0). generalize dependent (accepts ev). clear ev. intros a Hti Htj Hl t0 Hs.
    destruct (decide (i = j)) as [->|Hne]; [rewrite Hti in Htj; injection Htj as <- <-; rewrite Nat.sub_diag; lia|].
    pose proof (take_drop_middle a i _ Hti) as Ha. rewrite <-Ha in Hs. apply spaced_app in Hs as [_ [_ Hs]].
    set (mid := take (j - i) (drop (S i) a)).
    assert (length mid = (j - i)%nat) as Hlen.
    { unfold mid. apply lookup_lt_Some in Htj. rewrite length_take, length_drop. lia. }
    rewrite <-Hlen. replace tj with (final_time ti mid).
    + apply spaced_span; [|done|].
      * rewrite <-(take_drop (j - i) (drop (S i) a)) in Hs. by apply spaced_app in Hs as [? _].
      * apply Forall_lookup. intros k [t l] Hk. unfold mid in Hk. apply lookup_take_Some in Hk as [Hk Hlt].
        rewrite lookup_drop in Hk. apply (Hl (S i + k)%nat t l); [lia|done].
    + assert (last mid = Some (tj, lj)) as Hlast.
      { rewrite last_lookup, Hlen. unfold mid. rewrite lookup_take_lt by lia.
        rewrite lookup_drop. rewrite <-Htj. f_equal. lia. }
      apply last_Some in Hlast as [l' ->]. unfold final_time. by rewrite foldl_app.
  - intros fps Hf. unfold limit_of. rewrite (proj2 (Z.ltb_lt _ _)) by lia.
    rewrite Z.quot_div_nonneg by lia. split; [apply Z.div_str_pos; lia|].
    pose proof (Z.mul_div_le 1000 fps). lia.
  - intros fps Hf. unfold limit_of. rewrite (proj2 (Z.ltb_lt _ _)) by lia. by apply Z.quot_small.
Qed.

(** C31. Stopping ends the thread: wherever the decode thread is (any history of
    attempts and reads that has not ended), once what it next sees is the stop
    flag it returns; a history in which it had returned already is not changed.
    The flag is thus seen at every point where the loops can go on. *)
Theorem video_stop_ends (steps : list LoopStep) (v : Video) :
  ∃ v' ev, decodeLoopFFmpeg (then_stop steps) v = Some (v', ev) ∧
    (∀ r, decodeLoopFFmpeg steps v = Some r → r = (v', ev)) ∧
    (idle v → decodeThread_ v ≠ None →
      ∃ v'' ev', stopStream (then_stop steps) v = Some (v'', ev') ∧ decodeThread_ v'' = None ∧ idle v'').
Proof.
  destruct (decodeLoop_stop steps v) as ([v' ev] & H & Hext). exists v', ev. split_and!; [done|done|].
  intros Hi Hd. unfold stopStream. destruct (decodeThread_ v) as [url|]; [|done]. rewrite H. cbn.
  eexists _, _. by split_and!.
Qed.

(** An attempt that opens, finds a video stream and then reads nothing. *)
Definition ends_at_once (t : Attempt) : Prop :=
  at_open t = 0 ∧ at_options_left t = false ∧ 0 <= at_info t ∧ at_is_video t = [true] ∧ at_hwdevice t < 0 ∧
  0 <= at_open2 t ∧ ∃ r, at_reads t = [r] ∧ rd_stop r = false ∧ rd_ret r < 0.

(** Reconnecting: while a stream cannot be opened, every attempt is followed by
    a wait of three seconds.  An attempt that opened the stream counts as a
    success whatever ends it, so a server that accepts and then ends the stream
    at once is opened again and again, without any wait. *)
Theorem video_reconnects (t : Attempt) (v : Video) (n : nat) :
  let run := {| ls_stop := false; ls_attempt := t; ls_stopped := false |} in
  idle v →
  (at_open t ≠ 0 → ∃ v' ev,
    decodeLoopFFmpeg (replicate n run ++ [stop_step]) v = Some (v', ev) ∧
    sleeps ev = replicate n 3000 ∧ opened ev = n) ∧
  (ends_at_once t → ∃ v' ev,
    decodeLoopFFmpeg (replicate n run ++ [stop_step]) v = Some (v', ev) ∧
    sleeps ev = [] ∧ opened ev = n).
Proof.
  cbn zeta. intros [Hf Hc]. split.
  - intros Ht.
    assert (∀ w, codecCtx_ w = false → tryOnceFFmpeg t w = Some (false, set_ctx false false (-1) w,
      ([Acquire RFrame; Acquire RSwFrame; Acquire RPacket; Acquire RFormat; Acquire ROptions; Use RFormat]
         ++ (if at_options_left t then [] else [Release ROptions]))
      ++ [Release RFormat] ++ free_locals (at_options_left t))) as Hw.
    { intros w Hw. unfold tryOnceFFmpeg. rewrite (proj2 (Z.eqb_neq _ _) Ht). cbn. by rewrite Hw, app_nil_r. }
    destruct (loop_repeat t false _ v (Hw v Hc) (Hw (set_ctx false false (-1) v) eq_refl) n) as (v' & ev & Hr & Hs & Ho).
    exists v', ev. split; [done|]. rewrite Hs, Ho. split; [|destruct (at_options_left t); cbn; lia].
    replace (sleeps _) with (@nil Z) by (by destruct (at_options_left t)).
    clear. by induction n as [|n IH]; [|cbn; f_equal].
  - intros (H1 & H2 & H3 & H4 & H5 & H6 & r & H7 & H8 & H9).
    assert (∃ ev, sleeps ev = [] ∧ opened ev = 1%nat ∧
      ∀ w, tryOnceFFmpeg t w = Some (true, set_ctx false false (-1) w, ev)) as (ev1 & Hs1 & Ho1 & Hw).
    { eexists. split_and!; cycle 2.
      - intros w. unfold tryOnceFFmpeg. rewrite H1, H2, H4, H7. rewrite (proj2 (Z.ltb_ge _ _) H3).
        rewrite (proj2 (Z.ltb_ge _ _) H6), (proj2 (Z.leb_gt _ _) H5). cbn.
        change (Z.of_nat 0 =? -1) with false. unfold decode. cbn.
        rewrite H8, (proj2 (Z.ltb_lt _ _) H9). cbn. reflexivity.
      - done.
      - done. }
    destruct (loop_repeat t true ev1 v (Hw v) (Hw (set_ctx false false (-1) v)) n) as (v' & ev & Hr & Hs & Ho).
    exists v', ev. split; [done|]. rewrite Hs, Ho, Hs1, Ho1. split; [|lia].
    clear. by induction n.
Qed.

(** *** Examples: one stream of two frames, 40 ms and 10 ms after the last one *)
Definition demo_plane : plane := λ _, Some Byte.x80.

Definition demo_av (fmt : pixel_format) : AVFrame := {|
  av_format := fmt; av_width := 4; av_height := 2; av_data0 := Some demo_plane; av_data1 := Some demo_plane;
  av_linesize0 := 4; av_linesize1 := 4
|}.

Definition demo_frame (now_ms : Z) : Decoded := {|
  dc_frame := demo_av PIX_NV12; dc_hwRet := 0; dc_swFrame := demo_av PIX_NV12; dc_now := now_ms * 1000000;
  dc_limit := 33
|}.

Definition demo_reads (fs : list Decoded) : list Read :=
  [{| rd_stop := false; rd_ret := 0; rd_stream := 0; rd_frames := fs |};
   {| rd_stop := false; rd_ret := -1; rd_stream := 0; rd_frames := [] |}].

Definition demo_attempt (open : Z) (rs : list Read) : Attempt := {|
  at_open := open; at_options_left := false; at_info := 0; at_is_video := [true]; at_hwdevice := -1;
  at_open2 := 0; at_reads := rs
|}.

Definition demo_steps (open : Z) (rs : list Read) : list LoopStep :=
  [{| ls_stop := false; ls_attempt := demo_attempt open rs; ls_stopped := false |}; stop_step].

Definition demo_calls : list video_call :=
  [Start [] "rtsp" 30; SetFps 30;
   Start (demo_steps 0 (demo_reads [demo_frame 40; demo_frame 50; demo_frame 80])) "rtsp2" 30;
   Stop (demo_steps 0 (demo_reads [demo_frame 80]))].

Definition demo_run : Video * list video_event := default (Video0, []) (video_run demo_calls Video0).

Lemma video_resources_witness :
  accepts demo_run.2 = [(40000000, 33); (80000000, 33)] ∧ owns demo_run.2 [] = Some (thread_of demo_run.1).
Proof.
  split; [by vm_compute|].
  refine (proj1 (video_resources demo_calls demo_run.1 demo_run.2 _)). vm_compute. reflexivity.
Defined.

Lemma video_throttle_witness : (1 - 0) * 33 * 1000000 ≤ 80000000 - 40000000.
Proof.
  refine (proj1 (video_throttle demo_calls demo_run.1 demo_run.2 0 1 40000000 80000000 33 33 33 _ _ _ _ _ _)).
  - vm_compute. reflexivity.
  - vm_compute. reflexivity.
  - vm_compute. reflexivity.
  - lia.
  - lia.
  - intros k t l Hk. assert (k = 1%nat) as -> by lia.
    assert (accepts demo_run.2 !! 1%nat = Some (80000000, 33)) as -> by (vm_compute; reflexivity).
    intros [= <- <-]. lia.
Defined.

Lemma video_reconnects_witness :
  idle Video0 ∧ ∃ v' ev,
    decodeLoopFFmpeg (replicate 5
      {| ls_stop := false; ls_attempt := demo_attempt 0 [{| rd_stop := false; rd_ret := -1; rd_stream := 0;
                                                            rd_frames := [] |}]; ls_stopped := false |}
      ++ [stop_step]) Video0 = Some (v', ev) ∧ sleeps ev = [] ∧ opened ev = 5%nat.
Proof.
  split; [done|].
  refine (proj2 (video_reconnects
    (demo_attempt 0 [{| rd_stop := false; rd_ret := -1; rd_stream := 0; rd_frames := [] |}]) Video0 5 _) _).
  - done.
  - unfold ends_at_once. split_and!; try done. eexists. by split_and!.
Defined.

Lemma video_stop_ends_witness :
  let v := set_thread (Some "rtsp") false Video0 in
  let steps := [{| ls_stop := false; ls_stopped := false;
                   ls_attempt := demo_attempt 0 (take 1 (demo_reads [demo_frame 40])) |}] in
  decodeLoopFFmpeg steps v = None ∧
  ∃ v'' ev', stopStream (then_stop steps) v = Some (v'', ev') ∧ decodeThread_ v'' = None ∧ idle v''.
Proof.
  cbn zeta. split; [by vm_compute|].
  destruct (video_stop_ends [{| ls_stop := false; ls_stopped := false;
      ls_attempt := demo_attempt 0 (take 1 (demo_reads [demo_frame 40])) |}]
    (set_thread (Some "rtsp") false Video0)) as (v' & ev & _ & _ & H).
  by apply H.
Defined.
