(* ===== verification/VideoWorker.v ===== *)
(** * The worker of one camera (src/Qt/Back/Services/VideoStream: VideoWorker)

    A worker owns a [Video], copies each decoded picture into a Qt frame, and
    keeps the newest frame with a sequence number.  The Qt frame (its size in
    memory and bytes per line) is a parameter; the copy works on byte planes and
    is [None] where the code would read or write out of range or overflow an
    [int]. *)

From Stdlib Require Import Strings.Byte.
From S2P Require Import Prelude Extern Video.

Local Open Scope Z_scope.

(** ** Memory *)

Definition is_int (z : Z) : Prop := - 2 ^ 31 ≤ z < 2 ^ 31.

#[export] Instance is_int_dec z : Decision (is_int z).
Proof. unfold is_int. apply _. Defined.

(** [a * b] on [int]; [None]: it overflows. *)
Definition int_mul (a b : Z) : option Z := if decide (is_int (a * b)) then Some (a * b) else None.

(** [memcpy(dst + d, src + s, n)] *)
Definition memcpy (dst : list byte) (d : Z) (src : plane) (s n : Z) : option (list byte) :=
  if decide (0 ≤ d ∧ 0 ≤ n ∧ d + n ≤ Z.of_nat (length dst)) then
    bytes ← mapM (λ k, src (s + k)) (seqZ 0 n);
    Some (take (Z.to_nat d) dst ++ bytes ++ drop (Z.to_nat (d + n)) dst)
  else None.

(** ** Frames *)

(** A mapped frame with its two planes and their bytes per line. *)
Record QVideoFrame : Type := {
  vf_width : Z;
  vf_height : Z;
  bytesPerLine0 : Z;
  bytesPerLine1 : Z;
  bits0 : list byte;
  bits1 : list byte
}.

Definition set_bits (b0 b1 : list byte) (f : QVideoFrame) : QVideoFrame := {|
  vf_width := vf_width f; vf_height := vf_height f; bytesPerLine0 := bytesPerLine0 f;
  bytesPerLine1 := bytesPerLine1 f; bits0 := b0; bits1 := b1
|}.

(** [QVideoFrame(QVideoFrameFormat(QSize(w, h), Format_NV12))], mapped for writing;
    [None]: [map] failed. *)
Class QtVideo : Type := { new_frame : Z → Z → option QVideoFrame }.

(** Lines are as long as [bytesPerLine] says and hold the pixels; a picture has
    [h] lines of luma and at least half as many of chroma.  For an odd height the
    format says no more: whether there is a last line is left open. *)
Class QtVideoLaws (V : QtVideo) : Prop := {
  new_frame_size w h f : new_frame w h = Some f → vf_width f = w ∧ vf_height f = h;
  new_frame_lines w h f : new_frame w h = Some f → w ≤ bytesPerLine0 f ∧ w ≤ bytesPerLine1 f;
  new_frame_bits w h f : new_frame w h = Some f →
    bytesPerLine0 f * h ≤ Z.of_nat (length (bits0 f)) ∧
    bytesPerLine1 f * (h / 2) ≤ Z.of_nat (length (bits1 f))
}.

(** What is shown at a pixel. *)
Definition luma (f : QVideoFrame) (x y : Z) : option byte := bits0 f !! Z.to_nat (y * bytesPerLine0 f + x).

(** ** The copy *)

(** [for (i...) memcpy(dst + i * w, src + i * stride, w)], [rows] lines from line [i]. *)
Fixpoint copy_rows (rows : nat) (i w stride : Z) (src : plane) (dst : list byte) : option (list byte) :=
  match rows with
  | O => Some dst
  | S rows' =>
      d ← int_mul i w;
      s ← int_mul i stride;
      dst' ← memcpy dst d src s w;
      copy_rows rows' (i + 1) w stride src dst'
  end.

(** Both planes. *)
Definition copy_frame (srcY srcUV : plane) (p : FramePayload) (f : QVideoFrame) : option QVideoFrame :=
  let w := width p in
  let h := height p in
  y_size ← int_mul w h;
  wh ← int_mul w h;
  let uv_size := wh ÷ 2 in
  b0 ← (if strideY p =? w then memcpy (bits0 f) 0 srcY 0 y_size
        else copy_rows (Z.to_nat h) 0 w (strideY p) srcY (bits0 f));
  b1 ← (if strideUV p =? w then memcpy (bits1 f) 0 srcUV 0 uv_size
        else copy_rows (Z.to_nat (h ÷ 2)) 0 w (strideUV p) srcUV (bits1 f));
  Some (set_bits b0 b1 f).

(** ** The worker *)
Record VideoWorker : Type := {
  cameraId_ : QString;
  connectionString_ : QString;
  video_ : Video;
  frameSeq_ : Z;
  fpsLimit_ : Z;
  latestFrame_ : option QVideoFrame   (* [None]: not valid *)
}.

Definition VideoWorker0 (cameraId : QString) : VideoWorker := {|
  cameraId_ := cameraId; connectionString_ := ""; video_ := set_onFrameReady Video0; frameSeq_ := 0;
  fpsLimit_ := 30; latestFrame_ := None
|}.

Definition set_video (v : Video) (w : VideoWorker) : VideoWorker := {|
  cameraId_ := cameraId_ w; connectionString_ := connectionString_ w; video_ := v; frameSeq_ := frameSeq_ w;
  fpsLimit_ := fpsLimit_ w; latestFrame_ := latestFrame_ w
|}.

Definition setConnectionString (url : QString) (w : VideoWorker) : VideoWorker := {|
  cameraId_ := cameraId_ w; connectionString_ := url; video_ := video_ w; frameSeq_ := frameSeq_ w;
  fpsLimit_ := fpsLimit_ w; latestFrame_ := latestFrame_ w
|}.

Definition setFpsLimit (fps : Z) (w : VideoWorker) : VideoWorker := {|
  cameraId_ := cameraId_ w; connectionString_ := connectionString_ w; video_ := Video.setFpsLimit fps (video_ w);
  frameSeq_ := frameSeq_ w; fpsLimit_ := fps; latestFrame_ := latestFrame_ w
|}.

(** [latestFrame_ = frame; frameSeq_.fetch_add(1)] *)
Definition set_latest (f : QVideoFrame) (w : VideoWorker) : VideoWorker := {|
  cameraId_ := cameraId_ w; connectionString_ := connectionString_ w; video_ := video_ w;
  frameSeq_ := (frameSeq_ w + 1) mod 2 ^ 64; fpsLimit_ := fpsLimit_ w; latestFrame_ := Some f
|}.

(** The callback the constructor installs, with the frame it emits; [None]: undefined
    behaviour. *)
Definition on_frame_ready `{V : QtVideo} (p : FramePayload) (w : VideoWorker)
    : option (VideoWorker * option QVideoFrame) :=
  match dataY p, dataUV p with
  | Some srcY, Some srcUV =>
      if (width p <=? 0) || (height p <=? 0) then Some (w, None)
      else
        match new_frame (width p) (height p) with
        | None => Some (w, None)
        | Some f => f' ← copy_frame srcY srcUV p f; Some (set_latest f' w, Some f')
        end
  | _, _ => Some (w, None)
  end.

(** [steps]: what the decode thread went through before; [None]: its join has not
    returned. *)
Definition startStream `{T : QtText} (steps : list LoopStep) (w : VideoWorker) : option VideoWorker :=
  if str_empty (connectionString_ w) then Some w
  else '(v, _) ← Video.startStream steps (toStdString (connectionString_ w)) (fpsLimit_ w) (video_ w);
       Some (set_video v w).

Definition stopStream (steps : list LoopStep) (w : VideoWorker) : option VideoWorker :=
  '(v, _) ← Video.stopStream steps (video_ w); Some (set_video v w).

(** ** The reference copy

    The bytes of the destination are those of the lines of the source, one after the
    other without their padding; what is behind them stays. *)
Definition line_byte (w stride : Z) (src : plane) (k : Z) : option byte :=
  src ((k / w) * stride + k mod w).

Definition blit (rows w stride : Z) (src : plane) (dst : list byte) : option (list byte) :=
  bytes ← mapM (line_byte w stride src) (seqZ 0 (rows * w));
  Some (bytes ++ drop (Z.to_nat (rows * w)) dst).

Definition reference_copy (srcY srcUV : plane) (p : FramePayload) (f : QVideoFrame) : option QVideoFrame :=
  b0 ← blit (height p) (width p) (strideY p) srcY (bits0 f);
  b1 ← blit (height p / 2) (width p) (strideUV p) srcUV (bits1 f);
  Some (set_bits b0 b1 f).

(** *** Lemmas *)

Lemma mapM_app_opt {A B} (f : A → option B) l k :
  mapM f (l ++ k) = a ← mapM f l; b ← mapM f k; Some (a ++ b).
Proof.
  induction l as [|x l IH]; cbn; [by destruct (mapM f k)|].
  rewrite IH. destruct (f x); cbn; [|done]. destruct (mapM f l); cbn; [|done]. by destruct (mapM f k).
Qed.

Lemma mapM_fmap_opt {A B C} (f : B → option C) (g : A → B) l : mapM f (g <$> l) = mapM (λ x, f (g x)) l.
Proof. induction l as [|x l IH]; cbn; [done|]. by rewrite IH. Qed.

(** [w] bytes of line [i], as the reference reads them. *)
Lemma line_bytes i w stride src :
  0 ≤ i → 0 < w → mapM (λ k, src (i * stride + k)) (seqZ 0 w) = mapM (line_byte w stride src) (seqZ (i * w) w).
Proof.
  intros Hi Hw. rewrite <-(Z.add_0_r (i * w)), <-fmap_add_seqZ, mapM_fmap_opt.
  apply Forall_mapM_ext, Forall_forall. intros k Hk%elem_of_seqZ. unfold line_byte. do 2 f_equal.
  - rewrite Z.add_comm, Z.div_add by lia. by rewrite Z.div_small by lia.
  - rewrite Z.add_comm, Z.mod_add by lia. by rewrite Z.mod_small by lia.
Qed.

Lemma int_mul_ok a b : is_int (a * b) → int_mul a b = Some (a * b).
Proof. intros H. unfold int_mul. by rewrite decide_True. Qed.

Lemma copy_rows_spec rows i w stride src pre rest :
  0 ≤ i → 0 < w → Z.of_nat (length pre) = i * w → Z.of_nat rows * w ≤ Z.of_nat (length rest) →
  is_int ((i + Z.of_nat rows) * w) → (∀ j, i ≤ j < i + Z.of_nat rows → is_int (j * stride)) →
  copy_rows rows i w stride src (pre ++ rest) =
  bytes ← mapM (line_byte w stride src) (seqZ (i * w) (Z.of_nat rows * w));
  Some (pre ++ bytes ++ drop (Z.to_nat (Z.of_nat rows * w)) rest).
Proof.
  intros Hi Hw. revert i pre rest Hi. induction rows as [|rows IH]; intros i pre rest Hi Hpre Hrest Hint Hs.
  { done. }
  pose proof (Z.mul_nonneg_nonneg i w ltac:(lia) ltac:(lia)) as H0.
  pose proof (Z.mul_nonneg_nonneg (Z.of_nat rows) w ltac:(lia) ltac:(lia)) as H1.
  rewrite Z.mul_add_distr_r, Nat2Z.inj_succ, Z.mul_succ_l in Hint.
  rewrite Nat2Z.inj_succ, Z.mul_succ_l in Hrest.
  cbn [copy_rows]. rewrite (int_mul_ok i w) by (unfold is_int in *; lia).
  rewrite (int_mul_ok i stride) by (apply Hs; lia). cbn [mbind option_bind].
  unfold memcpy. rewrite decide_True by (rewrite length_app; lia).
  rewrite line_bytes by done.
  replace (Z.of_nat (S rows) * w) with (w + Z.of_nat rows * w) by lia.
  rewrite seqZ_app by lia. rewrite mapM_app_opt.
  destruct (mapM (line_byte w stride src) (seqZ (i * w) w)) as [bs|] eqn:Hbs; cbn [mbind option_bind]; [|done].
  rewrite take_app_length' by lia. rewrite Z2Nat.inj_add by lia.
  rewrite <-drop_drop, drop_app_length' by lia. rewrite app_assoc.
  apply length_mapM in Hbs. rewrite length_seqZ in Hbs.
  rewrite IH; [|lia|rewrite length_app; lia|rewrite length_drop; lia| |intros j Hj; apply Hs; lia].
  - replace ((i + 1) * w) with (i * w + w) by lia.
    destruct (mapM _ (seqZ (i * w + w) _)) as [bs'|]; cbn; [|done].
    rewrite drop_drop, <-!app_assoc. by rewrite Z2Nat.inj_add by lia.
  - rewrite Z.mul_add_distr_r. unfold is_int in *. lia.
Qed.

(** The loop over lines copies what the reference does. *)
Lemma copy_rows_blit rows w stride src dst :
  0 ≤ rows → 0 < w → rows * w ≤ Z.of_nat (length dst) → is_int (rows * w) →
  (∀ j, 0 ≤ j < rows → is_int (j * stride)) →
  copy_rows (Z.to_nat rows) 0 w stride src dst = blit rows w stride src dst.
Proof.
  intros Hr Hw Hd Hi Hs. unfold blit.
  rewrite (copy_rows_spec _ 0 w stride src [] dst) by (rewrite ?Z2Nat.id by lia; cbn; try done; lia).
  by rewrite Z2Nat.id by lia.
Qed.

(** So does one [memcpy] of whole lines when the stride is the width. *)
Lemma memcpy_blit rows w src dst :
  0 ≤ rows → 0 < w → rows * w ≤ Z.of_nat (length dst) →
  memcpy dst 0 src 0 (rows * w) = blit rows w w src dst.
Proof.
  intros Hr Hw Hd. unfold memcpy, blit. rewrite decide_True by lia.
  rewrite (mapM_ext (λ k, src (0 + k)) (line_byte w w src)); [done|].
  intros k. unfold line_byte. f_equal. rewrite (Z.mul_comm (k / w)).
  rewrite <-Z.div_mod by lia. lia.
Qed.

(** What the reference leaves in the destination. *)
Lemma blit_bytes rows w stride src dst :
  0 ≤ rows → 0 < w → (∀ i x, 0 ≤ i < rows → 0 ≤ x < w → is_Some (src (i * stride + x))) →
  ∃ dst', blit rows w stride src dst = Some dst' ∧
    ∀ i x, 0 ≤ i < rows → 0 ≤ x < w → dst' !! Z.to_nat (i * w + x) = src (i * stride + x).
Proof.
  intros Hr Hw Hs. unfold blit.
  destruct (proj2 (mapM_is_Some (line_byte w stride src) (seqZ 0 (rows * w)))) as [bs Hbs].
  { apply Forall_forall. intros k Hk%elem_of_seqZ. apply Hs.
    - split; [apply Z.div_pos; lia|apply Z.div_lt_upper_bound; lia].
    - apply Z.mod_pos_bound. lia. }
  rewrite Hbs. cbn. eexists. split; [done|]. intros i x Hi Hx.
  pose proof (Z.mul_nonneg_nonneg i w ltac:(lia) ltac:(lia)).
  assert (i * w + x < rows * w) as Hlt.
  { pose proof (Z.mul_le_mono_nonneg_r (i + 1) rows w ltac:(lia) ltac:(lia)). lia. }
  apply mapM_Some in Hbs. assert (seqZ 0 (rows * w) !! Z.to_nat (i * w + x) = Some (i * w + x)) as Hk.
  { apply lookup_seqZ. lia. }
  destruct (Forall2_lookup_l _ _ _ _ _ Hbs Hk) as (b & Hb & Hlb). cbn in Hlb.
  rewrite lookup_app_l by (by apply lookup_lt_Some in Hb). rewrite Hb, <-Hlb. unfold line_byte.
  do 2 f_equal.
  - by rewrite Z.add_comm, Z.div_add, Z.div_small by lia.
  - by rewrite Z.add_comm, Z.mod_add, Z.mod_small by lia.
Qed.

(** What FFmpeg gives for a decoded picture: readable lines of luma and chroma, the
    offsets of all lines [int]s. *)
Record well_formed (p : FramePayload) (srcY srcUV : plane) : Prop := {
  wf_Y : dataY p = Some srcY;
  wf_UV : dataUV p = Some srcUV;
  wf_size : 0 < width p ∧ 0 < height p ∧ is_int (width p * height p);
  wf_lines i : 0 ≤ i < height p → is_int (i * strideY p) ∧ is_int (i * strideUV p);
  wf_luma i x : 0 ≤ i < height p → 0 ≤ x < width p → is_Some (srcY (i * strideY p + x));
  wf_chroma i x : 0 ≤ i < (height p + 1) / 2 → 0 ≤ x < width p → is_Some (srcUV (i * strideUV p + x))
}.

Lemma half_le h : 0 < h → 0 ≤ h / 2 ≤ (h + 1) / 2 ∧ (h + 1) / 2 ≤ h.
Proof. intros Hh. split; [split; [apply Z.div_pos; lia|apply Z.div_le_mono; lia]|].
  apply Z.div_le_upper_bound; lia.
Qed.

Lemma int_sub a b : 0 ≤ a ≤ b → is_int b → is_int a.
Proof. unfold is_int. lia. Qed.

(** The luma plane, on either branch. *)
Lemma luma_copy srcY srcUV p dst :
  well_formed p srcY srcUV → width p * height p ≤ Z.of_nat (length dst) →
  (if strideY p =? width p then memcpy dst 0 srcY 0 (width p * height p)
   else copy_rows (Z.to_nat (height p)) 0 (width p) (strideY p) srcY dst)
  = blit (height p) (width p) (strideY p) srcY dst.
Proof.
  intros Hp Hd. destruct (wf_size _ _ _ Hp) as (Hw & Hh & Hi). rewrite Z.mul_comm in Hd, Hi.
  destruct (strideY p =? width p) eqn:E.
  - apply Z.eqb_eq in E as ->. rewrite (Z.mul_comm (width p)). apply memcpy_blit; lia.
  - apply copy_rows_blit; [lia|done|done|done|]. intros j Hj. by apply (wf_lines _ _ _ Hp).
Qed.

(** Whether the chroma the code copies fits into its plane: it does for an even height,
    line by line, and else only if half of a last line has room. *)
Definition chroma_fits (p : FramePayload) (f : QVideoFrame) : bool :=
  Z.even (height p) || negb (strideUV p =? width p) || (width p * height p / 2 <=? Z.of_nat (length (bits1 f))).

(** The chroma plane: one copy of half the pixels, or line by line. *)
Lemma chroma_copy srcY srcUV p f :
  well_formed p srcY srcUV → width p * (height p / 2) ≤ Z.of_nat (length (bits1 f)) →
  bool_decide (is_Some (if strideUV p =? width p then memcpy (bits1 f) 0 srcUV 0 (width p * height p ÷ 2)
                        else copy_rows (Z.to_nat (height p ÷ 2)) 0 (width p) (strideUV p) srcUV (bits1 f)))
  = chroma_fits p f.
Proof.
  intros Hp Hd. destruct (wf_size _ _ _ Hp) as (Hw & Hh & Hi). destruct (half_le _ Hh) as [Hh1 Hh2]. unfold chroma_fits.
  destruct (strideUV p =? width p) eqn:E; cbn [negb].
  - apply Z.eqb_eq in E. rewrite orb_false_r. rewrite Z.quot_div_nonneg by lia. unfold memcpy.
    assert (0 ≤ width p * height p / 2) by (apply Z.div_pos; lia). case_decide as Hfit.
    + destruct (proj2 (mapM_is_Some (λ k, srcUV (0 + k)) (seqZ 0 (width p * height p / 2)))) as [bs Hbs].
      { apply Forall_forall. intros k Hk%elem_of_seqZ. cbn. rewrite Z.add_0_l.
        rewrite (Z.div_mod k (width p)), (Z.mul_comm (width p)) by lia. rewrite <-E at 2.
        apply (wf_chroma _ _ _ Hp); [|apply Z.mod_pos_bound; lia].
        assert (width p * height p / 2 ≤ width p * ((height p + 1) / 2)) as Hn.
        { apply Z.div_le_upper_bound; [lia|]. pose proof (Z.div_mod (height p + 1) 2 ltac:(lia)).
          pose proof (Z.mod_pos_bound (height p + 1) 2 ltac:(lia)).
          assert (height p ≤ 2 * ((height p + 1) / 2)) by lia. nia. }
        split; [apply Z.div_pos; lia|apply Z.div_lt_upper_bound; lia]. }
      rewrite Hbs. rewrite bool_decide_true by (cbn; by eexists). rewrite (proj2 (Z.leb_le _ _)) by lia. by rewrite orb_true_r.
    + rewrite bool_decide_false by by intros [? ?]. rewrite (proj2 (Z.leb_gt _ _)) by lia. rewrite orb_false_r.
      destruct (Z.even (height p)) eqn:He; [|done]. exfalso. apply Hfit. split_and!; [lia|lia|].
      apply Z.even_spec in He as [k Hk]. rewrite Hk in *.
      replace (width p * (2 * k) / 2) with (width p * k).
      2:{ replace (width p * (2 * k)) with (width p * k * 2) by lia. by rewrite Z.div_mul. }
      replace (2 * k / 2) with k in Hd by (rewrite (Z.mul_comm 2), Z.div_mul; lia). lia.
  - rewrite orb_true_r, orb_true_l. apply bool_decide_true.
    rewrite Z.quot_div_nonneg by lia. rewrite copy_rows_blit; [|lia|done|lia| |].
    + destruct (blit_bytes (height p / 2) (width p) (strideUV p) srcUV (bits1 f)) as (b & Hb & _); [lia|done| |by rewrite Hb].
      intros i x Hix Hx. apply (wf_chroma _ _ _ Hp); lia.
    + eapply int_sub; [|exact Hi]. nia.
    + intros j Hj. apply (wf_lines _ _ _ Hp). lia.
Qed.

(** ** Properties *)

(** C24. The copy is the reference copy: for a picture of even height, the code,
    which copies a plane at once when its stride is the width and line by line
    otherwise, computes what one byte-by-byte description of both planes says,
    whichever of the four combinations of branches it takes, for the bytes the
    destination has behind the picture as well.  (For an odd height the branches
    differ: both planes' last line of chroma is copied to its half or not at all.) *)
Theorem frame_copy_equiv (srcY srcUV : plane) (p : FramePayload) (f : QVideoFrame) :
  well_formed p srcY srcUV → Z.even (height p) = true →
  width p * height p ≤ Z.of_nat (length (bits0 f)) →
  width p * (height p / 2) ≤ Z.of_nat (length (bits1 f)) →
  copy_frame srcY srcUV p f = reference_copy srcY srcUV p f.
Proof.
  intros Hp He H0 H1. destruct (wf_size _ _ _ Hp) as (Hw & Hh & Hi). destruct (half_le _ Hh) as [Hh1 Hh2].
  unfold copy_frame, reference_copy. rewrite int_mul_ok by done. cbn [mbind option_bind].
  rewrite (luma_copy srcY srcUV) by done.
  destruct (blit _ _ _ srcY _) as [b0|]; cbn [mbind option_bind]; [|done].
  assert (width p * height p ÷ 2 = height p / 2 * width p) as Hn.
  { rewrite Z.quot_div_nonneg by lia. apply Z.even_spec in He as [k Hk]. rewrite Hk.
    replace (width p * (2 * k)) with (width p * k * 2) by lia. rewrite Z.div_mul by lia.
    replace (2 * k) with (k * 2) by lia. rewrite Z.div_mul by lia. lia. }
  rewrite Hn, Z.quot_div_nonneg by lia.
  destruct (strideUV p =? width p) eqn:E.
  - apply Z.eqb_eq in E as ->. by rewrite memcpy_blit by lia.
  - rewrite copy_rows_blit; [done|lia|done|lia| |].
    + eapply int_sub; [|exact Hi]. nia.
    + intros j Hj. apply (wf_lines _ _ _ Hp). lia.
Qed.

(** C37. Delivering a picture: given what FFmpeg promises of its buffers and the format
    of a Qt frame, the callback reads and writes in range and overflows nothing
    exactly when the chroma fits, which it does for every even height and whenever
    it is copied line by line; for an odd height in one copy half a line is written
    behind the last full one, out of range unless Qt's plane goes on there.
    Otherwise the frame becomes the newest one, its number is one higher (on 64
    bits) and it is emitted.  The lines are stored [width] bytes apart, but shown
    [bytesPerLine] apart: the pixel ([x], [y]) shown is the one of the picture at its
    place in this sequence, so the picture is right when Qt's lines have no padding,
    and otherwise every line from the second on is shifted. *)
Theorem frame_delivered `{V : QtVideo, L : !QtVideoLaws V} (srcY srcUV : plane) (p : FramePayload)
    (f : QVideoFrame) (w : VideoWorker) :
  well_formed p srcY srcUV → new_frame (width p) (height p) = Some f →
  (chroma_fits p f = false → on_frame_ready p w = None) ∧
  (chroma_fits p f = true →
   ∃ f', on_frame_ready p w = Some (set_latest f' w, Some f') ∧
    (∀ x y, 0 ≤ x → 0 ≤ y → y * bytesPerLine0 f + x < height p * width p →
      luma f' x y = srcY ((y * bytesPerLine0 f + x) / width p * strideY p + (y * bytesPerLine0 f + x) mod width p)) ∧
    (bytesPerLine0 f = width p →
      ∀ x y, 0 ≤ x < width p → 0 ≤ y < height p → luma f' x y = srcY (y * strideY p + x))).
Proof.
  intros Hp Hf. destruct (wf_size _ _ _ Hp) as (Hw & Hh & Hi).
  destruct (new_frame_lines _ _ _ Hf) as [Hl0 Hl1]. destruct (new_frame_bits _ _ _ Hf) as [Hb0 Hb1].
  destruct (half_le _ Hh) as [Hh1 Hh2].
  assert (width p * height p ≤ Z.of_nat (length (bits0 f))) as Hr0.
  { etrans; [|exact Hb0]. apply Z.mul_le_mono_nonneg_r; lia. }
  assert (width p * (height p / 2) ≤ Z.of_nat (length (bits1 f))) as Hr1.
  { etrans; [|exact Hb1]. apply Z.mul_le_mono_nonneg_r; lia. }
  pose proof (chroma_copy srcY srcUV p f Hp Hr1) as Hc.
  destruct (blit_bytes (height p) (width p) (strideY p) srcY (bits0 f)) as (b0 & Hy & Hbytes); [lia|done| |].
  { intros i x Hix Hx. by apply (wf_luma _ _ _ Hp). }
  assert (on_frame_ready p w = f' ← copy_frame srcY srcUV p f; Some (set_latest f' w, Some f')) as Hon.
  { unfold on_frame_ready. rewrite (wf_Y _ _ _ Hp), (wf_UV _ _ _ Hp).
    rewrite (proj2 (Z.leb_gt _ _) Hw), (proj2 (Z.leb_gt _ _) Hh). cbn [orb]. by rewrite Hf. }
  rewrite Hon. unfold copy_frame. rewrite int_mul_ok by done. cbn [mbind option_bind].
  rewrite (luma_copy srcY srcUV), Hy by done. cbn [mbind option_bind].
  split; intros Hfit; rewrite Hfit in Hc.
  { apply bool_decide_eq_false in Hc. apply eq_None_not_Some in Hc. by rewrite Hc. }
  apply bool_decide_eq_true in Hc as [b1 Hc]. rewrite Hc. exists (set_bits b0 b1 f). split; [done|]. split.
  - intros x y Hx Hy0 Hk. unfold luma. cbn [bits0 bytesPerLine0 set_bits].
    set (k := y * bytesPerLine0 f + x) in *. assert (0 ≤ k) by (unfold k; nia).
    rewrite <-Hbytes.
    + f_equal. f_equal. rewrite (Z.mul_comm (k / width p)). apply Z.div_mod. lia.
    + split; [apply Z.div_pos; lia|apply Z.div_lt_upper_bound; lia].
    + apply Z.mod_pos_bound. lia.
  - intros Hs x y Hx Hy0. unfold luma. cbn [bits0 bytesPerLine0 set_bits]. rewrite Hs. by apply Hbytes.
Qed.

(** *** Examples: a 4 x 2 picture with 6 bytes per line, a 16 x 3 one without padding, and
    frames whose lines are multiples of 16 bytes *)

Definition RefVideo : QtVideo := {|
  new_frame w h :=
    if decide (0 < w ∧ 0 < h) then
      let s := (w + 15) / 16 * 16 in
      Some {| vf_width := w; vf_height := h; bytesPerLine0 := s; bytesPerLine1 := s;
              bits0 := replicate (Z.to_nat (s * h)) Byte.x00;
              bits1 := replicate (Z.to_nat (s * (h / 2))) Byte.x00 |}
    else None
|}.

#[export] Instance RefVideo_laws : QtVideoLaws RefVideo.
Proof.
  assert (∀ w, 0 < w → 0 < (w + 15) / 16 * 16 ∧ w ≤ (w + 15) / 16 * 16) as Hs.
  { intros w Hw. pose proof (Z.div_mod (w + 15) 16 ltac:(lia)).
    pose proof (Z.mod_pos_bound (w + 15) 16 ltac:(lia)). lia. }
  split; intros w h f; cbn; case_decide as Hd; [|done| |done| |done]; intros [= <-]; cbn; [done| |];
    specialize (Hs w ltac:(lia)); [lia|].
  assert (0 <= h / 2) by (apply Z.div_pos; lia). rewrite !length_replicate. split; rewrite Z2Nat.id; nia.
Qed.

Definition demo_bytes : plane := λ k, if decide (0 ≤ k < 100) then Byte.of_N (Z.to_N k) else None.

Definition demo_payload : FramePayload := {|
  dataY := Some demo_bytes; dataUV := Some demo_bytes; width := 4; height := 2; strideY := 6; strideUV := 4
|}.

Lemma demo_well_formed : well_formed demo_payload demo_bytes demo_bytes.
Proof.
  split; try done; cbn.
  - intros i Hi. unfold is_int. lia.
  - intros i x Hi Hx. unfold demo_bytes. rewrite decide_True by lia. assert (i = 0 ∨ i = 1) as [->| ->] by lia;
      assert (x = 0 ∨ x = 1 ∨ x = 2 ∨ x = 3) as [->|[->|[->| ->]]] by lia; by eexists.
  - intros i x Hi Hx. change ((2 + 1) / 2) with 1 in Hi. assert (i = 0) as -> by lia.
    assert (x = 0 ∨ x = 1 ∨ x = 2 ∨ x = 3) as [->|[->|[->| ->]]] by lia; by eexists.
Defined.

Definition demo_target : QVideoFrame := default
  {| vf_width := 0; vf_height := 0; bytesPerLine0 := 0; bytesPerLine1 := 0; bits0 := []; bits1 := [] |}
  (new_frame (QtVideo := RefVideo) 4 2).

Lemma frame_copy_equiv_witness :
  is_Some (reference_copy demo_bytes demo_bytes demo_payload demo_target) ∧
  copy_frame demo_bytes demo_bytes demo_payload demo_target
  = reference_copy demo_bytes demo_bytes demo_payload demo_target.
Proof.
  split; [vm_compute; by eexists|].
  apply (frame_copy_equiv demo_bytes demo_bytes demo_payload demo_target demo_well_formed).
  - reflexivity.
  - vm_compute. discriminate.
  - vm_compute. discriminate.
Defined.

Definition demo_odd : FramePayload := {|
  dataY := Some demo_bytes; dataUV := Some demo_bytes; width := 16; height := 3; strideY := 16; strideUV := 16
|}.

Lemma demo_odd_well_formed : well_formed demo_odd demo_bytes demo_bytes.
Proof.
  split; try done; cbn.
  - intros i Hi. unfold is_int. lia.
  - intros i x Hi Hx. unfold demo_bytes. rewrite decide_True by lia. apply not_eq_None_Some. intros Hn.
    apply Byte.of_N_None_iff in Hn. lia.
  - intros i x Hi Hx. change ((3 + 1) / 2) with 2 in Hi. unfold demo_bytes. rewrite decide_True by lia.
    apply not_eq_None_Some. intros Hn. apply Byte.of_N_None_iff in Hn. lia.
Qed.

(** The second line is shown as padding: its bytes are in the first one.  The chroma of
    the second picture does not fit. *)
Lemma frame_delivered_witness :
  (∃ f', on_frame_ready (V := RefVideo) demo_payload (VideoWorker0 "c") = Some (set_latest f' (VideoWorker0 "c"), Some f')
    ∧ luma f' 4 0 = demo_bytes 6 ∧ luma f' 0 1 = Some Byte.x00) ∧
  on_frame_ready (V := RefVideo) demo_odd (VideoWorker0 "c") = None.
Proof.
  split.
  - destruct (frame_delivered (V := RefVideo) demo_bytes demo_bytes demo_payload demo_target (VideoWorker0 "c")
                demo_well_formed eq_refl) as [_ H]. destruct (H eq_refl) as (f' & Hf & Hl & _).
    exists f'. split; [exact Hf|]. split; [by apply (Hl 4 0)|].
    vm_compute in Hf. injection Hf as <-. by vm_compute.
  - destruct (frame_delivered (V := RefVideo) demo_bytes demo_bytes demo_odd
                (default demo_target (new_frame (QtVideo := RefVideo) 16 3)) (VideoWorker0 "c")
                demo_odd_well_formed eq_refl) as [H _]. by apply H.
Defined.
