(* ===== verification/VideoManager.v ===== *)
(** * The workers of all cameras (src/Qt/Back/Services/VideoStream: VideoManager)

    [VideoManager] maps camera ids to workers and grid slots to camera ids.  The
    workers live in a heap of their own, so that a pointer to a deleted worker is
    a pointer to nothing: [None] is a use of such a pointer, or a join that does
    not return.  What the decode thread of a worker went through before it is
    joined is an argument ([Threads]). *)

From S2P Require Import Prelude Extern Video VideoWorker.

(** ** State *)

(** The address of a worker. *)
Definition worker_id : Type := nat.

Record VideoManager : Type := {
  heap : gmap worker_id VideoWorker;
  fresh : worker_id;
  workers_ : gmap QString worker_id;
  slotToCameraId_ : gmap Z QString
}.

Definition VideoManager0 : VideoManager := {| heap := ∅; fresh := 0; workers_ := ∅; slotToCameraId_ := ∅ |}.

Definition set_heap (h : gmap worker_id VideoWorker) (m : VideoManager) : VideoManager := {|
  heap := h; fresh := fresh m; workers_ := workers_ m; slotToCameraId_ := slotToCameraId_ m
|}.

Definition set_slots (s : gmap Z QString) (m : VideoManager) : VideoManager := {|
  heap := heap m; fresh := fresh m; workers_ := workers_ m; slotToCameraId_ := s
|}.

(** [new VideoWorker], already in the map. *)
Definition add_worker (id : QString) (w : VideoWorker) (m : VideoManager) : VideoManager := {|
  heap := <[fresh m := w]> (heap m); fresh := S (fresh m); workers_ := <[id := fresh m]> (workers_ m);
  slotToCameraId_ := slotToCameraId_ m
|}.

(** The two providers, as they answer at the time of a call. *)
Record Providers : Type := {
  urlProvider_ : option (QString → QString);
  fpsProvider_ : option Z
}.

(** By worker, what its thread went through when it is joined. *)
Definition Threads : Type := worker_id → list LoopStep.

(** [workerRegistered], with the manager the receivers see. *)
Definition registered : Type := VideoManager * QString.

(** ** Queries *)

(** [nullptr] is [None]. *)
Definition getWorker (cameraId : QString) (m : VideoManager) : option worker_id := workers_ m !! cameraId.
Definition slotCameraId (slotId : Z) (m : VideoManager) : QString := default "" (slotToCameraId_ m !! slotId).
Definition getWorkerBySlot (slotId : Z) (m : VideoManager) : option worker_id :=
  getWorker (slotCameraId slotId m) m.
Definition hasSlot (slotId : Z) (m : VideoManager) : bool := bool_decide (is_Some (slotToCameraId_ m !! slotId)).

(** ** Operations *)
Section operations.
Context `{T : QtText}.

Definition configure (env : Providers) (id : QString) (w : VideoWorker) : VideoWorker :=
  let w := match urlProvider_ env with Some url => setConnectionString (url id) w | None => w end in
  match fpsProvider_ env with Some fps => VideoWorker.setFpsLimit fps w | None => w end.

(** A new worker; it has no thread yet. *)
Definition create_worker (env : Providers) (id : QString) (m : VideoManager) : option (VideoManager * list registered) :=
  w ← VideoWorker.startStream [] (configure env id (VideoWorker0 id));
  let m' := add_worker id w m in
  Some (m', [(m', id)]).

Fixpoint register_ids (env : Providers) (ids : list QString) (m : VideoManager)
    : option (VideoManager * list registered) :=
  match ids with
  | [] => Some (m, [])
  | id :: rest =>
      if str_empty id || bool_decide (is_Some (workers_ m !! id)) then register_ids env rest m
      else
        '(m1, s1) ← create_worker env id m;
        '(m2, s2) ← register_ids env rest m1;
        Some (m2, s1 ++ s2)
  end.

Definition registerSlots (env : Providers) (slots : list (Z * QString)) (m : VideoManager)
    : option (VideoManager * list registered) :=
  let m1 := set_slots (foldl (λ s si, <[si.1 := si.2]> s) ∅ slots) m in
  register_ids env (snd <$> slots) m1.

Definition registerCameraIds (env : Providers) (cameraIds : list QString) (m : VideoManager)
    : option (VideoManager * list registered) := register_ids env cameraIds m.

Definition restartWorker (env : Providers) (ts : Threads) (cameraId : QString) (m : VideoManager)
    : option (VideoManager * list registered) :=
  match workers_ m !! cameraId with
  | None => if str_empty cameraId then Some (m, []) else create_worker env cameraId m
  | Some i =>
      w ← heap m !! i;
      w1 ← VideoWorker.stopStream (ts i) w;
      w2 ← VideoWorker.startStream [] (configure env cameraId w1);
      let m' := set_heap (<[i := w2]> (heap m)) m in
      Some (m', [(m', cameraId)])
  end.

(** [for (auto *worker : workers_) ...]: the workers in some order. *)
Fixpoint set_fps_of (fps : Z) (ws : list worker_id) (h : gmap worker_id VideoWorker)
    : option (gmap worker_id VideoWorker) :=
  match ws with
  | [] => Some h
  | i :: rest => w ← h !! i; set_fps_of fps rest (<[i := VideoWorker.setFpsLimit fps w]> h)
  end.

(** [worker->stopStream(); delete worker;], where the destructor stops once more. *)
Fixpoint delete_workers (ts : Threads) (ws : list worker_id) (h : gmap worker_id VideoWorker)
    : option (gmap worker_id VideoWorker) :=
  match ws with
  | [] => Some h
  | i :: rest =>
      w ← h !! i;
      w1 ← VideoWorker.stopStream (ts i) w;
      _ ← VideoWorker.stopStream [] w1;
      delete_workers ts rest (delete i h)
  end.

Context `{Q : QtMap}.

(** The workers in the order of the map. *)
Definition worker_list (m : VideoManager) : list worker_id := snd <$> qmap_items (workers_ m).

Definition setFpsLimit (fps : Z) (m : VideoManager) : option (VideoManager * list registered) :=
  h ← set_fps_of fps (worker_list m) (heap m); Some (set_heap h m, []).

Definition clearAll (ts : Threads) (m : VideoManager) : option (VideoManager * list registered) :=
  h ← delete_workers ts (worker_list m) (heap m);
  Some ({| heap := h; fresh := fresh m; workers_ := ∅; slotToCameraId_ := ∅ |}, []).

(** A decode thread delivers a picture to its worker. *)
Definition deliver `{V : QtVideo} (i : worker_id) (p : FramePayload) (m : VideoManager)
    : option (VideoManager * list registered) :=
  w ← heap m !! i;
  '(w', _) ← on_frame_ready p w;
  Some (set_heap (<[i := w']> (heap m)) m, []).
End operations.

(** ** Lemmas *)
Section lemmas.
Context `{T : QtText}.

(** What the thread of a worker with this connection string decodes. *)
Definition playing (w : VideoWorker) : option string :=
  let url := toStdString (connectionString_ w) in
  if str_empty (connectionString_ w) || str_empty url then None else Some url.

(** A worker between the calls of its manager. *)
Record worker_ok (id : QString) (w : VideoWorker) : Prop := {
  wo_id : cameraId_ w = id;
  wo_idle : idle (video_ w);
  wo_playing : decodeThread_ (video_ w) = playing w
}.

(** The settings of a worker. *)
Definition settings (w : VideoWorker) : QString * QString * Z * Z :=
  (cameraId_ w, connectionString_ w, fpsLimit_ w, frameSeq_ w).

Lemma start_worker w :
  idle (video_ w) → decodeThread_ (video_ w) = None →
  ∃ w', VideoWorker.startStream [] w = Some w' ∧ settings w' = settings w ∧ worker_ok (cameraId_ w) w'.
Proof.
  intros Hi Hd. unfold VideoWorker.startStream. destruct (str_empty (connectionString_ w)) eqn:He.
  { eexists. split; [done|]. split; [done|]. split; [done|done|]. unfold playing. by rewrite He. }
  unfold Video.startStream. destruct (str_empty (toStdString _)) eqn:Hu; cbn.
  { eexists. split; [done|]. split; [done|]. split; cbn; [done|done|].
    unfold playing. cbn. by rewrite He, Hu. }
  unfold Video.stopStream. rewrite Hd. cbn. eexists. split; [done|]. split; [done|].
  split; cbn; [done|done|]. unfold playing. cbn. by rewrite He, Hu.
Qed.

Lemma stop_worker steps w w' :
  idle (video_ w) → VideoWorker.stopStream steps w = Some w' →
  settings w' = settings w ∧ idle (video_ w') ∧ decodeThread_ (video_ w') = None.
Proof.
  intros Hi. unfold VideoWorker.stopStream. intros ([v ev] & Hv & [= <-])%bind_Some.
  apply stop_traces in Hv as (Hi' & Hd & _); [|done]. done.
Qed.

(** A stop returns once the thread has seen the flag. *)
Lemma stop_worker_returns steps w : is_Some (VideoWorker.stopStream (then_stop steps) w).
Proof.
  unfold VideoWorker.stopStream, Video.stopStream.
  destruct (decodeThread_ (video_ w)) as [u|]; [|by eexists].
  destruct (decodeLoop_stop steps (video_ w)) as ([v ev] & -> & _). by eexists.
Qed.

Lemma stop_again w : decodeThread_ (video_ w) = None → is_Some (VideoWorker.stopStream [] w).
Proof. intros H. unfold VideoWorker.stopStream, Video.stopStream. rewrite H. by eexists. Qed.

Lemma configure_same env id w :
  video_ (configure env id w) = match fpsProvider_ env with
                                | Some fps => Video.setFpsLimit fps (video_ w)
                                | None => video_ w
                                end ∧
  cameraId_ (configure env id w) = cameraId_ w ∧
  connectionString_ (configure env id w) = match urlProvider_ env with Some url => url id | None => connectionString_ w end.
Proof. unfold configure. by destruct (urlProvider_ env), (fpsProvider_ env). Qed.

Lemma configure_idle env id w :
  idle (video_ w) → decodeThread_ (video_ w) = None →
  idle (video_ (configure env id w)) ∧ decodeThread_ (video_ (configure env id w)) = None.
Proof. destruct (configure_same env id w) as (-> & _). by destruct (fpsProvider_ env). Qed.

(** *** The invariant *)

Record manager_inv (m : VideoManager) : Prop := {
  mi_worker id i : workers_ m !! id = Some i → id ≠ "" ∧ ∃ w, heap m !! i = Some w ∧ worker_ok id w;
  mi_owner i w : heap m !! i = Some w → workers_ m !! cameraId_ w = Some i;
  mi_fresh i : is_Some (heap m !! i) → i < fresh m
}.

Lemma mi_inj m id1 id2 i :
  manager_inv m → workers_ m !! id1 = Some i → workers_ m !! id2 = Some i → id1 = id2.
Proof.
  intros Hm H1 H2. destruct (mi_worker _ Hm _ _ H1) as (_ & w1 & Hw1 & Ho1).
  destruct (mi_worker _ Hm _ _ H2) as (_ & w2 & Hw2 & Ho2). rewrite Hw1 in Hw2. injection Hw2 as <-.
  by rewrite <-(wo_id _ _ Ho1), <-(wo_id _ _ Ho2).
Qed.

Lemma manager0_inv : manager_inv VideoManager0.
Proof. split; cbn; intros *; rewrite ?lookup_empty; try done. Qed.

Lemma set_slots_inv s m : manager_inv m → manager_inv (set_slots s m).
Proof. by intros []. Qed.

Lemma add_worker_inv id w m :
  manager_inv m → id ≠ "" → workers_ m !! id = None → worker_ok id w → manager_inv (add_worker id w m).
Proof.
  intros Hm Hid Hnone Hw. split; cbn.
  - intros id' i. destruct (decide (id' = id)) as [->|Hne].
    + rewrite lookup_insert_eq. intros [= <-]. split; [done|]. exists w. by rewrite lookup_insert_eq.
    + rewrite lookup_insert_ne by done. intros H. destruct (mi_worker _ Hm _ _ H) as (Hne' & w' & Hw' & Ho).
      split; [done|]. exists w'. rewrite lookup_insert_ne; [done|].
      intros <-. apply (Nat.lt_irrefl (fresh m)), (mi_fresh _ Hm). by exists w'.
  - intros i w'. destruct (decide (i = fresh m)) as [->|Hne].
    + rewrite lookup_insert_eq. intros [= <-]. rewrite (wo_id _ _ Hw). by rewrite lookup_insert_eq.
    + rewrite lookup_insert_ne by done. intros H. pose proof (mi_owner _ Hm _ _ H) as Ho.
      rewrite lookup_insert_ne; [done|]. intros E. rewrite <-E in Ho. congruence.
  - intros i. destruct (decide (i = fresh m)) as [->|Hne]; [lia|]. rewrite lookup_insert_ne by done.
    intros H%(mi_fresh _ Hm). lia.
Qed.

(** Replacing the worker at an address. *)
Lemma update_worker_inv i w w' m :
  manager_inv m → heap m !! i = Some w → worker_ok (cameraId_ w) w' →
  manager_inv (set_heap (<[i := w']> (heap m)) m).
Proof.
  intros Hm Hi Hw. split; cbn.
  - intros id j H. destruct (mi_worker _ Hm _ _ H) as (Hne & w0 & Hw0 & Ho). split; [done|].
    destruct (decide (i = j)) as [->|Hij].
    + exists w'. rewrite lookup_insert_eq. split; [done|]. rewrite Hi in Hw0. injection Hw0 as <-.
      by rewrite <-(wo_id _ _ Ho).
    + exists w0. by rewrite lookup_insert_ne.
  - intros j w0. destruct (decide (i = j)) as [->|Hij].
    + rewrite lookup_insert_eq. intros [= <-]. rewrite (wo_id _ _ Hw). by apply (mi_owner _ Hm).
    + rewrite lookup_insert_ne by done. apply (mi_owner _ Hm).
  - intros j H. apply (mi_fresh _ Hm). destruct (decide (i = j)) as [->|Hij]; [by exists w|].
    by rewrite lookup_insert_ne in H.
Qed.

(** *** Registering *)

(** From [m] to [m'], workers were added for the new ones of [ids]. *)
Record extended (env : Providers) (ids : list QString) (m m' : VideoManager) (sigs : list registered) : Prop := {
  ex_slots : slotToCameraId_ m' = slotToCameraId_ m;
  ex_old id i : workers_ m !! id = Some i → workers_ m' !! id = Some i;
  ex_heap i w : heap m !! i = Some w → heap m' !! i = Some w;
  ex_all id : id ∈ ids → id ≠ "" → is_Some (workers_ m' !! id);
  ex_new id : workers_ m !! id = None → is_Some (workers_ m' !! id) →
    id ∈ ids ∧ ∃ i w, workers_ m' !! id = Some i ∧ heap m' !! i = Some w ∧ frameSeq_ w = 0%Z ∧
      connectionString_ w = match urlProvider_ env with Some url => url id | None => "" end;
  ex_signals id : id ∈ snd <$> sigs ↔ id ∈ ids ∧ id ≠ "" ∧ workers_ m !! id = None;
  ex_once : NoDup (snd <$> sigs)
}.

Lemma extended_nil env m : extended env [] m m [].
Proof. 
  split; try done; [set_solver|by intros id Hn [i Hi]; rewrite Hn in Hi| |constructor].
  cbn. set_solver.
Qed.

Lemma extended_skip env id ids m m' sigs :
  (id = "" ∨ is_Some (workers_ m !! id)) → extended env ids m m' sigs → extended env (id :: ids) m m' sigs.
Proof.
  intros Hid []. split; try done.
  - intros id' [->|?]%elem_of_cons Hne; [|by apply ex_all0].
    destruct Hid as [?|[i Hi]]; [done|]. exists i. by apply ex_old0.
  - intros id' Hn Hs. destruct (ex_new0 id' Hn Hs) as [? ?]. split; [by right|done].
  - intros id'. rewrite ex_signals0, elem_of_cons. split; [naive_solver|].
    intros ([->|?] & Hne & Hn); [|done]. destruct Hid as [?|[i Hi]]; [done|]. by rewrite Hn in Hi.
Qed.

Lemma create_worker_spec env id m :
  manager_inv m → id ≠ "" → workers_ m !! id = None →
  ∃ m', create_worker env id m = Some (m', [(m', id)]) ∧ manager_inv m' ∧
    workers_ m' = <[id := fresh m]> (workers_ m) ∧ slotToCameraId_ m' = slotToCameraId_ m ∧
    ∃ w, heap m' = <[fresh m := w]> (heap m) ∧ frameSeq_ w = 0%Z ∧
      connectionString_ w = match urlProvider_ env with Some url => url id | None => "" end.
Proof.
  intros Hm Hid Hn. unfold create_worker.
  destruct (configure_idle env id (VideoWorker0 id)) as [Hi Hd]; [done|done|].
  destruct (start_worker _ Hi Hd) as (w & -> & Hs & Hw). cbn.
  eexists. split; [done|]. destruct (configure_same env id (VideoWorker0 id)) as (_ & Hc & Hu).
  unfold settings in Hs. injection Hs as H1 H2 H3 H4. split; [|split; [done|]; split; [done|]].
  - apply add_worker_inv; [done|done|done|]. by rewrite Hc in Hw.
  - exists w. split; [done|]. split; [|by rewrite H2, Hu].
    rewrite H4. unfold configure. by destruct (urlProvider_ env), (fpsProvider_ env).
Qed.

Lemma register_ids_spec env ids m :
  manager_inv m →
  ∃ m' sigs, register_ids env ids m = Some (m', sigs) ∧ manager_inv m' ∧ extended env ids m m' sigs.
Proof.
  revert m. induction ids as [|id ids IH]; intros m Hm; cbn.
  { exists m, []. split; [done|]. split; [done|apply extended_nil]. }
  destruct (str_empty id) eqn:He; cbn.
  { destruct (IH m Hm) as (m' & sigs & H & Hm' & Hx). exists m', sigs. split; [done|]. split; [done|].
    apply extended_skip; [left; by apply str_empty_true|done]. }
  apply str_empty_false in He. case_bool_decide as Hs.
  { destruct (IH m Hm) as (m' & sigs & H & Hm' & Hx). exists m', sigs. split; [done|]. split; [done|].
    apply extended_skip; [by right|done]. }
  apply eq_None_not_Some in Hs.
  destruct (create_worker_spec env id m Hm He Hs) as (m1 & -> & Hm1 & Hw1 & Hs1 & w & Hh1 & Hq & Hu).
  destruct (IH m1 Hm1) as (m' & sigs & Hr & Hm' & Hx). cbn. rewrite Hr. cbn.
  exists m', ((m1, id) :: sigs). split; [done|]. split; [done|].
  assert (workers_ m1 !! id = Some (fresh m)) as Hid by (by rewrite Hw1, lookup_insert_eq).
  destruct Hx. split; cbn.
  - by rewrite ex_slots0, Hs1.
  - intros id' i Hi. apply ex_old0. rewrite Hw1, lookup_insert_ne; [done|]. congruence.
  - intros i w' Hi. apply ex_heap0. rewrite Hh1, lookup_insert_ne; [done|].
    intros <-. apply (Nat.lt_irrefl (fresh m)), (mi_fresh _ Hm). by exists w'.
  - intros id' [->|?]%elem_of_cons Hne; [|by apply ex_all0]. exists (fresh m). by apply ex_old0.
  - intros id' Hn Hsome. destruct (decide (id' = id)) as [->|Hne].
    + split; [by left|]. exists (fresh m), w. split; [by apply ex_old0|]. split; [|done].
      apply ex_heap0. by rewrite Hh1, lookup_insert_eq.
    + destruct (ex_new0 id') as [? ?]; [by rewrite Hw1, lookup_insert_ne|done|]. split; [by right|done].
  - intros id'. rewrite !elem_of_cons, ex_signals0, Hw1. destruct (decide (id' = id)) as [->|Hne].
    + naive_solver.
    + rewrite lookup_insert_ne by done. naive_solver.
  - constructor; [|done]. rewrite ex_signals0. intros (_ & _ & Hn). by rewrite Hid in Hn.
Qed.

(** The slots of a list: the last entry of a slot counts. *)
Definition slot_map (slots : list (Z * QString)) : gmap Z QString := foldl (λ s si, <[si.1 := si.2]> s) ∅ slots.

Lemma registerSlots_spec env slots m :
  manager_inv m →
  ∃ m' sigs, registerSlots env slots m = Some (m', sigs) ∧ manager_inv m' ∧
    extended env (snd <$> slots) (set_slots (slot_map slots) m) m' sigs.
Proof. intros Hm. by apply register_ids_spec, set_slots_inv. Qed.

(** *** The loops over all workers *)

Lemma set_fps_of_spec fps ws h :
  NoDup ws → (∀ i, i ∈ ws → is_Some (h !! i)) →
  ∃ h', set_fps_of fps ws h = Some h' ∧
    ∀ i, h' !! i = if decide (i ∈ ws) then VideoWorker.setFpsLimit fps <$> h !! i else h !! i.
Proof.
  intros Hnd. revert h. induction Hnd as [|i ws Hi Hnd IH]; intros h Hall; cbn.
  { exists h. split; [done|]. intros j. rewrite decide_False; [done|apply not_elem_of_nil]. }
  destruct (Hall i) as [w Hw]; [by left|]. rewrite Hw. cbn.
  destruct (IH (<[i:=VideoWorker.setFpsLimit fps w]> h)) as (h' & -> & Hh').
  { intros j Hj. rewrite lookup_insert_ne by (intros ->; done). apply Hall. by right. }
  exists h'. split; [done|]. intros j. rewrite Hh'. destruct (decide (i = j)) as [->|Hne].
  - rewrite lookup_insert_eq, decide_False by done.
    rewrite (decide_True (P := j ∈ j :: ws)) by (by left). by rewrite Hw.
  - rewrite lookup_insert_ne by done. destruct (decide (j ∈ ws)).
    + by rewrite (decide_True (P := j ∈ i :: ws)) by (by right).
    + rewrite (decide_False (P := j ∈ i :: ws)); [done|]. by intros [->|?]%elem_of_cons.
Qed.

Lemma delete_workers_heap ts ws h h' :
  delete_workers ts ws h = Some h' → ∀ i, h' !! i = if decide (i ∈ ws) then None else h !! i.
Proof.
  revert h. induction ws as [|j ws IH]; intros h; cbn.
  { intros [= <-] i. rewrite decide_False; [done|apply not_elem_of_nil]. }
  intros (w & Hw & (w1 & Hw1 & (w2 & Hw2 & H)%bind_Some)%bind_Some)%bind_Some i.
  rewrite (IH _ H i). destruct (decide (i ∈ ws)).
  - by rewrite (decide_True (P := i ∈ j :: ws)) by (by right).
  - destruct (decide (j = i)) as [->|Hne].
    + rewrite lookup_delete_eq. by rewrite (decide_True (P := i ∈ i :: ws)) by (by left).
    + rewrite lookup_delete_ne by done. rewrite (decide_False (P := i ∈ j :: ws)); [done|].
      by intros [->|?]%elem_of_cons.
Qed.

Lemma delete_workers_returns (ts : Threads) ws h :
  NoDup ws → (∀ i, i ∈ ws → ∃ w, h !! i = Some w ∧ idle (video_ w)) →
  is_Some (delete_workers (λ i, then_stop (ts i)) ws h).
Proof.
  intros Hnd. revert h. induction Hnd as [|i ws Hi Hnd IH]; intros h Hall; cbn; [by eexists|].
  destruct (Hall i) as (w & -> & Hw); [by left|]. cbn.
  destruct (stop_worker_returns (ts i) w) as [w1 H1]. rewrite H1. cbn.
  destruct (stop_worker _ w w1 Hw H1) as (_ & _ & Hd). destruct (stop_again w1 Hd) as [w2 ->]. cbn.
  apply IH. intros j Hj. rewrite lookup_delete_ne by (intros ->; done). apply Hall. by right.
Qed.

Context `{Q : QtMap}.

Lemma worker_list_elem m i : i ∈ worker_list m ↔ ∃ id, workers_ m !! id = Some i.
Proof.
  unfold worker_list. rewrite list_elem_of_fmap. split.
  - intros ([id j] & -> & H). exists id. rewrite qmap_items_perm in H. by apply elem_of_map_to_list in H.
  - intros [id H]. exists (id, i). split; [done|]. rewrite qmap_items_perm. by apply elem_of_map_to_list.
Qed.

Lemma worker_list_NoDup m : manager_inv m → NoDup (worker_list m).
Proof.
  intros Hm. unfold worker_list. rewrite qmap_items_perm.
  apply NoDup_fmap_2_strong; [|apply NoDup_map_to_list].
  intros [id1 i1] [id2 i2] H1%elem_of_map_to_list H2%elem_of_map_to_list. cbn. intros ->.
  by rewrite (mi_inj m id1 id2 i2).
Qed.

Lemma worker_list_heap m i : manager_inv m → i ∈ worker_list m ↔ is_Some (heap m !! i).
Proof.
  intros Hm. rewrite worker_list_elem. split.
  - intros [id H]. destruct (mi_worker _ Hm _ _ H) as (_ & w & Hw & _). by exists w.
  - intros [w Hw]. exists (cameraId_ w). by apply mi_owner.
Qed.

Lemma worker_at m i w : manager_inv m → heap m !! i = Some w → worker_ok (cameraId_ w) w.
Proof.
  intros Hm Hw. destruct (mi_worker _ Hm _ _ (mi_owner _ Hm _ _ Hw)) as (_ & w' & Hw' & Ho).
  rewrite Hw in Hw'. by injection Hw' as <-.
Qed.

Lemma setFpsLimit_ok fps id w : worker_ok id w → worker_ok id (VideoWorker.setFpsLimit fps w).
Proof. by intros []. Qed.

Lemma setFpsLimit_spec fps m :
  manager_inv m →
  ∃ m', setFpsLimit fps m = Some (m', []) ∧ manager_inv m' ∧ workers_ m' = workers_ m ∧
    slotToCameraId_ m' = slotToCameraId_ m ∧
    ∀ i, heap m' !! i = VideoWorker.setFpsLimit fps <$> heap m !! i.
Proof.
  intros Hm. unfold setFpsLimit.
  destruct (set_fps_of_spec fps (worker_list m) (heap m)) as (h & -> & Hh);
    [by apply worker_list_NoDup|intros i; by apply worker_list_heap|].
  assert (∀ i, h !! i = VideoWorker.setFpsLimit fps <$> heap m !! i) as Hh'.
  { intros i. rewrite Hh. case_decide as Hi; [done|]. rewrite worker_list_heap in Hi by done.
    apply eq_None_not_Some in Hi. by rewrite Hi. }
  cbn. eexists. split; [done|]. split_and!; [|done|done|done]. split; cbn.
  - intros id i H. destruct (mi_worker _ Hm _ _ H) as (Hne & w & Hw & Ho). split; [done|].
    rewrite Hh', Hw. eexists. split; [done|]. by apply setFpsLimit_ok.
  - intros i w. rewrite Hh'. intros (w0 & Hw0 & ->)%fmap_Some. by apply (mi_owner _ Hm i w0).
  - intros i. rewrite Hh', fmap_is_Some. by apply mi_fresh.
Qed.

Lemma clearAll_heap ts m m' sigs :
  manager_inv m → clearAll ts m = Some (m', sigs) →
  heap m' = ∅ ∧ workers_ m' = ∅ ∧ slotToCameraId_ m' = ∅ ∧ fresh m' = fresh m ∧ sigs = [] ∧ manager_inv m'.
Proof.
  intros Hm. unfold clearAll. intros (h & Hh & [= <- <-])%bind_Some. cbn.
  assert (h = ∅) as ->.
  { apply map_eq. intros i. rewrite (delete_workers_heap _ _ _ _ Hh), lookup_empty.
    case_decide as Hi; [done|]. rewrite worker_list_heap in Hi by done. by apply eq_None_not_Some. }
  split_and!; try done. split; cbn; intros *; by rewrite ?lookup_empty.
Qed.

(** With threads that see the stop flag, [clearAll] returns. *)
Lemma clearAll_returns (ts : Threads) m : manager_inv m → is_Some (clearAll (λ i, then_stop (ts i)) m).
Proof.
  intros Hm. unfold clearAll. destruct (delete_workers_returns ts (worker_list m) (heap m)) as [h ->];
    [by apply worker_list_NoDup| |by eexists].
  intros i [w Hw]%worker_list_heap; [|done]. exists w. split; [done|].
  by apply (wo_idle _ _ (worker_at _ _ _ Hm Hw)).
Qed.
End lemmas.

(** ** Runs *)

Inductive manager_op : Type :=
| RegisterSlots (env : Providers) (slots : list (Z * QString))
| RegisterCameraIds (env : Providers) (cameraIds : list QString)
| RestartWorker (env : Providers) (ts : Threads) (cameraId : QString)
| SetFpsLimit (fps : Z)
| ClearAll (ts : Threads)
| Deliver (i : worker_id) (p : FramePayload).

Section runs.
Context `{T : QtText, Q : QtMap, V : QtVideo}.

Definition manager_exec (op : manager_op) (m : VideoManager) : option (VideoManager * list registered) :=
  match op with
  | RegisterSlots env slots => registerSlots env slots m
  | RegisterCameraIds env ids => registerCameraIds env ids m
  | RestartWorker env ts id => restartWorker env ts id m
  | SetFpsLimit fps => setFpsLimit fps m
  | ClearAll ts => clearAll ts m
  | Deliver i p => deliver i p m
  end.

Fixpoint manager_run (ops : list manager_op) (m : VideoManager) : option VideoManager :=
  match ops with
  | [] => Some m
  | op :: ops' => '(m', _) ← manager_exec op m; manager_run ops' m'
  end.

Lemma restart_spec env ts id i w m :
  manager_inv m → workers_ m !! id = Some i → heap m !! i = Some w →
  ∀ w1, VideoWorker.stopStream (ts i) w = Some w1 →
  ∃ w2, restartWorker env ts id m
        = Some (set_heap (<[i := w2]> (heap m)) m, [(set_heap (<[i := w2]> (heap m)) m, id)]) ∧
    worker_ok id w2 ∧ frameSeq_ w2 = frameSeq_ w ∧
    connectionString_ w2 = match urlProvider_ env with Some url => url id | None => connectionString_ w end.
Proof.
  intros Hm Hi Hw w1 H1. unfold restartWorker. rewrite Hi, Hw. cbn. rewrite H1. cbn.
  pose proof (worker_at _ _ _ Hm Hw) as Ho.
  destruct (stop_worker _ _ _ (wo_idle _ _ Ho) H1) as (Hs1 & Hi1 & Hd1).
  destruct (configure_idle env id w1 Hi1 Hd1) as [Hi2 Hd2].
  destruct (start_worker _ Hi2 Hd2) as (w2 & -> & Hs2 & Hw2). cbn. exists w2. split; [done|].
  destruct (configure_same env id w1) as (_ & Hc & Hu). unfold settings in *.
  injection Hs1 as E1 E2 E3 E4. injection Hs2 as F1 F2 F3 F4. split_and!.
  - rewrite Hc, E1 in Hw2. destruct (mi_worker _ Hm _ _ Hi) as (_ & w' & Hw' & Ho').
    rewrite Hw in Hw'. injection Hw' as <-. by rewrite (wo_id _ _ Ho') in Hw2.
  - rewrite F4, <-E4. unfold configure. by destruct (urlProvider_ env), (fpsProvider_ env).
  - by rewrite F2, Hu, E2.
Qed.

Lemma on_frame_ready_ok id p w w' o : worker_ok id w → on_frame_ready p w = Some (w', o) → worker_ok id w'.
Proof.
  intros Hw. unfold on_frame_ready. destruct (dataY p), (dataUV p); try (by intros [= <- <-]).
  destruct (_ || _); [by intros [= <- <-]|]. destruct (new_frame _ _); [|by intros [= <- <-]].
  intros (f' & _ & [= <- <-])%bind_Some. by destruct Hw.
Qed.

Lemma manager_exec_inv op m m' sigs : manager_inv m → manager_exec op m = Some (m', sigs) → manager_inv m'.
Proof.
  intros Hm. destruct op as [env slots|env ids|env ts id|fps|ts|i p]; cbn.
  - intros H. destruct (registerSlots_spec env slots m Hm) as (m1 & s1 & H1 & Hm1 & _).
    rewrite H1 in H. by injection H as <- <-.
  - intros H. destruct (register_ids_spec env ids m Hm) as (m1 & s1 & H1 & Hm1 & _).
    unfold registerCameraIds in H. rewrite H1 in H. by injection H as <- <-.
  - intros H. destruct (workers_ m !! id) as [i|] eqn:Hi.
    + destruct (mi_worker _ Hm _ _ Hi) as (_ & w & Hw & Ho). pose proof H as H'.
      unfold restartWorker in H'. rewrite Hi, Hw in H'. cbn in H'. apply bind_Some in H' as (w1 & H1 & _).
      destruct (restart_spec env ts id i w m Hm Hi Hw w1 H1) as (w2 & H2 & Ho2 & _).
      rewrite H2 in H. injection H as <- <-. eapply update_worker_inv; [done|done|].
      by rewrite (wo_id _ _ Ho).
    + unfold restartWorker in H. rewrite Hi in H. destruct (str_empty id) eqn:He; [by injection H as <- <-|].
      destruct (create_worker_spec env id m Hm) as (m1 & H1 & Hm1 & _); [by apply str_empty_false|done|].
      rewrite H1 in H. by injection H as <- <-.
  - intros H. destruct (setFpsLimit_spec fps m Hm) as (m1 & H1 & Hm1 & _). rewrite H1 in H.
    by injection H as <- <-.
  - intros H. by apply clearAll_heap in H as (_ & _ & _ & _ & _ & ?).
  - unfold deliver. intros (w & Hw & ([w' o] & Hr & [= <- <-])%bind_Some)%bind_Some.
    eapply update_worker_inv; [done|done|]. eapply on_frame_ready_ok; [by eapply worker_at|done].
Qed.

Lemma manager_run_inv ops m m' : manager_inv m → manager_run ops m = Some m' → manager_inv m'.
Proof.
  revert m. induction ops as [|op ops IH]; intros m Hm; cbn; [by intros [= <-]|].
  intros ([m1 s1] & H1 & H)%bind_Some. eapply IH; [|done]. by eapply manager_exec_inv.
Qed.
End runs.

(** ** Properties *)

(** C21. Workers are never lost, shared or used after their deletion: in every state
    the manager can reach, each camera id of the map has a worker of its own,
    every worker that exists is in the map under its own id, and its thread
    decodes its connection string, or does not run when that is empty.  From
    there, given that a joined thread sees the stop flag, every operation of the
    manager completes, and [clearAll] leaves no worker, no map entry and no slot. *)
Theorem manager_invariant `{T : QtText, Q : QtMap, V : QtVideo} (ops : list manager_op) (m : VideoManager) :
  manager_run ops VideoManager0 = Some m →
  (∀ id i, workers_ m !! id = Some i →
     id ≠ "" ∧ ∃ w, heap m !! i = Some w ∧ cameraId_ w = id ∧ decodeThread_ (video_ w) = playing w) ∧
  (∀ i w, heap m !! i = Some w → workers_ m !! cameraId_ w = Some i) ∧
  (∀ (ts : Threads) env id slots fps,
     let seen := λ i, then_stop (ts i) in
     is_Some (registerSlots env slots m) ∧ is_Some (restartWorker env seen id m) ∧
     is_Some (setFpsLimit fps m) ∧
     ∃ m', clearAll seen m = Some (m', []) ∧ heap m' = ∅ ∧ workers_ m' = ∅ ∧ slotToCameraId_ m' = ∅).
Proof.
  intros H. apply manager_run_inv in H as Hm; [|apply manager0_inv]. split_and!.
  - intros id i Hi. destruct (mi_worker _ Hm _ _ Hi) as (Hne & w & Hw & []). split; [done|by exists w].
  - apply (mi_owner _ Hm).
  - cbn zeta. intros ts env id slots fps. split_and!.
    + destruct (registerSlots_spec env slots m Hm) as (m1 & s1 & H1 & _). by eexists.
    + destruct (workers_ m !! id) as [i|] eqn:Hi.
      * destruct (mi_worker _ Hm _ _ Hi) as (_ & w & Hw & Ho).
        destruct (stop_worker_returns (ts i) w) as [w1 H1].
        destruct (restart_spec env (λ i, then_stop (ts i)) id i w m Hm Hi Hw w1 H1) as (w2 & H2 & _). by eexists.
      * unfold restartWorker. rewrite Hi. destruct (str_empty id) eqn:He; [by eexists|].
        destruct (create_worker_spec env id m Hm) as (m1 & H1 & _); [by apply str_empty_false|done|by eexists].
    + destruct (setFpsLimit_spec fps m Hm) as (m1 & H1 & _). by eexists.
    + destruct (clearAll_returns ts m Hm) as [[m' sigs] Hc].
      destruct (clearAll_heap _ _ _ _ Hm Hc) as (Hh & Hw & Hs & _ & -> & _). by exists m'.
Qed.

(** Registration: from any reachable state, [registerCameraIds] and
    [registerSlots] give every listed camera a worker, keep the workers there
    were as they are (with the URL they had), configure the new ones with the
    URL of their camera and announce exactly these, each once; [registerSlots]
    also replaces the slots, and a slot listed twice has its last camera.  A
    restart keeps the worker's address and frame number and gives it the URL its
    camera has now. *)
Theorem manager_registers `{T : QtText, Q : QtMap, V : QtVideo} (ops : list manager_op) (m : VideoManager)
    (env : Providers) (ids : list QString) (slots : list (Z * QString)) :
  manager_run ops VideoManager0 = Some m →
  (∃ m' sigs, registerCameraIds env ids m = Some (m', sigs) ∧ extended env ids m m' sigs ∧
     slotToCameraId_ m' = slotToCameraId_ m) ∧
  (∃ m' sigs, registerSlots env slots m = Some (m', sigs) ∧
     extended env (snd <$> slots) (set_slots (slot_map slots) m) m' sigs ∧
     ∀ pre s id post, slots = pre ++ (s, id) :: post → s ∉ (fst <$> post) → slotCameraId s m' = id) ∧
  (∀ ts id i w w1, workers_ m !! id = Some i → heap m !! i = Some w →
     VideoWorker.stopStream (ts i) w = Some w1 →
     ∃ w2, restartWorker env ts id m
           = Some (set_heap (<[i := w2]> (heap m)) m, [(set_heap (<[i := w2]> (heap m)) m, id)]) ∧
       decodeThread_ (video_ w2) = playing w2 ∧ frameSeq_ w2 = frameSeq_ w ∧
       connectionString_ w2 = match urlProvider_ env with Some url => url id | None => connectionString_ w end).
Proof.
  intros H. apply manager_run_inv in H as Hm; [|apply manager0_inv]. split_and!.
  - destruct (register_ids_spec env ids m Hm) as (m' & sigs & H1 & _ & Hx). exists m', sigs.
    split; [done|]. split; [done|]. by apply (ex_slots _ _ _ _ _ Hx).
  - destruct (registerSlots_spec env slots m Hm) as (m' & sigs & H1 & _ & Hx). exists m', sigs.
    split; [done|]. split; [done|]. intros pre s id post -> Hs. unfold slotCameraId.
    rewrite (ex_slots _ _ _ _ _ Hx). cbn [slotToCameraId_ set_slots]. unfold slot_map.
    rewrite foldl_app. cbn [foldl fst snd].
    assert (∀ t : gmap Z QString, t !! s = Some id →
              foldl (λ s0 si, <[si.1:=si.2]> s0) t post !! s = Some id) as Hf.
    { clear -Hs. induction post as [|[s1 id1] post IH]; intros t Ht; cbn; [done|].
      apply not_elem_of_cons in Hs as [Hne Hs]. cbn in Hne. apply IH; [done|]. by rewrite lookup_insert_ne. }
    rewrite Hf; [done|]. by rewrite lookup_insert_eq.
  - intros ts id i w w1 Hi Hw H1.
    destruct (restart_spec env ts id i w m Hm Hi Hw w1 H1) as (w2 & H2 & Ho & Hq & Hu).
    exists w2. split_and!; [done|apply (wo_playing _ _ Ho)|done|done].
Qed.

(** *** Examples: two cameras, one of them without a URL *)

Definition demo_env : Providers := {|
  urlProvider_ := Some (λ id, if decide (id = "a/0") then "rtsp://a" else "");
  fpsProvider_ := Some 30%Z
|}.

Definition demo_ops : list manager_op :=
  [RegisterSlots demo_env [(1%Z, "a/0"); (2%Z, "b/0"); (3%Z, "a/0")];
   RegisterCameraIds demo_env ["a/0"; "b/0"]; SetFpsLimit 10].

Definition demo_manager : VideoManager :=
  default VideoManager0 (manager_run (T := RefText) (Q := RefMap) (V := RefVideo) demo_ops VideoManager0).

Lemma manager_invariant_witness :
  size (heap demo_manager) = 2 ∧
  ∃ m', clearAll (Q := RefMap) (λ i, then_stop []) demo_manager = Some (m', []) ∧
    heap m' = ∅ ∧ workers_ m' = ∅ ∧ slotToCameraId_ m' = ∅.
Proof.
  split; [by vm_compute|].
  destruct (manager_invariant (T := RefText) (Q := RefMap) (V := RefVideo) demo_ops demo_manager) as (_ & _ & H).
  { vm_compute. reflexivity. }
  by apply (H (λ i, []) demo_env "" [] 0%Z).
Defined.

Lemma manager_registers_witness :
  (decodeThread_ ∘ video_ <$> heap demo_manager !! 0) = Some (Some "rtsp://a") ∧
  ∃ m' sigs, registerCameraIds (T := RefText) demo_env ["a/0"; "c/0"] demo_manager = Some (m', sigs) ∧
    extended demo_env ["a/0"; "c/0"] demo_manager m' sigs ∧ slotToCameraId_ m' = slotToCameraId_ demo_manager.
Proof.
  split; [by vm_compute|].
  refine (proj1 (manager_registers (T := RefText) (Q := RefMap) (V := RefVideo) demo_ops demo_manager
    demo_env ["a/0"; "c/0"] [] _)).
  vm_compute. reflexivity.
Defined.
