(* ===== verification/VideoStream.v ===== *)
(** * A video item of the UI (src/Qt/Back/Services/VideoStream: VideoStream)

    A [VideoStream] shows the newest frame of one worker, found by its grid slot or
    its camera id, every 16 ms.  It keeps the worker in a [QPointer], which is
    null once the worker is deleted, and may listen to [workerRegistered].  The
    file composes one stream with the manager: [sys_exec] delivers the manager's
    signals to the stream while it is connected. *)

From S2P Require Import Prelude Extern Video VideoWorker VideoManager.

(** ** State *)

Record VideoStream : Type := {
  m_videoSink : bool;                   (* not null *)
  m_slotId : Z;
  m_cameraId : QString;
  m_worker : option worker_id;          (* the address in the QPointer *)
  connected : bool;                     (* to workerRegistered *)
  m_lastSeq : Z;
  shown : list QVideoFrame              (* what the sink was given *)
}.

Definition VideoStream0 : VideoStream := {|
  m_videoSink := false; m_slotId := -1; m_cameraId := ""; m_worker := None; connected := false;
  m_lastSeq := 0; shown := []
|}.

Definition set_sink (b : bool) (s : VideoStream) : VideoStream := {|
  m_videoSink := b; m_slotId := m_slotId s; m_cameraId := m_cameraId s; m_worker := m_worker s;
  connected := connected s; m_lastSeq := m_lastSeq s; shown := shown s
|}.

Definition set_target (slot : Z) (id : QString) (s : VideoStream) : VideoStream := {|
  m_videoSink := m_videoSink s; m_slotId := slot; m_cameraId := id; m_worker := m_worker s;
  connected := connected s; m_lastSeq := m_lastSeq s; shown := shown s
|}.

Definition set_connected (b : bool) (s : VideoStream) : VideoStream := {|
  m_videoSink := m_videoSink s; m_slotId := m_slotId s; m_cameraId := m_cameraId s; m_worker := m_worker s;
  connected := b; m_lastSeq := m_lastSeq s; shown := shown s
|}.

Definition attach (w : option worker_id) (s : VideoStream) : VideoStream := {|
  m_videoSink := m_videoSink s; m_slotId := m_slotId s; m_cameraId := m_cameraId s; m_worker := w;
  connected := connected s; m_lastSeq := 0; shown := shown s
|}.

Definition show (seq : Z) (f : option QVideoFrame) (s : VideoStream) : VideoStream := {|
  m_videoSink := m_videoSink s; m_slotId := m_slotId s; m_cameraId := m_cameraId s; m_worker := m_worker s;
  connected := connected s; m_lastSeq := seq; shown := shown s ++ match f with Some f => [f] | None => [] end
|}.

(** The worker the [QPointer] points to, [None] when it was deleted. *)
Definition pointed (m : VideoManager) (s : VideoStream) : option worker_id :=
  i ← m_worker s; if decide (is_Some (heap m !! i)) then Some i else None.

(** ** Operations; the manager is the global [videoManager], null before and after
    the life of [Core] *)

Definition wanted (m : VideoManager) (s : VideoStream) : option worker_id :=
  let by_camera := if str_empty (m_cameraId s) then None else getWorker (m_cameraId s) m in
  if (0 <=? m_slotId s)%Z then
    match getWorkerBySlot (m_slotId s) m with Some w => Some w | None => by_camera end
  else by_camera.

Definition tryAttach (vm : option VideoManager) (s : VideoStream) : VideoStream :=
  match vm with
  | None => s
  | Some m =>
      let newWorker := wanted m s in
      if decide (newWorker = pointed m s) then s
      else
        let s := attach newWorker s in
        match newWorker with None => set_connected true s | Some _ => s end
  end.

Definition setVideoSink (sink : bool) (s : VideoStream) : VideoStream := set_sink sink s.

Definition setSlotId (vm : option VideoManager) (id : Z) (s : VideoStream) : VideoStream :=
  if decide (m_slotId s = id) then s else tryAttach vm (set_target id (m_cameraId s) s).

Definition setCameraId (vm : option VideoManager) (id : QString) (s : VideoStream) : VideoStream :=
  if decide (m_cameraId s = id) then s else tryAttach vm (set_target (m_slotId s) id s).

Definition onWorkerRegistered (vm : option VideoManager) (id : QString) (s : VideoStream) : VideoStream :=
  match vm with
  | None => s
  | Some m =>
      let isTarget := if (0 <=? m_slotId s)%Z then bool_decide (slotCameraId (m_slotId s) m = id)
                      else bool_decide (m_cameraId s = id) in
      if isTarget then tryAttach vm (set_connected false s) else s
  end.

(** The timer of the stream.  It looks at the worker only; without a manager there is
    no worker, since [Core::shutdown] deletes them before it clears the global. *)
Definition timerEvent (vm : option VideoManager) (s : VideoStream) : VideoStream :=
  match vm with
  | None => s
  | Some m =>
      match pointed m s with
      | None => s
      | Some i =>
          match heap m !! i with
          | None => s
          | Some w =>
              if m_videoSink s && (m_lastSeq s <? frameSeq_ w)%Z then show (frameSeq_ w) (latestFrame_ w) s else s
          end
      end
  end.

(** ** A manager and a stream *)

Inductive sys_op : Type :=
| Manage (op : manager_op)
| SetSlotId (id : Z)
| SetCameraId (id : QString)
| SetVideoSink (sink : bool)
| Timer.

Section system.
Context `{T : QtText, Q : QtMap, V : QtVideo}.

(** The signals of an operation, each with the manager at its emission. *)
Definition hear (sigs : list registered) (s : VideoStream) : VideoStream :=
  foldl (λ s r, if connected s then onWorkerRegistered (Some r.1) r.2 s else s) s sigs.

Definition sys_exec (op : sys_op) (y : VideoManager * VideoStream) : option (VideoManager * VideoStream) :=
  let '(m, s) := y in
  match op with
  | Manage op => '(m', sigs) ← manager_exec op m; Some (m', hear sigs s)
  | SetSlotId id => Some (m, setSlotId (Some m) id s)
  | SetCameraId id => Some (m, setCameraId (Some m) id s)
  | SetVideoSink sink => Some (m, setVideoSink sink s)
  | Timer => Some (m, timerEvent (Some m) s)
  end.

Fixpoint sys_run (ops : list sys_op) (y : VideoManager * VideoStream) : option (VideoManager * VideoStream) :=
  match ops with
  | [] => Some y
  | op :: ops' => y' ← sys_exec op y; sys_run ops' y'
  end.

(** Everything but a change of the stream's slot or camera. *)
Definition passive (op : sys_op) : Prop :=
  match op with SetSlotId _ | SetCameraId _ => False | _ => True end.

(** ** Lemmas *)

(** Addresses are not reused. *)
Record grows (m m' : VideoManager) : Prop := {
  gr_fresh : fresh m ≤ fresh m';
  gr_old i : i < fresh m → is_Some (heap m' !! i) → is_Some (heap m !! i)
}.

#[local] Instance grows_preorder : PreOrder grows.
Proof.
  split; [by intros m; split|]. intros m1 m2 m3 [H1 H1'] [H2 H2']. split; [lia|].
  intros i Hi H. apply H1'; [done|]. apply H2'; [lia|done].
Qed.

Lemma grows_add id w m : grows m (add_worker id w m).
Proof. split; cbn; [lia|]. intros i Hi. rewrite lookup_insert_ne by lia. done. Qed.

Lemma grows_update i w w' m : heap m !! i = Some w → grows m (set_heap (<[i := w']> (heap m)) m).
Proof.
  intros Hw. split; cbn; [lia|]. intros j _. destruct (decide (i = j)) as [->|]; [by intros _; exists w|].
  by rewrite lookup_insert_ne.
Qed.

Lemma create_grows env id m m' sigs : create_worker env id m = Some (m', sigs) → grows m m'.
Proof. unfold create_worker. intros (w & _ & [= <- _])%bind_Some. apply grows_add. Qed.

Lemma register_grows env ids m m' sigs : register_ids env ids m = Some (m', sigs) → grows m m'.
Proof.
  revert m m' sigs. induction ids as [|id ids IH]; intros m m' sigs; cbn; [by intros [= <- _]|].
  destruct (_ || _); [apply IH|].
  intros ([m1 s1] & H1%create_grows & ([m2 s2] & H2%IH & [= <- _])%bind_Some)%bind_Some. by etrans.
Qed.

Lemma exec_grows op m m' sigs : manager_inv m → manager_exec op m = Some (m', sigs) → grows m m'.
Proof.
  intros Hm. destruct op as [env slots|env ids|env ts id|fps|ts|i p]; cbn.
  - intros [H1 H2]%register_grows. by split.
  - apply register_grows.
  - unfold restartWorker. destruct (workers_ m !! id) as [i|].
    + intros (w & Hw & (w1 & _ & (w2 & _ & [= <- _])%bind_Some)%bind_Some)%bind_Some. by eapply grows_update.
    + destruct (str_empty id); [by intros [= <- _]|apply create_grows].
  - destruct (setFpsLimit_spec fps m Hm) as (m1 & H1 & Hm1 & _ & _ & Hh). rewrite H1. intros [= <- _].
    unfold setFpsLimit in H1. apply bind_Some in H1 as (h & _ & [= <-]). split; cbn; [lia|].
    intros i _. cbn in Hh. by rewrite Hh, fmap_is_Some.
  - intros H. apply clearAll_heap in H as (Hh & _ & _ & Hf & _); [|done]. split; [lia|].
    intros i _. rewrite Hh, lookup_empty. by intros [].
  - unfold deliver. intros (w & Hw & ([w' o] & _ & [= <- _])%bind_Some)%bind_Some. by eapply grows_update.
Qed.

(** A stream without a worker that does not listen. *)
Definition detached (y : VideoManager * VideoStream) : Prop :=
  manager_inv y.1 ∧ connected y.2 = false ∧ pointed y.1 y.2 = None ∧
  match m_worker y.2 with Some i => i < fresh y.1 | None => True end.

Lemma hear_deaf sigs s : connected s = false → hear sigs s = s.
Proof. intros H. unfold hear. induction sigs as [|r sigs IH]; [done|]. cbn. by rewrite H. Qed.

Lemma detached_step op y y' :
  detached y → passive op → sys_exec op y = Some y' → detached y' ∧ shown y'.2 = shown y.2.
Proof.
  destruct y as [m s]. intros (Hm & Hc & Hp & Hf) Hop. cbn [fst snd] in *. destruct op as [op| | |b|]; try done; cbn.
  - intros ([m' sigs] & H & [= <-])%bind_Some. cbn [snd]. rewrite (hear_deaf sigs s Hc). split; [|done].
    pose proof (exec_grows op m m' sigs Hm H) as [Hg1 Hg2]. split_and!; cbn [fst snd]; [|done| |].
    + by eapply manager_exec_inv.
    + unfold pointed in *. destruct (m_worker s) as [i|]; [|done]. cbn in Hp, Hf |- *.
      destruct (decide (is_Some (heap m' !! i))) as [Hi|]; [|done]. apply Hg2 in Hi; [|done].
      by rewrite decide_True in Hp.
    + destruct (m_worker s); [lia|done].
  - intros [= <-]. split; [|done]. split_and!; [exact Hm|exact Hc|exact Hp|exact Hf].
  - rewrite Hp. intros [= <-]. split; [|done]. split_and!; [exact Hm|exact Hc|exact Hp|exact Hf].
Qed.

Lemma detached_run ops y y' :
  detached y → Forall passive ops → sys_run ops y = Some y' → detached y' ∧ shown y'.2 = shown y.2.
Proof.
  intros Hy Hops. revert y Hy. induction Hops as [|op ops Hop _ IH]; intros y Hy; cbn; [by intros [= <-]|].
  intros (y1 & H1 & H)%bind_Some. destruct (detached_step op y y1 Hy Hop H1) as [Hy1 Hs1].
  destruct (IH y1 Hy1 H) as [Hy' Hs']. split; [done|congruence].
Qed.
End system.

(** ** Properties *)

(** C38. When a stream finds its worker.  [tryAttach] compares the worker it finds with
    the one it has and listens to [workerRegistered] only when they differ, and a
    new stream has none: so a stream that is given its camera before the camera
    has a worker does not listen, and whatever happens then (registrations of its
    camera, restarts, pictures, timers) it has no worker and shows nothing until
    its slot or camera is changed.  A camera that has a worker at that moment is
    attached.  The same holds for a stream that is not listening when a logout deletes
    its worker: a later registration does not bring the picture back.  A stream
    that listens, with a camera and no slot, is attached by the registration of
    its camera, and stops listening. *)
Theorem stream_attaches_once `{T : QtText, Q : QtMap, V : QtVideo} (mops : list manager_op) (m : VideoManager)
    (id : QString) (s : VideoStream) (ops : list sys_op) (y : VideoManager * VideoStream) :
  manager_run mops VideoManager0 = Some m → Forall passive ops → id ≠ "" →
  (workers_ m !! id = None → sys_run (SetCameraId id :: ops) (m, VideoStream0) = Some y →
     pointed y.1 y.2 = None ∧ shown y.2 = []) ∧
  (∀ i, workers_ m !! id = Some i →
     pointed m (setCameraId (Some m) id VideoStream0) = Some i) ∧
  (∀ ts i, connected s = false → pointed m s = Some i →
     sys_run (Manage (ClearAll ts) :: ops) (m, s) = Some y →
     pointed y.1 y.2 = None ∧ shown y.2 = shown s) ∧
  (∀ i, (m_slotId s < 0)%Z → m_cameraId s = id → workers_ m !! id = Some i →
     let s' := onWorkerRegistered (Some m) id s in pointed m s' = Some i ∧ connected s' = false).
Proof.
  intros H Hops Hid. apply manager_run_inv in H as Hm; [|apply manager0_inv].
  assert (str_empty id = false) as He by (by apply str_empty_false).
  assert (∀ t, setCameraId (Some m) id VideoStream0 = t →
    t = if decide (workers_ m !! id = None) then set_target (-1) id VideoStream0
        else attach (workers_ m !! id) (set_target (-1) id VideoStream0)) as Hset.
  { intros t <-. unfold setCameraId. rewrite decide_False by (cbn; congruence).
    unfold tryAttach, wanted, getWorker. cbn. rewrite He.
    destruct (workers_ m !! id); cbn; by repeat case_decide. }
  split_and!.
  - intros Hn Hr. cbn in Hr. rewrite (Hset _ eq_refl), decide_True in Hr by done.
    apply detached_run in Hr as [(_ & _ & ? & _) ?]; [done|by split_and!|done].
  - intros i Hi. rewrite (Hset _ eq_refl), Hi, decide_False by done. unfold pointed. cbn.
    destruct (mi_worker _ Hm _ _ Hi) as (_ & w & Hw & _). by rewrite decide_True by (by exists w).
  - intros ts i Hc Hp Hr. cbn [sys_run sys_exec manager_exec] in Hr.
    apply bind_Some in Hr as (y1 & Hy1 & Hr). apply bind_Some in Hy1 as ([m' sigs] & Hcl & [= <-]).
    apply clearAll_heap in Hcl as (Hh & _ & _ & Hf & -> & Hm'); [|done].
    unfold pointed in Hp. destruct (m_worker s) as [j|] eqn:Hj; [|done]. cbn in Hp.
    case_decide as Hs; [|done].
    apply detached_run in Hr as [(_ & _ & ? & _) ?]; [done| |done].
    split_and!; cbn; [done|done| |].
    + unfold pointed. rewrite Hj. cbn. rewrite decide_False; [done|]. rewrite Hh, lookup_empty. by intros [].
    + rewrite Hj, Hf. by apply (mi_fresh _ Hm).
  - intros i Hs Hc Hi. cbn zeta. destruct (mi_worker _ Hm _ _ Hi) as (_ & w & Hw & _).
    unfold onWorkerRegistered, tryAttach, wanted. rewrite (proj2 (Z.leb_gt _ _)) by done. cbn [m_slotId m_cameraId set_connected].
    rewrite bool_decide_true by done. cbn [m_slotId m_cameraId set_connected].
    rewrite (proj2 (Z.leb_gt _ _)) by done. rewrite Hc, He. unfold getWorker. rewrite Hi.
    destruct (decide (Some i = pointed m (set_connected false s))) as [Hp|]; [split; [by rewrite <-Hp|done]|]. split; [|done]. unfold pointed. cbn. by rewrite decide_True by (by exists w).
Qed.

(** *** Example: the camera of the stream is registered after the stream was made *)
Lemma stream_attaches_once_witness :
  let ops := [SetVideoSink true; Manage (RegisterCameraIds demo_env ["a/0"]); Manage (Deliver 0 demo_payload); Timer] in
  match sys_run (T := RefText) (Q := RefMap) (V := RefVideo) (SetCameraId "a/0" :: ops) (VideoManager0, VideoStream0) with
  | Some y => is_Some (workers_ y.1 !! "a/0") ∧ pointed y.1 y.2 = None ∧ shown y.2 = []
  | None => False
  end.
Proof.
  cbn zeta. destruct (sys_run _ _) as [y|] eqn:Hy; [|by vm_compute in Hy].
  split; [vm_compute in Hy; injection Hy as <-; by eexists|].
  refine (proj1 (stream_attaches_once (T := RefText) (Q := RefMap) (V := RefVideo) [] VideoManager0 "a/0" VideoStream0
    _ y eq_refl _ _) _ Hy).
  - by repeat constructor.
  - done.
  - done.
Defined.

(** A stream that is attached shows the newest picture of its worker once: a timer
    shows it when its number is above the last one shown, and a second timer
    shows nothing more. *)
Theorem stream_timer (m : VideoManager) (s : VideoStream) (i : worker_id) (w : VideoWorker) (f : QVideoFrame) :
  pointed m s = Some i → heap m !! i = Some w → m_videoSink s = true → latestFrame_ w = Some f →
  let s1 := timerEvent (Some m) s in
  shown s1 = shown s ++ (if (m_lastSeq s <? frameSeq_ w)%Z then [f] else []) ∧ timerEvent (Some m) s1 = s1.
Proof.
  cbn zeta. intros Hp Hw Hs Hf. unfold timerEvent. rewrite Hp, Hw, Hs, Hf. cbn [andb].
  destruct (m_lastSeq s <? frameSeq_ w)%Z eqn:Hlt.
  - split; [done|]. change (pointed m (show (frameSeq_ w) (Some f) s)) with (pointed m s). rewrite Hp, Hw.
    cbn [m_videoSink show m_lastSeq]. by rewrite Hs, Z.ltb_irrefl.
  - split; [by rewrite app_nil_r|]. rewrite Hp, Hw, Hs. cbn. by rewrite Hlt.
Qed.
