(* ===== verification/FrameExchange.v ===== *)
(** * The newest frame between two threads (src/Qt/Back/Services/VideoStream)

    The decode thread of a worker stores each frame in [latestFrame_] and counts it
    in [frameSeq_]; the timers of the streams that show the worker read both on the
    GUI thread.  [frameSpinLock_] keeps the two from touching the frame together.
    [VideoWorker.v] and [VideoStream.v] take each side as one step; here a step is one
    access to the shared memory, and the two threads interleave.  Every access is
    either ordered by the flag and the counter (acquire and release) or made while
    the flag is held, so sequences of steps are all there is to see.

    Frames are named by the number of their making, from 1.  A copy or an
    assignment of the [QVideoFrame] object takes two steps, one for each half of it,
    so a torn frame is a value of the model. *)

From stdpp Require Import sorting.
From S2P Require Import Prelude Extern Video VideoWorker VideoManager VideoStream.

(** ** State *)

(** [latestFrame_]: the frame each half of the object is of; 0 is the initial frame,
    which is not valid. *)
Record Shared : Type := {
  frameSpinLock_ : bool;
  low : nat;
  high : nat;
  frameSeq : Z
}.

(** The decode thread in [onFrameReady], with the number of the frame it made last. *)
Inductive writer_at : Type :=
| Decoding       (* before, or after, the callback *)
| WTest          (* test_and_set *)
| WStoreLow
| WStoreHigh
| WClear         (* clear *)
| WCount.        (* fetch_add *)

(** The GUI thread in [timerEvent] of stream [i], and then in [getLatestFrame]. *)
Inductive reader_at : Type :=
| Idle
| RLoad (i : nat)                    (* frameSeq() *)
| RTest (i : nat)
| RCopyLow (i : nat)
| RCopyHigh (i l : nat)
| RClear (i l h : nat)
| RShow (i l h : nat).               (* setVideoFrame *)

(** A stream with a sink that points to the worker. *)
Record Viewer : Type := { lastSeq : Z; pictures : list (nat * nat) }.

Record Exchange : Type := {
  shared : Shared;
  produced : nat;
  writer : writer_at;
  reader : reader_at;
  viewers : list Viewer
}.

#[export] Instance writer_at_eq_dec : EqDecision writer_at.
Proof. solve_decision. Defined.

#[export] Instance reader_at_eq_dec : EqDecision reader_at.
Proof. solve_decision. Defined.

Definition Exchange0 : Exchange := {|
  shared := {| frameSpinLock_ := false; low := 0; high := 0; frameSeq := 0 |};
  produced := 0; writer := Decoding; reader := Idle; viewers := []
|}.

(** *** Field updates *)
Definition set_lock (b : bool) (h : Shared) : Shared :=
  {| frameSpinLock_ := b; low := low h; high := high h; frameSeq := frameSeq h |}.
Definition set_low (n : nat) (h : Shared) : Shared :=
  {| frameSpinLock_ := frameSpinLock_ h; low := n; high := high h; frameSeq := frameSeq h |}.
Definition set_high (n : nat) (h : Shared) : Shared :=
  {| frameSpinLock_ := frameSpinLock_ h; low := low h; high := n; frameSeq := frameSeq h |}.
Definition fetch_add (h : Shared) : Shared :=
  {| frameSpinLock_ := frameSpinLock_ h; low := low h; high := high h; frameSeq := (frameSeq h + 1) mod 2 ^ 64 |}.

Definition write (w : writer_at) (h : Shared) (y : Exchange) : Exchange := {|
  shared := h; produced := produced y; writer := w; reader := reader y; viewers := viewers y
|}.
Definition read (r : reader_at) (h : Shared) (vs : list Viewer) (y : Exchange) : Exchange := {|
  shared := h; produced := produced y; writer := writer y; reader := r; viewers := vs
|}.

(** ** Steps *)

Inductive label : Type :=
| NewFrame            (* the decode thread calls back with the next frame *)
| Attach              (* a stream attaches to the worker, or attaches again *)
| Timer (i : nat)     (* the timer of stream i *)
| WriterStep
| ReaderStep.

(** The locked part of [onFrameReady], and the count. *)
Definition writer_step (y : Exchange) : option Exchange :=
  let h := shared y in
  match writer y with
  | Decoding => None
  | WTest => Some (if frameSpinLock_ h then y else write WStoreLow (set_lock true h) y)
  | WStoreLow => Some (write WStoreHigh (set_low (produced y) h) y)
  | WStoreHigh => Some (write WClear (set_high (produced y) h) y)
  | WClear => Some (write WCount (set_lock false h) y)
  | WCount => Some (write Decoding (fetch_add h) y)
  end.

(** The body of [getLatestFrame]. *)
Definition getLatestFrame (y : Exchange) : option Exchange :=
  let h := shared y in
  let vs := viewers y in
  match reader y with
  | RTest i => Some (if frameSpinLock_ h then y else read (RCopyLow i) (set_lock true h) vs y)
  | RCopyLow i => Some (read (RCopyHigh i (low h)) h vs y)
  | RCopyHigh i l => Some (read (RClear i l (high h)) h vs y)
  | RClear i l r => Some (read (RShow i l r) (set_lock false h) vs y)
  | _ => None
  end.

(** The body of [timerEvent], which calls it. *)
Definition reader_step (y : Exchange) : option Exchange :=
  let h := shared y in
  let vs := viewers y in
  match reader y with
  | Idle => None
  | RLoad i =>
      v ← vs !! i;
      let currentSeq := frameSeq h in
      Some (if (lastSeq v <? currentSeq)%Z
            then read (RTest i) h (<[i := {| lastSeq := currentSeq; pictures := pictures v |}]> vs) y
            else read Idle h vs y)
  | RShow i l r =>
      v ← vs !! i;
      Some (read Idle h
        (if decide (l = 0 ∧ r = 0) then vs   (* isValid() *)
         else <[i := {| lastSeq := lastSeq v; pictures := pictures v ++ [(l, r)] |}]> vs) y)
  | _ => getLatestFrame y
  end.

Definition exchange_exec (l : label) (y : Exchange) : option Exchange :=
  match l with
  | NewFrame =>
      match writer y with
      | Decoding => Some {| shared := shared y; produced := S (produced y); writer := WTest;
                            reader := reader y; viewers := viewers y |}
      | _ => None
      end
  | Attach =>
      match reader y with
      | Idle => Some (read Idle (shared y) (viewers y ++ [{| lastSeq := 0; pictures := [] |}]) y)
      | _ => None
      end
  | Timer i =>
      match reader y, viewers y !! i with
      | Idle, Some _ => Some (read (RLoad i) (shared y) (viewers y) y)
      | _, _ => None
      end
  | WriterStep => writer_step y
  | ReaderStep => reader_step y
  end.

Fixpoint exchange_run (ls : list label) (y : Exchange) : option Exchange :=
  match ls with
  | [] => Some y
  | l :: ls' => y' ← exchange_exec l y; exchange_run ls' y'
  end.

(** ** The invariant *)

(** The number of the frame [latestFrame_] holds, or is being replaced from. *)
Definition stored (y : Exchange) : nat :=
  match writer y with
  | WTest | WStoreLow | WStoreHigh => pred (produced y)
  | Decoding | WClear | WCount => produced y
  end.

Definition counted (y : Exchange) : nat :=
  match writer y with Decoding => produced y | _ => pred (produced y) end.

Definition writer_holds (w : writer_at) : bool :=
  match w with WStoreLow | WStoreHigh | WClear => true | _ => false end.

Definition reader_holds (r : reader_at) : bool :=
  match r with RCopyLow _ | RCopyHigh _ _ | RClear _ _ _ => true | _ => false end.

(** What a stream may have shown when it last saw the count [s]: each picture is at
    least as new as the count and as the picture before, which was at most one ahead
    of the count. *)
Inductive paced : Z → list nat → Prop :=
| paced_nil : paced 0 []
| paced_snoc s l s' n :
    paced s l → (s < s')%Z → (s' ≤ Z.of_nat n)%Z →
    (∀ k, last l = Some k → k ≤ n ∧ (Z.of_nat k - 1 ≤ s')%Z) → paced s' (l ++ [n]).

(** A stream whose timer is not running, and one whose timer has read the count. *)
Definition rested (y : Exchange) (s : Z) (l : list nat) : Prop :=
  paced s l ∧ (s ≤ Z.of_nat (counted y))%Z ∧ ∀ k, last l = Some k → k ≤ stored y.

Definition busy (y : Exchange) (s : Z) (l : list nat) : Prop :=
  ∃ s0, paced s0 l ∧ (s0 < s ≤ Z.of_nat (counted y))%Z ∧
    ∀ k, last l = Some k → k ≤ stored y ∧ (Z.of_nat k - 1 ≤ s)%Z.

Definition serves (r : reader_at) : option nat :=
  match r with
  | Idle | RLoad _ => None
  | RTest i | RCopyLow i | RCopyHigh i _ | RClear i _ _ | RShow i _ _ => Some i
  end.

Definition viewer_ok (y : Exchange) (i : nat) (v : Viewer) : Prop :=
  ∃ l, pictures v = (λ n, (n, n)) <$> l ∧
    if decide (serves (reader y) = Some i) then busy y (lastSeq v) l else rested y (lastSeq v) l.

(** What the reader has copied so far. *)
Definition copy_ok (y : Exchange) : Prop :=
  match reader y with
  | Idle | RTest _ | RCopyLow _ => True
  | RLoad i => i < length (viewers y)
  | RCopyHigh _ l => l = stored y
  | RClear _ l h => l = stored y ∧ h = stored y
  | RShow i l h => l = h ∧ l ≤ stored y ∧ ∀ v, viewers y !! i = Some v →
      (lastSeq v ≤ Z.of_nat l)%Z ∧ ∀ k, last (pictures v) = Some (k, k) → k ≤ l
  end.

Record exchange_inv (y : Exchange) : Prop := {
  inv_lock : frameSpinLock_ (shared y) = writer_holds (writer y) || reader_holds (reader y);
  inv_alone : writer_holds (writer y) && reader_holds (reader y) = false;
  inv_low : low (shared y) = match writer y with WStoreHigh => produced y | _ => stored y end;
  inv_high : high (shared y) = stored y;
  inv_seq : frameSeq (shared y) = Z.of_nat (counted y);
  inv_produced : writer y = Decoding ∨ 0 < produced y;
  inv_serves : ∀ i, serves (reader y) = Some i → i < length (viewers y);
  inv_copy : copy_ok y;
  inv_viewers : ∀ i v, viewers y !! i = Some v → viewer_ok y i v
}.

(** ** Lemmas *)

Lemma counted_stored y : counted y ≤ stored y ≤ S (counted y).
Proof. unfold counted, stored. destruct (writer y); lia. Qed.

Lemma rested_mono y y' s l :
  counted y ≤ counted y' → stored y ≤ stored y' → rested y s l → rested y' s l.
Proof. intros Hc Hs (Hp & Hn & Hl). split_and!; [done|lia|]. intros k Hk. specialize (Hl k Hk). lia. Qed.

Lemma busy_mono y y' s l :
  counted y ≤ counted y' → stored y ≤ stored y' → busy y s l → busy y' s l.
Proof.
  intros Hc Hs (s0 & Hp & Hn & Hl). exists s0. split_and!; [done|lia|lia|].
  intros k Hk. destruct (Hl k Hk). lia.
Qed.

Lemma viewer_ok_mono y y' i v :
  serves (reader y') = serves (reader y) → counted y ≤ counted y' → stored y ≤ stored y' →
  viewer_ok y i v → viewer_ok y' i v.
Proof.
  intros Hr Hc Hs (l & Hp & H). exists l. split; [done|]. rewrite Hr.
  case_decide; [by eapply busy_mono|by eapply rested_mono].
Qed.

Lemma fetch_add_seq h n :
  frameSeq h = Z.of_nat n → (Z.of_nat (S n) < 2 ^ 64)%Z → frameSeq (fetch_add h) = Z.of_nat (S n).
Proof. intros H Hn. cbn [fetch_add frameSeq]. rewrite H, Z.mod_small by lia. lia. Qed.

Lemma exchange0_inv : exchange_inv Exchange0.
Proof. split; cbn; try done. by left. Qed.

(** The decode thread. *)
Lemma new_frame_inv y :
  writer y = Decoding → exchange_inv y →
  exchange_inv {| shared := shared y; produced := S (produced y); writer := WTest;
                  reader := reader y; viewers := viewers y |}.
Proof.
  intros Hw [H1 H2 H3 H4 H5 _ H7 H8 H9]. set (y' := Build_Exchange _ _ _ _ _).
  assert (stored y' = stored y ∧ counted y' = counted y) as [Hs Hc].
  { unfold stored, counted. rewrite Hw. by cbn. }
  rewrite Hw in H1, H2, H3. split; rewrite ?Hs, ?Hc; try done.
  - right. cbn. lia.
  - unfold copy_ok in *. rewrite Hs. exact H8.
  - intros i v Hv. apply (viewer_ok_mono y y'); [done|lia|lia|by apply H9].
Qed.

(** A step of the writer changes the stored frame only while it holds the lock. *)
Lemma writer_copy y w h :
  stored y ≤ stored (write w h y) → (reader_holds (reader y) = true → stored (write w h y) = stored y) →
  copy_ok y → copy_ok (write w h y).
Proof.
  intros Hle Heq. unfold copy_ok. cbn [reader write viewers].
  destruct (reader y) as [|i|i|i|i l|i l r|i l r]; try done.
  - by rewrite Heq.
  - by rewrite Heq.
  - intros (? & ? & ?). split_and!; [done|lia|done].
Qed.

Lemma writer_step_inv y y' :
  exchange_inv y → (Z.of_nat (produced y) < 2 ^ 64)%Z → writer_step y = Some y' → exchange_inv y'.
Proof.
  intros [H1 H2 H3 H4 H5 H6 H7 H8 H9] Hp H. unfold writer_step in H.
  assert (∀ w h, stored y ≤ stored (write w h y) → counted y ≤ counted (write w h y) →
    (reader_holds (reader y) = true → stored (write w h y) = stored y) →
    frameSpinLock_ h = writer_holds w || reader_holds (reader y) →
    writer_holds w && reader_holds (reader y) = false →
    low h = match w with WStoreHigh => produced y | _ => stored (write w h y) end →
    high h = stored (write w h y) → frameSeq h = Z.of_nat (counted (write w h y)) → w = Decoding ∨ 0 < produced y →
    exchange_inv (write w h y)) as Hall.
  { intros w h Hs Hc He G1 G2 G3 G4 G5 G6. split; try done; [by apply writer_copy|].
    intros i v Hv. by apply (viewer_ok_mono y); [..|by apply H9]. }
  unfold stored, counted in *. destruct (writer y) eqn:Hw; [done|..]; cbn [pred writer_holds andb orb] in *;
    destruct H6 as [?|H6]; try done.
  - destruct (frameSpinLock_ (shared y)) eqn:Hl; injection H as <-.
    { split; unfold stored, counted; rewrite ?Hw; cbn; try done; [congruence|by right]. }
    apply Hall; cbn; auto.
  - injection H as <-. apply Hall; cbn; auto.
  - injection H as <-. apply Hall; cbn; auto; lia || congruence.
  - injection H as <-. apply Hall; cbn; auto; lia || congruence.
  - injection H as <-. apply Hall; try (cbn; done); try (cbn; lia); try by left.
    cbn [writer write counted produced]. rewrite (fetch_add_seq _ (pred (produced y))); [|done|]; lia.
Qed.

(** The GUI thread: a step that reads touches neither the frame nor the count. *)
Lemma viewer_ok_read y r h vs i v :
  (serves r = Some i ↔ serves (reader y) = Some i) → viewer_ok y i v → viewer_ok (read r h vs y) i v.
Proof.
  intros Hr (l & Hp & H). exists l. split; [done|]. cbn [reader read].
  destruct (decide (serves (reader y) = Some i)) as [Hs|Hs].
  - by rewrite decide_True by by apply Hr.
  - rewrite decide_False by (by intros ?%Hr). done.
Qed.

Lemma read_inv y r h vs :
  exchange_inv y → low h = low (shared y) → high h = high (shared y) → frameSeq h = frameSeq (shared y) →
  frameSpinLock_ h = writer_holds (writer y) || reader_holds r → writer_holds (writer y) && reader_holds r = false →
  (∀ i, serves r = Some i → i < length vs) → copy_ok (read r h vs y) →
  (∀ i v, vs !! i = Some v → viewer_ok (read r h vs y) i v) → exchange_inv (read r h vs y).
Proof.
  intros [H1 H2 H3 H4 H5 H6 H7 H8 H9] G1 G2 G3 G4 G5 G6 G7 G8. split; try done; cbn [shared read].
  - by rewrite G1.
  - by rewrite G2.
  - by rewrite G3.
Qed.

Lemma attach_inv y :
  exchange_inv y → reader y = Idle →
  exchange_inv (read Idle (shared y) (viewers y ++ [{| lastSeq := 0; pictures := [] |}]) y).
Proof.
  intros Hy Hr. apply read_inv; try done.
  - by rewrite (inv_lock y Hy), Hr.
  - apply andb_false_r.
  - intros i v Hv. apply lookup_app_Some in Hv as [Hv|[_ Hv]].
    + apply viewer_ok_read; [by rewrite Hr|]. by apply inv_viewers.
    + apply list_lookup_singleton_Some in Hv as [_ <-]. exists []. split; [done|]. cbn.
      split_and!; [constructor|lia|done].
Qed.

Lemma timer_inv y i v :
  exchange_inv y → reader y = Idle → viewers y !! i = Some v →
  exchange_inv (read (RLoad i) (shared y) (viewers y) y).
Proof.
  intros Hy Hr Hi. apply read_inv; try done.
  - by rewrite (inv_lock y Hy), Hr.
  - apply andb_false_r.
  - by eapply lookup_lt_Some.
  - intros j w Hj. apply viewer_ok_read; [by rewrite Hr|]. by apply inv_viewers.
Qed.

(** The count is read: the viewer is behind, and what it shows next is newer. *)
Lemma load_inv y i v :
  exchange_inv y → reader y = RLoad i → viewers y !! i = Some v →
  exchange_inv (if (lastSeq v <? frameSeq (shared y))%Z
                then read (RTest i) (shared y)
                       (<[i := {| lastSeq := frameSeq (shared y); pictures := pictures v |}]> (viewers y)) y
                else read Idle (shared y) (viewers y) y).
Proof.
  intros Hy Hr Hi.
  pose proof (inv_lock y Hy) as Hl. rewrite Hr in Hl. cbn in Hl.
  destruct (inv_viewers y Hy i v Hi) as (l & Hp & Hv). rewrite Hr in Hv. cbn in Hv. destruct Hv as (Hpa & Hn & Hk).
  destruct (lastSeq v <? frameSeq (shared y))%Z eqn:Hlt; apply read_inv; try done; cbn [serves reader_holds];
    rewrite ?andb_false_r, ?orb_false_r in *; try done.
  - intros j [= <-]. rewrite length_insert. by eapply lookup_lt_Some.
  - intros j w Hj. apply list_lookup_insert_Some in Hj as [(<- & <- & _)|[Hne Hj]].
    + exists l. split; [done|]. cbn. rewrite decide_True by done. exists (lastSeq v).
      rewrite (inv_seq y Hy) in *. split_and!; [done|lia|done|]. intros k Hk'. specialize (Hk k Hk').
      pose proof (counted_stored y). split; [done|lia].
    + apply viewer_ok_read; [|by apply inv_viewers]. rewrite Hr. cbn. split; [by intros [= ?]|done].
  - intros j w Hj. apply viewer_ok_read; [by rewrite Hr|]. by apply inv_viewers.
Qed.

(** The picture is shown. *)
Lemma show_inv y i l h v :
  exchange_inv y → reader y = RShow i l h → viewers y !! i = Some v →
  exchange_inv (read Idle (shared y)
    (if decide (l = 0 ∧ h = 0) then viewers y
     else <[i := {| lastSeq := lastSeq v; pictures := pictures v ++ [(l, h)] |}]> (viewers y)) y).
Proof.
  intros Hy Hr Hi.
  pose proof (inv_copy y Hy) as Hc. unfold copy_ok in Hc. rewrite Hr in Hc. destruct Hc as (<- & Hs & Hc).
  destruct (Hc v Hi) as [Hl Hk]. destruct (inv_viewers y Hy i v Hi) as (ns & Hp & Hv).
  rewrite Hr in Hv. cbn in Hv. rewrite decide_True in Hv by done. destruct Hv as (s0 & Hpa & Hn & Hk2).
  pose proof (inv_lock y Hy) as Hlock. rewrite Hr in Hlock.
  apply read_inv; try done; [apply andb_false_r|].
  rewrite decide_False.
  2: { intros [-> _]. assert (0 ≤ s0)%Z; [|lia]. clear -Hpa. induction Hpa; lia. }
  intros j w Hj. apply list_lookup_insert_Some in Hj as [(<- & <- & _)|[Hne Hj]].
  - exists (ns ++ [l]). cbn. rewrite Hp, fmap_app. split; [done|]. split_and!.
    + apply (paced_snoc s0); [done|lia|done|]. intros k Hlast. destruct (Hk2 k Hlast) as [_ ?]. split; [|done].
      apply Hk. by rewrite Hp, fmap_last, Hlast.
    + change (counted (read _ _ _ y)) with (counted y). lia.
    + intros k. rewrite last_snoc. by intros [= <-].
  - apply viewer_ok_read; [|by apply inv_viewers]. rewrite Hr. cbn. split; [done|by intros [= ?]].
Qed.

Lemma reader_step_inv y y' : exchange_inv y → reader_step y = Some y' → exchange_inv y'.
Proof.
  intros Hy H. unfold reader_step, getLatestFrame in H. destruct (reader y) as [|i|i|i|i l|i l h|i l h] eqn:Hr; [done|..].
  - apply bind_Some in H as (v & Hv & [= <-]). by apply load_inv.
  - destruct (frameSpinLock_ (shared y)) eqn:Hf; injection H as <-; [done|].
    pose proof (inv_lock y Hy) as Hl. rewrite Hf, Hr, orb_false_r in Hl.
    apply read_inv; try done; rewrite <-?Hl; try done.
    + intros j [= <-]. apply (inv_serves y Hy). by rewrite Hr.
    + intros j w Hj. apply viewer_ok_read; [by rewrite Hr|]. by apply inv_viewers.
  - injection H as <-.
    pose proof (inv_lock y Hy) as Hl. rewrite Hr in Hl. pose proof (inv_alone y Hy) as Ha. rewrite Hr in Ha.
    apply read_inv; try done.
    + intros j [= <-]. apply (inv_serves y Hy). by rewrite Hr.
    + cbn. rewrite (inv_low y Hy). rewrite andb_true_r in Ha. destruct (writer y); try done.
    + intros j w Hj. apply viewer_ok_read; [by rewrite Hr|]. by apply inv_viewers.
  - injection H as <-.
    pose proof (inv_lock y Hy) as Hl. rewrite Hr in Hl. pose proof (inv_alone y Hy) as Ha. rewrite Hr in Ha.
    pose proof (inv_copy y Hy) as Hc. unfold copy_ok in Hc. rewrite Hr in Hc.
    apply read_inv; try done.
    + intros j [= <-]. apply (inv_serves y Hy). by rewrite Hr.
    + cbn. rewrite (inv_high y Hy). by split.
    + intros j w Hj. apply viewer_ok_read; [by rewrite Hr|]. by apply inv_viewers.
  - injection H as <-. pose proof (inv_alone y Hy) as Ha. rewrite Hr, andb_true_r in Ha.
    pose proof (inv_copy y Hy) as Hc. unfold copy_ok in Hc. rewrite Hr in Hc. destruct Hc as [-> ->].
    apply read_inv; try done; rewrite ?Ha; try done.
    + intros j [= <-]. apply (inv_serves y Hy). by rewrite Hr.
    + cbn. split_and!; [done|done|]. intros v Hv.
      destruct (inv_viewers y Hy i v Hv) as (ns & Hp & Hv'). rewrite Hr in Hv'. cbn in Hv'.
      rewrite decide_True in Hv' by done. destruct Hv' as (s0 & _ & Hn & Hk). pose proof (counted_stored y).
      split; [lia|]. intros k Hlast. rewrite Hp, fmap_last in Hlast. destruct (last ns) as [k'|] eqn:Hk'; [|done].
      injection Hlast as <-. by apply Hk.
    + intros j w Hj. apply viewer_ok_read; [by rewrite Hr|]. by apply inv_viewers.
  - apply bind_Some in H as (v & Hv & [= <-]). by apply show_inv.
Qed.

Lemma exchange_exec_inv l y y' :
  exchange_inv y → (Z.of_nat (produced y') < 2 ^ 64)%Z → exchange_exec l y = Some y' → exchange_inv y'.
Proof.
  intros Hy Hp H. destruct l as [| |i| |]; cbn [exchange_exec] in H.
  - destruct (writer y) eqn:Hw; try done. injection H as <-. by apply new_frame_inv.
  - destruct (reader y) eqn:Hr; try done. injection H as <-. by apply attach_inv.
  - destruct (reader y) eqn:Hr; try done. destruct (viewers y !! i) eqn:Hi; [|done]. injection H as <-.
    by eapply timer_inv.
  - apply (writer_step_inv y); [done| |done].
    assert (produced y' = produced y) as <-; [|done].
    unfold writer_step in H. destruct (writer y); try done; injection H as <-; try done. by case_match.
  - by apply (reader_step_inv y).
Qed.

Lemma exec_produced l y y' : exchange_exec l y = Some y' → produced y ≤ produced y'.
Proof.
  intros H. destruct l as [| |i| |]; cbn in H.
  - destruct (writer y); try done. injection H as <-. cbn. lia.
  - destruct (reader y); try done. by injection H as <-.
  - destruct (reader y), (viewers y !! i); try done. by injection H as <-.
  - unfold writer_step in H. destruct (writer y); try done; injection H as <-; try done. by case_match.
  - unfold reader_step, getLatestFrame in H. destruct (reader y) as [|i|i|i|i a|i a b|i a b]; try done;
      try (apply bind_Some in H as (v & _ & H)); injection H as <-; try done; by case_match.
Qed.

Lemma run_produced ls y y' : exchange_run ls y = Some y' → produced y ≤ produced y'.
Proof.
  revert y. induction ls as [|l ls IH]; intros y H; cbn in H; [by injection H as <-|].
  apply bind_Some in H as (y1 & H1%exec_produced & H2%IH). lia.
Qed.

Lemma exchange_run_inv ls y y' :
  exchange_inv y → (Z.of_nat (produced y') < 2 ^ 64)%Z → exchange_run ls y = Some y' → exchange_inv y'.
Proof.
  revert y. induction ls as [|l ls IH]; intros y Hy Hp H; cbn in H; [by injection H as <-|].
  apply bind_Some in H as (y1 & H1 & H2). apply (IH y1); [|done|done].
  apply (exchange_exec_inv l y); [done| |done]. apply run_produced in H2. lia.
Qed.

Lemma exchange_run_app ls ls' y :
  exchange_run (ls ++ ls') y = y' ← exchange_run ls y; exchange_run ls' y'.
Proof.
  revert y. induction ls as [|l ls IH]; intros y; cbn; [done|].
  destruct (exchange_exec l y); cbn; [apply IH|done].
Qed.

(** *** What a paced stream shows *)

Lemma paced_nonneg s l : paced s l → (0 ≤ s)%Z.
Proof. induction 1; lia. Qed.

Lemma paced_last s l k : paced s l → last l = Some k → (s ≤ Z.of_nat k)%Z.
Proof. intros []; [done|]. rewrite last_snoc. by intros [= <-]. Qed.

Lemma paced_bounds s l : paced s l → Forall (λ n, 1 ≤ n ∧ ∀ k, last l = Some k → n ≤ k) l.
Proof.
  induction 1 as [|s l s' n Hp IH Hlt Hle Hk]; [done|]. pose proof (paced_nonneg s l Hp).
  apply Forall_app. split; [|apply Forall_singleton; split; [lia|]; intros k; rewrite last_snoc; by intros [= <-]].
  rewrite Forall_forall in IH. apply Forall_forall. intros m Hin. destruct (IH m Hin) as [Hm Hl].
  split; [done|]. intros k. rewrite last_snoc. intros [= <-]. destruct (last l) as [u|] eqn:Hu.
  - destruct (Hk u eq_refl) as [? _]. specialize (Hl u eq_refl). lia.
  - apply last_None in Hu. subst l. by apply not_elem_of_nil in Hin.
Qed.

Lemma paced_sorted s l : paced s l → StronglySorted le l.
Proof.
  induction 1 as [|s l s' n Hp IH Hlt Hle Hk]; [constructor|].
  apply StronglySorted_app_2; [|done|repeat constructor].
  intros a b Ha ->%list_elem_of_singleton.
  pose proof (paced_bounds s l Hp) as Hb. rewrite Forall_forall in Hb. destruct (Hb a Ha) as [_ Hl].
  destruct (last l) as [u|] eqn:Hu.
  - destruct (Hk u eq_refl) as [? _]. specialize (Hl u eq_refl). lia.
  - apply last_None in Hu. subst l. by apply not_elem_of_nil in Ha.
Qed.

Lemma count_above l n : Forall (λ m, m < n) l → count_occ Nat.eq_dec l n = 0.
Proof.
  intros H. apply count_occ_not_In. intros Hi%list_elem_of_In. rewrite Forall_forall in H.
  specialize (H n Hi). lia.
Qed.

(** A picture is shown at most three times: with a count two or more behind it, one
    behind it, and its own. *)
Lemma paced_count s l :
  paced s l → ∀ n, count_occ Nat.eq_dec l n ≤ 3 ∧
    (last l = Some n → (s < Z.of_nat n)%Z → count_occ Nat.eq_dec l n ≤ 2 ∧
      ((s < Z.of_nat n - 1)%Z → count_occ Nat.eq_dec l n ≤ 1)).
Proof.
  induction 1 as [|s l s' m Hp IH Hlt Hle Hk]; intros n; [by split; [cbn; lia|]|].
  rewrite count_occ_app. cbn [count_occ]. rewrite last_snoc. destruct (IH n) as [IH1 IH2].
  destruct (Nat.eq_dec m n) as [->|Hne].
  2: { split; [lia|]. by intros [= ?]. }
  assert (last l = Some n ∨ count_occ Nat.eq_dec l n = 0) as [Hl|H0].
  { destruct (last l) as [u|] eqn:Hu; [|apply last_None in Hu; subst l; by right].
    destruct (Hk u eq_refl) as [Hu1 _]. destruct (decide (u = n)) as [->|]; [by left|right].
    apply count_above. eapply Forall_impl; [by apply (paced_bounds s l)|].
    intros a [_ Ha]. specialize (Ha u Hu). lia. }
  - destruct (Hk n Hl) as [_ Hn]. specialize (IH2 Hl). split.
    + destruct (decide (s < Z.of_nat n)%Z) as [Hs|Hs]; [destruct (IH2 Hs); lia|lia].
    + intros _ Hs'. destruct (IH2 ltac:(lia)) as [_ H1]. specialize (H1 ltac:(lia)). split; lia.
  - rewrite H0. split; [lia|]. intros _ _. split; lia.
Qed.

(** *** Progress *)

Definition reader_rank (r : reader_at) : nat :=
  match r with
  | Idle => 0 | RShow _ _ _ => 1 | RClear _ _ _ => 2 | RCopyHigh _ _ => 3
  | RCopyLow _ => 4 | RTest _ => 5 | RLoad _ => 6
  end.

Definition writer_rank (w : writer_at) : nat :=
  match w with Decoding => 0 | WCount => 1 | WClear => 2 | WStoreHigh => 3 | WStoreLow => 4 | WTest => 5 end.

Lemma reader_progress y :
  exchange_inv y → writer_holds (writer y) = false → reader y ≠ Idle →
  ∃ y', reader_step y = Some y' ∧ reader_rank (reader y') < reader_rank (reader y) ∧
    writer y' = writer y ∧ produced y' = produced y ∧ length (viewers y') = length (viewers y).
Proof.
  intros Hy Hw Hr. pose proof (inv_lock y Hy) as Hl. pose proof (inv_copy y Hy) as Hc.
  pose proof (inv_serves y Hy) as Hs. rewrite Hw in Hl. unfold copy_ok in Hc. unfold reader_step, getLatestFrame.
  destruct (reader y) as [|i|i|i|i a|i a b|i a b] eqn:Hre; try done; cbn in Hl; rewrite ?Hl.
  - apply lookup_lt_is_Some in Hc as [v ->]. cbn. eexists. split; [done|].
    case_match; cbn; rewrite ?length_insert; split_and!; lia || done.
  - eexists. split; [done|]. cbn. split_and!; lia || done.
  - eexists. split; [done|]. cbn. split_and!; lia || done.
  - eexists. split; [done|]. cbn. split_and!; lia || done.
  - eexists. split; [done|]. cbn. split_and!; lia || done.
  - specialize (Hs i eq_refl). apply lookup_lt_is_Some in Hs as [v ->]. cbn. eexists. split; [done|].
    cbn. split_and!; [lia|done|done|]. by case_decide; rewrite ?length_insert.
Qed.

Lemma writer_progress y :
  exchange_inv y → reader_holds (reader y) = false → writer y ≠ Decoding →
  ∃ y', writer_step y = Some y' ∧ writer_rank (writer y') < writer_rank (writer y) ∧
    reader y' = reader y ∧ produced y' = produced y ∧ viewers y' = viewers y.
Proof.
  intros Hy Hr Hw. pose proof (inv_lock y Hy) as Hl. rewrite Hr in Hl. unfold writer_step.
  destruct (writer y) eqn:Hwr; try done; cbn in Hl; rewrite ?Hl; eexists; (split; [done|]); cbn; split_and!; lia || done.
Qed.

Lemma reader_finishes y :
  exchange_inv y → writer_holds (writer y) = false →
  ∃ k y', k ≤ 6 ∧ exchange_run (replicate k ReaderStep) y = Some y' ∧ reader y' = Idle ∧ writer y' = writer y ∧
    produced y' = produced y ∧ length (viewers y') = length (viewers y) ∧ exchange_inv y'.
Proof.
  assert (∀ n y, reader_rank (reader y) ≤ n → exchange_inv y → writer_holds (writer y) = false →
    ∃ k y', k ≤ n ∧ exchange_run (replicate k ReaderStep) y = Some y' ∧ reader y' = Idle ∧ writer y' = writer y ∧
      produced y' = produced y ∧ length (viewers y') = length (viewers y) ∧ exchange_inv y') as H.
  { intros n. induction n as [|n IH]; intros z Hn Hz Hw; destruct (decide (reader z = Idle)) as [Hr|Hr];
      try (exists 0, z; split_and!; done || lia).
    - destruct (reader z); cbn in Hn; lia || done.
    - destruct (reader_progress z Hz Hw Hr) as (z1 & H1 & Hk & Hw1 & Hp1 & Hv1).
      destruct (IH z1) as (k & z2 & Hk2 & H2 & Hr2 & Hw2 & Hp2 & Hv2 & Hi2);
        [lia|by apply (reader_step_inv z)|by rewrite Hw1|].
      exists (S k), z2. cbn [replicate exchange_run exchange_exec]. rewrite H1. cbn. split_and!; done || lia || congruence. }
  intros Hy Hw. apply H; [|done|done]. destruct (reader y); cbn; lia.
Qed.

Lemma writer_finishes y :
  exchange_inv y → (Z.of_nat (produced y) < 2 ^ 64)%Z → reader_holds (reader y) = false →
  ∃ k y', k ≤ 5 ∧ exchange_run (replicate k WriterStep) y = Some y' ∧ writer y' = Decoding ∧ reader y' = reader y ∧
    produced y' = produced y ∧ viewers y' = viewers y ∧ exchange_inv y'.
Proof.
  assert (∀ n y, writer_rank (writer y) ≤ n → exchange_inv y → (Z.of_nat (produced y) < 2 ^ 64)%Z →
    reader_holds (reader y) = false →
    ∃ k y', k ≤ n ∧ exchange_run (replicate k WriterStep) y = Some y' ∧ writer y' = Decoding ∧ reader y' = reader y ∧
      produced y' = produced y ∧ viewers y' = viewers y ∧ exchange_inv y') as H.
  { intros n. induction n as [|n IH]; intros z Hn Hz Hb Hr; destruct (decide (writer z = Decoding)) as [Hw|Hw];
      try (exists 0, z; split_and!; done || lia).
    - destruct (writer z); cbn in Hn; lia || done.
    - destruct (writer_progress z Hz Hr Hw) as (z1 & H1 & Hk & Hr1 & Hp1 & Hv1).
      destruct (IH z1) as (k & z2 & Hk2 & H2 & Hw2 & Hr2 & Hp2 & Hv2 & Hi2);
        [lia|by apply (writer_step_inv z)|by rewrite Hp1|by rewrite Hr1|].
      exists (S k), z2. cbn [replicate exchange_run exchange_exec]. rewrite H1. cbn. split_and!; done || lia || congruence. }
  intros Hy Hb Hr. apply H; [|done|done|done]. destruct (writer y); cbn; lia.
Qed.

(** *** Whole operations, without the other thread between their steps *)

Definition at_rest (y : Exchange) : Prop := writer y = Decoding ∧ reader y = Idle.

Lemma rest_shared y :
  exchange_inv y → at_rest y →
  frameSpinLock_ (shared y) = false ∧ low (shared y) = produced y ∧ high (shared y) = produced y ∧
  frameSeq (shared y) = Z.of_nat (produced y).
Proof.
  intros [H1 _ H3 H4 H5 _ _ _ _] [Hw Hr]. unfold stored, counted in *. rewrite Hw, Hr in *. by split_and!.
Qed.

Lemma whole_timer y i v :
  exchange_inv y → at_rest y → viewers y !! i = Some v →
  ∃ k y', k ≤ 6 ∧ exchange_run (Timer i :: replicate k ReaderStep) y = Some y' ∧ at_rest y' ∧
    shared y' = shared y ∧ produced y' = produced y ∧
    viewers y' = if (lastSeq v <? Z.of_nat (produced y))%Z
                 then <[i := {| lastSeq := Z.of_nat (produced y);
                                pictures := pictures v ++ [(produced y, produced y)] |}]> (viewers y)
                 else viewers y.
Proof.
  intros Hy Hrest Hv. destruct (rest_shared y Hy Hrest) as (Hf & Hl & Hh & Hs). destruct Hrest as [Hw Hr].
  pose proof (inv_viewers y Hy i v Hv) as (l & _ & Hvo). rewrite Hr in Hvo. cbn in Hvo.
  destruct Hvo as (Hp%paced_nonneg & _ & _).
  assert (i < length (viewers y)) as Hi by (by eapply lookup_lt_Some).
  destruct y as [[fl lo hi sq] pr wr re vs]. cbn in *. subst.
  destruct (lastSeq v <? Z.of_nat pr)%Z eqn:Hlt.
  - exists 6. cbn. rewrite Hv. cbn. rewrite Hv. cbn. rewrite Hlt. cbn. rewrite list_lookup_insert_eq by done. cbn.
    eexists. split; [done|]. split; [done|]. rewrite decide_False by lia. cbn. by rewrite list_insert_insert_eq.
  - exists 1. cbn. rewrite Hv. cbn. rewrite Hv. cbn. rewrite Hlt. cbn.
    eexists. split; [lia|]. split; [done|]. by cbn.
Qed.

Lemma whole_frame y :
  exchange_inv y → at_rest y →
  ∃ y', exchange_run (NewFrame :: replicate 5 WriterStep) y = Some y' ∧ at_rest y' ∧
    produced y' = S (produced y) ∧ viewers y' = viewers y ∧
    shared y' = {| frameSpinLock_ := false; low := S (produced y); high := S (produced y);
                   frameSeq := (Z.of_nat (produced y) + 1) mod 2 ^ 64 |}.
Proof.
  intros Hy Hrest. destruct (rest_shared y Hy Hrest) as (Hf & Hl & Hh & Hs). destruct Hrest as [Hw Hr].
  destruct y as [[fl lo hi sq] pr wr re vs]. cbn in *. subst. by eexists.
Qed.

(** [y] is what the worker [w] and the stream [s] of the other files are, where [name]
    gives each frame made. *)
Definition stands_for (name : nat → option QVideoFrame) (y : Exchange) (i : nat) (w : VideoWorker) (s : VideoStream)
    : Prop :=
  frameSeq_ w = frameSeq (shared y) ∧ latestFrame_ w = name (low (shared y)) ∧
  ∃ v, viewers y !! i = Some v ∧ lastSeq v = m_lastSeq s ∧ shown s = omap (λ p, name p.1) (pictures v).

(** ** Properties *)

(** C7. No stream shows a torn or an older picture: whatever the interleaving of the
    decode thread with the timers of any number of streams, and as long as the 64-bit
    count does not wrap, every picture a stream shows is whole and one the decode
    thread made, the pictures come in the order they were made, none more than three
    times, and what a stream has counted is never ahead of what it has shown. *)
Theorem frames_whole (ls : list label) (y : Exchange) (i : nat) (v : Viewer) :
  exchange_run ls Exchange0 = Some y → (Z.of_nat (produced y) < 2 ^ 64)%Z → viewers y !! i = Some v →
  ∃ ns, pictures v = (λ n, (n, n)) <$> ns ∧ Forall (λ n, 1 ≤ n ≤ produced y) ns ∧ StronglySorted le ns ∧
    (∀ n, count_occ Nat.eq_dec ns n ≤ 3) ∧
    (serves (reader y) ≠ Some i → (0 < lastSeq v)%Z → ∃ n, last ns = Some n ∧ (lastSeq v ≤ Z.of_nat n)%Z).
Proof.
  intros Hr Hb Hv. pose proof (exchange_run_inv ls _ y exchange0_inv Hb Hr) as Hy.
  destruct (inv_viewers y Hy i v Hv) as (ns & Hp & Hok). exists ns. split; [done|].
  assert (stored y ≤ produced y) as Hst by (unfold stored; destruct (writer y); lia).
  assert (∃ s, paced s ns ∧ (∀ k, last ns = Some k → k ≤ stored y) ∧ (serves (reader y) ≠ Some i → s = lastSeq v))
    as (s & Hpa & Hk & Hs).
  { case_decide as Hd; [destruct Hok as (s0 & ? & _ & Hl); exists s0|destruct Hok as (? & _ & Hl); exists (lastSeq v)];
      split_and!; try done. intros k Hk. by apply Hl. }
  split_and!.
  - pose proof (paced_bounds s ns Hpa) as HF. rewrite Forall_forall in HF. apply Forall_forall. intros n Hn.
    destruct (HF n Hn) as [Hn1 Hl]. split; [done|].
    destruct (last ns) as [k|] eqn:Hla; [specialize (Hk k eq_refl); specialize (Hl k eq_refl); lia|].
    apply last_None in Hla. subst ns. by apply not_elem_of_nil in Hn.
  - by eapply paced_sorted.
  - intros n. by apply (paced_count s ns).
  - intros Hserve Hpos. rewrite <-(Hs Hserve) in *. destruct (last ns) as [k|] eqn:Hla.
    + exists k. split; [done|]. by apply (paced_last s ns).
    + apply last_None in Hla. subst ns. inversion Hpa; [lia|by destruct l].
Qed.

Definition demo_labels : list label :=
  [Attach; NewFrame; WriterStep; WriterStep; WriterStep; WriterStep; WriterStep; Timer 0; ReaderStep;
   NewFrame; WriterStep; WriterStep; ReaderStep; WriterStep; WriterStep; WriterStep;
   NewFrame; WriterStep; WriterStep; WriterStep; WriterStep] ++ replicate 5 ReaderStep ++
  Timer 0 :: replicate 6 ReaderStep ++ [WriterStep; Timer 0] ++ replicate 6 ReaderStep.

Definition demo_exchange : Exchange := default Exchange0 (exchange_run demo_labels Exchange0).

Lemma frames_whole_witness :
  viewers demo_exchange !! 0 = Some {| lastSeq := 3; pictures := [(3, 3); (3, 3); (3, 3)] |} ∧
  ∃ ns, [(3, 3); (3, 3); (3, 3)] = (λ n, (n, n)) <$> ns ∧ StronglySorted le ns.
Proof.
  assert (viewers demo_exchange !! 0 = Some {| lastSeq := 3; pictures := [(3, 3); (3, 3); (3, 3)] |}) as Hv
    by (vm_compute; reflexivity).
  split; [exact Hv|].
  destruct (frames_whole demo_labels demo_exchange 0 _ ltac:(vm_compute; reflexivity)
              ltac:(vm_compute; reflexivity) Hv) as (ns & H1 & _ & H2 & _).
  exists ns. split; [exact H1|exact H2].
Defined.

(** C8. The newest frame gets through: from every reachable state, whatever the two
    threads are doing, at most eleven steps of theirs bring both to rest (neither
    waits for the other for good), and when the decode thread then makes no further
    frame, one timer event of a stream leaves it showing the newest frame made. *)
Theorem frame_gets_through (ls : list label) (y : Exchange) (i : nat) :
  exchange_run ls Exchange0 = Some y → (Z.of_nat (produced y) < 2 ^ 64)%Z → i < length (viewers y) → 0 < produced y →
  ∃ steps y1, length steps ≤ 11 ∧ Forall (λ l, l = WriterStep ∨ l = ReaderStep) steps ∧
    exchange_run steps y = Some y1 ∧ at_rest y1 ∧ produced y1 = produced y ∧
  ∃ k y2 v, k ≤ 6 ∧ exchange_run (Timer i :: replicate k ReaderStep) y1 = Some y2 ∧ at_rest y2 ∧
    viewers y2 !! i = Some v ∧ last (pictures v) = Some (produced y, produced y) ∧
    lastSeq v = Z.of_nat (produced y).
Proof.
  intros Hr Hb Hi Hpos. pose proof (exchange_run_inv ls _ y exchange0_inv Hb Hr) as Hy.
  assert (∃ steps y1, length steps ≤ 11 ∧ Forall (λ l, l = WriterStep ∨ l = ReaderStep) steps ∧
    exchange_run steps y = Some y1 ∧ at_rest y1 ∧ produced y1 = produced y ∧
    length (viewers y1) = length (viewers y) ∧ exchange_inv y1)
    as (steps & y1 & Hlen & Hst & H1 & Hrest & Hp1 & Hv1 & Hi1).
  { destruct (writer_holds (writer y)) eqn:Hw.
    - pose proof (inv_alone y Hy) as Ha. rewrite Hw in Ha.
      destruct (writer_finishes y Hy Hb Ha) as (k & ya & Hk & Ha1 & Ha2 & Ha3 & Ha4 & Ha5 & Ha6).
      destruct (reader_finishes ya Ha6) as (k' & yb & Hk' & Hb1 & Hb2 & Hb3 & Hb4 & Hb5 & Hb6); [by rewrite Ha2|].
      exists (replicate k WriterStep ++ replicate k' ReaderStep), yb.
      rewrite length_app, !length_replicate, exchange_run_app, Ha1. cbn [mbind option_bind].
      split_and!; [lia| |done|by split; [rewrite Hb3|]|congruence|congruence|done].
      apply Forall_app. split; apply Forall_replicate; [by left|by right].
    - destruct (reader_finishes y Hy Hw) as (k' & yb & Hk' & Hb1 & Hb2 & Hb3 & Hb4 & Hb5 & Hb6).
      destruct (writer_finishes yb Hb6) as (k & ya & Hk & Ha1 & Ha2 & Ha3 & Ha4 & Ha5 & Ha6);
        [by rewrite Hb4|by rewrite Hb2|].
      exists (replicate k' ReaderStep ++ replicate k WriterStep), ya.
      rewrite length_app, !length_replicate, exchange_run_app, Hb1. cbn [mbind option_bind].
      split_and!; [lia| |done|by split; [|rewrite Ha3]|congruence|congruence|done].
      apply Forall_app. split; apply Forall_replicate; [by right|by left]. }
  exists steps, y1. split_and!; [done..|].
  rewrite <-Hv1 in Hi. apply lookup_lt_is_Some in Hi as [v Hv].
  destruct (whole_timer y1 i v Hi1 Hrest Hv) as (k & y2 & Hk & H2 & Hrest2 & _ & _ & Hv2).
  exists k, y2. rewrite Hv2, Hp1. destruct (inv_viewers y1 Hi1 i v Hv) as (l & Hpic & Hvo).
  pose proof Hrest as [Hw0 Hr0]. rewrite Hr0 in Hvo. cbn in Hvo. destruct Hvo as (Hpa & Hc & Hl).
  unfold stored, counted in *. rewrite Hw0, Hp1 in *.
  destruct (lastSeq v <? Z.of_nat (produced y))%Z eqn:Hlt.
  - eexists. split_and!; [done|done|done|apply list_lookup_insert_eq; by eapply lookup_lt_Some| |done].
    cbn. by rewrite last_snoc.
  - exists v. assert (lastSeq v = Z.of_nat (produced y)) as Heq by lia. split_and!; try done.
    rewrite Hpic, fmap_last. destruct (last l) as [n|] eqn:Hn.
    + pose proof (paced_last _ _ _ Hpa Hn). specialize (Hl n eq_refl). cbn. do 2 f_equal; lia.
    + apply last_None in Hn. subst l. inversion Hpa; [lia|by destruct l].
Qed.

Lemma frame_gets_through_witness :
  ∃ steps y1, length steps ≤ 11 ∧
    exchange_run steps (default Exchange0 (exchange_run (take 19 demo_labels) Exchange0)) = Some y1 ∧ at_rest y1.
Proof.
  destruct (frame_gets_through (take 19 demo_labels)
              (default Exchange0 (exchange_run (take 19 demo_labels) Exchange0)) 0) as (steps & y1 & H1 & _ & H2 & H3 & _).
  - vm_compute. reflexivity.
  - vm_compute. reflexivity.
  - vm_compute. repeat constructor.
  - vm_compute. repeat constructor.
  - exists steps, y1. split; [exact H1|]. split; [exact H2|exact H3].
Defined.

(** The steps refine the operations of [VideoWorker.v] and [VideoStream.v]: when the
    decode thread stores a frame and the timer runs without the other between their
    steps, the exchange goes on standing for the worker with [set_latest] and for the
    stream after its [timerEvent]. *)
Theorem exchange_refines (name : nat → option QVideoFrame) (ls : list label) (y : Exchange) (i : nat) (j : worker_id)
    (w : VideoWorker) (m : VideoManager) (s : VideoStream) :
  exchange_run ls Exchange0 = Some y → (Z.of_nat (produced y) < 2 ^ 64)%Z → at_rest y → stands_for name y i w s →
  (∀ f, name (S (produced y)) = Some f →
     ∃ y', exchange_run (NewFrame :: replicate 5 WriterStep) y = Some y' ∧ at_rest y' ∧
           stands_for name y' i (set_latest f w) s) ∧
  (m_videoSink s = true → pointed m s = Some j → heap m !! j = Some w →
     ∃ k y', exchange_run (Timer i :: replicate k ReaderStep) y = Some y' ∧ at_rest y' ∧
             stands_for name y' i w (timerEvent (Some m) s)).
Proof.
  intros Hr Hb Hrest (H1 & H2 & v & Hv & H3 & H4). pose proof (exchange_run_inv ls _ y exchange0_inv Hb Hr) as Hy.
  destruct (rest_shared y Hy Hrest) as (Hf & Hl & Hh & Hs). split.
  - intros f Hn. destruct (whole_frame y Hy Hrest) as (y' & Hy1 & Hy2 & Hy3 & Hy4 & Hy5). exists y'.
    split_and!; [done|done|]. unfold stands_for. rewrite Hy4, Hy5. cbn. rewrite H1, Hs.
    split_and!; [done|done|]. by exists v.
  - intros Hsink Hp Hw. destruct (whole_timer y i v Hy Hrest Hv) as (k & y' & _ & Hy1 & Hy2 & Hy3 & Hy4 & Hy5).
    assert (timerEvent (Some m) s = if (lastSeq v <? Z.of_nat (produced y))%Z
              then show (Z.of_nat (produced y)) (name (produced y)) s else s) as ->.
    { unfold timerEvent. rewrite Hp. cbv beta iota. by rewrite Hw, Hsink, H1, H2, H3, Hs, Hl. }
    exists k, y'. split_and!; [done|done|]. unfold stands_for. rewrite Hy3, Hy5, H1, Hs.
    split_and!; [done|done|]. destruct (lastSeq v <? Z.of_nat (produced y))%Z; [|by exists v].
    eexists. split; [apply list_lookup_insert_eq; by eapply lookup_lt_Some|]. cbn. split; [done|].
    rewrite H4, omap_app. cbn. by destruct (name (produced y)).
Qed.
