(* ===== verification/VideoWiring.v ===== *)
(** * From the grid to the decoders (src/Core.cpp)

    [Core] connects three signals of the camera model to the video manager:
    [slotsUpdated] to [registerSlots], [cameraIdsUpdated] to [registerCameraIds] and
    [cameraOnline] to [restartWorker], and gives the manager the URLs of the camera
    store and the frame rate of the settings. *)

From S2P Require Import Prelude Extern CameraStore CameraModel Settings Video VideoWorker VideoManager.

(** ** The connections *)

(** The providers of [constructLayer2], on the store and the settings as they are. *)
Definition core_providers `{T : QtText} (store : CameraStore) (settings : SettingsController) : Providers := {|
  urlProvider_ := Some (λ cid, fromStdString (cs_sourceUrl (getCameraStruct (toStdString cid) store)));
  fpsProvider_ := Some (fps_ settings)
|}.

(** One signal of the model, delivered to the manager. *)
Definition on_model_signal `{T : QtText} (env : Providers) (ts : Threads) (sig : model_signal) (m : VideoManager)
    : option (VideoManager * list registered) :=
  match sig with
  | SlotsUpdated slots => registerSlots env slots m
  | CameraIdsUpdated ids => registerCameraIds env ids m
  | CameraOnline id => restartWorker env ts id m
  | _ => Some (m, [])
  end.

(** All signals of an operation in their order; [tss]: what the threads went through,
    by signal. *)
Fixpoint on_model_signals `{T : QtText} (env : Providers) (tss : nat → Threads) (sigs : list model_signal)
    (m : VideoManager) : option (VideoManager * list registered) :=
  match sigs with
  | [] => Some (m, [])
  | sig :: rest =>
      '(m1, s1) ← on_model_signal env (tss 0) sig m;
      '(m2, s2) ← on_model_signals env (λ n, tss (S n)) rest m1;
      Some (m2, s1 ++ s2)
  end.

(** ** Lemmas *)

(** The slots of the grid. *)
Definition grid_slots (c : CameraModel) : list (Z * QString) := (λ e, (slotId e, cameraId e)) <$> cameras_ c.

(** The manager has the slots of the grid, and a worker for each of its cameras. *)
Record follows (c : CameraModel) (m : VideoManager) : Prop := {
  fo_slots : slotToCameraId_ m = slot_map (grid_slots c);
  fo_workers e : e ∈ cameras_ c → cameraId e ≠ "" → is_Some (workers_ m !! cameraId e)
}.

(** Signals that leave the slots alone, and are about cameras of the grid. *)
Definition calm (c : CameraModel) (sig : model_signal) : Prop :=
  match sig with
  | SlotsUpdated _ | CameraIdsUpdated _ => False
  | CameraOnline id => id ∈ cameraId <$> cameras_ c
  | _ => True
  end.

(** An operation announces the slots it leaves, or leaves them alone. *)
Definition announces (c : CameraModel) (r : CameraModel * list model_signal) : Prop :=
  (∃ pre post, r.2 = pre ++ emitSlotsUpdated r.1 ++ post ∧ Forall (calm c) pre ∧ Forall (calm c) post) ∨
  (Forall (calm c) r.2 ∧ grid_slots r.1 = grid_slots c).

Section model.
Context `{T : QtText, H : QtHash}.

Lemma alter_slots f i (l : list CameraEntry) :
  (∀ e, slotId (f e) = slotId e ∧ cameraId (f e) = cameraId e) →
  (λ e, (slotId e, cameraId e)) <$> alter f i l = (λ e, (slotId e, cameraId e)) <$> l.
Proof.
  intros Hf. apply list_eq. intros j. rewrite !list_lookup_fmap. destruct (decide (i = j)) as [->|Hne].
  - rewrite list_lookup_alter_eq. destruct (l !! j) as [e|]; [|done]. cbn. by destruct (Hf e) as [-> ->].
  - by rewrite list_lookup_alter_ne.
Qed.

Lemma calm_update_entries byCid c : Forall (calm c) (update_entries byCid (cameras_ c)).2.
Proof.
  unfold update_entries. cbn [snd]. rewrite fmap_imap. apply Forall_concat, Forall_lookup. intros i s Hs.
  rewrite list_lookup_imap in Hs. destruct (cameras_ c !! i) as [e|] eqn:He; [|done]. injection Hs as <-. cbn.
  assert (cameraId e ∈ cameraId <$> cameras_ c) as Hin by (by eapply list_elem_of_fmap_2, list_elem_of_lookup_2).
  unfold update_entry. destruct (byCid !! cameraId e) as [snap|]; [|destruct (isOnline e); by repeat constructor].
  destruct (bool_decide (isOnline e ≠ cd_isOnline snap)), (isOnline e), (cd_isOnline snap); cbn;
    repeat case_decide; cbn; by repeat constructor.
Qed.

Lemma calm_remove_rows rows c0 c : Forall (calm c0) (remove_rows rows c).2.
Proof.
  induction rows as [|i rows IH]; [constructor|]. cbn [remove_rows foldr].
  unfold remove_rows in IH. destruct (foldr _ _ rows) as [m' sig]. cbn [snd] in *. apply Forall_app.
  split; [done|by repeat constructor].
Qed.

Lemma run_op_announces op c : announces c (run_op op c).
Proof.
  destruct op as [i v|a b|i b|r n d|r n|s| |snap|cid h l t p]; cbn [run_op].
  - right. unfold setData. destruct (row_of i c); [|by split; [constructor|]].
    destruct v; cbn; (split; [by repeat constructor|]); try done; unfold grid_slots; cbn; by apply alter_slots.
  - unfold swapSlots. destruct (row_of a c); [|by right; split; [constructor|]].
    destruct (row_of b c); [|by right; split; [constructor|]]. case_decide; [by right; split; [constructor|]|].
    destruct (cameras_ c !! _); [|by right; split; [constructor|]].
    destruct (cameras_ c !! _); [|by right; split; [constructor|]].
    left. eexists [], _. split; [done|]. split; [constructor|by repeat constructor].
  - right. unfold setOnline. destruct (row_of i c); [|by split; [constructor|]].
    split; [by repeat constructor|]. unfold grid_slots. cbn. by apply alter_slots.
  - unfold splitSlot, splitSlotAtIndex. destruct (row_of r c); [|by right; split; [constructor|]].
    destruct (cameras_ c !! _); [|by right; split; [constructor|]].
    destruct (_ && _); [|by right; split; [constructor|]].
    left. eexists [_; _], []. rewrite app_nil_r. split; [done|]. split; by repeat constructor.
  - unfold mergeSlots, mergeGroupByIndex. destruct (row_of r c); [|by right; split; [constructor|]].
    destruct (cameras_ c !! _) as [target|]; [|by right; split; [constructor|]].
    destruct (_ || _); [by right; split; [constructor|]|].
    destruct (group_indices _ _) as [|first [|o others]]; [by right; split; [constructor|]..|].
    pose proof (calm_remove_rows (o :: others) c c) as Hr.
    destruct (remove_rows (o :: others) c) as [m1 sig]. left. eexists (sig ++ [_]), [].
    rewrite app_nil_r, <-app_assoc. split; [done|]. split; [|constructor].
    apply Forall_app. split; [done|by repeat constructor].
  - rewrite auto_split_none. by right; split; [constructor|].
  - left. by eexists [_], []; split; [|split; repeat constructor].
  - rewrite onStoreUpdated_eq. left. eexists (_ ++ _), []. cbn [fst snd]. rewrite app_nil_r.
    rewrite <-app_assoc. split; [done|]. split; [|constructor]. apply Forall_app.
    split; [apply calm_update_entries|]. cbn zeta. case_decide; by repeat constructor.
  - right. unfold updateSensorInfo. cbn. split; [destruct (existsb _ _); by repeat constructor|].
    unfold grid_slots. cbn. rewrite <-list_fmap_compose. apply list_fmap_ext. intros j e _. cbn. by case_decide.
Qed.

(** The ids [emitSlotsUpdated] lists are those of the rows. *)
Lemma listed_ids (l : list CameraEntry) acc id :
  id ∈ foldl (λ cids e,
        if bool_decide (cameraId e ≠ "") && bool_decide (cameraId e ∉ cids)
        then cids ++ [cameraId e] else cids) acc l
  ↔ id ∈ acc ∨ ∃ e, e ∈ l ∧ cameraId e = id ∧ id ≠ "".
Proof.
  revert acc. induction l as [|e l IH]; intros acc; cbn.
  { split; [by left|]. intros [?|(e & He & _)]; [done|by apply not_elem_of_nil in He]. }
  rewrite IH. case_bool_decide as H1; cbn.
  - case_bool_decide as H2; cbn; set_solver.
  - split; [set_solver|]. intros [?|(e' & [->|?]%elem_of_cons & He & Hne)]; [by left|congruence|right; by exists e'].
Qed.
End model.

Section signals.
Context `{T : QtText, Q : QtMap, V : QtVideo}.

(** No camera loses its worker. *)
Definition keeps_workers (m m' : VideoManager) : Prop :=
  ∀ id, is_Some (workers_ m !! id) → is_Some (workers_ m' !! id).

#[local] Instance keeps_workers_preorder : PreOrder keeps_workers.
Proof. split; [by intros m id|]. intros m1 m2 m3 H1 H2 id H. by apply H2, H1. Qed.

Lemma extended_keeps env ids m m' sigs : extended env ids m m' sigs → keeps_workers m m'.
Proof. intros Hx id [i Hi]. exists i. by apply (ex_old _ _ _ _ _ Hx). Qed.

Lemma calm_signal env ts c sig m m' s :
  manager_inv m → calm c sig → on_model_signal env ts sig m = Some (m', s) →
  manager_inv m' ∧ slotToCameraId_ m' = slotToCameraId_ m ∧ keeps_workers m m'.
Proof.
  intros Hm Hc. destruct sig as [| | | | | |id|]; try done; cbn; try (by intros [= <- <-]).
  intros H. assert (manager_exec (RestartWorker env ts id) m = Some (m', s)) as He by done.
  apply manager_exec_inv in He; [|done]. split; [done|]. unfold restartWorker in H.
  destruct (workers_ m !! id) as [i|] eqn:Hi.
  - apply bind_Some in H as (w & _ & (w1 & _ & (w2 & _ & [= <- _])%bind_Some)%bind_Some).
    split; [done|]. by intros id'.
  - destruct (str_empty id); [by injection H as <- _|]. unfold create_worker in H.
    apply bind_Some in H as (w & _ & [= <- _]). split; [done|]. intros id' Hid'. cbn.
    destruct (decide (id = id')) as [->|]; [by rewrite Hi in Hid'; destruct Hid'|by rewrite lookup_insert_ne].
Qed.

Lemma signals_app env tss a b m :
  on_model_signals env tss (a ++ b) m
  = '(m1, s1) ← on_model_signals env tss a m;
    '(m2, s2) ← on_model_signals env (λ n, tss (length a + n)) b m1;
    Some (m2, s1 ++ s2).
Proof.
  revert tss m. induction a as [|sig a IH]; intros tss m.
  { cbn. by destruct (on_model_signals _ _ b m) as [[m' s]|]. }
  cbn. destruct (on_model_signal env (tss 0) sig m) as [[m1 s1]|]; cbn; [|done]. rewrite IH. cbn.
  destruct (on_model_signals env (λ n, tss (S n)) a m1) as [[m2 s2]|]; cbn; [|done].
  destruct (on_model_signals _ _ b m2) as [[m3 s3]|]; cbn; [|done]. by rewrite app_assoc.
Qed.

Lemma calm_signals env tss c sigs m m' s :
  manager_inv m → Forall (calm c) sigs → on_model_signals env tss sigs m = Some (m', s) →
  manager_inv m' ∧ slotToCameraId_ m' = slotToCameraId_ m ∧ keeps_workers m m'.
Proof.
  intros Hm Hs. revert tss m s Hm. induction Hs as [|sig sigs Hc _ IH]; intros tss m s Hm; cbn.
  { by intros [= <- <-]. }
  intros ([m1 s1] & H1 & ([m2 s2] & H2 & [= <- _])%bind_Some)%bind_Some.
  destruct (calm_signal _ _ _ _ _ _ _ Hm Hc H1) as (Hm1 & E1 & K1).
  destruct (IH _ _ _ Hm1 H2) as (Hm2 & E2 & K2). split_and!; [done|congruence|by etrans].
Qed.

Lemma emit_signals env tss c m :
  manager_inv m →
  ∃ m' s, on_model_signals env tss (emitSlotsUpdated c) m = Some (m', s) ∧ manager_inv m' ∧ follows c m' ∧
    keeps_workers m m'.
Proof.
  intros Hm. unfold emitSlotsUpdated. cbn [on_model_signals on_model_signal].
  destruct (registerSlots_spec env ((λ e, (slotId e, cameraId e)) <$> cameras_ c) m Hm) as (m1 & s1 & H1 & Hm1 & X1).
  rewrite H1. cbn [mbind option_bind]. unfold registerCameraIds.
  match goal with |- context [register_ids env ?ids m1] =>
    destruct (register_ids_spec env ids m1 Hm1) as (m2 & s2 & H2 & Hm2 & X2) end.
  rewrite H2. cbn. eexists _, _. split; [done|]. split; [done|]. split.
  - split.
    + rewrite (ex_slots _ _ _ _ _ X2), (ex_slots _ _ _ _ _ X1). done.
    + intros e He Hne. apply (ex_all _ _ _ _ _ X2); [|done]. apply listed_ids. right. by exists e.
  - apply extended_keeps in X1, X2. intros id Hid. apply X2, X1, Hid.
Qed.

(** What the signals of an operation do to a manager that followed the grid. *)
Lemma announced_follows env tss c r m m' s :
  manager_inv m → follows c m → announces c r → on_model_signals env tss r.2 m = Some (m', s) →
  manager_inv m' ∧ follows r.1 m' ∧ keeps_workers m m'.
Proof.
  intros Hm [Hs Hw] [(pre & post & -> & Hpre & Hpost)|[Hc Hg]].
  - rewrite signals_app. intros ([m1 s1] & H1 & ([m2 s2] & H2 & [= <- _])%bind_Some)%bind_Some.
    destruct (calm_signals _ _ _ _ _ _ _ Hm Hpre H1) as (Hm1 & _ & K1).
    rewrite signals_app in H2. apply bind_Some in H2 as ([m3 s3] & H3 & ([m4 s4] & H4 & [= <- _])%bind_Some).
    match type of H3 with on_model_signals env ?tss' _ _ = _ =>
      destruct (emit_signals env tss' r.1 m1 Hm1) as (m3' & s3' & H3' & Hm3 & [F1 F2] & K3) end.
    rewrite H3' in H3. injection H3 as -> ->.
    destruct (calm_signals _ _ _ _ _ _ _ Hm3 Hpost H4) as (Hm4 & E4 & K4).
    split; [done|]. split; [|by do 2 (etrans; [done|])].
    split; [by rewrite E4|]. intros e He Hne. by apply K4, F2.
  - intros H. destruct (calm_signals _ _ _ _ _ _ _ Hm Hc H) as (Hm1 & E1 & K1). split; [done|]. split; [|done].
    split; [by rewrite E1, Hg|]. intros e He Hne. apply K1.
    assert ((slotId e, cameraId e) ∈ grid_slots r.1) as Hin by (apply list_elem_of_fmap; by exists e).
    rewrite Hg in Hin. apply list_elem_of_fmap in Hin as (e' & [= _ He'] & Hin). rewrite He' in Hne |- *.
    by apply Hw.
Qed.

(** With threads that see the stop flag, the signals are all handled. *)
Lemma signals_return env (tss : nat → Threads) sigs m :
  manager_inv m → is_Some (on_model_signals env (λ n i, then_stop (tss n i)) sigs m).
Proof.
  revert tss m. induction sigs as [|sig sigs IH]; intros tss m Hm; cbn; [by eexists|].
  enough (∃ m1 s1, on_model_signal env (λ i, then_stop (tss 0 i)) sig m = Some (m1, s1) ∧ manager_inv m1)
    as (m1 & s1 & -> & Hm1).
  { cbn. destruct (IH (λ n, tss (S n)) m1 Hm1) as [[m2 s2] ->]. by eexists. }
  destruct sig as [| | | |slots|ids|id|]; cbn; try (by exists m, []).
  - destruct (registerSlots_spec env slots m Hm) as (m1 & s1 & H1 & Hm1 & _). by exists m1, s1.
  - destruct (register_ids_spec env ids m Hm) as (m1 & s1 & H1 & Hm1 & _). by exists m1, s1.
  - destruct (restartWorker env (λ i, then_stop (tss 0 i)) id m) as [[m1 s1]|] eqn:Hr.
    + exists m1, s1. split; [done|].
      eapply (manager_exec_inv (RestartWorker env (λ i, then_stop (tss 0 i)) id)); [exact Hm|exact Hr].
    + exfalso. unfold restartWorker in Hr. destruct (workers_ m !! id) as [i|] eqn:Hi.
      * destruct (mi_worker _ Hm _ _ Hi) as (_ & w & Hw & Ho).
        destruct (stop_worker_returns (tss 0 i) w) as [w1 H1].
        destruct (restart_spec env (λ i, then_stop (tss 0 i)) id i w m Hm Hi Hw w1 H1) as (w2 & H2 & _).
        unfold restartWorker in H2. rewrite Hi in H2. by rewrite Hr in H2.
      * destruct (str_empty id) eqn:He; [done|].
        destruct (create_worker_spec env id m Hm) as (m1 & H1 & _); [by apply str_empty_false|done|].
        by rewrite H1 in Hr.
Qed.
(** *** Where the URLs of the workers come from *)

(** The worker of a camera. *)
Definition worker_of (m : VideoManager) (id : QString) : option VideoWorker := i ← workers_ m !! id; heap m !! i.

(** Each worker has the URL the provider gave for a camera the change is about, or the
    one it had. *)
Definition urls_from (about : QString → Prop) (url : QString → QString) (m m' : VideoManager) : Prop :=
  ∀ id w', worker_of m' id = Some w' →
    (about id ∧ connectionString_ w' = url id) ∨ ∃ w, worker_of m id = Some w ∧ connectionString_ w' = connectionString_ w.

#[local] Instance urls_from_preorder about url : PreOrder (urls_from about url).
Proof.
  split; [intros m id w Hw; right; by exists w|].
  intros m1 m2 m3 H1 H2 id w3 [?|(w2 & Hw2 & ->)]%H2; [by left|]. by apply H1.
Qed.

Lemma urls_from_weaken (P P' : QString → Prop) url m m' :
  (∀ id, P id → P' id) → urls_from P url m m' → urls_from P' url m m'.
Proof. intros HP Hu id w [[? ?]|?]%Hu; [left|by right]. by split; [apply HP|]. Qed.

(** The cameras a signal of the model names. *)
Definition names (sig : model_signal) : list QString :=
  match sig with SlotsUpdated slots => slots.*2 | CameraIdsUpdated ids => ids | CameraOnline id => [id] | _ => [] end.

Lemma extended_urls about url fps ids m m' sigs :
  Forall about ids → manager_inv m → extended {| urlProvider_ := Some url; fpsProvider_ := fps |} ids m m' sigs →
  urls_from about url m m'.
Proof.
  intros Hids Hm Hx id w' Hw'. unfold worker_of in *. apply bind_Some in Hw' as (i & Hi & Hw').
  destruct (workers_ m !! id) as [j|] eqn:Hj.
  - right. rewrite (ex_old _ _ _ _ _ Hx _ _ Hj) in Hi. injection Hi as <-.
    destruct (mi_worker _ Hm _ _ Hj) as (_ & w & Hw & _). exists w. split; [done|].
    rewrite (ex_heap _ _ _ _ _ Hx _ _ Hw) in Hw'. by injection Hw' as <-.
  - left. destruct (ex_new _ _ _ _ _ Hx id Hj) as (Hin & j & w & Hj' & Hw & _ & Hu); [by eexists|].
    rewrite Hi in Hj'. injection Hj' as <-. rewrite Hw' in Hw. injection Hw as <-.
    rewrite Forall_forall in Hids. by split; [apply Hids|].
Qed.

Lemma restart_urls (about : QString → Prop) url fps ts id m m' sigs :
  about id → manager_inv m →
  restartWorker {| urlProvider_ := Some url; fpsProvider_ := fps |} ts id m = Some (m', sigs) → urls_from about url m m'.
Proof.
  intros Hab Hm H. destruct (workers_ m !! id) as [i|] eqn:Hi.
  - destruct (mi_worker _ Hm _ _ Hi) as (_ & w & Hw & _). pose proof H as H'.
    unfold restartWorker in H'. rewrite Hi, Hw in H'. apply bind_Some in H' as (w0 & [= <-] & (w1 & H1 & _)%bind_Some).
    destruct (restart_spec {| urlProvider_ := Some url; fpsProvider_ := fps |} ts id i w m Hm Hi Hw w1 H1) as (w2 & H2 & _ & _ & Hu). rewrite H2 in H.
    injection H as <- _. intros id' w'. unfold worker_of. cbn.
    intros (j & Hj & Hw')%bind_Some. destruct (decide (i = j)) as [->|Hne].
    + rewrite lookup_insert_eq in Hw'. injection Hw' as <-. left.
      assert (id' = id) as -> by (by eapply mi_inj). by rewrite Hu.
    + rewrite lookup_insert_ne in Hw' by done. right. exists w'. by rewrite Hj.
  - unfold restartWorker in H. rewrite Hi in H. destruct (str_empty id) eqn:He; [by injection H as <- _|].
    destruct (create_worker_spec {| urlProvider_ := Some url; fpsProvider_ := fps |} id m Hm)
      as (m1 & H1 & _ & Ew & _ & w & Eh & _ & Hu); [by apply str_empty_false|done|].
    rewrite H1 in H. injection H as <- _. intros id' w'. unfold worker_of. rewrite Ew, Eh.
    destruct (decide (id = id')) as [->|Hne].
    + rewrite lookup_insert_eq. cbn. rewrite lookup_insert_eq. intros [= <-]. by left.
    + rewrite lookup_insert_ne by done. intros (j & Hj & Hw')%bind_Some.
      destruct (mi_worker _ Hm _ _ Hj) as (_ & w0 & Hw0 & _). right. exists w0. rewrite Hj. cbn. split; [done|].
      rewrite lookup_insert_ne in Hw'; [congruence|].
      intros <-. apply (Nat.lt_irrefl (fresh m)), (mi_fresh _ Hm). by exists w0.
Qed.

(** What the provider of the camera store says. *)
Definition stored_url (store : CameraStore) (cid : QString) : QString :=
  fromStdString (cs_sourceUrl (getCameraStruct (toStdString cid) store)).

Lemma signals_urls about store settings tss sigs m m' s :
  Forall (λ sig, Forall about (names sig)) sigs → manager_inv m →
  on_model_signals (core_providers store settings) tss sigs m = Some (m', s) →
  urls_from about (stored_url store) m m'.
Proof.
  intros Hn. revert tss m s. induction Hn as [|sig sigs Hsig _ IH]; intros tss m s Hm; cbn.
  { by intros [= <- _]. }
  intros ([m1 s1] & H1 & ([m2 s2] & H2 & [= <- _])%bind_Some)%bind_Some.
  assert (manager_inv m1 ∧ urls_from about (stored_url store) m m1)
    as [Hm1 Hu1]; [|by etrans; [exact Hu1|eapply IH]].
  destruct sig as [| | | |slots|ids|id|]; cbn in H1, Hsig; try by injection H1 as <- _.
  - destruct (registerSlots_spec (core_providers store settings) slots m Hm) as (m3 & s3 & H3 & Hm3 & Hx).
    rewrite H3 in H1. injection H1 as <- <-. split; [done|].
    refine (extended_urls _ _ _ _ _ _ _ Hsig _ Hx). by apply set_slots_inv.
  - destruct (register_ids_spec (core_providers store settings) ids m Hm) as (m3 & s3 & H3 & Hm3 & Hx).
    unfold registerCameraIds in H1. rewrite H3 in H1. injection H1 as <- <-. split; [done|]. by eapply extended_urls.
  - rewrite Forall_singleton in Hsig.
    split; [by eapply (manager_exec_inv (RestartWorker _ _ id))|exact (restart_urls about (stored_url store) _ _ id m m1 s1 Hsig Hm H1)].
Qed.

(** The signals of an operation name cameras that were in the grid or are now. *)
Lemma calm_names c sigs : Forall (calm c) sigs → Forall (λ sig, Forall (λ id, id ∈ cameraId <$> cameras_ c) (names sig)) sigs.
Proof. intros Hs. eapply Forall_impl; [exact Hs|]. intros [] Hc; cbn in *; try done; try constructor; by repeat constructor. Qed.

Lemma announces_names c r :
  announces c r →
  Forall (λ sig, Forall (λ id, id ∈ cameraId <$> cameras_ c ∨ id ∈ cameraId <$> cameras_ r.1) (names sig)) r.2.
Proof.
  assert (∀ sigs, Forall (calm c) sigs →
    Forall (λ sig, Forall (λ id, id ∈ cameraId <$> cameras_ c ∨ id ∈ cameraId <$> cameras_ r.1) (names sig)) sigs) as Hcalm.
  { intros sigs Hs%calm_names. eapply Forall_impl; [exact Hs|]. intros sig Hsig.
    eapply Forall_impl; [exact Hsig|]. by left. }
  intros [(pre & post & -> & Hpre & Hpost)|[Hc _]]; [|by apply Hcalm].
  repeat apply Forall_app_2; [by apply Hcalm| |by apply Hcalm].
  unfold emitSlotsUpdated. repeat constructor; cbn [names].
  - rewrite <-list_fmap_compose. apply Forall_forall. by right.
  - apply Forall_forall. intros id [Hn|(e & He & <- & _)]%listed_ids; [by apply not_elem_of_nil in Hn|].
    right. by apply list_elem_of_fmap_2.
Qed.
End signals.

(** ** Slots *)

Lemma slot_map_lookup (l : list (Z * QString)) s id :
  NoDup (fst <$> l) → slot_map l !! s = Some id ↔ (s, id) ∈ l.
Proof.
  unfold slot_map. induction l as [|[s1 id1] l IH] using rev_ind; intros Hnd.
  { cbn. rewrite lookup_empty. split; [done|by intros ?%not_elem_of_nil]. }
  rewrite foldl_app. cbn. rewrite fmap_app in Hnd. apply NoDup_app in Hnd as (Hnd & Hdisj & _).
  rewrite elem_of_app, list_elem_of_singleton. destruct (decide (s1 = s)) as [->|Hne].
  - rewrite lookup_insert_eq. split; [intros [= ->]; by right|].
    intros [Hin|[= ->]]; [|done]. exfalso. apply (Hdisj s); [|by left].
    apply list_elem_of_fmap. by exists (s, id).
  - rewrite lookup_insert_ne, IH by done. split; [by left|]. intros [?|[= -> _]]; done.
Qed.

(** The row of a slot. *)
Lemma entry_for_slot_elem c s e : entry_for_slot s c = Some e → e ∈ cameras_ c.
Proof. unfold entry_for_slot. destruct (_ <? 0)%Z; [done|]. apply list_elem_of_lookup_2. Qed.

Lemma entry_for_slot_some s c : bool_decide (is_Some (cameraId <$> entry_for_slot s c)) = CameraModel.hasSlot s c.
Proof.
  unfold CameraModel.hasSlot, entry_for_slot, indexBySlotId.
  destruct (index_where _ (cameras_ c)) as [i|] eqn:Hi; cbn; [|done].
  apply index_where_Some in Hi as (e & He & _).
  rewrite (proj2 (Z.ltb_ge _ _)), (proj2 (Z.leb_le _ _)) by lia. rewrite Nat2Z.id, He. by rewrite bool_decide_true by (by eexists).
Qed.

(** A grid's slot, in the table [registerSlots] builds and in the grid. *)
Lemma grid_slot_lookup c s : model_inv c → slot_map (grid_slots c) !! s = cameraId <$> entry_for_slot s c.
Proof.
  intros [(_ & Hnd & _) _]. apply option_eq. intros id.
  rewrite slot_map_lookup by (unfold grid_slots; by rewrite <-list_fmap_compose).
  unfold grid_slots. rewrite list_elem_of_fmap. unfold entry_for_slot, indexBySlotId.
  destruct (index_where _ (cameras_ c)) as [i|] eqn:Hi; cbn.
  - apply index_where_Some in Hi as (e & He & Hs%bool_decide_eq_true & _).
    rewrite (proj2 (Z.ltb_ge _ _)) by lia. rewrite Nat2Z.id, He. cbn. split.
    + intros (e' & [= E1 E2] & [j Hj]%list_elem_of_lookup). f_equal. rewrite E2. f_equal.
      assert (i = j) as ->; [|congruence].
      apply (NoDup_lookup (slotId <$> cameras_ c) i j s Hnd); rewrite list_lookup_fmap; [rewrite He|rewrite Hj]; cbn; congruence.
    + intros [= <-]. exists e. split; [by rewrite Hs|]. by eapply list_elem_of_lookup_2.
  - split; [|done]. intros (e & [= E1 E2] & Hin). apply index_where_None in Hi.
    rewrite Forall_forall in Hi. specialize (Hi e Hin). apply bool_decide_eq_false in Hi. congruence.
Qed.

Lemma elem_entry_for_slot c e : model_inv c → e ∈ cameras_ c → cameraId <$> entry_for_slot (slotId e) c = Some (cameraId e).
Proof.
  intros Hc He. rewrite <-grid_slot_lookup by done. apply slot_map_lookup.
  - destruct Hc as [(_ & Hnd & _) _]. unfold grid_slots. by rewrite <-list_fmap_compose.
  - apply list_elem_of_fmap. by exists e.
Qed.
