(* ===== verification/Core.v ===== *)
(** * The wiring (src/Core.hpp, src/Core.cpp)

    What [Core] connects: packets become tasks of the thread pool that update a
    store, and a store's callback posts the new data to the GUI thread, which
    updates the model; META, AI and IMAGE packets have tasks of their own.

    [bindStoreToModel] is a template over the store, its parse function and the
    model; here it is a Section over an interface, class [Bound], with the camera
    store and the device store as instances. *)

From S2P Require Import Prelude Extern Protocol CameraStore DeviceStore.

(** ** The interface of a store *)

(** [bd_run k s]: the parse function [k] on the text [s], with what it passes to
    its callback; [bd_view]: the data a reader of the store gets. *)
Class Bound (Store Data Kind : Type) : Type := {
  bd_run : Kind → string → SE Store exn (option Data);
  bd_view : Store → Data
}.

(** The callback gets the data the store now holds; without one the data stays. *)
Class BoundLaws {Store Data Kind} (B : Bound Store Data Kind) : Prop := {
  bound_some k s st d st' : bd_run k s st = (Ret (Some d), st') → bd_view st' = d;
  bound_none k s st st' : bd_run k s st = (Ret None, st') → bd_view st' = bd_view st
}.

#[export] Instance camera_bound `{J : Json} : Bound CameraStore (list CameraData) unit := {|
  bd_run _ s := CameraStore.updateFromJson s true;
  bd_view st := data_ st
|}.

#[export] Instance camera_bound_laws `{J : Json} : BoundLaws camera_bound.
Proof.
  split; intros k s st; [intros d|]; intros st'; cbn; rewrite camera_updateFromJson_result;
    destruct (is_array _); cbn; [| | |]; try (by intros [= <-]);
    destruct (parse_items _) as [es [e|]]; cbn; try done.
  by intros [= <- <-].
Qed.

(** The device store has two: CAMERA packets, and AVAILABLE ones with the clock. *)
Inductive device_packet : Type := CameraPacket | AvailablePacket (now : Z).

#[export] Instance device_bound `{J : Json} : Bound DeviceStore (list DeviceIntegrated) device_packet := {|
  bd_run k s := match k with
                | CameraPacket => updateFromCameraJson s true
                | AvailablePacket now => updateFromAvailableJson now s true
                end;
  bd_view st := devices_ st
|}.

#[export] Instance device_bound_laws `{J : Json} : BoundLaws device_bound.
Proof.
  split; intros [|now] s st; [intros d|intros d| |]; intros st'; cbn.
  - rewrite updateFromCameraJson_result. destruct (is_array _); [|done].
    destruct (outcome_fold _ _ _); [|done]. by intros [= <- <-].
  - unfold updateFromAvailableJson. destruct (is_object _); [|done]. intros H. invert_run. done.
  - rewrite updateFromCameraJson_result. destruct (is_array _); [|by intros [= <-]].
    by destruct (outcome_fold _ _ _).
  - unfold updateFromAvailableJson. destruct (is_object _); [|by intros [= <-]].
    intros H. invert_run. done.
Qed.

(** ** [bindStoreToModel] *)

Record Binding (Store Data Kind : Type) : Type := {
  bk_queue : list (Kind * string);     (* tasks in the pool's queue *)
  bk_store : Store;
  bk_alive : bool;                     (* the store is not destroyed *)
  bk_posting : list Data;              (* updates made, callback not yet posted *)
  bk_gui : list Data;                  (* events of the GUI thread *)
  bk_shown : list Data;                (* what the model was given, in order *)
  bk_terminated : bool;                (* std::terminate *)
  bk_dangling : bool;                  (* a task ran on the destroyed store *)
  bk_log : list Data                   (* the updates with a callback, in order *)
}.
Arguments bk_queue {_ _ _}.
Arguments bk_store {_ _ _}.
Arguments bk_alive {_ _ _}.
Arguments bk_posting {_ _ _}.
Arguments bk_gui {_ _ _}.
Arguments bk_shown {_ _ _}.
Arguments bk_terminated {_ _ _}.
Arguments bk_dangling {_ _ _}.
Arguments bk_log {_ _ _}.

Section binding.
Context {Store Data Kind : Type} `{B : !Bound Store Data Kind}.
Abbreviation binding := (Binding Store Data Kind).

Definition binding_initial (st : Store) : binding := {|
  bk_queue := []; bk_store := st; bk_alive := true; bk_posting := []; bk_gui := [];
  bk_shown := []; bk_terminated := false; bk_dangling := false; bk_log := []
|}.

(** [submitTask] of the update. *)
Definition bindStoreToModel (k : Kind) (s : string) (b : binding) : binding := {|
  bk_queue := bk_queue b ++ [(k, s)]; bk_store := bk_store b; bk_alive := bk_alive b;
  bk_posting := bk_posting b; bk_gui := bk_gui b; bk_shown := bk_shown b;
  bk_terminated := bk_terminated b; bk_dangling := bk_dangling b; bk_log := bk_log b
|}.

(** A worker runs [(store->*parseFunc)(json, ...)] up to its callback.  The task
    is not wrapped: an exception ends the program. *)
Definition run_update (k : Kind) (s : string) (q : list (Kind * string)) (b : binding) : binding :=
  if bk_alive b then
    let '(r, st) := bd_run k s (bk_store b) in
    {| bk_queue := q; bk_store := st; bk_alive := true;
       bk_posting := bk_posting b ++ match r with Ret (Some d) => [d] | _ => [] end;
       bk_gui := bk_gui b; bk_shown := bk_shown b;
       bk_terminated := match r with Throw _ => true | Ret _ => false end;
       bk_dangling := bk_dangling b;
       bk_log := bk_log b ++ match r with Ret (Some d) => [d] | _ => [] end |}
  else
    {| bk_queue := q; bk_store := bk_store b; bk_alive := false; bk_posting := bk_posting b;
       bk_gui := bk_gui b; bk_shown := bk_shown b; bk_terminated := bk_terminated b;
       bk_dangling := true; bk_log := bk_log b |}.

(** The callback: [invokeMethod] with a queued connection. *)
Definition post_update (i : nat) (d : Data) (b : binding) : binding := {|
  bk_queue := bk_queue b; bk_store := bk_store b; bk_alive := bk_alive b;
  bk_posting := delete i (bk_posting b); bk_gui := bk_gui b ++ [d]; bk_shown := bk_shown b;
  bk_terminated := bk_terminated b; bk_dangling := bk_dangling b; bk_log := bk_log b
|}.

(** The GUI thread runs [(model->*updateFunc)(d)]. *)
Definition show_update (d : Data) (g : list Data) (b : binding) : binding := {|
  bk_queue := bk_queue b; bk_store := bk_store b; bk_alive := bk_alive b;
  bk_posting := bk_posting b; bk_gui := g; bk_shown := bk_shown b ++ [d];
  bk_terminated := bk_terminated b; bk_dangling := bk_dangling b; bk_log := bk_log b
|}.

(** [Core::shutdown] resets the store before the pool. *)
Definition destroy_store (b : binding) : binding := {|
  bk_queue := bk_queue b; bk_store := bk_store b; bk_alive := false;
  bk_posting := bk_posting b; bk_gui := bk_gui b; bk_shown := bk_shown b;
  bk_terminated := bk_terminated b; bk_dangling := bk_dangling b; bk_log := bk_log b
|}.

Inductive bind_label : Type :=
| Packet (k : Kind) (s : string)   (* the signal of the bridge *)
| Take                             (* a free worker takes the next task *)
| Post (i : nat)                   (* one of the running tasks posts *)
| Gui                              (* the next event of the GUI thread *)
| Destroy.

(** [workers]: the threads of the pool; tasks are taken in order. *)
Definition bind_exec (workers : nat) (l : bind_label) (b : binding) : option binding :=
  if bk_terminated b then None
  else match l with
  | Packet k s => Some (bindStoreToModel k s b)
  | Take =>
      match bk_queue b with
      | (k, s) :: q => if decide (length (bk_posting b) < workers) then Some (run_update k s q b) else None
      | [] => None
      end
  | Post i => match bk_posting b !! i with Some d => Some (post_update i d b) | None => None end
  | Gui => match bk_gui b with d :: g => Some (show_update d g b) | [] => None end
  | Destroy => Some (destroy_store b)
  end.

Fixpoint bind_run (workers : nat) (ls : list bind_label) (b : binding) : option binding :=
  match ls with
  | [] => Some b
  | l :: ls' => b' ← bind_exec workers l b; bind_run workers ls' b'
  end.

(** No task, callback or event is left. *)
Definition quiet (b : binding) : Prop := bk_queue b = [] ∧ bk_posting b = [] ∧ bk_gui b = [].

(** ** Lemmas *)

(** What holds in every state. *)
Record bind_inv (workers : nat) (b : binding) : Prop := {
  inv_all : bk_shown b ++ bk_gui b ++ bk_posting b ≡ₚ bk_log b;
  inv_order : workers = 1 → bk_shown b ++ bk_gui b ++ bk_posting b = bk_log b;
  inv_bound : length (bk_posting b) ≤ workers;
  inv_view : bk_terminated b = false → ∀ d, last (bk_log b) = Some d → bd_view (bk_store b) = d
}.

Context `{L : !BoundLaws B}.

Lemma initial_inv workers st : bind_inv workers (binding_initial st).
Proof. by split; cbn; try lia. Qed.

Lemma run_update_inv workers k s q b :
  bind_inv workers b → length (bk_posting b) < workers → bk_terminated b = false →
  bind_inv workers (run_update k s q b).
Proof.
  intros [Ha Ho Hb Hv] Hlt Ht. unfold run_update. destruct (bk_alive b); [|by split].
  specialize (Hv Ht).
  destruct (bd_run k s (bk_store b)) as [[[d|]|e] st] eqn:Hr; split; cbn; rewrite ?app_nil_r; try done.
  - rewrite <-Ha. by rewrite <-!app_assoc.
  - intros Hw. rewrite <-(Ho Hw). by rewrite !app_assoc.
  - rewrite length_app. cbn. lia.
  - intros _ d' Hd. rewrite last_snoc in Hd. injection Hd as <-. by apply (bound_some k s (bk_store b)).
  - intros _ d' Hd. rewrite (bound_none k s (bk_store b) st Hr). by apply Hv.
Qed.

Lemma post_inv workers i d b :
  bind_inv workers b → bk_posting b !! i = Some d → bind_inv workers (post_update i d b).
Proof.
  intros [Ha Ho Hb Hv] Hi. split; cbn; [| | |done].
  - rewrite <-Ha. pose proof (delete_Permutation _ _ _ Hi) as Hp.
    generalize dependent (delete i (bk_posting b)). intros p ->. by rewrite <-!app_assoc.
  - intros Hw. rewrite <-(Ho Hw). subst workers.
    destruct (bk_posting b) as [|d0 [|d1 p]]; cbn in Hb; [done| |lia].
    destruct i as [|i]; [|done]. injection Hi as ->. by rewrite app_nil_r.
  - rewrite length_delete by (by eexists). lia.
Qed.

Lemma bind_exec_inv workers l b b' :
  bind_inv workers b → bind_exec workers l b = Some b' → bind_inv workers b'.
Proof.
  intros Hb H. unfold bind_exec in H. destruct (bk_terminated b) eqn:Ht; [done|].
  destruct l as [k s| |i| |].
  - injection H as <-. by destruct Hb.
  - destruct (bk_queue b) as [|[k s] q]; [done|]. case_decide; [|done]. injection H as <-.
    by apply run_update_inv.
  - destruct (bk_posting b !! i) as [d|] eqn:Hi; [|done]. injection H as <-. by apply post_inv.
  - destruct (bk_gui b) as [|d g] eqn:Hg; [done|]. injection H as <-.
    destruct Hb as [Ha Ho Hle Hv]. rewrite Hg in Ha, Ho. split; cbn; [| |done|done].
    + by rewrite <-app_assoc.
    + intros Hw. rewrite <-app_assoc. by apply Ho.
  - injection H as <-. by destruct Hb.
Qed.

Lemma bind_run_inv workers ls b b' :
  bind_inv workers b → bind_run workers ls b = Some b' → bind_inv workers b'.
Proof.
  revert b. induction ls as [|l ls IH]; intros b Hb H; [by injection H as <-|].
  cbn in H. apply bind_Some in H as (b1 & H1 & H). eapply IH; [|done]. by eapply bind_exec_inv.
Qed.

(** *** After the store is destroyed *)

Lemma bind_exec_dead workers l b b' :
  bk_alive b = false → (bk_queue b ≠ [] ∨ bk_dangling b = true) →
  bind_exec workers l b = Some b' →
  bk_alive b' = false ∧ (bk_queue b' ≠ [] ∨ bk_dangling b' = true).
Proof.
  intros Ha Hq H. unfold bind_exec in H. destruct (bk_terminated b); [done|].
  destruct l as [k s| |i| |].
  - injection H as <-. cbn. split; [done|]. left. by destruct (bk_queue b).
  - destruct (bk_queue b) as [|[k s] q]; [done|]. case_decide; [|done]. injection H as <-.
    unfold run_update. rewrite Ha. cbn. by split; [|right].
  - destruct (bk_posting b !! i); [|done]. by injection H as <-.
  - destruct (bk_gui b); [done|]. by injection H as <-.
  - by injection H as <-.
Qed.

Lemma bind_run_dead workers ls b b' :
  bk_alive b = false → (bk_queue b ≠ [] ∨ bk_dangling b = true) →
  bind_run workers ls b = Some b' → bk_queue b' ≠ [] ∨ bk_dangling b' = true.
Proof.
  revert b. induction ls as [|l ls IH]; intros b Ha Hq H; [by injection H as <-|].
  cbn in H. apply bind_Some in H as (b1 & H1 & H).
  destruct (bind_exec_dead workers l b b1 Ha Hq H1) as [Ha1 Hq1]. by eapply IH.
Qed.
End binding.

(** ** The tasks of META, AI and IMAGE packets *)

Inductive gui_call : Type :=
| UpdateSensorInfo (cameraId : QString) (info : DeviceInfo)
| ImageReceived (cameraId deviceName : QString) (trackId frameIndex totalFrames timestamp : Z)
    (base64Image : QString).

(** [catch (...) {}] around a task that returns nothing otherwise. *)
Definition caught {S E A} (m : SE S E (list A)) (s : S) : list A * S :=
  match m s with (Ret l, s') => (l, s') | (Throw _, s') => ([], s') end.

Section tasks.
Context `{J : Json, T : QtText}.

(** [for (cam : cameraStore_->snapshot()) if (cam.cameraId.rfind(ip, 0) == 0) ...]:
    the ids it selects. *)
Definition matching (ip : string) (st : CameraStore) : list string :=
  filter (λ c, starts_with c ip = true) (cd_cameraId <$> CameraStore.snapshot st).

(** The META task: the last sample of [sensor_batch] goes to every selected
    camera, and the model is told. *)
Definition meta_body (s : string) : SE CameraStore exn (list gui_call) :=
  let parsed := json_parse s in
  if negb (is_object parsed) then mret []
  else
    ip ← se_lift (value_string parsed "ip" "");
    if str_empty ip then mret []
    else
      match (if contains parsed "sensor_batch" && is_array (member parsed "sensor_batch")
             then last (elements (member parsed "sensor_batch")) else None) with
      | None => mret []
      | Some latest =>
          h ← se_lift (value_double latest "hum" d_zero);
          l ← se_lift (value_double latest "light" d_zero);
          ti ← se_lift (value_double latest "tilt" d_zero);
          tm ← se_lift (value_double latest "tmp" d_zero);
          let info := {| hum := h; light := l; tilt := ti; tmp := tm |} in
          st ← se_get;
          se_fold (λ cid calls,
              _ ← se_modify (updateDeviceInfo cid info);
              mret (calls ++ [UpdateSensorInfo (fromStdString cid) info]))
            (matching ip st) []
      end.

Definition meta_task (s : string) (st : CameraStore) : list gui_call * CameraStore :=
  caught (meta_body s) st.

(** The AI task: the person count goes to every selected camera. *)
Definition ai_body (s : string) : SE CameraStore exn (list gui_call) :=
  let parsed := json_parse s in
  if negb (is_object parsed) then mret []
  else
    ip ← se_lift (value_string parsed "ip" "");
    if str_empty ip then mret []
    else if contains parsed "person_count" then
      count ← se_lift (value_int parsed "person_count" 0);
      st ← se_get;
      se_fold (λ cid calls,
          _ ← se_modify (updateAiInfo cid {| Img := []; personCount := [count] |});
          mret calls) (matching ip st) []
    else mret [].

Definition ai_task (s : string) (st : CameraStore) : list gui_call * CameraStore :=
  caught (ai_body s) st.

(** [QByteArray::toBase64], and what a moved-from [QString] holds. *)
Context (toBase64 : list byte → string) (moved_from : QString).

(** The loop over the selected cameras: [std::move(base64)] in each pass. *)
Fixpoint image_calls (ids : list string) (deviceName : QString)
    (trackId frameIndex totalFrames timestamp : Z) (base64 : QString) : list gui_call :=
  match ids with
  | [] => []
  | cid :: rest =>
      ImageReceived (fromStdString cid) deviceName trackId frameIndex totalFrames timestamp base64
      :: image_calls rest deviceName trackId frameIndex totalFrames timestamp moved_from
  end.

Definition image_body (jsonStr : string) (jpegData : list byte) : SE CameraStore exn (list gui_call) :=
  parsed ← se_lift (json_parse_throw jsonStr);
  ip ← se_lift (value_string parsed "ip" "");
  if str_empty ip then mret []
  else
    device_id ← se_lift (value_string parsed "device_id" "");
    trackId ← se_lift (value_int parsed "track_id" 0);
    frameIndex ← se_lift (value_int parsed "frame_index" 0);
    totalFrames ← se_lift (value_int parsed "total_frames" 0);
    timestamp ← se_lift (value_i64 parsed "timestamp_ms" 0);
    st ← se_get;
    let ids := match matching ip st with [] => [ip +:+ "/0"] | l => l end in
    mret (image_calls ids (fromStdString device_id) trackId frameIndex totalFrames timestamp
            ("data:image/jpeg;base64," +:+ toBase64 jpegData)).

Definition image_task (jsonStr : string) (jpegData : list byte) (st : CameraStore)
    : list gui_call * CameraStore := caught (image_body jsonStr jpegData) st.

(** *** Lemmas: what the loops do *)

(** What a META document asks for. *)
Definition meta_parse (s : string) : option (string * DeviceInfo) :=
  let parsed := json_parse s in
  if is_object parsed then
    match value_string parsed "ip" "" with
    | Ret ip =>
        if str_empty ip then None
        else if contains parsed "sensor_batch" && is_array (member parsed "sensor_batch") then
          latest ← last (elements (member parsed "sensor_batch"));
          match value_double latest "hum" d_zero, value_double latest "light" d_zero,
                value_double latest "tilt" d_zero, value_double latest "tmp" d_zero with
          | Ret h, Ret l, Ret ti, Ret tm => Some (ip, {| hum := h; light := l; tilt := ti; tmp := tm |})
          | _, _, _, _ => None
          end
        else None
    | Throw _ => None
    end
  else None.

(** What an AI document asks for. *)
Definition ai_parse (s : string) : option (string * Z) :=
  let parsed := json_parse s in
  if is_object parsed then
    match value_string parsed "ip" "" with
    | Ret ip =>
        if str_empty ip then None
        else if contains parsed "person_count" then
          match value_int parsed "person_count" 0 with Ret count => Some (ip, count) | Throw _ => None end
        else None
    | Throw _ => None
    end
  else None.

(** [table_[id].field = v] for each of the ids. *)
Definition set_all (f : CameraStruct → CameraStruct) (ids : list string)
    (t : gmap string CameraStruct) : gmap string CameraStruct :=
  foldl (λ t id, table_set f id t) t ids.

Lemma set_all_lookup f ids t id :
  (∀ c, f (f c) = f c) →
  set_all f ids t !! id =
  if decide (id ∈ ids) then Some (f (default CameraStruct0 (t !! id))) else t !! id.
Proof.
  intros Hf. unfold set_all. revert t. induction ids as [|i ids IH]; intros t.
  { rewrite decide_False; [done|]. apply not_elem_of_nil. }
  cbn [foldl]. rewrite IH. unfold table_set. destruct (decide (i = id)) as [->|Hne].
  - rewrite lookup_insert_eq. rewrite (decide_True (P := id ∈ id :: ids)) by (by left). cbn.
    case_decide; [by rewrite Hf|done].
  - rewrite lookup_insert_ne by done. destruct (decide (id ∈ ids)).
    + rewrite (decide_True (P := id ∈ i :: ids)); [done|by right].
    + rewrite (decide_False (P := id ∈ i :: ids)); [done|].
      by intros [->|?]%elem_of_cons.
Qed.

Lemma meta_loop info ids calls st :
  se_fold (E := exn) (λ cid calls,
      _ ← se_modify (updateDeviceInfo cid info);
      mret (calls ++ [UpdateSensorInfo (fromStdString cid) info])) ids calls st
  = (Ret (calls ++ ((λ c, UpdateSensorInfo (fromStdString c) info) <$> ids)),
     {| data_ := data_ st; table_ := set_all (set_deviceInfo info) ids (table_ st) |}).
Proof.
  revert calls st. induction ids as [|c ids IH]; intros calls st; cbn.
  - rewrite app_nil_r. by destruct st.
  - unfold mbind, SE_bind in *. cbn. rewrite IH. cbn. by rewrite <-app_assoc.
Qed.

Lemma meta_task_spec s st :
  meta_task s st =
  match meta_parse s with
  | Some (ip, info) =>
      ((λ c, UpdateSensorInfo (fromStdString c) info) <$> matching ip st,
       {| data_ := data_ st; table_ := set_all (set_deviceInfo info) (matching ip st) (table_ st) |})
  | None => ([], st)
  end.
Proof.
  unfold meta_task, caught, meta_body, meta_parse. destruct (is_object _); cbn [negb]; [|done].
  unfold mbind, SE_bind, se_lift, se_get. cbn.
  destruct (value_string _ _ _) as [ip|e]; [|done]. destruct (str_empty ip); [done|].
  destruct (contains _ _ && is_array _); [|done]. destruct (last _) as [latest|]; [|done]. cbn.
  do 4 (destruct (value_double latest _ _) as [?|?]; [|done]).
  match goal with |- context [se_fold _ _ _ st] =>
    pose proof (λ info, meta_loop info (matching ip st) [] st) as Hl end.
  unfold mbind, SE_bind in Hl. cbn in Hl. by rewrite Hl.
Qed.

Lemma ai_loop info ids calls st :
  se_fold (E := exn) (λ cid calls,
      _ ← se_modify (updateAiInfo cid info); mret (calls : list gui_call)) ids calls st
  = (Ret calls, {| data_ := data_ st; table_ := set_all (set_aiInfo info) ids (table_ st) |}).
Proof.
  revert st. induction ids as [|c ids IH]; intros st; cbn; [by destruct st|].
  unfold mbind, SE_bind in *. cbn. by rewrite IH.
Qed.

(** The AI task stores one count for each selected camera, or does nothing. *)
Lemma ai_task_spec s st :
  ai_task s st =
  ([], match ai_parse s with
       | Some (ip, count) =>
           {| data_ := data_ st;
              table_ := set_all (set_aiInfo {| Img := []; personCount := [count] |}) (matching ip st) (table_ st) |}
       | None => st
       end).
Proof.
  unfold ai_task, caught, ai_body, ai_parse. destruct (is_object _); cbn [negb]; [|done].
  unfold mbind, SE_bind, se_lift, se_get. cbn.
  destruct (value_string _ _ _) as [ip|e]; [|done]. destruct (str_empty ip); [done|].
  destruct (contains _ _); [|done]. destruct (value_int _ _ _) as [n|e]; [|done].
  pose proof (ai_loop {| Img := []; personCount := [n] |} (matching ip st) [] st) as Hl.
  unfold mbind, SE_bind in Hl. cbn in Hl. by rewrite Hl.
Qed.

Lemma ai_parse_ip s ip count : ai_parse s = Some (ip, count) → ip ≠ "".
Proof.
  unfold ai_parse. destruct (is_object _); [|done]. destruct (value_string _ _ _) as [ip'|]; [|done].
  destruct (str_empty ip') eqn:Hip; [done|]. destruct (contains _ _); [|done].
  destruct (value_int _ _ _); [|done]. intros [= <- _]. by apply str_empty_false.
Qed.

Lemma matching_spec ip st c :
  c ∈ matching ip st ↔ (∃ d, d ∈ data_ st ∧ cd_cameraId d = c) ∧ ∃ t, c = ip +:+ t.
Proof.
  unfold matching. rewrite list_elem_of_filter, starts_with_iff, list_elem_of_fmap.
  unfold CameraStore.snapshot. split.
  - intros (Hs & d & -> & Hd). split; [|done].
    apply list_elem_of_In, in_map_iff in Hd as (d0 & <- & Hd0). exists d0.
    split; [by apply list_elem_of_In|]. unfold with_table_info. by case_match.
  - intros ((d & Hd & <-) & Hs). split; [done|]. exists (with_table_info (table_ st) d).
    split; [unfold with_table_info; by case_match|]. apply list_elem_of_In, in_map_iff.
    exists d. by rewrite <-list_elem_of_In.
Qed.
End tasks.

(** ** Properties *)

(** C25. Updates reach the model: for a bound store and any number of workers, in
    every reachable state the updates made are exactly those shown, queued for
    the GUI thread or about to be posted, and the store holds the last update
    made; with one worker their order is kept, so that when nothing is left the
    last update the model was given is what the store holds. *)
Theorem core_updates {Store Data Kind : Type} `{B : !Bound Store Data Kind, L : !BoundLaws B}
    (workers : nat) (st : Store) (ls : list bind_label) (b : Binding Store Data Kind) :
  bind_run workers ls (binding_initial st) = Some b →
  bk_shown b ++ bk_gui b ++ bk_posting b ≡ₚ bk_log b ∧
  (bk_terminated b = false → ∀ d, last (bk_log b) = Some d → bd_view (bk_store b) = d) ∧
  (workers = 1 →
    bk_shown b ++ bk_gui b ++ bk_posting b = bk_log b ∧
    (quiet b → bk_terminated b = false →
     ∀ d, last (bk_shown b) = Some d → bd_view (bk_store b) = d)).
Proof.
  intros H. destruct (bind_run_inv workers ls _ b (initial_inv workers st) H) as [Ha Ho _ Hv].
  split_and!; [done|done|]. intros Hw. split; [by apply Ho|]. intros (_ & Hp & Hg) Ht d Hd.
  apply Hv; [done|]. rewrite <-(Ho Hw), Hp, Hg. by rewrite !app_nil_r.
Qed.

Definition core_docs : list (string * jval) :=
  [("one", JArr [JObj [("ip", JStr "10.0.0.1"); ("is_online", JBool true)]]);
   ("two", JArr [JObj [("ip", JStr "10.0.0.1"); ("is_online", JBool false)]])].

#[local] Instance core_json : Json := RefJson core_docs.

Definition demo_binding (workers : nat) (ls : list bind_label)
    : option (Binding CameraStore (list CameraData) unit) :=
  bind_run workers ls (binding_initial CameraStore0).

Lemma core_updates_witness :
  match demo_binding 1 [Packet tt "one"; Packet tt "two"; Take; Post 0; Gui; Take; Post 0; Gui] with
  | Some b => length (bk_shown b) = 2 ∧
              ∀ d, last (bk_shown b) = Some d → bd_view (bk_store b) = d
  | None => False
  end.
Proof.
  destruct (demo_binding _ _) as [b|] eqn:Hb; [|by vm_compute in Hb].
  pose proof Hb as Hc. vm_compute in Hc. split; [by injection Hc as <-|].
  destruct (core_updates 1 CameraStore0 _ b Hb) as (_ & _ & H).
  apply H; [done| |]; by injection Hc as <-.
Defined.

(** The race of the callbacks: with two or more workers, for any two packets
    whose updates succeed there is a run in which the second update is made
    last but posted first: when nothing is left, the store holds the second
    packet's data and the model was given the first's last, so it shows old
    data until the next packet. *)
Theorem core_update_race {Store Data Kind : Type} `{B : !Bound Store Data Kind, L : !BoundLaws B}
    (workers : nat) (st st1 st2 : Store) (k1 k2 : Kind) (s1 s2 : string) (d1 d2 : Data) :
  2 ≤ workers →
  bd_run k1 s1 st = (Ret (Some d1), st1) → bd_run k2 s2 st1 = (Ret (Some d2), st2) →
  ∃ ls b, bind_run workers ls (binding_initial st) = Some b ∧ quiet b ∧
    bk_terminated b = false ∧ bk_log b = [d1; d2] ∧ bk_shown b = [d2; d1] ∧
    bd_view (bk_store b) = d2.
Proof.
  intros Hw H1 H2. eexists [Packet k1 s1; Packet k2 s2; Take; Take; Post 1; Post 0; Gui; Gui], _.
  assert (bd_view st2 = d2) as Hv by (by apply (bound_some k2 s2 st1)).
  cbn. rewrite decide_True by lia. unfold run_update. cbn. rewrite H1. cbn.
  rewrite decide_True by lia. cbn. rewrite H2. cbn.
  split; [reflexivity|]. by split_and!.
Qed.

Lemma core_update_race_witness :
  let run := λ s st, CameraStore.updateFromJson (J := core_json) s true st in
  let d1 := map snd [("", default CameraData0 (data_ (run "one" CameraStore0).2 !! 0))] in
  let d2 := map snd [("", default CameraData0 (data_ (run "two" CameraStore0).2 !! 0))] in
  d1 ≠ d2 ∧
  ∃ ls b, bind_run (B := camera_bound (J := core_json)) 2 ls (binding_initial CameraStore0) = Some b ∧ quiet b ∧
    bk_terminated b = false ∧ bk_log b = [d1; d2] ∧ bk_shown b = [d2; d1] ∧
    bd_view (bk_store b) = d2.
Proof.
  cbn zeta. split; [by vm_compute|].
  apply (core_update_race (B := camera_bound (J := core_json)) 2 CameraStore0
    (CameraStore.updateFromJson (J := core_json) "one" true CameraStore0).2
    (CameraStore.updateFromJson (J := core_json) "two" true
       (CameraStore.updateFromJson (J := core_json) "one" true CameraStore0).2).2 tt tt "one" "two").
  - lia.
  - vm_compute. reflexivity.
  - vm_compute. reflexivity.
Defined.

(** Shutdown leaves tasks without their store: the stores are reset before the
    pool, which still runs its queue; so from any state with a task queued, once
    the store is destroyed, every run that gets to the end of the queue has run
    a task on the destroyed store. *)
Theorem core_shutdown_dangles {Store Data Kind : Type} `{B : !Bound Store Data Kind}
    (workers : nat) (ls : list bind_label) (b b' : Binding Store Data Kind) :
  bk_queue b ≠ [] → bind_run workers (Destroy :: ls) b = Some b' → bk_queue b' = [] →
  bk_dangling b' = true.
Proof.
  intros Hq H He. cbn in H. unfold bind_exec in H. destruct (bk_terminated b); [done|]. cbn in H.
  destruct (bind_run_dead workers ls (destroy_store b) b') as [?|?]; [done|by left|done|done|done].
Qed.

Lemma core_shutdown_dangles_witness :
  let b := default (binding_initial CameraStore0) (demo_binding 2 [Packet tt "one"]) in
  bk_dangling (default b (bind_run (B := camera_bound (J := core_json)) 2 [Destroy; Take] b)) = true.
Proof.
  cbn zeta.
  apply (core_shutdown_dangles (B := camera_bound) 2 [Take]
    (default (binding_initial CameraStore0) (demo_binding 2 [Packet tt "one"]))).
  - by vm_compute.
  - vm_compute. reflexivity.
  - vm_compute. reflexivity.
Defined.

(** META packets: the task never throws; a document without an address or a
    last sample changes nothing; otherwise exactly the listed cameras whose id
    begins with the address get the last sample's values, each is announced to
    the model in the order of the list, a snapshot then shows the values for
    them and what it showed for the others, and all else in the store stays.
    Cameras are selected by prefix, so the address of one device also selects
    the cameras of every device whose address it begins.  An AI packet never
    throws either and tells the model nothing: it leaves the store alone, or
    replaces the person count of the selected cameras by one number. *)
Theorem core_meta `{J : Json, T : QtText} (s : string) (st : CameraStore) :
  (let '(calls, st') := ai_task s st in
   calls = [] ∧
   (st' = st ∨ ∃ ip count, ip ≠ "" ∧ data_ st' = data_ st ∧ ∀ id,
      table_ st' !! id =
      if decide (id ∈ matching ip st)
      then Some (set_aiInfo {| Img := []; personCount := [count] |} (default CameraStruct0 (table_ st !! id)))
      else table_ st !! id)) ∧
  let '(calls, st') := meta_task s st in
  data_ st' = data_ st ∧
  match meta_parse s with
  | None => calls = [] ∧ st' = st
  | Some (ip, info) =>
      calls = (λ c, UpdateSensorInfo (fromStdString c) info) <$> matching ip st ∧
      (∀ id, table_ st' !! id =
             if decide (id ∈ matching ip st)
             then Some (set_deviceInfo info (default CameraStruct0 (table_ st !! id)))
             else table_ st !! id) ∧
      (∀ d more, d ∈ data_ st → cd_cameraId d = ip +:+ more → cd_cameraId d ∈ matching ip st)
  end.
Proof.
  split.
  { rewrite ai_task_spec. destruct (ai_parse s) as [[ip n]|] eqn:Hp; [|by split; [|left]].
    split; [done|]. right. exists ip, n. split_and!; [by eapply ai_parse_ip|done|]. intros id. by apply set_all_lookup. }
  rewrite meta_task_spec. destruct (meta_parse s) as [[ip info]|]; [|done]. cbn. split_and!; try done.
  - intros id. by apply set_all_lookup.
  - intros d more Hd Hid. apply matching_spec. split; [by exists d|by exists more].
Qed.

(** IMAGE packets: the first selected camera gets the picture, every later one
    what a moved-from string holds; without a selected camera the picture goes
    to stream 0 of the address; the store does not change. *)
Theorem core_image `{J : Json, T : QtText} (toBase64 : list byte → string) (moved_from : QString)
    (s : string) (jpeg : list byte) (st : CameraStore) :
  let '(calls, st') := image_task toBase64 moved_from s jpeg st in
  st' = st ∧
  (calls = [] ∨ ∃ ip name tid fi tf ts,
    let ids := match matching ip st with [] => [ip +:+ "/0"] | l => l end in
    ip ≠ "" ∧ length calls = length ids ∧
    ∀ i cid, ids !! i = Some cid →
      calls !! i = Some (ImageReceived (fromStdString cid) name tid fi tf ts
                           (if decide (i = 0) then "data:image/jpeg;base64," +:+ toBase64 jpeg
                            else moved_from))).
Proof.
  unfold image_task, caught, image_body, mbind, SE_bind, se_lift, se_get. cbn.
  destruct (json_parse_throw s) as [parsed|e]; [|by split; [|left]].
  destruct (value_string parsed "ip" "") as [ip|e]; [|by split; [|left]].
  destruct (str_empty ip) eqn:Hip; [by split; [|left]|].
  destruct (value_string parsed "device_id" "") as [dev|e]; [|by split; [|left]].
  destruct (value_int parsed "track_id" 0) as [tid|e]; [|by split; [|left]].
  destruct (value_int parsed "frame_index" 0) as [fi|e]; [|by split; [|left]].
  destruct (value_int parsed "total_frames" 0) as [tf|e]; [|by split; [|left]].
  destruct (value_i64 parsed _ _) as [ts|e]; [|by split; [|left]].
  cbn. split; [done|]. right. eexists ip, _, _, _, _, _. apply str_empty_false in Hip.
  cbn zeta. generalize (match matching ip st with [] => [ip +:+ "/0"] | l => l end). intros ids.
  assert (∀ b64 n a1 a2 a3 a4, length (image_calls moved_from ids n a1 a2 a3 a4 b64) = length ids ∧
    ∀ i cid, ids !! i = Some cid →
      image_calls moved_from ids n a1 a2 a3 a4 b64 !! i
      = Some (ImageReceived (fromStdString cid) n a1 a2 a3 a4 (if decide (i = 0) then b64 else moved_from)))
    as H.
  { induction ids as [|c ids IH]; intros b64 n a1 a2 a3 a4; cbn; [done|].
    destruct (IH moved_from n a1 a2 a3 a4) as [Hl Hi]. split; [by rewrite Hl|].
    intros [|i] cid; cbn; [by intros [= ->]|]. intros Hcid.
    specialize (Hi i cid Hcid). by case_decide. }
  destruct (H ("data:image/jpeg;base64," +:+ toBase64 jpeg) (fromStdString dev) tid fi tf ts) as [Hl Hi].
  by split_and!.
Qed.
