(* ===== verification/Gui.v ===== *)
(** * The GUI thread (src/Core.cpp)

    All models, the video manager and the controllers live on the GUI thread, which
    runs one event at a time: updates the pool's tasks posted, calls from QML, and
    signals of the bridge.  This file composes them as [Core] constructs and connects
    them: the signals of the camera model reach the video manager, a new frame rate
    reaches the workers, and a logout runs the slots connected to it, in the order of
    the connections.  What the event finds of other threads is in [Now].  The calls an
    event makes on the network service are among its results; that the first call of a
    logout comes before anything is cleared, and what a call waits for, is in
    [Application.v]. *)

From S2P Require Import Prelude Extern Variant CameraStore ServerStatusStore DeviceStore Alarm MessageProcessor.
From S2P Require Import NetworkService CameraModel CameraIds DeviceModel UserModel Settings AiImageModel ServerStatusModel.
From S2P Require Import NetworkBridge Auth Video VideoWorker VideoManager VideoWiring Core.

(** ** State *)

Record Gui : Type := {
  settingsController_ : SettingsController;
  qsettings : Store;                    (* of the settings *)
  auth_ : Controllers;                  (* login_ and signup_ *)
  cameraModel_ : CameraModel;
  deviceModel_ : DeviceModel;
  serverStatus_ : ServerStatusModel;
  userModel_ : UserModel;
  aiImageModel_ : AiImageModel;
  videoManager_ : VideoManager;
  alarms_ : list AlarmEntry             (* of alarmController_ *)
}.

Definition set_settings (c : SettingsController) (s : Store) (g : Gui) : Gui := {|
  settingsController_ := c; qsettings := s; auth_ := auth_ g; cameraModel_ := cameraModel_ g;
  deviceModel_ := deviceModel_ g; serverStatus_ := serverStatus_ g; userModel_ := userModel_ g;
  aiImageModel_ := aiImageModel_ g; videoManager_ := videoManager_ g; alarms_ := alarms_ g
|}.

Definition set_auth (a : Controllers) (g : Gui) : Gui := {|
  settingsController_ := settingsController_ g; qsettings := qsettings g; auth_ := a; cameraModel_ := cameraModel_ g;
  deviceModel_ := deviceModel_ g; serverStatus_ := serverStatus_ g; userModel_ := userModel_ g;
  aiImageModel_ := aiImageModel_ g; videoManager_ := videoManager_ g; alarms_ := alarms_ g
|}.

Definition set_cameras (c : CameraModel) (g : Gui) : Gui := {|
  settingsController_ := settingsController_ g; qsettings := qsettings g; auth_ := auth_ g; cameraModel_ := c;
  deviceModel_ := deviceModel_ g; serverStatus_ := serverStatus_ g; userModel_ := userModel_ g;
  aiImageModel_ := aiImageModel_ g; videoManager_ := videoManager_ g; alarms_ := alarms_ g
|}.

Definition set_video (m : VideoManager) (g : Gui) : Gui := {|
  settingsController_ := settingsController_ g; qsettings := qsettings g; auth_ := auth_ g;
  cameraModel_ := cameraModel_ g; deviceModel_ := deviceModel_ g; serverStatus_ := serverStatus_ g;
  userModel_ := userModel_ g; aiImageModel_ := aiImageModel_ g; videoManager_ := m; alarms_ := alarms_ g
|}.

(** The models that only show: devices, server, users, pictures and alarms. *)
Definition set_views (d : DeviceModel) (s : ServerStatusModel) (u : UserModel) (i : AiImageModel)
    (a : list AlarmEntry) (g : Gui) : Gui := {|
  settingsController_ := settingsController_ g; qsettings := qsettings g; auth_ := auth_ g;
  cameraModel_ := cameraModel_ g; deviceModel_ := d; serverStatus_ := s; userModel_ := u; aiImageModel_ := i;
  videoManager_ := videoManager_ g; alarms_ := a
|}.

(** What an event finds: the camera store, which tasks of the pool write, what the
    decode threads went through when they are joined, by signal, and the time. *)
Record Now : Type := { store_now : CameraStore; threads_now : nat → Threads; clock_now : Z }.

(** What a decode thread was through, until it sees the stop flag. *)
Definition seen_stop (n : Now) : Now := {|
  store_now := store_now n; threads_now := λ k i, then_stop (threads_now n k i); clock_now := clock_now n
|}.

(** [Config::SERVER_PORT] *)
Definition SERVER_PORT : string := "20000".

(** ** Construction and events *)
Section gui.
Context `{T : QtText, H : QtHash, Q : QtMap, V : QtVideo, W : QtVariant, K : QtJson, P : QtParse, F : QtFiles}.

(** [constructLayer2], on the stored settings. *)
Definition constructLayer2 (s : Store) : Gui :=
  let settings := SettingsController_ctor s in
  let ip := serverIp_ settings in
  {| settingsController_ := settings; qsettings := s;
     auth_ := {| login_ := LoginController_ctor true ip (fromStdString SERVER_PORT);
                 signup_ := SignupController_ctor true ip (fromStdString SERVER_PORT) |};
     cameraModel_ := CameraModel0; deviceModel_ := DeviceModel0; serverStatus_ := ServerStatusModel0;
     userModel_ := UserModel0; aiImageModel_ := ∅; videoManager_ := VideoManager0; alarms_ := [] |}.

(** The camera model has changed and emitted [sigs]. *)
Definition cameras_changed (n : Now) (r : CameraModel * list model_signal) (g : Gui) : option Gui :=
  '(v, _) ← on_model_signals (core_providers (store_now n) (settingsController_ g)) (threads_now n) r.2
              (videoManager_ g);
  Some (set_video v (set_cameras r.1 g)).

(** [fpsChanged] of the settings. *)
Fixpoint settings_signals (sigs : list settings_signal) (g : Gui) : option Gui :=
  match sigs with
  | [] => Some g
  | FpsChanged :: rest =>
      '(v, _) ← VideoManager.setFpsLimit (fps_ (settingsController_ g)) (videoManager_ g);
      settings_signals rest (set_video v g)
  | _ :: rest => settings_signals rest g
  end.

(** The slots of [logoutRequested], with the calls on the service. *)
Definition logout_requested (n : Now) (g : Gui) : option (Gui * list svc_call) :=
  let calls := NetworkBridge.disconnect in
  let g1 := set_views (deviceModel_ g) (serverStatus_ g) (UserModel.clearAll (userModel_ g)).1 (aiImageModel_ g)
              (alarms_ g) g in
  '(v, _) ← VideoManager.clearAll (threads_now n 0) (videoManager_ g1);
  let g2 := set_video v g1 in
  g3 ← cameras_changed n (CameraModel.clearAll (cameraModel_ g2)) g2;
  Some (set_views (DeviceModel.clearAll (deviceModel_ g3)).1 (serverStatus_ g3) (userModel_ g3)
          (AiImageModel.clearAll (aiImageModel_ g3)) (Alarm.clearAll (alarms_ g3)).1 g3, calls).

(** The outputs of the controllers, in order. *)
Fixpoint auth_outputs (n : Now) (outs : list auth_out) (g : Gui) : option (Gui * list svc_call) :=
  match outs with
  | [] => Some (g, [])
  | LogoutRequested :: rest =>
      '(g1, c1) ← logout_requested n g; '(g2, c2) ← auth_outputs n rest g1; Some (g2, c1 ++ c2)
  | Call c :: rest => '(g2, c2) ← auth_outputs n rest g; Some (g2, c :: c2)
  | _ :: rest => auth_outputs n rest g
  end.

Inductive gui_event : Type :=
| OnCameras (op : model_op)                      (* from the camera store or from QML *)
| OnDevices (snapshot : list DeviceIntegrated)
| OnServer (d : ServerStatusData)
| OnPending (json : QString)
| OnCall (c : gui_call)                          (* posted by a META or IMAGE task *)
| OnAlarmEvent (ev : AlarmEvent)
| OnDismiss (id : Z)
| OnClearAlarms
| OnSettings (op : settings_op)
| OnAuth (e : auth_event)
| OnFrame (i : worker_id) (p : FramePayload).    (* by the decode thread of a worker *)

Definition gui_exec (n : Now) (e : gui_event) (g : Gui) : option (Gui * list svc_call) :=
  match e with
  | OnCameras op => g' ← cameras_changed n (CameraModel.run_op op (cameraModel_ g)) g; Some (g', [])
  | OnDevices snapshot =>
      '(d, _) ← DeviceModel.onStoreUpdated snapshot (deviceModel_ g);
      Some (set_views d (serverStatus_ g) (userModel_ g) (aiImageModel_ g) (alarms_ g) g, [])
  | OnServer d =>
      Some (set_views (deviceModel_ g) (ServerStatusModel.onStoreUpdated d (serverStatus_ g)) (userModel_ g)
              (aiImageModel_ g) (alarms_ g) g, [])
  | OnPending json =>
      Some (set_views (deviceModel_ g) (serverStatus_ g) (onPendingListReceived json (userModel_ g)).1
              (aiImageModel_ g) (alarms_ g) g, [])
  | OnCall (UpdateSensorInfo cid info) =>
      g' ← cameras_changed n (updateSensorInfo cid (hum info) (light info) (tilt info) (tmp info) (cameraModel_ g)) g;
      Some (g', [])
  | OnCall (ImageReceived cid dev tr fr tot ts img) =>
      Some (set_views (deviceModel_ g) (serverStatus_ g) (userModel_ g)
              (onImageReceivedBase64 cid dev tr fr tot ts img (aiImageModel_ g)).1 (alarms_ g) g, [])
  | OnAlarmEvent ev =>
      Some (set_views (deviceModel_ g) (serverStatus_ g) (userModel_ g) (aiImageModel_ g)
              (onAlarm (clock_now n) ev (alarms_ g)).1 g, [])
  | OnDismiss id =>
      Some (set_views (deviceModel_ g) (serverStatus_ g) (userModel_ g) (aiImageModel_ g)
              (dismiss id (alarms_ g)).1 g, [])
  | OnClearAlarms =>
      Some (set_views (deviceModel_ g) (serverStatus_ g) (userModel_ g) (aiImageModel_ g)
              (Alarm.clearAll (alarms_ g)).1 g, [])
  | OnSettings op =>
      let '((c, s), sigs) := settings_exec op (settingsController_ g, qsettings g) in
      g' ← settings_signals sigs (set_settings c s g); Some (g', [])
  | OnAuth e =>
      let '(a, outs) := auth_handle e (auth_ g) in auth_outputs n outs (set_auth a g)
  | OnFrame i p => '(v, _) ← deliver i p (videoManager_ g); Some (set_video v g, [])
  end.

Fixpoint gui_run (es : list (Now * gui_event)) (g : Gui) : option (Gui * list svc_call) :=
  match es with
  | [] => Some (g, [])
  | (n, e) :: rest => '(g1, c1) ← gui_exec n e g; '(g2, c2) ← gui_run rest g1; Some (g2, c1 ++ c2)
  end.
End gui.

(** ** Lemmas *)
Section lemmas.
Context `{T : QtText, H : QtHash, Q : QtMap, V : QtVideo, W : QtVariant, K : QtJson, P : QtParse, F : QtFiles}.

(** What holds between events. *)
Record gui_ok (g : Gui) : Prop := {
  go_cameras : model_inv (cameraModel_ g);
  go_video : manager_inv (videoManager_ g);
  go_follows : follows (cameraModel_ g) (videoManager_ g);
  go_devices : indexed (deviceModel_ g)
}.

Lemma constructLayer2_ok s : gui_ok (constructLayer2 s).
Proof.
  split; [apply model0_inv|apply manager0_inv| |done].
  split; [done|]. intros e He. by apply not_elem_of_nil in He.
Qed.

Lemma set_views_ok d s u i a g : gui_ok g → indexed d → gui_ok (set_views d s u i a g).
Proof. by intros []. Qed.

Lemma set_auth_ok a g : gui_ok g → gui_ok (set_auth a g).
Proof. by intros []. Qed.

Lemma cameras_changed_ok n r g g' :
  manager_inv (videoManager_ g) → follows (cameraModel_ g) (videoManager_ g) → indexed (deviceModel_ g) →
  model_inv r.1 → announces (cameraModel_ g) r → cameras_changed n r g = Some g' →
  gui_ok g' ∧ deviceModel_ g' = deviceModel_ g ∧ keeps_workers (videoManager_ g) (videoManager_ g').
Proof.
  intros Hm Hf Hd Hi Ha. unfold cameras_changed. intros ([v s] & Hv & [= <-])%bind_Some.
  destruct (announced_follows _ _ _ _ _ _ _ Hm Hf Ha Hv) as (Hm' & Hf' & Hk). by split.
Qed.

Lemma run_op_changed n op g g' :
  gui_ok g → cameras_changed n (CameraModel.run_op op (cameraModel_ g)) g = Some g' →
  gui_ok g' ∧ keeps_workers (videoManager_ g) (videoManager_ g').
Proof.
  intros [] Hc. apply cameras_changed_ok in Hc as (Hg & _ & Hk); try done; [by apply run_op_inv|].
  apply run_op_announces.
Qed.

Lemma cameras_changed_returns n r g :
  manager_inv (videoManager_ g) →
  is_Some (cameras_changed (seen_stop n) r g).
Proof.
  intros Hm. unfold cameras_changed. cbn.
  destruct (signals_return (core_providers (store_now n) (settingsController_ g)) (threads_now n) r.2 _ Hm)
    as [[v s] ->]. by eexists.
Qed.

(** The fields an operation on the workers leaves. *)
Lemma same_workers_follows c m m' :
  follows c m → workers_ m' = workers_ m → slotToCameraId_ m' = slotToCameraId_ m → follows c m'.
Proof. intros [Hs Hw] E1 E2. split; [by rewrite E2|]. rewrite E1. exact Hw. Qed.

Lemma set_video_ok m g :
  gui_ok g → manager_inv m → workers_ m = workers_ (videoManager_ g) →
  slotToCameraId_ m = slotToCameraId_ (videoManager_ g) → gui_ok (set_video m g).
Proof. intros [] Hm E1 E2. split; cbn; try done. by eapply same_workers_follows. Qed.

Lemma settings_signals_ok sigs g : gui_ok g → ∃ g', settings_signals sigs g = Some g' ∧ gui_ok g'.
Proof.
  revert g. induction sigs as [|sig sigs IH]; intros g Hg; [by exists g|].
  destruct sig; cbn; try by apply IH.
  destruct (setFpsLimit_spec (fps_ (settingsController_ g)) _ (go_video _ Hg)) as (m & -> & Hm & E1 & E2 & _).
  cbn. by apply IH, set_video_ok.
Qed.

Lemma settings_signals_cameras sigs g g' : settings_signals sigs g = Some g' → cameraModel_ g' = cameraModel_ g.
Proof.
  revert g. induction sigs as [|sig sigs IH]; intros g; [by intros [= <-]|].
  destruct sig; cbn; try apply IH. by intros ([v s] & _ & ->%IH)%bind_Some.
Qed.

(** The state after the slots of a logout. *)
Record cleared (g g' : Gui) : Prop := {
  cl_cameras : cameraModel_ g' = CameraModel0;
  cl_devices : deviceModel_ g' = DeviceModel0;
  cl_users : userModel_ g' = UserModel0;
  cl_images : aiImageModel_ g' = ∅;
  cl_alarms : alarms_ g' = [];
  cl_heap : heap (videoManager_ g') = ∅;
  cl_workers : workers_ (videoManager_ g') = ∅;
  cl_slots : slotToCameraId_ (videoManager_ g') = ∅;
  cl_server : serverStatus_ g' = serverStatus_ g;
  cl_settings : settingsController_ g' = settingsController_ g ∧ qsettings g' = qsettings g;
  cl_auth : auth_ g' = auth_ g
}.

Lemma empty_signals env tss m :
  on_model_signals env tss (CameraModel.clearAll CameraModel0).2 m = Some (set_slots ∅ m, []).
Proof. done. Qed.

Lemma alarms_cleared l : (Alarm.clearAll l).1 = [].
Proof. by destruct l. Qed.

Lemma logout_requested_spec n g g' calls :
  gui_ok g → logout_requested n g = Some (g', calls) → gui_ok g' ∧ cleared g g' ∧ calls = NetworkBridge.disconnect.
Proof.
  intros Hg. unfold logout_requested.
  intros ([v s] & Hv & (g3 & H3 & [= <- <-])%bind_Some)%bind_Some.
  apply clearAll_heap in Hv as (E1 & E2 & E3 & _ & _ & Hm); [|by destruct Hg].
  unfold cameras_changed in H3. change (CameraModel.clearAll (cameraModel_ _)) with (CameraModel.clearAll CameraModel0) in H3.
  rewrite empty_signals in H3. injection H3 as <-. split_and!; [| |done].
  - split; cbn; [apply model0_inv|by destruct Hm| |done]. split; [done|].
    intros e He. by apply not_elem_of_nil in He.
  - split; cbn; try done. apply alarms_cleared.
Qed.

Lemma logout_requested_returns n g :
  gui_ok g →
  is_Some (logout_requested (seen_stop n) g).
Proof.
  intros Hg. unfold logout_requested. cbn [threads_now seen_stop].
  destruct (clearAll_returns (threads_now n 0) (videoManager_ g) (go_video _ Hg)) as [[v s] Hv].
  cbn [videoManager_ set_views]. rewrite Hv. cbn. by eexists.
Qed.

Lemma auth_outputs_ok n outs g g' calls :
  gui_ok g → auth_outputs n outs g = Some (g', calls) → gui_ok g'.
Proof.
  revert g calls. induction outs as [|o outs IH]; intros g calls Hg; cbn; [by intros [= <- _]|].
  destruct o; try by apply IH.
  - intros ([g2 c2] & H2 & [= -> _])%bind_Some. by eapply IH.
  - intros ([g1 c1] & H1 & ([g2 c2] & H2 & [= -> _])%bind_Some)%bind_Some.
    apply logout_requested_spec in H1 as (Hg1 & _); [|done]. by eapply IH.
Qed.

Lemma auth_outputs_returns n outs g :
  gui_ok g →
  is_Some (auth_outputs (seen_stop n) outs g).
Proof.
  revert g. induction outs as [|o outs IH]; intros g Hg; cbn; [by eexists|].
  destruct o; try by apply IH.
  - destruct (IH g Hg) as [[g2 c2] ->]. by eexists.
  - destruct (logout_requested_returns n g Hg) as [[g1 c1] H1]. rewrite H1. cbn.
    apply logout_requested_spec in H1 as (Hg1 & _); [|done].
    destruct (IH g1 Hg1) as [[g2 c2] ->]. by eexists.
Qed.

Lemma deliver_same i p m m' sigs :
  deliver i p m = Some (m', sigs) → workers_ m' = workers_ m ∧ slotToCameraId_ m' = slotToCameraId_ m.
Proof. unfold deliver. by intros (w & _ & ([w' o] & _ & [= <- _])%bind_Some)%bind_Some. Qed.

Lemma gui_exec_ok n e g g' calls : gui_ok g → gui_exec n e g = Some (g', calls) → gui_ok g'.
Proof.
  intros Hg. destruct e as [op|snap|d|json|[cid info|cid dev tr fr tot ts img]|ev|id| |op|e|i p]; cbn [gui_exec].
  - intros (g1 & H1 & [= <- _])%bind_Some. by eapply run_op_changed.
  - destruct (run_op_indexed (DStoreUpdated snap) _ (go_devices _ Hg)) as (d & s & H1 & Hd). cbn in H1.
    rewrite H1. intros [= <- _]. by apply set_views_ok.
  - intros [= <- _]. apply set_views_ok; by destruct Hg.
  - intros [= <- _]. apply set_views_ok; by destruct Hg.
  - intros (g1 & H1 & [= <- _])%bind_Some.
    eapply (run_op_changed n (OpSensor cid (hum info) (light info) (tilt info) (tmp info))); done.
  - intros [= <- _]. apply set_views_ok; by destruct Hg.
  - intros [= <- _]. apply set_views_ok; by destruct Hg.
  - intros [= <- _]. apply set_views_ok; by destruct Hg.
  - intros [= <- _]. apply set_views_ok; by destruct Hg.
  - destruct (settings_exec op (settingsController_ g, qsettings g)) as [[c s] sigs]. intros (g1 & H1 & [= <- _])%bind_Some.
    destruct (settings_signals_ok sigs (set_settings c s g)) as (g2 & H2 & Hg2); [by destruct Hg|].
    rewrite H2 in H1. by injection H1 as <-.
  - destruct (auth_handle e (auth_ g)) as [a outs]. by apply auth_outputs_ok, set_auth_ok.
  - intros ([v s] & Hv & [= <- _])%bind_Some.
    assert (manager_exec (Deliver i p) (videoManager_ g) = Some (v, s)) as He by done.
    apply manager_exec_inv in He; [|by destruct Hg].
    apply deliver_same in Hv as [E1 E2]. by apply set_video_ok.
Qed.

Lemma gui_run_ok es g g' calls : gui_ok g → gui_run es g = Some (g', calls) → gui_ok g'.
Proof.
  revert g calls. induction es as [|[n e] es IH]; intros g calls Hg; cbn; [by intros [= <- _]|].
  intros ([g1 c1] & H1 & ([g2 c2] & H2 & [= -> _])%bind_Some)%bind_Some.
  eapply IH; [|exact H2]. by eapply gui_exec_ok.
Qed.

(** Every event but a frame completes once the threads it joins see the stop flag. *)
Lemma gui_exec_returns n e g :
  gui_ok g → (∀ i p, e ≠ OnFrame i p) →
  is_Some (gui_exec (seen_stop n) e g).
Proof.
  intros Hg He. pose proof (go_video _ Hg) as Hm.
  destruct e as [op|snap|d|json|[cid info|cid dev tr fr tot ts img]|ev|id| |op|e|i p]; cbn [gui_exec]; try by eexists.
  - destruct (cameras_changed_returns n (CameraModel.run_op op (cameraModel_ g)) g Hm) as [g1 ->]. by eexists.
  - destruct (run_op_indexed (DStoreUpdated snap) _ (go_devices _ Hg)) as (d & s & H1 & _). cbn in H1.
    rewrite H1. by eexists.
  - match goal with |- context [cameras_changed _ ?r g] =>
      destruct (cameras_changed_returns n r g Hm) as [g1 ->] end. by eexists.
  - destruct (settings_exec op (settingsController_ g, qsettings g)) as [[c s] sigs].
    destruct (settings_signals_ok sigs (set_settings c s g)) as (g2 & -> & _); [by destruct Hg|]. by eexists.
  - destruct (auth_handle e (auth_ g)) as [a outs]. by apply auth_outputs_returns, set_auth_ok.
  - by destruct (He i p).
Qed.
(** *** The logout event *)

Lemma auth_outputs_plain n o outs g :
  o ≠ LogoutRequested → (∀ c, o ≠ Call c) → auth_outputs n (o :: outs) g = auth_outputs n outs g.
Proof. destruct o; intros H1 H2; try done. by destruct (H2 c). Qed.

Lemma auth_outputs_app n a b g :
  auth_outputs n (a ++ b) g
  = '(g1, c1) ← auth_outputs n a g; '(g2, c2) ← auth_outputs n b g1; Some (g2, c1 ++ c2).
Proof.
  revert g. induction a as [|o a IH]; intros g; cbn; [by destruct (auth_outputs n b g) as [[? ?]|]|].
  destruct o; try apply IH.
  - rewrite IH. destruct (auth_outputs n a g) as [[g1 c1]|]; cbn; [|done].
    by destruct (auth_outputs n b g1) as [[g2 c2]|].
  - destruct (logout_requested n g) as [[g1 c1]|]; cbn; [|done]. rewrite IH.
    destruct (auth_outputs n a g1) as [[g2 c2]|]; cbn; [|done].
    destruct (auth_outputs n b g2) as [[g3 c3]|]; cbn; [|done]. by rewrite app_assoc.
Qed.

(** Without a logout among them, the outputs are calls on the service. *)
Lemma auth_outputs_calls n outs g :
  LogoutRequested ∉ outs → ∃ calls, auth_outputs n outs g = Some (g, calls).
Proof.
  induction outs as [|o outs IH]; intros Hn; cbn; [by eexists|].
  apply not_elem_of_cons in Hn as [Ho Hn]. destruct (IH Hn) as [calls Hc].
  destruct o; rewrite ?Hc; try done; by eexists.
Qed.

Lemma logout_outputs l :
  ∃ outs, (logout l).2 = outs ++ [LogoutRequested] ∧ LogoutRequested ∉ outs ∧
    state_ (logout l).1 = "" ∧ username_ (logout l).1 = "".
Proof.
  unfold logout. destruct (setLoading false (lg_auth l)) as [a o1] eqn:Ha. cbn [clearError].
  exists (on_bridge (lg_auth l) disconnect ++ [stateChanged; usernameChanged] ++ o1
          ++ [isErrorChanged; errorMessageChanged]).
  split; [cbn [snd]; by rewrite <-!app_assoc|]. split; [|done].
  assert (LogoutRequested ∉ o1) as Ho by (unfold setLoading in Ha; destruct (Bool.eqb _ _); injection Ha as _ <-; set_solver).
  unfold on_bridge. destruct (bridge_ (lg_auth l)); set_solver.
Qed.

Lemma logout_exec n g g1 c1 :
  gui_ok g → gui_exec n (OnAuth ELogout) g = Some (g1, c1) →
  gui_ok g1 ∧ cleared (set_auth (auth_ g1) g) g1 ∧ state_ (login_ (auth_ g1)) = "" ∧
  username_ (login_ (auth_ g1)) = "" ∧ SvcDisconnect ∈ c1.
Proof.
  intros Hg Hx. pose proof (gui_exec_ok _ _ _ _ _ Hg Hx) as Hg1. split; [done|].
  cbn [gui_exec auth_handle] in Hx. unfold set_login in Hx.
  destruct (logout_outputs (login_ (auth_ g))) as (outs & Ho & Hn & Hst & Hun). rewrite Ho in Hx.
  rewrite auth_outputs_app in Hx.
  destruct (auth_outputs_calls n outs (set_auth {| login_ := (logout (login_ (auth_ g))).1; signup_ := signup_ (auth_ g) |} g) Hn)
    as [calls Hc].
  rewrite Hc in Hx. cbn [mbind option_bind auth_outputs] in Hx.
  apply bind_Some in Hx as ([g3 c3] & H3 & [= -> <-]).
  apply bind_Some in H3 as ([g4 c4] & H4 & [= -> <-]).
  apply logout_requested_spec in H4 as (_ & Hcl & ->); [|by destruct Hg].
  destruct Hcl. cbn in *. rewrite cl_auth0. split_and!; [by split|done|done|set_solver].
Qed.

(** *** Calls on the service *)

Definition call_of (o : auth_out) : option svc_call := match o with Call c => Some c | _ => None end.

Lemma auth_outputs_omap n outs g :
  LogoutRequested ∉ outs → auth_outputs n outs g = Some (g, omap call_of outs).
Proof.
  induction outs as [|o outs IH]; intros Hn; [done|]. apply not_elem_of_cons in Hn as [Ho Hn].
  cbn [auth_outputs omap list_omap]. destruct o; cbn [call_of]; rewrite ?(IH Hn); try done.
Qed.

Lemma omap_call_app (a b : list auth_out) : omap call_of (a ++ b) = omap call_of a ++ omap call_of b.
Proof. apply omap_app. Qed.

Lemma omap_call_calls (calls : list svc_call) : omap call_of (Call <$> calls) = calls.
Proof. induction calls as [|c calls IH]; [done|]. cbn. by f_equal. Qed.

Lemma omap_call_loading v a : omap call_of (setLoading v a).2 = [].
Proof. unfold setLoading. by destruct (Bool.eqb _ _). Qed.

(** A logout only disconnects, once or twice. *)
Lemma logout_calls n g g' calls :
  gui_exec n (OnAuth ELogout) g = Some (g', calls) →
  ∃ rest, calls = SvcDisconnect :: rest ∧ Forall (λ c, c = SvcDisconnect) rest.
Proof.
  cbn [gui_exec auth_handle]. unfold set_login.
  destruct (logout_outputs (login_ (auth_ g))) as (outs & Ho & Hn & _). pose proof Ho as Ho'.
  rewrite Ho, auth_outputs_app, (auth_outputs_omap n outs) by done. cbn [mbind option_bind auth_outputs].
  intros ([g3 c3] & H3 & [= _ <-])%bind_Some. apply bind_Some in H3 as ([g4 c4] & H4 & [= _ <-]).
  assert (c4 = [SvcDisconnect]) as ->.
  { revert H4. unfold logout_requested. by intros ([v s] & _ & (g5 & _ & [= _ <-])%bind_Some)%bind_Some. }
  assert (Forall (λ c, c = SvcDisconnect) (omap call_of outs)) as Hall.
  { assert (omap call_of ((logout (login_ (auth_ g))).2) = omap call_of outs) as <-
      by (rewrite Ho', omap_call_app; cbn; by rewrite app_nil_r).
    unfold logout. pose proof (omap_call_loading false (lg_auth (login_ (auth_ g)))) as Hl.
    destruct (setLoading _ _) as [a o]. cbn in Hl |- *. rewrite !omap_call_app. unfold on_bridge.
    destruct (bridge_ _); rewrite ?omap_call_calls; cbn; rewrite omap_call_app, Hl; cbn; by repeat constructor. }
  destruct (omap call_of outs) as [|c cs].
  - by exists [].
  - apply Forall_cons in Hall as [-> Hall]. exists (cs ++ [SvcDisconnect]). split; [done|].
    apply Forall_app. split; [done|by constructor].
Qed.

(** A login on a bridge without a connection asks for one, and remembers what it
    is to send. *)
Lemma login_calls id pw l :
  bridge_ (lg_auth l) = true → id ≠ "" → pw ≠ "" →
  omap call_of (login id pw false l).2 = connectToServer (host_ (lg_auth l)) (port_ (lg_auth l)) "login" ∧
  bridge_ (lg_auth (login id pw false l).1) = true ∧ lg_pendingId_ (login id pw false l).1 = id ∧
  lg_pendingPassword_ (login id pw false l).1 = pw.
Proof.
  intros Hb Hi Hp. unfold login. rewrite (proj2 (str_empty_false id)), (proj2 (str_empty_false pw)) by done.
  cbn [orb]. unfold begin_request. cbn. unfold setLoading. cbn.
  destruct (Bool.eqb _ _); cbn; rewrite Hb; cbn; by rewrite ?Hb.
Qed.

(** Only the command of the user asks for a logout. *)
Definition stays (o : list auth_out) : Prop := LogoutRequested ∉ o.

Lemma stays_app a b : stays a → stays b → stays (a ++ b).
Proof. unfold stays. set_solver. Qed.

Lemma stays_calls (calls : list svc_call) : stays (Call <$> calls).
Proof. unfold stays. set_solver. Qed.

Lemma stays_bridge a calls : stays (on_bridge a calls).
Proof. unfold on_bridge. destruct (bridge_ a); [apply stays_calls|apply not_elem_of_nil]. Qed.

Lemma stays_loading v a : stays (setLoading v a).2.
Proof. unfold setLoading, stays. destruct (Bool.eqb _ _); set_solver. Qed.

Lemma stays_begin a : stays (begin_request a).2.
Proof.
  unfold begin_request. cbn. pose proof (stays_loading true (clearError a).1) as Hl. cbn in Hl.
  destruct (setLoading _ _). cbn in *. unfold stays in *. set_solver.
Qed.

Lemma stays_login_connected l : stays (lg_onConnected l).2.
Proof. unfold lg_onConnected. destruct (_ && _); [apply stays_calls|apply not_elem_of_nil]. Qed.

Lemma stays_signup_connected c : stays (sg_onConnected c).2.
Proof. unfold sg_onConnected. destruct (_ && _); [apply stays_calls|apply not_elem_of_nil]. Qed.

Lemma stays_on_signal sig c : stays (on_signal sig c).2.
Proof.
  pose proof (λ l, stays_loading false (lg_auth l)) as Hl. pose proof (λ l, stays_loading false (sg_auth l)) as Hs.
  destruct sig; cbn [on_signal set_login set_signup snd]; try apply not_elem_of_nil.
  - apply stays_login_connected.
  - apply stays_signup_connected.
  - specialize (Hl (login_ c)). unfold handleLoginSuccess. destruct (setLoading _ _). cbn in *.
    apply stays_app; [done|]. unfold stays. set_solver.
  - specialize (Hl (login_ c)). unfold handleLoginFailed. destruct (setLoading _ _). cbn in *.
    do 2 (apply stays_app; [first [done|apply stays_bridge]|]). unfold stays. set_solver.
  - specialize (Hs (signup_ c)). unfold handleSignupSuccess. destruct (setLoading _ _). cbn in *.
    do 2 (apply stays_app; [first [done|apply stays_bridge]|]). unfold stays. set_solver.
  - specialize (Hs (signup_ c)). unfold handleSignupFailed. destruct (setLoading _ _). cbn in *.
    do 2 (apply stays_app; [first [done|apply stays_bridge]|]). unfold stays. set_solver.
Qed.

Lemma stays_on_signals sigs c : stays (on_signals sigs c).2.
Proof.
  unfold on_signals. assert (stays (c, @nil auth_out).2) as H0 by apply not_elem_of_nil.
  revert H0. generalize (c, @nil auth_out). induction sigs as [|sig sigs IH]; intros acc H0; [done|]. cbn.
  apply IH. pose proof (stays_on_signal sig acc.1) as Hs. destruct (on_signal sig acc.1) as [c1 o1]. cbn in *.
  by apply stays_app.
Qed.

Lemma stays_login id pw conn l : stays (login id pw conn l).2.
Proof.
  unfold login. destruct (_ || _); [cbn; unfold stays; set_solver|].
  pose proof (stays_begin (lg_auth l)) as Hb. destruct (begin_request (lg_auth l)) as [a o]. cbn in Hb.
  destruct (bridge_ a); [|done]. destruct conn; [|apply stays_app; [done|apply stays_calls]].
  match goal with |- context [lg_onConnected ?l'] => pose proof (stays_login_connected l') as Hc end.
  destruct (lg_onConnected _). by apply stays_app.
Qed.

Lemma stays_signup id em pw conn c : stays (signup id em pw conn c).2.
Proof.
  unfold signup. destruct (_ || _); [cbn; unfold stays; set_solver|].
  pose proof (stays_begin (sg_auth c)) as Hb. destruct (begin_request (sg_auth c)) as [a o]. cbn in Hb.
  destruct (bridge_ a); [|done]. destruct conn; [|apply stays_app; [done|apply stays_calls]].
  match goal with |- context [sg_onConnected ?l'] => pose proof (stays_signup_connected l') as Hc end.
  destruct (sg_onConnected _). by apply stays_app.
Qed.

Lemma auth_stays e c : e ≠ ELogout → stays (auth_handle e c).2.
Proof.
  intros He. destruct e; cbn [auth_handle set_login set_signup snd].
  - apply stays_login.
  - apply stays_signup.
  - done.
  - apply stays_on_signals.
  - apply stays_on_signals.
Qed.

(** *** What keeps the grid *)

(** Events that take no camera out of the grid. *)
Definition keeps_grid (e : gui_event) : Prop := e ≠ OnCameras OpClear ∧ e ≠ OnAuth ELogout.

Lemma gui_exec_keeps n e g g' calls :
  gui_ok g → keeps_grid e → gui_exec n e g = Some (g', calls) →
  ∀ id, id ∈ grid_ids (cameraModel_ g) → id ∈ grid_ids (cameraModel_ g').
Proof.
  assert (∀ n r g g', cameras_changed n r g = Some g' → cameraModel_ g' = r.1) as Hcc.
  { intros n0 r g0 g0'. unfold cameras_changed. by intros ([v s] & _ & [= <-])%bind_Some. }
  intros Hg [Hk1 Hk2].
  destruct e as [op|snap|d|json|[cid info|cid dev tr fr tot ts img]|ev|id| |op|e|i p]; cbn [gui_exec].
  - intros (g1 & Hc%Hcc & [= <- _])%bind_Some. rewrite Hc. intros id.
    apply run_op_keeps_ids; [by destruct Hg|congruence].
  - by intros ([d s] & _ & [= <- _])%bind_Some.
  - by intros [= <- _].
  - by intros [= <- _].
  - intros (g1 & Hc%Hcc & [= <- _])%bind_Some. rewrite Hc. intros id.
    apply (run_op_keeps_ids (OpSensor cid (hum info) (light info) (tilt info) (tmp info))); [by destruct Hg|done].
  - by intros [= <- _].
  - by intros [= <- _].
  - by intros [= <- _].
  - by intros [= <- _].
  - destruct (settings_exec op (settingsController_ g, qsettings g)) as [[c s] sigs].
    intros (g1 & H1 & [= <- _])%bind_Some id. apply settings_signals_cameras in H1. by rewrite H1.
  - pose proof (auth_stays e (auth_ g)) as Hs. destruct (auth_handle e (auth_ g)) as [a outs]. intros Ho.
    destruct (auth_outputs_calls n outs (set_auth a g)) as [c Hc]; [apply Hs; congruence|].
    rewrite Hc in Ho. by injection Ho as <- _.
  - by intros ([v s] & _ & [= <- _])%bind_Some.
Qed.

(** Rows are added to the grid for the cameras of an update only. *)
Lemma gui_exec_grid n e g g' calls id :
  gui_ok g → gui_exec n e g = Some (g', calls) → id ∈ grid_ids (cameraModel_ g') →
  id ∈ grid_ids (cameraModel_ g) ∨
  ∃ snap cam, e = OnCameras (OpStore snap) ∧ cam ∈ snap ∧ id = fromStdString (cd_cameraId cam).
Proof.
  assert (∀ n r g g', cameras_changed n r g = Some g' → cameraModel_ g' = r.1) as Hcc.
  { intros n0 r g0 g0'. unfold cameras_changed. by intros ([v s] & _ & [= <-])%bind_Some. }
  intros Hg Hx. pose proof Hx as Hx'. revert Hx.
  destruct e as [op|snap|d|json|[cid info|cid dev tr fr tot ts img]|ev|i| |op|e|i p]; cbn [gui_exec].
  - intros (g1 & Hc%Hcc & [= <- _])%bind_Some. rewrite Hc.
    intros [?|(snap & cam & -> & ? & ?)]%run_op_ids_from; [by left|right|by destruct Hg]. by exists snap, cam.
  - intros ([d s] & _ & [= <- _])%bind_Some. by left.
  - intros [= <- _]. by left.
  - intros [= <- _]. by left.
  - intros (g1 & Hc%Hcc & [= <- _])%bind_Some. rewrite Hc. intros Hid.
    apply (run_op_ids_from (OpSensor cid (hum info) (light info) (tilt info) (tmp info))) in Hid as [?|(? & ? & ? & _)];
      [by left|done|by destruct Hg].
  - intros [= <- _]. by left.
  - intros [= <- _]. by left.
  - intros [= <- _]. by left.
  - intros [= <- _]. by left.
  - destruct (settings_exec op (settingsController_ g, qsettings g)) as [[c s] sigs].
    intros (g1 & H1 & [= <- _])%bind_Some. apply settings_signals_cameras in H1. rewrite H1. by left.
  - intros _ Hid. assert (e = ELogout ∨ e ≠ ELogout) as [->|Hne] by (destruct e; first [by left|by right]).
    + apply logout_exec in Hx' as (_ & Hc & _); [|done]. rewrite (cl_cameras _ _ Hc) in Hid. by apply not_elem_of_nil in Hid.
    + cbn [gui_exec] in Hx'. pose proof (auth_stays e (auth_ g) Hne) as Hs. destruct (auth_handle e (auth_ g)) as [a outs].
      destruct (auth_outputs_calls n outs (set_auth a g) Hs) as [c Hc]. rewrite Hc in Hx'. injection Hx' as <- _. by left.
  - intros ([v s] & _ & [= <- _])%bind_Some. by left.
Qed.

(** *** The URLs of the workers *)

(** The cameras of the grid before an event or after it. *)
Definition in_grids (g g' : Gui) (id : QString) : Prop := id ∈ grid_ids (cameraModel_ g) ∨ id ∈ grid_ids (cameraModel_ g').

Lemma cameras_changed_urls n r g g' :
  manager_inv (videoManager_ g) → announces (cameraModel_ g) r → cameras_changed n r g = Some g' →
  urls_from (in_grids g g') (stored_url (store_now n)) (videoManager_ g) (videoManager_ g').
Proof.
  intros Hm Ha. unfold cameras_changed. intros ([v s] & Hv & [= <-])%bind_Some.
  eapply signals_urls; [|exact Hm|exact Hv]. by apply announces_names.
Qed.

(** The workers have the URLs they had. *)
Lemma same_urls about url (m m' : VideoManager) :
  workers_ m' = workers_ m →
  (∀ i, connectionString_ <$> heap m' !! i = connectionString_ <$> heap m !! i) → urls_from about url m m'.
Proof.
  intros Ew Eh id w'. unfold worker_of. rewrite Ew. intros (i & Hi & Hw')%bind_Some. right.
  specialize (Eh i). rewrite Hw' in Eh. symmetry in Eh. apply fmap_Some in Eh as (w & Hw & E). exists w. by rewrite Hi.
Qed.

Lemma settings_signals_urls about url sigs g g' :
  gui_ok g → settings_signals sigs g = Some g' → urls_from about url (videoManager_ g) (videoManager_ g').
Proof.
  revert g. induction sigs as [|sig sigs IH]; intros g Hg; [by intros [= <-]; apply same_urls|].
  destruct sig; cbn; try by apply IH.
  destruct (setFpsLimit_spec (fps_ (settingsController_ g)) _ (go_video _ Hg)) as (m & -> & Hm & E1 & E2 & Eh).
  cbn. intros Hx%IH; [|by apply set_video_ok]. intros id w' Hw'.
  destruct (Hx id w' Hw') as [?|(w & Hw & E)]; [by left|].
  destruct (same_urls about url (videoManager_ g) m E1) with (id := id) (w' := w) as [[? E']|(w0 & ? & E')];
    [intros i; rewrite Eh; by destruct (heap (videoManager_ g) !! i)|done|left; by rewrite E|].
  right. exists w0. by rewrite E.
Qed.

Lemma deliver_urls about url i p m m' sigs : deliver i p m = Some (m', sigs) → urls_from about url m m'.
Proof.
  unfold deliver. intros (w & Hw & ([w' o] & Hf & [= <- _])%bind_Some)%bind_Some. apply same_urls; [done|].
  intros j. cbn. destruct (decide (i = j)) as [<-|Hne]; [|by rewrite lookup_insert_ne].
  rewrite lookup_insert_eq, Hw. cbn. f_equal. revert Hf. unfold on_frame_ready.
  destruct (dataY p), (dataUV p); try by intros [= <- _].
  destruct (_ || _); [by intros [= <- _]|]. destruct (new_frame _ _); [|by intros [= <- _]].
  by intros (f & _ & [= <- _])%bind_Some.
Qed.

(** An event gives a worker the URL the camera store has then, and only for a camera
    of the grid. *)
Lemma gui_exec_urls n e g g' calls :
  gui_ok g → gui_exec n e g = Some (g', calls) →
  urls_from (in_grids g g') (stored_url (store_now n)) (videoManager_ g) (videoManager_ g').
Proof.
  intros Hg Hx. pose proof (go_video _ Hg) as Hm. pose proof Hx as Hx'. revert Hx.
  destruct e as [op|snap|d|json|[cid info|cid dev tr fr tot ts img]|ev|i| |op|e|i p]; cbn [gui_exec].
  - intros (g1 & Hc & [= <- _])%bind_Some. eapply cameras_changed_urls; [done|apply run_op_announces|done].
  - intros ([d s] & _ & [= <- _])%bind_Some. by apply same_urls.
  - intros [= <- _]. by apply same_urls.
  - intros [= <- _]. by apply same_urls.
  - intros (g1 & Hc & [= <- _])%bind_Some. eapply cameras_changed_urls; [done| |exact Hc].
    apply (run_op_announces (OpSensor cid (hum info) (light info) (tilt info) (tmp info))).
  - intros [= <- _]. by apply same_urls.
  - intros [= <- _]. by apply same_urls.
  - intros [= <- _]. by apply same_urls.
  - intros [= <- _]. by apply same_urls.
  - destruct (settings_exec op (settingsController_ g, qsettings g)) as [[c s] sigs].
    intros (g1 & H1 & [= <- _])%bind_Some. eapply settings_signals_urls in H1; [exact H1|]. by destruct Hg.
  - intros _. assert (e = ELogout ∨ e ≠ ELogout) as [->|Hne] by (destruct e; first [by left|by right]).
    + apply logout_exec in Hx' as (_ & Hc & _); [|done]. intros id w'. unfold worker_of.
      by rewrite (cl_workers _ _ Hc), lookup_empty.
    + cbn [gui_exec] in Hx'. pose proof (auth_stays e (auth_ g) Hne) as Hs. destruct (auth_handle e (auth_ g)) as [a outs].
      destruct (auth_outputs_calls n outs (set_auth a g) Hs) as [c Hc]. rewrite Hc in Hx'. injection Hx' as <- _.
      by apply same_urls.
  - intros ([v s] & Hv & [= <- _])%bind_Some. by eapply deliver_urls.
Qed.

(** Every worker has the URL that the store had for its camera at one of the events. *)
Lemma gui_run_urls es g g' calls :
  gui_ok g → gui_run es g = Some (g', calls) →
  ∀ id w', worker_of (videoManager_ g') id = Some w' →
    (∃ n e, (n, e) ∈ es ∧ connectionString_ w' = stored_url (store_now n) id) ∨
    ∃ w, worker_of (videoManager_ g) id = Some w ∧ connectionString_ w' = connectionString_ w.
Proof.
  revert g calls. induction es as [|[n e] es IH]; intros g calls Hg; cbn; [intros [= <- _] id w' Hw; right; by exists w'|].
  intros ([g1 c1] & H1 & ([g2 c2] & H2 & [= -> _])%bind_Some)%bind_Some id w' Hw'.
  destruct (IH g1 c2 (gui_exec_ok _ _ _ _ _ Hg H1) H2 id w' Hw') as [(n' & e' & Hin & E)|(w & Hw & E)].
  - left. exists n', e'. split; [by right|done].
  - rewrite E. destruct (gui_exec_urls _ _ _ _ _ Hg H1 id w Hw) as [[_ E']|?]; [|by right].
    left. exists n, e. split; [by left|done].
Qed.

(** *** The slots, seen from the manager *)

Lemma slot_agrees g slot :
  gui_ok g →
  VideoManager.hasSlot slot (videoManager_ g) = CameraModel.hasSlot slot (cameraModel_ g) ∧
  slotCameraId slot (videoManager_ g) = cameraIdForSlot slot (cameraModel_ g).
Proof.
  intros [Hc Hm [Hs Hw] _]. pose proof (grid_slot_lookup (cameraModel_ g) slot Hc) as Hl. rewrite <-Hs in Hl.
  unfold VideoManager.hasSlot, slotCameraId, cameraIdForSlot. rewrite Hl. split; [apply entry_for_slot_some|].
  by destruct (entry_for_slot slot (cameraModel_ g)).
Qed.

Lemma slot_decodes g slot :
  gui_ok g → cameraIdForSlot slot (cameraModel_ g) ≠ "" →
  ∃ i w, getWorkerBySlot slot (videoManager_ g) = Some i ∧ heap (videoManager_ g) !! i = Some w ∧
    cameraId_ w = cameraIdForSlot slot (cameraModel_ g) ∧ decodeThread_ (video_ w) = playing w.
Proof.
  intros Hg Hne. destruct (slot_agrees g slot Hg) as [_ Hid]. destruct Hg as [_ Hm [_ Hw] _].
  unfold getWorkerBySlot, getWorker. rewrite Hid. unfold cameraIdForSlot in *.
  destruct (entry_for_slot slot (cameraModel_ g)) as [e|] eqn:He; [|done].
  apply entry_for_slot_elem in He. destruct (Hw e He Hne) as [i Hi].
  destruct (mi_worker _ Hm _ _ Hi) as (_ & w & Hh & []). by exists i, w.
Qed.

(** A camera of the grid has a slot, and its worker decodes. *)
Lemma grid_decodes g id :
  gui_ok g → id ≠ "" → id ∈ grid_ids (cameraModel_ g) →
  ∃ slot i w, cameraIdForSlot slot (cameraModel_ g) = id ∧ getWorkerBySlot slot (videoManager_ g) = Some i ∧
    heap (videoManager_ g) !! i = Some w ∧ cameraId_ w = id ∧ decodeThread_ (video_ w) = playing w.
Proof.
  intros Hg Hne (e & -> & He)%list_elem_of_fmap. exists (slotId e).
  assert (cameraIdForSlot (slotId e) (cameraModel_ g) = CameraModel.cameraId e) as Hs.
  { pose proof (elem_entry_for_slot _ e (go_cameras _ Hg) He) as Hs. unfold cameraIdForSlot.
    destruct (entry_for_slot _ _); [|done]. by injection Hs. }
  destruct (slot_decodes g (slotId e) Hg) as (i & w & H1 & H2 & H3 & H4); [by rewrite Hs|].
  exists i, w. split_and!; [done|done|done|congruence|done].
Qed.
End lemmas.

(** ** Properties *)

(** C4. The decoders follow the grid: after any events from the constructed application,
    the video manager has the slots of the camera model with their cameras, and for
    every slot with a camera a worker that exists and belongs to that camera.  Its
    URL is the one the camera store had for this camera when one of the events ran,
    and its thread decodes that URL, or nothing if it is empty. *)
Theorem gui_video_follows `{T : QtText, H : QtHash, Q : QtMap, V : QtVideo, W : QtVariant, K : QtJson, P : QtParse,
    F : QtFiles} (s : Store) (es : list (Now * gui_event)) (g : Gui) (calls : list svc_call) :
  gui_run es (constructLayer2 s) = Some (g, calls) →
  ∀ slot,
    VideoManager.hasSlot slot (videoManager_ g) = CameraModel.hasSlot slot (cameraModel_ g) ∧
    slotCameraId slot (videoManager_ g) = cameraIdForSlot slot (cameraModel_ g) ∧
    (cameraIdForSlot slot (cameraModel_ g) ≠ "" →
       ∃ i w n e, getWorkerBySlot slot (videoManager_ g) = Some i ∧ heap (videoManager_ g) !! i = Some w ∧
         cameraId_ w = cameraIdForSlot slot (cameraModel_ g) ∧ (n, e) ∈ es ∧
         connectionString_ w
         = fromStdString (cs_sourceUrl (getCameraStruct (toStdString (cameraIdForSlot slot (cameraModel_ g))) (store_now n))) ∧
         decodeThread_ (video_ w)
         = (let url := toStdString (connectionString_ w) in
            if str_empty (connectionString_ w) || str_empty url then None else Some url)).
Proof.
  intros Hr slot. apply gui_run_ok in Hr as Hg; [|apply constructLayer2_ok].
  destruct (slot_agrees g slot Hg) as [Hs Hid]. split_and!; [done|done|]. intros Hne.
  destruct (slot_decodes g slot Hg Hne) as (i & w & Hi & Hw & Hc & Hd).
  assert (worker_of (videoManager_ g) (cameraIdForSlot slot (cameraModel_ g)) = Some w) as Ho.
  { unfold worker_of. unfold getWorkerBySlot, getWorker in Hi. rewrite Hid in Hi. by rewrite Hi. }
  destruct (gui_run_urls _ _ _ _ (constructLayer2_ok s) Hr _ _ Ho) as [(n & e & Hin & Hu)|(w0 & Hw0 & _)].
  - by exists i, w, n, e.
  - unfold worker_of in Hw0. cbn in Hw0. by rewrite lookup_empty in Hw0.
Qed.

(** C29. A logout clears what the user saw: it empties the grid, the devices, the users,
    the pictures and the alarms, joins and deletes every worker, forgets the user
    and disconnects, and keeps the settings, the server's status and the stores.
    But an update of the cameras that was posted before the logout and runs after
    it puts its cameras back into the grid, each with a new worker on the URL in
    the camera store. *)
Theorem gui_logout `{T : QtText, H : QtHash, Q : QtMap, V : QtVideo, W : QtVariant, K : QtJson, P : QtParse,
    F : QtFiles} (s : Store) (es : list (Now * gui_event)) (g g1 : Gui) (calls c1 : list svc_call) (n : Now) :
  gui_run es (constructLayer2 s) = Some (g, calls) →
  gui_exec n (OnAuth ELogout) g = Some (g1, c1) →
  cleared (set_auth (auth_ g1) g) g1 ∧ state_ (login_ (auth_ g1)) = "" ∧ username_ (login_ (auth_ g1)) = "" ∧
  SvcDisconnect ∈ c1 ∧
  ∀ n2 snapshot g2 c2 cam,
    gui_exec n2 (OnCameras (OpStore snapshot)) g1 = Some (g2, c2) → cam ∈ snapshot →
    let id := fromStdString (cd_cameraId cam) in
    id ≠ "" →
    (∃ slot, cameraIdForSlot slot (cameraModel_ g2) = id) ∧
    ∃ w, worker_of (videoManager_ g2) id = Some w ∧ decodeThread_ (video_ w) = playing w ∧
      connectionString_ w = fromStdString (cs_sourceUrl (getCameraStruct (toStdString id) (store_now n2))).
Proof.
  intros Hr Hx. apply gui_run_ok in Hr as Hg; [|apply constructLayer2_ok].
  apply logout_exec in Hx as (Hg1 & Hcl & Hst & Hun & Hca); [|done]. split_and!; [done..|].
  intros n2 snapshot g2 c2 cam H2 Hin. cbn zeta. intros Hne.
  pose proof (gui_exec_urls _ _ _ _ _ Hg1 H2) as Hu.
  cbn [gui_exec] in H2. apply bind_Some in H2 as (g2' & H2 & [= -> _]).
  pose proof (run_op_changed _ _ _ _ Hg1 H2) as [Hg2 _].
  unfold cameras_changed in H2. apply bind_Some in H2 as ([v sg] & Hv & [= <-]). cbn in *.
  pose proof (store_has_rows snapshot (cameraModel_ g1) _ (snapshot_by_cid_elem snapshot cam Hin Hne)) as Hrow.
  apply list_elem_of_fmap in Hrow as (e & He & Hrow).
  destruct Hg2 as [Hc2 Hm2 [_ Hw2] _]. cbn in *. split.
  - exists (slotId e). pose proof (elem_entry_for_slot _ e Hc2 Hrow) as Hs. unfold cameraIdForSlot.
    destruct (entry_for_slot _ _); [|done]. injection Hs as ->. done.
  - destruct (Hw2 e Hrow) as [i Hi]; [by rewrite <-He|]. rewrite <-He in Hi.
    destruct (mi_worker _ Hm2 _ _ Hi) as (_ & w & Hw & Ho).
    assert (worker_of v (fromStdString (cd_cameraId cam)) = Some w) as Hwo by (unfold worker_of; by rewrite Hi).
    exists w. split_and!; [done|apply (wo_playing _ _ Ho)|].
    destruct (Hu _ _ Hwo) as [[_ ?]|(w0 & Hw0 & _)]; [done|]. unfold worker_of in Hw0.
    by rewrite (cl_workers _ _ Hcl), lookup_empty in Hw0.
Qed.

(** *** Example: two cameras, a split, a logout, and an update that was still queued *)

#[local] Existing Instances RefText RefHash RefMap RefVideo RefVariant RefFiles.
#[local] Instance demo_json : QtJson := RefQtJson [].
#[local] Instance demo_parse : QtParse := RefParse [] [] [].

Definition demo_now : Now := {|
  store_now := {| data_ := []; table_ := table_set (set_sourceUrl "rtsp://a") "a/0" ∅ |}; threads_now := λ _ _, then_stop []; clock_now := 0
|}.

Definition demo_snapshot : list CameraData :=
  (λ id, {| cd_title := id; cd_cameraType := ""; cd_isOnline := true; cd_cameraId := id; cd_deviceInfo := DeviceInfo0 |})
    <$> ["a/0"; "b/0"].

Definition demo_events : list (Now * gui_event) :=
  (λ e, (demo_now, e)) <$>
  [OnCameras (OpStore demo_snapshot); OnCameras (OpSplit 0 2 0); OnSettings (SetDefaultGrid 9)].

Definition demo_gui : Gui * list svc_call := default (constructLayer2 ∅, []) (gui_run demo_events (constructLayer2 ∅)).

Lemma gui_video_follows_witness :
  length (cameras_ (cameraModel_ demo_gui.1)) = 3 ∧
  slotCameraId 3 (videoManager_ demo_gui.1) = "a/0" ∧
  ∃ i w, getWorkerBySlot 3 (videoManager_ demo_gui.1) = Some i ∧ heap (videoManager_ demo_gui.1) !! i = Some w ∧
    decodeThread_ (video_ w) = Some "rtsp://a".
Proof.
  split; [by vm_compute|].
  destruct (gui_video_follows ∅ demo_events demo_gui.1 demo_gui.2) with (slot := 3%Z) as (_ & -> & H);
    [vm_compute; reflexivity|].
  split; [by vm_compute|].
  destruct H as (i & w & n & e & Hi & Hw & _ & Hin & Hu & Hd); [by vm_compute|]. exists i, w. split_and!; [done|done|].
  assert (n = demo_now) as -> by (apply list_elem_of_fmap in Hin as (? & [= -> _] & _); done).
  rewrite Hd, Hu. by vm_compute.
Defined.

Lemma gui_logout_witness :
  match gui_exec demo_now (OnAuth ELogout) demo_gui.1 with
  | Some (g1, _) =>
      cameraModel_ g1 = CameraModel0 ∧
      match gui_exec demo_now (OnCameras (OpStore demo_snapshot)) g1 with
      | Some (g2, _) => ∃ w, worker_of (videoManager_ g2) "a/0" = Some w ∧ connectionString_ w = "rtsp://a"
      | None => False
      end
  | None => False
  end.
Proof.
  destruct (gui_exec demo_now (OnAuth ELogout) demo_gui.1) as [[g1 c1]|] eqn:H1; [|by vm_compute in H1].
  destruct (gui_logout ∅ demo_events demo_gui.1 g1 demo_gui.2 c1 demo_now) as (Hc & _ & _ & _ & Hback);
    [vm_compute; reflexivity|exact H1|].
  split; [apply (cl_cameras _ _ Hc)|].
  destruct (gui_exec demo_now (OnCameras (OpStore demo_snapshot)) g1) as [[g2 c2]|] eqn:H2.
  - destruct (Hback demo_now demo_snapshot g2 c2 {| cd_title := "a/0"; cd_cameraType := ""; cd_isOnline := true;
      cd_cameraId := "a/0"; cd_deviceInfo := DeviceInfo0 |} H2) as (_ & w & Hw & _ & Hu); [left|done|].
    exists w. split; [exact Hw|]. rewrite Hu. by vm_compute.
  - vm_compute in H1. injection H1 as <- _. by vm_compute in H2.
Defined.
