(* ===== verification/System.v ===== *)
(** * The running system (src/Core.cpp)

    Packets, the pool and the GUI thread together.  A callback of the network service
    becomes signals of the bridge; [wireSignals] turns each into tasks of the pool; a
    task updates a store and posts events, which the GUI thread runs in their order
    ([Gui.v]).  A step relation ([sys_exec]) interleaves the three: any worker may
    take the next task, any busy worker may go on, and the user may act between two
    events.  A task goes on from one access of the locked camera store to the next, and
    from one post to the next; an update of the other two stores is one access.

    Here the GUI thread never waits: calls on the service are noted ([calls]) and
    return at once.  [Application.v] makes them wait; its runs are among the runs here. *)

From S2P Require Import Prelude Extern Variant Protocol CameraStore DeviceStore ServerStatusStore Alarm MessageProcessor.
From S2P Require Import NetworkService CameraModel CameraIds DeviceModel Settings NetworkBridge Auth Video VideoWorker.
From S2P Require Import VideoManager VideoWiring Core Gui.

(** ** State *)

Record Stores : Type := {
  cameraStore_ : CameraStore;
  deviceStore_ : DeviceStore;
  serverStatusStore_ : ServerStatusStore
}.

(** The tasks [wireSignals] submits, with the text they capture. *)
Inductive task : Type :=
| CameraTask (s : string)
| IntegratedTask (s : string)
| AvailableTask (s : string)
| StatusTask (s : string)
| MetaTask (s : string)
| AlarmTask (s : string)
| AiTask (s : string)
| ImageTask (jpegData : list byte) (meta : string).

(** What a task still has to do: an iteration of the loop of
    [CameraStore::updateFromJson] over the items of the text, the end of that function,
    an update of a camera's sensor values or person count, and a post. *)
Inductive action : Type :=
| StoreItem (s : string) (k : nat)
| StoreList
| SetDevice (id : string) (info : DeviceInfo)
| SetAi (id : string) (info : AiInfo)
| PostEvent (e : gui_event).

(** A busy worker; [newData]: the local list of [updateFromJson]. *)
Record job : Type := { newData : list CameraData; todo : list action }.

Record System : Type := {
  stores : Stores;
  tasks : list task;                    (* the queue of the pool *)
  running : list job;                   (* the busy workers *)
  events : list gui_event;              (* the queue of the GUI thread *)
  gui : Gui;
  calls : list svc_call;                (* what the bridge asked of the service *)
  terminated : bool                     (* std::terminate *)
}.

Definition set_pool (st : Stores) (q : list task) (r : list job) (t : bool) (y : System) : System := {|
  stores := st; tasks := q; running := r; events := events y; gui := gui y; calls := calls y; terminated := t
|}.

Definition set_events (r : list job) (evs : list gui_event) (y : System) : System := {|
  stores := stores y; tasks := tasks y; running := r; events := evs; gui := gui y; calls := calls y;
  terminated := terminated y
|}.

Definition set_gui (g : Gui) (c : list svc_call) (y : System) : System := {|
  stores := stores y; tasks := tasks y; running := running y; events := events y; gui := g; calls := calls y ++ c;
  terminated := terminated y
|}.

Definition with_camera (c : CameraStore) (st : Stores) : Stores := {|
  cameraStore_ := c; deviceStore_ := deviceStore_ st; serverStatusStore_ := serverStatusStore_ st
|}.
Definition with_device (d : DeviceStore) (st : Stores) : Stores := {|
  cameraStore_ := cameraStore_ st; deviceStore_ := d; serverStatusStore_ := serverStatusStore_ st
|}.
Definition with_status (s : ServerStatusStore) (st : Stores) : Stores := {|
  cameraStore_ := cameraStore_ st; deviceStore_ := deviceStore_ st; serverStatusStore_ := s
|}.

(** ** The steps *)
Section system.
Context `{J : Json, T : QtText, H : QtHash, Q : QtMap, V : QtVideo, W : QtVariant, K : QtJson, P : QtParse, F : QtFiles}.
Context (toBase64 : list byte → string) (moved_from : QString).

(** The tasks of a signal, in the order they are submitted. *)
Definition route (sig : bridge_signal) : list task :=
  match sig with
  | cameraListReceived q => [CameraTask (toStdString q); IntegratedTask (toStdString q)]
  | deviceStatusReceived q => [AvailableTask (toStdString q); StatusTask (toStdString q)]
  | metaResultReceived q => [MetaTask (toStdString q)]
  | aiResultReceived q => [AlarmTask (toStdString q); AiTask (toStdString q)]
  | imageDataReceived data meta => [ImageTask data (toStdString meta)]
  | _ => []
  end.

(** The queued connection of the pending users. *)
Definition queued (sig : bridge_signal) : list gui_event :=
  match sig with pendingListReceived q => [OnPending q] | _ => [] end.

Definition emit (sigs : list bridge_signal) (y : System) : System := {|
  stores := stores y; tasks := tasks y ++ concat (route <$> sigs); running := running y;
  events := events y ++ concat (queued <$> sigs); gui := gui y; calls := calls y; terminated := terminated y
|}.

(** What the callback of a bound store posts. *)
Definition posts {Data} (f : Data → gui_event) (r : outcome exn (option Data)) : outcome exn (list action) :=
  match r with Ret (Some d) => Ret [PostEvent (f d)] | Ret None => Ret [] | Throw e => Throw e end.

(** The body of [updateFromJson]: nothing for a text that is no array. *)
Definition camera_actions (s : string) : list action :=
  if is_array (json_parse s) then (StoreItem s <$> seq 0 (length (elements (json_parse s)))) ++ [StoreList] else [].

(** The loops of a META and an AI task over the cameras of the snapshot. *)
Definition meta_actions (s : string) (c : CameraStore) : list action :=
  match meta_parse s with
  | Some (ip, info) =>
      matching ip c ≫= λ id, [SetDevice id info; PostEvent (OnCall (UpdateSensorInfo (fromStdString id) info))]
  | None => []
  end.

Definition ai_actions (s : string) (c : CameraStore) : list action :=
  match ai_parse s with
  | Some (ip, count) => (λ id, SetAi id {| Img := []; personCount := [count] |}) <$> matching ip c
  | None => []
  end.

(** A task up to its first access in a loop or its first post.  [now]: the clock.  An
    exception of the dispatcher's task stays in its future. *)
Definition run_task (now : Z) (t : task) (st : Stores) : outcome exn (list action) * Stores :=
  match t with
  | CameraTask s => (Ret (camera_actions s), st)
  | IntegratedTask s =>
      let '(r, d) := bd_run CameraPacket s (deviceStore_ st) in (posts OnDevices r, with_device d st)
  | AvailableTask s =>
      let '(r, d) := bd_run (AvailablePacket now) s (deviceStore_ st) in (posts OnDevices r, with_device d st)
  | StatusTask s =>
      let '(r, d) := ServerStatusStore.updateFromJson now s true (serverStatusStore_ st) in
      (posts OnServer r, with_status d st)
  | MetaTask s => (Ret (meta_actions s (cameraStore_ st)), st)
  | AlarmTask s =>
      (match dispatch s true with Some (Ret (Some ev)) => Ret [PostEvent (OnAlarmEvent ev)] | _ => Ret [] end, st)
  | AiTask s => (Ret (ai_actions s (cameraStore_ st)), st)
  | ImageTask data meta =>
      (Ret (PostEvent ∘ OnCall <$> (image_task toBase64 moved_from meta data (cameraStore_ st)).1), st)
  end.

(** A worker takes task [t]; it stays busy while it has something to do. *)
Definition take_task (now : Z) (t : task) (q : list task) (y : System) : System :=
  match run_task now t (stores y) with
  | (Ret [], st) => set_pool st q (running y) false y
  | (Ret acts, st) => set_pool st q (running y ++ [{| newData := []; todo := acts |}]) false y
  | (Throw _, st) => set_pool st q (running y) true y
  end.

(** One access of the camera store, under its lock, with the new local list and what is
    posted after it. *)
Definition access (a : action) (nd : list CameraData) (c : CameraStore)
    : outcome exn (list CameraData * list gui_event) * CameraStore :=
  match a with
  | StoreItem s k =>
      match elements (json_parse s) !! k with
      | Some item => let '(r, c') := update_item item nd c in
          (match r with Ret nd' => Ret (nd', []) | Throw e => Throw e end, c')
      | None => (Ret (nd, []), c)
      end
  | StoreList => (Ret (nd, [OnCameras (OpStore nd)]), {| data_ := nd; table_ := table_ c |})
  | SetDevice id info => (Ret (nd, []), updateDeviceInfo id info c)
  | SetAi id info => (Ret (nd, []), updateAiInfo id info c)
  | PostEvent e => (Ret (nd, [e]), c)
  end.

(** Worker [i] goes on; without anything left it is idle. *)
Definition put_job (i : nat) (j : job) (r : list job) : list job :=
  match todo j with [] => delete i r | _ => <[i := j]> r end.

Definition post_event (i : nat) (e : gui_event) (nd : list CameraData) (rest : list action) (y : System) : System :=
  set_events (put_job i {| newData := nd; todo := rest |} (running y)) (events y ++ [e]) y.

Definition store_access (i : nat) (a : action) (nd : list CameraData) (rest : list action) (y : System) : System :=
  match access a nd (cameraStore_ (stores y)) with
  | (Ret (nd', evs), c) =>
      set_pool (with_camera c (stores y)) (tasks y)
        (put_job i {| newData := nd'; todo := (PostEvent <$> evs) ++ rest |} (running y)) false y
  | (Throw _, c) => set_pool (with_camera c (stores y)) (tasks y) (running y) true y
  end.

Definition work (i : nat) (y : System) : option System :=
  j ← running y !! i;
  match todo j with
  | [] => None
  | PostEvent e :: rest => Some (post_event i e (newData j) rest y)
  | a :: rest => Some (store_access i a (newData j) rest y)
  end.

(** The GUI thread runs an event; the camera store it reads is the one of now. *)
Definition gui_step (th : nat → Threads) (clock : Z) (e : gui_event) (y : System) : option System :=
  '(g, c) ← gui_exec {| store_now := cameraStore_ (stores y); threads_now := th; clock_now := clock |} e (gui y);
  Some (set_gui g c y).

(** What QML, the frame callbacks and the connection bring about. *)
Definition from_outside (e : gui_event) : bool :=
  match e with
  | OnCameras (OpStore _) | OnCameras (OpSensor _ _ _ _ _) | OnDevices _ | OnServer _ | OnPending _ | OnCall _
  | OnAlarmEvent _ | OnAuth (ECallback _ _ _) => false
  | _ => true
  end.

Inductive sys_label : Type :=
| Callback (th : nat → Threads) (clock : Z) (purpose : QString) (k : callback) (body : string)
| ImageData (data : list byte) (meta : string)
| Outside (th : nat → Threads) (clock : Z) (e : gui_event)
| Take (now : Z)
| Work (i : nat)
| NextEvent (th : nat → Threads) (clock : Z).

Definition sys_exec (workers : nat) (l : sys_label) (y : System) : option System :=
  if terminated y then None
  else match l with
  | Callback th clock purpose k body =>
      y1 ← gui_step th clock (OnAuth (ECallback purpose k body)) y; Some (emit (on_callback purpose k body) y1)
  | ImageData data meta => Some (emit (on_image_data data meta) y)
  | Outside th clock e => if from_outside e then gui_step th clock e y else None
  | Take now =>
      match tasks y with
      | t :: q => if decide (length (running y) < workers) then Some (take_task now t q y) else None
      | [] => None
      end
  | Work i => work i y
  | NextEvent th clock =>
      match events y with e :: evs => gui_step th clock e (set_events (running y) evs y) | [] => None end
  end.

Fixpoint sys_run (workers : nat) (ls : list sys_label) (y : System) : option System :=
  match ls with
  | [] => Some y
  | l :: ls' => y' ← sys_exec workers l y; sys_run workers ls' y'
  end.

(** [Core::init] *)
Definition Core_init (s : Store) : System := {|
  stores := {| cameraStore_ := CameraStore0; deviceStore_ := DeviceStore0; serverStatusStore_ := ServerStatusStore0 |};
  tasks := []; running := []; events := []; gui := constructLayer2 s; calls := []; terminated := false
|}.

(** The first half of [Core::shutdown]: the workers are joined and deleted, and the
    service is told to disconnect.  The order in which the stores and the pool are
    destroyed then is in [Core.v]. *)
Definition Core_shutdown (th : Threads) (y : System) : option System :=
  '(v, _) ← VideoManager.clearAll th (videoManager_ (gui y));
  Some (set_gui (set_video v (gui y)) [SvcDisconnect] y).
End system.

(** ** Lemmas *)
Section lemmas.
Context `{J : Json, T : QtText, H : QtHash, Q : QtMap, V : QtVideo, W : QtVariant, K : QtJson, P : QtParse, F : QtFiles}.
Context (toBase64 : list byte → string) (moved_from : QString).
Abbreviation sys_exec := (sys_exec toBase64 moved_from).
Abbreviation sys_run := (sys_run toBase64 moved_from).
Abbreviation take_task := (take_task toBase64 moved_from).
Abbreviation run_task := (run_task toBase64 moved_from).

(** What tasks and queued signals post: events that keep the grid and complete, and
    leave the controllers of the login alone. *)
Definition posted (e : gui_event) : Prop := keeps_grid e ∧ (∀ i p, e ≠ OnFrame i p) ∧ ∀ a, e ≠ OnAuth a.

(** Posts of such events, and accesses. *)
Definition acts_ok (acts : list action) : Prop := ∀ e, PostEvent e ∈ acts → posted e.

Lemma posts_ok (evs : list gui_event) acts : Forall posted evs → acts_ok acts → acts_ok ((PostEvent <$> evs) ++ acts).
Proof.
  intros He Ha e [(e' & [= ->] & Hin)%list_elem_of_fmap|Hin]%elem_of_app; [|by apply Ha]. rewrite Forall_forall in He. by apply He.
Qed.

Lemma acts_ok_cons a acts : acts_ok (a :: acts) → acts_ok acts.
Proof. intros Ha e Hin. apply Ha. by right. Qed.

Lemma acts_ok_nil : acts_ok [].
Proof. by intros e ?%elem_of_nil. Qed.

Lemma camera_actions_elem s a :
  a ∈ camera_actions s →
  is_array (json_parse s) = true ∧ ((∃ k, k < length (elements (json_parse s)) ∧ a = StoreItem s k) ∨ a = StoreList).
Proof.
  unfold camera_actions. destruct (is_array _); [|by intros ?%elem_of_nil].
  intros [(k & -> & Hk)%list_elem_of_fmap|Ha]%elem_of_app; (split; [done|]);
    [left|right; by apply list_elem_of_singleton].
  apply elem_of_seq in Hk. exists k. split; [lia|done].
Qed.

Lemma meta_actions_elem s c a :
  a ∈ meta_actions s c →
  ∃ id info, (∃ d, d ∈ data_ c ∧ cd_cameraId d = id) ∧
    (a = SetDevice id info ∨ a = PostEvent (OnCall (UpdateSensorInfo (fromStdString id) info))).
Proof.
  unfold meta_actions. destruct (meta_parse s) as [[ip info]|]; [|by intros ?%elem_of_nil].
  intros (id & Ha & [Hd _]%matching_spec)%list_elem_of_bind. exists id, info. split; [done|]. set_solver.
Qed.

Lemma ai_actions_elem s c a :
  a ∈ ai_actions s c → ∃ id info, (∃ d, d ∈ data_ c ∧ cd_cameraId d = id) ∧ a = SetAi id info.
Proof.
  unfold ai_actions. destruct (ai_parse s) as [[ip n]|]; [|by intros ?%elem_of_nil].
  intros (id & -> & [Hd _]%matching_spec)%list_elem_of_fmap. by eexists id, _.
Qed.

Lemma run_task_posted now t st acts : (run_task now t st).1 = Ret acts → acts_ok acts.
Proof.
  assert (∀ A (f : A → gui_event) r acts, (∀ d, posted (f d)) → posts f r = Ret acts → acts_ok acts) as Hp.
  { intros A f [[d|]|e] acts' Hf; intros [= <-]; [|apply acts_ok_nil]. by intros e [= ->]%list_elem_of_singleton. }
  destruct t; cbn.
  - intros [= <-] e Hin. by apply camera_actions_elem in Hin as [_ [(k & _ & ?)|?]].
  - destruct (updateFromCameraJson _ _ _). by apply Hp.
  - destruct (updateFromAvailableJson _ _ _ _). by apply Hp.
  - destruct (ServerStatusStore.updateFromJson _ _ _ _). by apply Hp.
  - intros [= <-] e Hin. by apply meta_actions_elem in Hin as (id & info & _ & [?|[= ->]]).
  - destruct (dispatch_task s) as [[ev|]|]; intros [= <-]; try apply acts_ok_nil. by intros e [= ->]%list_elem_of_singleton.
  - intros [= <-] e Hin. by apply ai_actions_elem in Hin as (id & info & _ & ?).
  - intros [= <-] e (c & [= ->] & _)%list_elem_of_fmap. done.
Qed.

Lemma queued_posted sigs : Forall posted (concat (queued <$> sigs)).
Proof. apply Forall_concat, Forall_fmap, Forall_forall. intros sig _. destruct sig; by repeat constructor. Qed.

(** What holds in every state. *)
Record sys_ok (y : System) : Prop := {
  so_gui : gui_ok (gui y);
  so_events : Forall posted (events y);
  so_running : Forall (λ j, todo j ≠ [] ∧ acts_ok (todo j)) (running y)
}.

Lemma init_ok s : sys_ok (Core_init s).
Proof. split; [apply constructLayer2_ok|constructor|constructor]. Qed.

Lemma gui_step_ok th clock e y y' : sys_ok y → gui_step th clock e y = Some y' → sys_ok y'.
Proof.
  intros [Hg He Hr]. unfold gui_step. intros ([g c] & Hx & [= <-])%bind_Some.
  split; [by eapply gui_exec_ok|done|done].
Qed.

Lemma emit_ok sigs y : sys_ok y → sys_ok (emit sigs y).
Proof. intros [Hg He Hr]. split; [done| |done]. apply Forall_app. split; [done|apply queued_posted]. Qed.

Lemma take_ok now t q y : sys_ok y → sys_ok (take_task now t q y).
Proof.
  intros [Hg He Hr]. unfold take_task, System.take_task. pose proof (run_task_posted now t (stores y)) as Hp.
  destruct (run_task now t (stores y)) as [[[|a acts]|ex] st]; split; cbn; try done.
  apply Forall_app. split; [done|]. constructor; [|constructor]. split; [done|]. by apply Hp.
Qed.

(** A worker that goes on keeps what holds of all of them. *)
Lemma put_job_Forall (X : job → Prop) i j r :
  Forall X r → (todo j ≠ [] → X j) → Forall X (put_job i j r).
Proof.
  intros Hr Hj. unfold put_job. destruct (todo j); [by apply Forall_delete|]. apply Forall_insert; [done|by apply Hj].
Qed.

Lemma access_posted a nd c nd' evs c' :
  (∀ e, a = PostEvent e → posted e) → access a nd c = (Ret (nd', evs), c') → Forall posted evs.
Proof.
  intros Ha. destruct a as [s k| |id info|id info|e]; cbn; try (intros [= <- <- <-]; by repeat constructor).
  - destruct (elements _ !! k) as [item|]; [|by intros [= _ <- _]].
    destruct (update_item item nd c) as [[nd1|ex] c1]; cbn; [|done]. by intros [= _ <- _].
  - intros [= _ <- _]. constructor; [by apply Ha|constructor].
Qed.

(** What a worker does next: it posts, or accesses the camera store. *)
Lemma work_cases i y y' :
  work i y = Some y' →
  ∃ j a rest, running y !! i = Some j ∧ todo j = a :: rest ∧
    ((∃ e, a = PostEvent e ∧ y' = post_event i e (newData j) rest y) ∨
     ((∀ e, a ≠ PostEvent e) ∧ y' = store_access i a (newData j) rest y)).
Proof.
  unfold work. intros (j & Hj & Hw)%bind_Some. destruct (todo j) as [|a rest] eqn:Ht; [done|].
  exists j, a, rest. split; [done|]. split; [done|]. destruct a; injection Hw as <-; [right..|left]; eauto; by split.
Qed.

Lemma work_ok i y y' : sys_ok y → work i y = Some y' → sys_ok y'.
Proof.
  intros [Hg He Hr] (j & a & rest & Hj & Ht & Hcase)%work_cases.
  pose proof (Forall_lookup_1 _ _ _ _ Hr Hj) as [_ Ha]. rewrite Ht in Ha. destruct Hcase as [(e & -> & ->)|[Hne ->]].
  - split; cbn; [done| |].
    + apply Forall_app. split; [done|]. constructor; [|constructor]. apply Ha. by left.
    + apply put_job_Forall; [done|]. intros Hnil. split; [done|]. cbn. by eapply acts_ok_cons.
  - unfold store_access. destruct (access a (newData j) (cameraStore_ (stores y))) as [[[nd evs]|ex] c] eqn:Hx; split; cbn; try done.
    apply put_job_Forall; [done|]. intros Hnil. split; [done|]. cbn. apply posts_ok; [|by eapply acts_ok_cons].
    eapply access_posted; [|exact Hx]. intros e ->. by destruct (Hne e).
Qed.

Lemma sys_exec_ok workers l y y' : sys_ok y → sys_exec workers l y = Some y' → sys_ok y'.
Proof.
  intros Hy. unfold sys_exec. destruct (terminated y); [done|].
  destruct l as [th clock purpose k body|data meta|th clock e|now|i|th clock].
  - intros (y1 & H1 & [= <-])%bind_Some. by eapply emit_ok, gui_step_ok.
  - intros [= <-]. by apply emit_ok.
  - destruct (from_outside e); [|done]. by apply gui_step_ok.
  - destruct (tasks y) as [|t q]; [done|]. case_decide; [|done]. intros [= <-]. by apply take_ok.
  - by apply work_ok.
  - destruct (events y) as [|e evs] eqn:Hev; [done|]. apply gui_step_ok. destruct Hy as [Hg He Hr].
    rewrite Hev in He. apply Forall_cons in He as [_ He]. by split.
Qed.

Lemma sys_run_ok workers ls y y' : sys_ok y → sys_run workers ls y = Some y' → sys_ok y'.
Proof.
  revert y. induction ls as [|l ls IH]; intros y Hy; cbn; [by intros [= <-]|].
  intros (y1 & H1 & H2)%bind_Some. eapply IH; [|exact H2]. by eapply sys_exec_ok.
Qed.

(** A shutdown leaves no decode thread behind. *)
Lemma shutdown_joins th y :
  sys_ok y →
  ∃ y', Core_shutdown (λ i, then_stop (th i)) y = Some y' ∧ heap (videoManager_ (gui y')) = ∅ ∧
    workers_ (videoManager_ (gui y')) = ∅ ∧ SvcDisconnect ∈ calls y'.
Proof.
  intros [Hg _ _]. unfold Core_shutdown.
  destruct (clearAll_returns th _ (go_video _ Hg)) as [[v s] Hc]. rewrite Hc. cbn.
  apply clearAll_heap in Hc as (E1 & E2 & _); [|by destruct Hg]. eexists. split_and!; [done|done|done|set_solver].
Qed.

(** *** A task with the store for itself *)

(** The actions one after the other, and nothing else in between: what is posted. *)
Fixpoint run_alone (acts : list action) (nd : list CameraData) (c : CameraStore) : outcome exn (list gui_event) * CameraStore :=
  match acts with
  | [] => (Ret [], c)
  | a :: rest =>
      match access a nd c with
      | (Ret (nd', evs), c') =>
          let '(r, c2) := run_alone rest nd' c' in
          (match r with Ret evs' => Ret (evs ++ evs') | Throw e => Throw e end, c2)
      | (Throw e, c') => (Throw e, c')
      end
  end.

Lemma lookup_drop_cons {A} (l : list A) k x l' : drop k l = x :: l' → l !! k = Some x ∧ drop (S k) l = l'.
Proof.
  intros Hd. assert (l !! k = Some x) as Hk by (rewrite <-(Nat.add_0_r k), <-lookup_drop, Hd; done). split; [done|].
  rewrite (drop_S _ _ _ Hk) in Hd. by injection Hd.
Qed.

Lemma alone_items s k items nd c :
  drop k (elements (json_parse s)) = items →
  run_alone ((StoreItem s <$> seq k (length items)) ++ [StoreList]) nd c
  = match se_fold update_item items nd c with
    | (Ret nd', c') => (Ret [OnCameras (OpStore nd')], {| data_ := nd'; table_ := table_ c' |})
    | (Throw e, c') => (Throw e, c')
    end.
Proof.
  revert k nd c. induction items as [|item items IH]; intros k nd c Hd; [done|].
  apply lookup_drop_cons in Hd as [Hk Hd]. cbn [length seq fmap list_fmap app run_alone access se_fold]. rewrite Hk.
  unfold mbind, SE_bind. destruct (update_item item nd c) as [[nd1|e] c1]; [|done].
  rewrite (IH (S k) nd1 c1 Hd). by destruct (se_fold update_item items nd1 c1) as [[nd2|e] c2].
Qed.

(** Then the loop over a packet is [updateFromJson], and the loops of META and AI tasks
    are those of [Core.v]. *)
Lemma alone_camera s c :
  run_alone (camera_actions s) [] c
  = let '(r, c') := CameraStore.updateFromJson s true c in
    (match r with Ret (Some d) => Ret [OnCameras (OpStore d)] | Ret None => Ret [] | Throw e => Throw e end, c').
Proof.
  unfold camera_actions, CameraStore.updateFromJson. destruct (is_array _); [|done].
  rewrite (alone_items s 0 (elements (json_parse s))) by done. unfold mbind, SE_bind.
  by destruct (se_fold update_item _ _ _) as [[nd|e] c'].
Qed.

Lemma alone_meta s c :
  run_alone (meta_actions s c) [] c = let '(l, c') := meta_task s c in (Ret (OnCall <$> l), c').
Proof.
  rewrite meta_task_spec. unfold meta_actions. destruct (meta_parse s) as [[ip info]|]; [|done].
  generalize (matching ip c). intros ids. destruct c as [d t]. cbn. revert t.
  induction ids as [|id ids IH]; intros t; [done|]. cbn. unfold updateDeviceInfo. cbn. by rewrite IH.
Qed.

Lemma alone_ai s c :
  run_alone (ai_actions s c) [] c = let '(l, c') := ai_task s c in (Ret (OnCall <$> l), c').
Proof.
  rewrite ai_task_spec. unfold ai_actions. destruct (ai_parse s) as [[ip n]|]; [|done].
  generalize (matching ip c). intros ids. destruct c as [d t]. cbn. revert t.
  induction ids as [|id ids IH]; intros t; [done|]. cbn. unfold updateAiInfo. cbn. by rewrite IH.
Qed.

(** *** A packet on its way *)

(** Steps that take no camera out of the grid. *)
Definition no_logout (l : sys_label) : Prop := match l with Outside _ _ e => keeps_grid e | _ => True end.

(** The worker is in the loop that makes [d], or has it to post. *)
Definition yields (d : list CameraData) (j : job) : Prop :=
  (∃ s k es, todo j = (StoreItem s <$> seq k (length (drop k (elements (json_parse s))))) ++ [StoreList] ∧
     parse_items (drop k (elements (json_parse s))) = (es, None) ∧ newData j ++ map snd es = d) ∨
  PostEvent (OnCameras (OpStore d)) ∈ todo j.

(** The update [d] from the text [s] is a task, is being made or posted, is queued, or
    has given its cameras rows. *)
Definition on_its_way (s : string) (d : list CameraData) (y : System) : Prop :=
  CameraTask s ∈ tasks y ∨ Exists (yields d) (running y) ∨ OnCameras (OpStore d) ∈ events y ∨
  ∀ cam, cam ∈ d → fromStdString (cd_cameraId cam) ≠ "" → fromStdString (cd_cameraId cam) ∈ grid_ids (cameraModel_ (gui y)).

(** The text reads as these cameras. *)
Definition reads_as (s : string) (d : list CameraData) : Prop :=
  ∀ st, (CameraStore.updateFromJson s true st).1 = Ret (Some d).

Lemma reads_as_parse s es :
  is_array (json_parse s) = true → parse_items (elements (json_parse s)) = (es, None) → reads_as s (map snd es).
Proof. intros Ha Hp st. rewrite camera_updateFromJson_result, Ha, Hp. done. Qed.

Lemma reads_as_inv s d :
  reads_as s d → is_array (json_parse s) = true ∧ ∃ es, parse_items (elements (json_parse s)) = (es, None) ∧ map snd es = d.
Proof.
  intros Hr. specialize (Hr CameraStore0). rewrite camera_updateFromJson_result in Hr.
  destruct (is_array _); [|done]. destruct (parse_items _) as [es [e|]]; [done|]. injection Hr as Hr. split; [done|]. by exists es.
Qed.

Lemma gui_step_fields th clock e y y' :
  gui_step th clock e y = Some y' →
  tasks y' = tasks y ∧ running y' = running y ∧ events y' = events y ∧ terminated y' = terminated y ∧
  ∃ n c, gui_exec n e (gui y) = Some (gui y', c).
Proof. unfold gui_step. intros ([g c] & Hx & [= <-])%bind_Some. split_and!; try done. by eexists _, _. Qed.

Lemma grid_step th clock e y y' id :
  sys_ok y → keeps_grid e → gui_step th clock e y = Some y' →
  id ∈ grid_ids (cameraModel_ (gui y)) → id ∈ grid_ids (cameraModel_ (gui y')).
Proof.
  intros Hy He (_ & _ & _ & _ & n & c & Hx)%gui_step_fields. eapply gui_exec_keeps; [|done|exact Hx]. by destruct Hy.
Qed.

Lemma gui_way th clock e y y' s d :
  sys_ok y → keeps_grid e → gui_step th clock e y = Some y' → on_its_way s d y → on_its_way s d y'.
Proof.
  intros Hy He Hs. pose proof (gui_step_fields _ _ _ _ _ Hs) as (Et & Er & Ee & _).
  unfold on_its_way. rewrite Et, Er, Ee. intros [?|[?|[?|Hd]]]; [by left|by right; left|by do 2 right; left|].
  do 3 right. intros cam Hc Hne. eapply grid_step; [exact Hy|done|done|by apply Hd].
Qed.

Lemma store_event_rows th clock d y y' :
  gui_step th clock (OnCameras (OpStore d)) y = Some y' →
  ∀ cam, cam ∈ d → fromStdString (cd_cameraId cam) ≠ "" → fromStdString (cd_cameraId cam) ∈ grid_ids (cameraModel_ (gui y')).
Proof.
  intros (_ & _ & _ & _ & n & c & Hx)%gui_step_fields. cbn in Hx.
  apply bind_Some in Hx as (g & Hc & [= -> _]). unfold cameras_changed in Hc.
  apply bind_Some in Hc as ([v s] & _ & [= <-]). cbn. intros cam Hin Hne.
  apply store_has_rows. by apply snapshot_by_cid_elem.
Qed.

Lemma camera_actions_yield s d : reads_as s d → yields d {| newData := []; todo := camera_actions s |}.
Proof.
  intros (Ha & es & Hp & Hd)%reads_as_inv. left. exists s, 0, es. cbn [todo newData]. rewrite drop_0. unfold camera_actions.
  by rewrite Ha.
Qed.

Lemma take_way now t q y s d :
  tasks y = t :: q → reads_as s d → on_its_way s d y → on_its_way s d (take_task now t q y).
Proof.
  intros Ht Hr. unfold on_its_way. rewrite Ht, elem_of_cons. intros [[<-|Hin]|Hw].
  - right. left. pose proof (camera_actions_yield s d Hr) as Hy. unfold take_task, System.take_task, System.run_task.
    destruct (camera_actions s) as [|a acts] eqn:Ha.
    + exfalso. apply reads_as_inv in Hr as [Hr _]. unfold camera_actions in Ha. rewrite Hr in Ha.
      by destruct (StoreItem s <$> _).
    + cbn. apply Exists_app. right. by constructor.
  - left. unfold take_task, System.take_task. by destruct (run_task now t (stores y)) as [[[|? ?]|?] ?].
  - right. unfold take_task, System.take_task. destruct (run_task now t (stores y)) as [[[|? ?]|?] ?]; cbn; try done.
    rewrite Exists_app. destruct Hw as [?|?]; [left; by left|by right].
Qed.

(** A worker that goes on leaves the others alone. *)
Lemma put_job_Exists (X : job → Prop) (Y : Prop) i j j' r :
  r !! i = Some j → Exists X r → (X j → Y ∨ (todo j' ≠ [] ∧ X j')) → Y ∨ Exists X (put_job i j' r).
Proof.
  intros Hi Hx Hj. apply Exists_exists in Hx as (x & [k Hk]%list_elem_of_lookup & Hx).
  destruct (decide (i = k)) as [<-|Hne].
  - rewrite Hi in Hk. injection Hk as <-. destruct (Hj Hx) as [?|[Hn Hx']]; [by left|right].
    unfold put_job. destruct (todo j'); [done|]. apply Exists_exists. exists j'. split; [|done].
    apply list_elem_of_lookup. exists i. apply list_lookup_insert_eq. by eapply lookup_lt_Some.
  - right. apply Exists_exists. exists x. split; [|done]. unfold put_job. destruct (todo j').
    + apply list_elem_of_lookup. destruct (decide (k < i)) as [Hlt|Hge].
      * exists k. by rewrite list_lookup_delete_lt.
      * exists (pred k). destruct k; [lia|]. cbn. rewrite list_lookup_delete_ge by lia. done.
    + apply list_elem_of_lookup. exists k. by rewrite list_lookup_insert_ne.
Qed.

(** A step of the worker that makes [d] brings it nearer. *)
Lemma access_yields a nd rest c d nd' evs c' :
  (∀ e, a ≠ PostEvent e) → yields d {| newData := nd; todo := a :: rest |} → access a nd c = (Ret (nd', evs), c') →
  (PostEvent <$> evs) ++ rest ≠ [] ∧ yields d {| newData := nd'; todo := (PostEvent <$> evs) ++ rest |}.
Proof.
  intros Hne [(s & k & es & Ht & Hp & Hd)|Hin] Hx; cbn [todo newData] in *.
  - destruct (drop k (elements (json_parse s))) as [|item items] eqn:Hk.
    + cbn in Ht, Hp. injection Ht as -> ->. injection Hp as <-. cbn in Hd. rewrite app_nil_r in Hd. subst nd.
      cbn in Hx. injection Hx as <- <- _. split; [done|]. right. by left.
    + apply lookup_drop_cons in Hk as [Hl Hk]. cbn [length seq fmap list_fmap app] in Ht. injection Ht as -> ->.
      cbn [parse_items] in Hp. cbn [access] in Hx. rewrite Hl, update_item_parse in Hx.
      destruct (parse_item item) as [o|e]; [|done]. injection Hx as <- <- _.
      destruct (parse_items items) as [es' err] eqn:Hpi. cbn in Hp. injection Hp as <- ->.
      split; [by destruct (StoreItem s <$> _)|]. left. exists s, (S k), es'. cbn [todo newData].
      rewrite Hk. split_and!; [done|done|]. by rewrite map_app, app_assoc in Hd.
  - apply elem_of_cons in Hin as [<-|Hin]; [by edestruct Hne|].
    assert (PostEvent (OnCameras (OpStore d)) ∈ (PostEvent <$> evs) ++ rest) as Hin' by (apply elem_of_app; by right).
    split; [|by right]. intros E. rewrite E in Hin'. by apply not_elem_of_nil in Hin'.
Qed.

Lemma post_yields e nd rest d :
  yields d {| newData := nd; todo := PostEvent e :: rest |} →
  e = OnCameras (OpStore d) ∨ (rest ≠ [] ∧ yields d {| newData := nd; todo := rest |}).
Proof.
  intros [(s & k & es & Ht & _)|Hin]; cbn [todo newData] in *.
  - by destruct (drop k (elements (json_parse s))).
  - apply elem_of_cons in Hin as [[= ->]|Hin]; [by left|right]. split; [|by right].
    intros ->. by apply not_elem_of_nil in Hin.
Qed.

Lemma work_way i y y' s d : work i y = Some y' → on_its_way s d y → on_its_way s d y'.
Proof.
  intros (j & a & rest & Hj & Ht & Hcase)%work_cases. unfold on_its_way.
  assert (j = {| newData := newData j; todo := a :: rest |}) as Ej by (rewrite <-Ht; by destruct j).
  destruct Hcase as [(e & -> & ->)|[Hne ->]]; cbn.
  - intros [?|[Hr|[?|?]]]; [by left| |by right; right; left; apply elem_of_app; left|by do 3 right].
    destruct (put_job_Exists (yields d) (e = OnCameras (OpStore d)) i j {| newData := newData j; todo := rest |} _ Hj Hr)
      as [->|?]; [|right; right; left; apply elem_of_app; right; by left|by right; left].
    rewrite Ej. by intros ?%post_yields.
  - unfold store_access. destruct (access a (newData j) (cameraStore_ (stores y))) as [[[nd evs]|ex] c] eqn:Hx; cbn; [|done].
    intros [?|[Hr|[?|?]]]; [by left| |by right; right; left|by do 3 right]. right. left.
    edestruct (put_job_Exists (yields d) False) as [[]|Hx']; [exact Hj|exact Hr| |exact Hx'].
    rewrite Ej. intros Hy. right. by eapply access_yields.
Qed.

Lemma callback_keeps purpose k body : keeps_grid (OnAuth (ECallback purpose k body)).
Proof. done. Qed.

Lemma emit_way sigs y s d : on_its_way s d y → on_its_way s d (emit sigs y).
Proof.
  unfold on_its_way. cbn. rewrite !elem_of_app. intros [?|[?|[?|?]]]; [by left; left|by right; left|by right; right; left; left|].
  by do 3 right.
Qed.

Lemma sys_exec_way workers l y y' s d :
  sys_ok y → no_logout l → reads_as s d → sys_exec workers l y = Some y' → on_its_way s d y → on_its_way s d y'.
Proof.
  intros Hy Hl Hr. unfold sys_exec. destruct (terminated y); [done|].
  destruct l as [th clock purpose k body|data meta|th clock e|now|i|th clock].
  - intros (y1 & H1 & [= <-])%bind_Some Hw. apply emit_way.
    exact (gui_way _ _ _ _ _ _ _ Hy (callback_keeps purpose k body) H1 Hw).
  - intros [= <-]. apply emit_way.
  - destruct (from_outside e); [|done]. by apply gui_way.
  - destruct (tasks y) as [|t q] eqn:Ht; [done|]. case_decide; [|done]. intros [= <-]. by apply take_way.
  - apply work_way.
  - destruct (events y) as [|e evs] eqn:Hev; [done|]. intros Hs Hw.
    pose proof (so_events _ Hy) as He. rewrite Hev in He. apply Forall_cons in He as [[Hk _] He].
    destruct Hw as [Hw|[Hw|[Hw|Hw]]].
    + eapply gui_way; [|exact Hk|exact Hs|]; [by destruct Hy|by left].
    + eapply gui_way; [|exact Hk|exact Hs|]; [by destruct Hy|by right; left].
    + rewrite Hev in Hw. apply elem_of_cons in Hw as [<-|Hw].
      * do 3 right. by eapply store_event_rows.
      * eapply gui_way; [|exact Hk|exact Hs|]; [by destruct Hy|by right; right; left].
    + eapply gui_way; [|exact Hk|exact Hs|]; [by destruct Hy|by do 3 right].
Qed.

Lemma sys_run_way workers ls y y' s d :
  sys_ok y → Forall no_logout ls → reads_as s d → sys_run workers ls y = Some y' → on_its_way s d y → on_its_way s d y'.
Proof.
  intros Hy Hls Hr. revert y Hy. induction Hls as [|l ls Hl _ IH]; intros y Hy; cbn; [by intros [= <-]|].
  intros (y1 & H1 & H2)%bind_Some Hw. eapply (IH y1); [by eapply sys_exec_ok|exact H2|by eapply sys_exec_way].
Qed.

(** Nothing is left to do. *)
Definition quiet (y : System) : Prop := tasks y = [] ∧ running y = [] ∧ events y = [].

(** *** Draining the pool *)

(** Steps of the workers. *)
Definition pool_label (l : sys_label) : Prop := match l with Take _ | Work _ => True | _ => False end.

(** Decode threads that see the stop flag when they are joined. *)
Definition seen (_ : nat) : Threads := λ _, then_stop [].

Lemma sys_run_app workers ls1 ls2 y :
  sys_run workers (ls1 ++ ls2) y = y1 ← sys_run workers ls1 y; sys_run workers ls2 y1.
Proof.
  revert y. induction ls1 as [|l ls1 IH]; intros y; cbn; [done|]. destruct (sys_exec workers l y); cbn; [apply IH|done].
Qed.

(** The GUI thread can run an event, and the one at the head of its queue. *)
Lemma gui_step_returns e y :
  gui_ok (gui y) → (∀ i p, e ≠ OnFrame i p) → ∃ g c, gui_step seen 0 e y = Some (set_gui g c y).
Proof.
  intros Hg Hf.
  destruct (gui_exec_returns {| store_now := cameraStore_ (stores y); threads_now := λ _ _, []; clock_now := 0 |} e (gui y) Hg Hf)
    as [[g c] Hx].
  assert (gui_exec {| store_now := cameraStore_ (stores y); threads_now := seen; clock_now := 0 |} e (gui y) = Some (g, c))
    as Hx' by exact Hx.
  unfold gui_step. rewrite Hx'. by eexists _, _.
Qed.

Lemma next_event_returns workers e evs y :
  sys_ok y → terminated y = false → events y = e :: evs →
  ∃ y', sys_exec workers (NextEvent seen 0) y = Some y' ∧ tasks y' = tasks y ∧ running y' = running y ∧
    events y' = evs ∧ terminated y' = false.
Proof.
  intros [Hg He _] Ht Hev. unfold sys_exec, System.sys_exec. rewrite Ht, Hev. rewrite Hev in He. apply Forall_cons in He as [(_ & Hf & _) _].
  destruct (gui_step_returns e (set_events (running y) evs y) Hg Hf) as (g & c & ->). by eexists.
Qed.

(** What a worker still has to do. *)
Definition weight1 (a : action) : nat := match a with StoreList => 2 | _ => 1 end.
Definition weight (acts : list action) : nat := sum_list (weight1 <$> acts).
Definition backlog (r : list job) : nat := sum_list (weight ∘ todo <$> r).

Lemma weight_cons a acts : weight (a :: acts) = weight1 a + weight acts.
Proof. done. Qed.

Lemma backlog_cons j r : backlog (j :: r) = weight (todo j) + backlog r.
Proof. done. Qed.

Lemma weight_posts evs acts : weight ((PostEvent <$> evs) ++ acts) = length evs + weight acts.
Proof. induction evs as [|e evs IH]; [done|]. rewrite fmap_cons, <-app_comm_cons, weight_cons, IH. done. Qed.

Lemma access_posts a nd c nd' evs c' :
  (∀ e, a ≠ PostEvent e) → access a nd c = (Ret (nd', evs), c') → length evs < weight1 a.
Proof.
  intros Hne. destruct a as [s k| |id info|id info|e]; cbn; try (intros [= _ <- _]; cbn; lia).
  - destruct (elements _ !! k) as [item|]; [|intros [= _ <- _]; cbn; lia].
    destruct (update_item item nd c) as [[nd1|ex] c1]; [|done]. intros [= _ <- _]. cbn. lia.
  - by destruct (Hne e).
Qed.

Lemma backlog_put j j' r : weight (todo j') < weight (todo j) → backlog (put_job 0 j' (j :: r)) < backlog (j :: r).
Proof.
  intros Hlt. unfold put_job. destruct (todo j') eqn:E.
  - change (delete 0 (j :: r)) with r. rewrite backlog_cons. lia.
  - change (<[0:=j']> (j :: r)) with (j' :: r). rewrite !backlog_cons, E. lia.
Qed.

(** A busy worker can always go on, and comes nearer to its end. *)
Lemma work_returns workers j r y :
  sys_ok y → terminated y = false → running y = j :: r →
  ∃ y', sys_exec workers (Work 0) y = Some y' ∧ tasks y' = tasks y ∧ gui y' = gui y ∧ calls y' = calls y ∧
    (terminated y' = true ∨ (terminated y' = false ∧ backlog (running y') < backlog (running y))).
Proof.
  intros Hy Ht Hr. unfold sys_exec, System.sys_exec. rewrite Ht. unfold work. rewrite Hr. cbn [lookup list_lookup mbind option_bind].
  pose proof (so_running _ Hy) as Hf. rewrite Hr in Hf. apply Forall_cons in Hf as [[Hne _] _].
  destruct (todo j) as [|a rest] eqn:Hj; [done|]. pose proof (weight_cons a rest) as Ew.
  assert ((∃ e, a = PostEvent e) ∨ ∀ e, a ≠ PostEvent e) as [[e ->]|Ha] by (destruct a; first [left; by eexists|by right]).
  - eexists. split; [done|]. split_and!; [done|done|done|right]. split; [done|]. cbn. rewrite Hr. apply backlog_put. rewrite Hj, Ew. cbn [todo weight1]. lia.
  - assert (∃ y', Some (store_access 0 a (newData j) rest y) = Some y' ∧ tasks y' = tasks y ∧ gui y' = gui y ∧ calls y' = calls y ∧
      (terminated y' = true ∨ (terminated y' = false ∧ backlog (running y') < backlog (j :: r)))) as Hs.
    { eexists. split; [done|]. unfold store_access.
      destruct (access a (newData j) (cameraStore_ (stores y))) as [[[nd evs]|ex] c] eqn:Hx; cbn [tasks gui calls terminated running set_pool].
      - split_and!; [done|done|done|right]. split; [done|]. rewrite Hr. apply backlog_put. cbn [todo].
        rewrite weight_posts, Hj, Ew. pose proof (access_posts _ _ _ _ _ _ Ha Hx). lia.
      - split_and!; [done|done|done|by left]. }
    destruct a; try exact Hs. by destruct (Ha e).
Qed.

(** The workers can finish what they are at, or run into an exception. *)
Lemma works_drain workers y :
  sys_ok y → terminated y = false →
  ∃ ls y', Forall pool_label ls ∧ sys_run workers ls y = Some y' ∧ sys_ok y' ∧ tasks y' = tasks y ∧ gui y' = gui y ∧
    calls y' = calls y ∧ (terminated y' = true ∨ (terminated y' = false ∧ running y' = [])).
Proof.
  remember (backlog (running y)) as n eqn:Hn. revert y Hn. induction (lt_wf n) as [n _ IH]. intros y Hn Hy Ht.
  destruct (running y) as [|j r] eqn:Hr; [by exists [], y; split_and!; [..|right]|].
  destruct (work_returns workers j r y Hy Ht Hr) as (y1 & H1 & Hq & Hg & Hc & Hor).
  assert (sys_ok y1) as Hy1 by (by eapply sys_exec_ok).
  destruct Hor as [Ht1|[Ht1 Hlt]].
  - exists [Work 0], y1. split; [by constructor|]. cbn. rewrite H1. by split_and!; [..|left].
  - rewrite Hr in Hlt. cbn [running] in Hlt. rewrite <-Hn in Hlt.
    destruct (IH _ Hlt y1 eq_refl Hy1 Ht1) as (ls & y' & Hi & Hrun & Hok & Hq' & Hg' & Hc' & Hend).
    exists (Work 0 :: ls), y'. split; [by constructor|]. cbn. rewrite H1. cbn.
    split_and!; [done|done|congruence|congruence|congruence|done].
Qed.

(** And all the tasks in the queue. *)
Lemma pool_drains workers y :
  0 < workers → sys_ok y → terminated y = false →
  ∃ ls y', Forall pool_label ls ∧ sys_run workers ls y = Some y' ∧ sys_ok y' ∧ gui y' = gui y ∧ calls y' = calls y ∧
    (terminated y' = true ∨ (terminated y' = false ∧ tasks y' = [] ∧ running y' = [])).
Proof.
  intros Hw. remember (tasks y) as q eqn:Hq. revert y Hq. induction q as [|t q IH]; intros y Hq Hy Ht;
    destruct (works_drain workers y Hy Ht) as (ls & y1 & Hi & Hr & Hok & Hq1 & Hg1 & Hc1 & [Ht1|[Ht1 Hr1]]).
  - exists ls, y1. by split_and!; [..|left].
  - exists ls, y1. split_and!; [done..|right]. split_and!; [done|congruence|done].
  - exists ls, y1. by split_and!; [..|left].
  - assert (sys_exec workers (Take 0) y1 = Some (take_task 0 t q y1)) as Htake.
    { unfold sys_exec, System.sys_exec. rewrite Ht1, Hq1, <-Hq, Hr1. by rewrite decide_True. }
    assert (tasks (take_task 0 t q y1) = q ∧ gui (take_task 0 t q y1) = gui y1 ∧ calls (take_task 0 t q y1) = calls y1)
      as (Hq2 & Hg2 & Hc2).
    { unfold take_task, System.take_task. by destruct (run_task 0 t (stores y1)) as [[[|? ?]|?] ?]. }
    assert (sys_run workers (ls ++ [Take 0]) y = Some (take_task 0 t q y1)) as Hrun.
    { rewrite sys_run_app, Hr. cbn. by rewrite Htake. }
    assert (Forall pool_label (ls ++ [Take 0])) as Hi' by (apply Forall_app; by repeat constructor).
    pose proof (take_ok 0 t q y1 Hok) as Hok2. destruct (terminated (take_task 0 t q y1)) eqn:Htm.
    + exists (ls ++ [Take 0]), (take_task 0 t q y1). split_and!; [done..|congruence|congruence|by left].
    + destruct (IH _ (eq_sym Hq2) Hok2 Htm) as (ls2 & y2 & Hi2 & Hr2 & Hok3 & Hg3 & Hc3 & Hend).
      exists ((ls ++ [Take 0]) ++ ls2), y2. rewrite sys_run_app, Hrun.
      split_and!; [by apply Forall_app|done|done|congruence|congruence|done].
Qed.
End lemmas.

(** ** Where the URLs come from *)

(** What [json::parse] returns is valid UTF-8, also when it is cut at a '/', so the URLs
    and the camera ids survive the way to a [QString] and back. *)
Class Utf8Texts `{J : Json, T : QtText} : Prop := {
  item_texts item u cam : parse_item item = Ret (Some (u, cam)) →
    toStdString (fromStdString u) = u ∧ toStdString (fromStdString (cd_cameraId cam)) = cd_cameraId cam;
  empty_texts : fromStdString "" = "" ∧ toStdString "" = ""
}.

(** An item of the text gives the camera this URL. *)
Definition lists `{J : Json} (s u : string) (cam : CameraData) : Prop :=
  is_array (json_parse s) = true ∧ ∃ item, item ∈ elements (json_parse s) ∧ parse_item item = Ret (Some (u, cam)).

Definition named `{J : Json} (ts : list string) (cid u : string) : Prop :=
  ∃ s cam, s ∈ ts ∧ lists s u cam ∧ cd_cameraId cam = cid.

(** The text of a CAMERA packet, as its tasks get it. *)
Definition packet_text `{T : QtText} (l : sys_label) : option string :=
  match l with Callback _ _ _ onCameraList body => Some (toStdString (fromStdString body)) | _ => None end.

Section urls.
Context `{J : Json, T : QtText, H : QtHash, Q : QtMap, V : QtVideo, W : QtVariant, K : QtJson, P : QtParse, F : QtFiles}.
Context `{U : !Utf8Texts}.
Context (toBase64 : list byte → string) (moved_from : QString).
Abbreviation sys_exec := (sys_exec toBase64 moved_from).
Abbreviation sys_run := (sys_run toBase64 moved_from).
Abbreviation take_task := (take_task toBase64 moved_from).
Abbreviation run_task := (run_task toBase64 moved_from).

(** The table has an entry for the camera. *)
Definition known (c : CameraStore) (cid : string) : Prop := is_Some (table_ c !! cid).
Definition all_known (c : CameraStore) (d : list CameraData) : Prop := ∀ cam, cam ∈ d → known c (cd_cameraId cam).

Definition event_known (c : CameraStore) (e : gui_event) : Prop := ∀ d, e = OnCameras (OpStore d) → all_known c d.

Definition action_known (ts : list string) (c : CameraStore) (a : action) : Prop :=
  match a with
  | StoreItem s _ => s ∈ ts ∧ is_array (json_parse s) = true
  | StoreList => True
  | SetDevice id _ | SetAi id _ => known c id
  | PostEvent e => event_known c e
  end.

Definition job_known (ts : list string) (c : CameraStore) (j : job) : Prop :=
  all_known c (newData j) ∧ Forall (action_known ts c) (todo j).

(** The URLs of the store and of the workers are those that the packets with the texts
    [ts] gave, and the store knows every camera that is on its way or in the grid. *)
Record store_ok (ts : list string) (c : CameraStore) : Prop := {
  so_table cid cs : table_ c !! cid = Some cs → named ts cid (cs_sourceUrl cs);
  so_data : all_known c (data_ c)
}.

Record gui_known (ts : list string) (c : CameraStore) (g : Gui) : Prop := {
  gk_grid id : id ∈ grid_ids (cameraModel_ g) → known c (toStdString id);
  gk_urls id w : worker_of (videoManager_ g) id = Some w →
    ∃ u, named ts (toStdString id) u ∧ connectionString_ w = fromStdString u
}.

Record urls_ok (ts : list string) (y : System) : Prop := {
  uo_tasks s : CameraTask s ∈ tasks y → s ∈ ts;
  uo_store : store_ok ts (cameraStore_ (stores y));
  uo_running : Forall (job_known ts (cameraStore_ (stores y))) (running y);
  uo_events : Forall (event_known (cameraStore_ (stores y))) (events y);
  uo_gui : gui_known ts (cameraStore_ (stores y)) (gui y)
}.

(** *** More texts, and a store that knows more *)

Definition knows_more (c c' : CameraStore) : Prop := ∀ cid, known c cid → known c' cid.

#[local] Instance knows_more_preorder : PreOrder knows_more.
Proof. split; [by intros c cid|]. intros c1 c2 c3 H1 H2 cid Hk. by apply H2, H1. Qed.

Lemma all_known_more c c' d : knows_more c c' → all_known c d → all_known c' d.
Proof. intros Hc Hd cam Hin. by apply Hc, Hd. Qed.

Lemma event_known_more c c' e : knows_more c c' → event_known c e → event_known c' e.
Proof. intros Hc He d ->. eapply all_known_more; [exact Hc|]. by apply He. Qed.

Lemma action_known_more ts ts' c c' a : ts ⊆ ts' → knows_more c c' → action_known ts c a → action_known ts' c' a.
Proof.
  intros Hts Hc. destruct a; cbn; try done; try apply Hc; [|by apply event_known_more]. intros [? ?]. split; [by apply Hts|done].
Qed.

Lemma job_known_more ts ts' c c' j : ts ⊆ ts' → knows_more c c' → job_known ts c j → job_known ts' c' j.
Proof.
  intros Hts Hc [Hd Ha]. split; [by eapply all_known_more|]. eapply Forall_impl; [exact Ha|]. intros a. by apply action_known_more.
Qed.

Lemma named_more ts ts' cid u : ts ⊆ ts' → named ts cid u → named ts' cid u.
Proof. intros Hts (s & cam & ? & ?). exists s, cam. split; [by apply Hts|done]. Qed.

Lemma gui_known_more ts ts' c c' g : ts ⊆ ts' → knows_more c c' → gui_known ts c g → gui_known ts' c' g.
Proof.
  intros Hts Hc [Hg Hu]. split; [intros id Hid; by apply Hc, Hg|]. intros id w (u & Hn & E)%Hu. exists u.
  split; [by eapply named_more|done].
Qed.

Lemma urls_ok_more ts ts' y : ts ⊆ ts' → urls_ok ts y → urls_ok ts' y.
Proof.
  intros Hts [Ht [Hs Hd] Hr He Hg]. split; [intros s Hin; by apply Hts, Ht|split; [|done]| |done|].
  - intros cid cs Hc. eapply named_more; [exact Hts|by apply Hs].
  - eapply Forall_impl; [exact Hr|]. intros j. by eapply job_known_more.
  - by eapply gui_known_more.
Qed.

(** *** The accesses *)

Lemma table_set_known f id (c : CameraStore) d t :
  t = table_set f id (table_ c) → knows_more c {| data_ := d; table_ := t |} ∧ known {| data_ := d; table_ := t |} id.
Proof.
  intros ->. unfold known. cbn. split; [|rewrite table_set_lookup, decide_True by done; by eexists].
  intros cid Hk. unfold known. cbn. rewrite table_set_lookup. case_decide; [by eexists|done].
Qed.

(** A change of an entry that keeps its URL. *)
Lemma store_ok_set ts c f id :
  (∀ cs, cs_sourceUrl (f cs) = cs_sourceUrl cs) → known c id → store_ok ts c →
  store_ok ts {| data_ := data_ c; table_ := table_set f id (table_ c) |}.
Proof.
  intros Hf [cs0 Hid] [Ht Hd]. destruct (table_set_known f id c (data_ c) _ eq_refl) as [Hm _]. split.
  - intros cid cs. cbn. rewrite table_set_lookup. case_decide as E; [|by apply Ht]. subst. rewrite Hid. intros [= <-].
    cbn. rewrite Hf. by apply Ht.
  - cbn. by eapply all_known_more.
Qed.

Lemma access_known ts a nd c r c' :
  action_known ts c a → all_known c nd → store_ok ts c → access a nd c = (r, c') →
  knows_more c c' ∧ store_ok ts c' ∧
  match r with Ret (nd', evs) => all_known c' nd' ∧ Forall (event_known c') evs | Throw _ => True end.
Proof.
  intros Ha Hnd Hs. destruct a as [s k| |id info|id info|e]; cbn in Ha |- *.
  - destruct Ha as [Hin Harr]. destruct (elements (json_parse s) !! k) as [item|] eqn:Hk; [|intros [= <- <-]; by split_and!].
    rewrite update_item_parse. destruct (parse_item item) as [[[u cam]|]|ex] eqn:Hp; intros [= <- <-]; cbn.
    + destruct (table_set_known (set_sourceUrl u) (cd_cameraId cam) c (data_ c) _ eq_refl) as [Hm Hk'].
      unfold add_source. cbn. split_and!; [done| | |constructor].
      * destruct Hs as [Ht Hd]. split; [|by eapply all_known_more]. intros cid cs. cbn. rewrite table_set_lookup.
        case_decide as E; [|by apply Ht]. intros [= <-]. exists s, cam. split_and!; [done| |done]. split; [done|].
        exists item. split; [by eapply list_elem_of_lookup_2|done].
      * intros cam' [?| ->%list_elem_of_singleton]%elem_of_app; [by apply Hm, Hnd|done].
    + rewrite app_nil_r. destruct c. by split_and!.
    + by destruct c.
  - intros [= <- <-]. destruct Hs as [Ht Hd]. split_and!; [by intros cid|split; [exact Ht|exact Hnd]|exact Hnd|].
    constructor; [|constructor]. intros d [= <-]. exact Hnd.
  - intros [= <- <-]. destruct (table_set_known (set_deviceInfo info) id c (data_ c) _ eq_refl) as [Hm _].
    split_and!; [done|by apply store_ok_set|by eapply all_known_more|constructor].
  - intros [= <- <-]. destruct (table_set_known (set_aiInfo info) id c (data_ c) _ eq_refl) as [Hm _].
    split_and!; [done|by apply store_ok_set|by eapply all_known_more|constructor].
  - intros [= <- <-]. split_and!; [done|done|done|by constructor].
Qed.

(** *** The steps *)

Lemma run_task_known ts now t st acts st' :
  store_ok ts (cameraStore_ st) → (∀ s, t = CameraTask s → s ∈ ts) → run_task now t st = (Ret acts, st') →
  cameraStore_ st' = cameraStore_ st ∧ Forall (action_known ts (cameraStore_ st)) acts.
Proof.
  intros [Ht Hd] Hs.
  assert (∀ A (f : A → gui_event) r, (∀ x d, f x ≠ OnCameras (OpStore d)) → posts f r = Ret acts →
    Forall (action_known ts (cameraStore_ st)) acts) as Hp.
  { intros A f [[x|]|e] Hf; intros [= <-]; repeat constructor. intros d E. by destruct (Hf x d). }
  assert (∀ id, (∃ d, d ∈ data_ (cameraStore_ st) ∧ cd_cameraId d = id) → known (cameraStore_ st) id) as Hk.
  { intros id (d & Hin & <-). by apply Hd. }
  destruct t as [s|s|s|s|s|s|s|data s]; cbn.
  - intros [= <- <-]. split; [done|]. apply Forall_forall. intros a [Harr [(k & _ & ->)| ->]]%camera_actions_elem; [|done].
    split; [by apply Hs|done].
  - destruct (updateFromCameraJson _ _ _) as [r d]. intros [= Hr <-]. split; [done|]. by eapply Hp; [|exact Hr].
  - destruct (updateFromAvailableJson _ _ _ _) as [r d]. intros [= Hr <-]. split; [done|]. by eapply Hp; [|exact Hr].
  - destruct (ServerStatusStore.updateFromJson _ _ _ _) as [r d]. intros [= Hr <-]. split; [done|]. by eapply Hp; [|exact Hr].
  - intros [= <- <-]. split; [done|]. apply Forall_forall. intros a (id & info & Hid & [-> | ->])%meta_actions_elem; [|done].
    by apply Hk.
  - destruct (dispatch_task s) as [[ev|]|]; intros [= <- <-]; (split; [done|]); by repeat constructor.
  - intros [= <- <-]. split; [done|]. apply Forall_forall. intros a (id & info & Hid & ->)%ai_actions_elem. by apply Hk.
  - intros [= <- <-]. split; [done|]. by apply Forall_fmap, Forall_forall.
Qed.

Lemma run_task_store now t st e st' : run_task now t st = (Throw e, st') → cameraStore_ st' = cameraStore_ st.
Proof.
  destruct t; cbn; try done; try (by intros [= _ <-]).
  - destruct (updateFromCameraJson _ _ _). by intros [= _ <-].
  - destruct (updateFromAvailableJson _ _ _ _). by intros [= _ <-].
  - destruct (ServerStatusStore.updateFromJson _ _ _ _). by intros [= _ <-].
Qed.

Lemma take_urls ts now t q y : tasks y = t :: q → urls_ok ts y → urls_ok ts (take_task now t q y).
Proof.
  intros Hq [Ht Hs Hr He Hg]. unfold take_task, System.take_task.
  assert (∀ s, CameraTask s ∈ q → s ∈ ts) as Hts by (intros s Hin; apply Ht; rewrite Hq; by right).
  destruct (run_task now t (stores y)) as [[acts|ex] st] eqn:Hx.
  - assert (cameraStore_ st = cameraStore_ (stores y) ∧ Forall (action_known ts (cameraStore_ (stores y))) acts) as [Ec Ha].
    { eapply run_task_known; [done| |exact Hx]. intros s ->. apply Ht. rewrite Hq. by left. }
    assert (job_known ts (cameraStore_ (stores y)) {| newData := []; todo := acts |}) as Hj.
    { split; [by intros cam ?%elem_of_nil|done]. }
    destruct acts; split; cbn; rewrite ?Ec; try done. by apply Forall_app_2, Forall_singleton.
  - apply run_task_store in Hx. split; cbn; by rewrite ?Hx.
Qed.

Lemma work_urls ts i y y' : work i y = Some y' → urls_ok ts y → urls_ok ts y'.
Proof.
  intros (j & a & rest & Hj & Htodo & Hcase)%work_cases [Ht Hs Hr He Hg].
  pose proof (Forall_lookup_1 _ _ _ _ Hr Hj) as [Hnd Ha]. rewrite Htodo in Ha. apply Forall_cons in Ha as [Ha Hrest].
  destruct Hcase as [(e & -> & ->)|[_ ->]].
  - split; cbn; try done.
    + apply put_job_Forall; [done|]. by split.
    + apply Forall_app_2; [done|by apply Forall_singleton].
  - unfold store_access. destruct (access a (newData j) (cameraStore_ (stores y))) as [r c] eqn:Hx.
    destruct (access_known ts _ _ _ _ _ Ha Hnd Hs Hx) as (Hm & Hs' & Hr').
    assert (Forall (job_known ts c) (running y)) as Hrun
      by (eapply Forall_impl; [exact Hr|]; intros j'; by apply job_known_more).
    assert (Forall (event_known c) (events y)) as Hev by (eapply Forall_impl; [exact He|]; intros e; by apply event_known_more).
    assert (gui_known ts c (gui y)) as Hgui by (by eapply gui_known_more).
    destruct r as [[nd evs]|ex]; split; cbn; try done. destruct Hr' as [Hnd' Hevs].
    apply put_job_Forall; [done|]. split; cbn; [done|]. apply Forall_app_2; [by apply Forall_fmap|].
    eapply Forall_impl; [exact Hrest|]. intros a'. by apply action_known_more.
Qed.

Lemma gui_urls ts th clock e y y' :
  sys_ok y → event_known (cameraStore_ (stores y)) e → urls_ok ts y → gui_step th clock e y = Some y' → urls_ok ts y'.
Proof.
  intros Hy He [Ht Hs Hr Hev [Hgrid Hurl]]. unfold gui_step. intros ([g c] & Hx & [= <-])%bind_Some. split; cbn; try done.
  assert (∀ id, id ∈ grid_ids (cameraModel_ g) → known (cameraStore_ (stores y)) (toStdString id)) as Hgrid'.
  { intros id Hid. destruct (gui_exec_grid _ _ _ _ _ _ (so_gui _ Hy) Hx Hid) as [?|(d & cam & -> & Hin & ->)]; [by apply Hgrid|].
    pose proof (He d eq_refl cam Hin) as Hk. pose proof Hk as [cs Hcs]. apply (so_table _ _ Hs) in Hcs as (s & cam' & _ & (_ & item & _ & Hp) & Ec).
    by rewrite <-Ec, (proj2 (item_texts _ _ _ Hp)), Ec. }
  split; [done|]. intros id w Hw.
  destruct (gui_exec_urls _ _ _ _ _ (so_gui _ Hy) Hx id w Hw) as [[Hin ->]|(w0 & Hw0 & ->)]; [|by eapply Hurl].
  assert (known (cameraStore_ (stores y)) (toStdString id)) as [cs Hcs] by (destruct Hin; auto).
  exists (cs_sourceUrl cs). split; [by apply (so_table _ _ Hs)|]. unfold stored_url, getCameraStruct. cbn. by rewrite Hcs.
Qed.

Lemma callback_texts purpose k body s :
  CameraTask s ∈ concat (route <$> on_callback purpose k body) → k = onCameraList ∧ s = toStdString (fromStdString body).
Proof.
  destruct k; cbn -[toStdString fromStdString login_result login_fail]; try (intros Hin; exfalso; set_solver).
  - unfold login_result. destruct (qjson_object _); [|by intros ?%elem_of_nil]. destruct (q_bool _ _); by intros ?%elem_of_nil.
  - unfold login_fail. repeat case_decide; by intros ?%elem_of_nil.
  - intros Hin. split; [done|]. set_solver.
Qed.

Lemma emit_urls ts sigs y :
  (∀ s, CameraTask s ∈ concat (route <$> sigs) → s ∈ ts) → urls_ok ts y → urls_ok ts (emit sigs y).
Proof.
  intros Hts [Ht Hs Hr He Hg]. split; cbn; try done.
  - intros s [?|?]%elem_of_app; [by apply Ht|by apply Hts].
  - apply Forall_app_2; [done|]. apply Forall_concat, Forall_fmap, Forall_forall. intros sig _. destruct sig; by repeat constructor.
Qed.

Lemma sys_exec_urls ts workers l y y' :
  sys_ok y → urls_ok ts y → sys_exec workers l y = Some y' → urls_ok (ts ++ option_list (packet_text l)) y'.
Proof.
  intros Hy Hu. assert (urls_ok (ts ++ option_list (packet_text l)) y) as Hu' by (eapply urls_ok_more; [|exact Hu]; set_solver).
  unfold sys_exec, System.sys_exec. destruct (terminated y); [done|].
  destruct l as [th clock purpose k body|data meta|th clock e|now|i|th clock].
  - intros (y1 & H1 & [= <-])%bind_Some. apply emit_urls; [|eapply gui_urls; [exact Hy| |exact Hu'|exact H1]].
    + intros s [-> ->]%callback_texts. cbn. apply elem_of_app. right. by left.
    + by intros d.
  - intros [= <-]. apply emit_urls; [|done]. cbn. set_solver.
  - destruct (from_outside e) eqn:Ho; [|done]. eapply gui_urls; [done| |done]. by intros d ->.
  - destruct (tasks y) as [|t q] eqn:Ht; [done|]. case_decide; [|done]. intros [= <-]. by apply take_urls.
  - intros H1. by eapply work_urls.
  - destruct (events y) as [|e evs] eqn:Hev; [done|]. pose proof (uo_events _ _ Hu') as He. rewrite Hev in He.
    apply Forall_cons in He as [He Hevs]. eapply gui_urls; [|exact He|].
    + destruct Hy as [Hg Hp Hr]. rewrite Hev in Hp. apply Forall_cons in Hp as [_ Hp]. by split.
    + by destruct Hu'; split.
Qed.

Lemma init_urls s : urls_ok [] (Core_init s).
Proof.
  split; cbn; try (by constructor); try by intros ? ?%elem_of_nil.
  - split; cbn; [by intros cid cs; rewrite lookup_empty|by intros ? ?%elem_of_nil].
  - split; [by intros ? ?%elem_of_nil|]. intros id w. unfold worker_of. cbn. by rewrite lookup_empty.
Qed.

Lemma sys_run_urls ts workers ls y y' :
  sys_ok y → urls_ok ts y → sys_run workers ls y = Some y' → urls_ok (ts ++ omap packet_text ls) y'.
Proof.
  revert ts y. induction ls as [|l ls IH]; intros ts y Hy Hu; cbn [System.sys_run]; [intros [= <-]; by rewrite app_nil_r|].
  intros (y1 & H1 & H2)%bind_Some. apply sys_exec_urls with (ts := ts) in H1 as Hu1; [|done|done].
  specialize (IH _ y1 (sys_exec_ok _ _ _ _ _ _ Hy H1) Hu1 H2). cbn. by destruct (packet_text l); rewrite <-?app_assoc in IH.
Qed.

Lemma reads_as_text s d cam : reads_as s d → cam ∈ d → toStdString (fromStdString (cd_cameraId cam)) = cd_cameraId cam.
Proof.
  intros (_ & es & Hp & <-)%reads_as_inv. revert es Hp. induction (elements (json_parse s)) as [|item items IH]; intros es; cbn.
  { intros [= <-]. by intros ?%elem_of_nil. }
  destruct (parse_item item) as [o|e] eqn:Hi; [|done]. destruct (parse_items items) as [es' err]. cbn. intros [= <- ->].
  rewrite map_app, elem_of_app. intros [Hin|?]; [|by eapply IH]. destruct o as [[u cam']|]; cbn in Hin; [|by apply elem_of_nil in Hin].
  apply list_elem_of_singleton in Hin as ->. by apply (item_texts _ _ _ Hi).
Qed.

(** A camera of the grid has a slot, and its worker decodes the URL that a packet gave. *)
Lemma grid_decodes_url ts y id :
  sys_ok y → urls_ok ts y → id ≠ "" → id ∈ grid_ids (cameraModel_ (gui y)) →
  ∃ slot i w u, cameraIdForSlot slot (cameraModel_ (gui y)) = id ∧ getWorkerBySlot slot (videoManager_ (gui y)) = Some i ∧
    heap (videoManager_ (gui y)) !! i = Some w ∧ cameraId_ w = id ∧ named ts (toStdString id) u ∧
    decodeThread_ (video_ w) = if str_empty u then None else Some u.
Proof.
  intros Hy Hu Hne Hin. destruct (grid_decodes _ _ (so_gui _ Hy) Hne Hin) as (slot & i & w & Hs & Hi & Hw & Hc & Hd).
  assert (worker_of (videoManager_ (gui y)) id = Some w) as Ho.
  { unfold worker_of. destruct (slot_agrees (gui y) slot (so_gui _ Hy)) as [_ Hid].
    unfold getWorkerBySlot, getWorker in Hi. rewrite Hid, Hs in Hi. by rewrite Hi. }
  destruct (gk_urls _ _ _ (uo_gui _ _ Hu) _ _ Ho) as (u & Hnm & E). exists slot, i, w, u. split_and!; try done.
  rewrite Hd. unfold playing. rewrite E. destruct Hnm as (s & cam & _ & (_ & item & _ & Hp) & _).
  apply item_texts in Hp as [Hu1 _]. cbn zeta. rewrite Hu1. destruct (str_empty u) eqn:He; [by rewrite orb_true_r|].
  rewrite orb_false_r. destruct (str_empty (fromStdString u)) eqn:Hf; [|done].
  apply str_empty_true in Hf. rewrite Hf, (proj2 empty_texts) in Hu1. by subst u.
Qed.

End urls.

(** ** Properties *)
Section properties.
Context `{J : Json, T : QtText, H : QtHash, Q : QtMap, V : QtVideo, W : QtVariant, K : QtJson, P : QtParse, F : QtFiles}.

(** C3. From the packet to the picture: whatever happened before, once a CAMERA packet
    has arrived whose text reads as a list of cameras, then however the workers, the
    GUI thread, the user and other packets interleave, short of a logout, when
    nothing is left to do every camera of the packet has a slot in the grid whose
    worker exists and belongs to the camera.  Its URL is one that a CAMERA packet,
    this one or another, gave for this very camera, and the worker's thread decodes
    that URL, or nothing if the packet left it empty.  (The texts of a packet are
    UTF-8, so that none changes on its way to the worker.) *)
Theorem packet_reaches_decoders `{U : !Utf8Texts} (toBase64 : list byte → string) (moved_from : QString) (workers : nat)
    (s : Store) (before after : list sys_label) (y y1 y2 : System) (th : nat → Threads) (clock : Z) (purpose : QString)
    (body : string) (d : list CameraData) :
  let packet := Callback th clock purpose onCameraList body in
  sys_run toBase64 moved_from workers before (Core_init s) = Some y →
  reads_as (toStdString (fromStdString body)) d →
  sys_exec toBase64 moved_from workers packet y = Some y1 →
  Forall no_logout after → sys_run toBase64 moved_from workers after y1 = Some y2 → quiet y2 →
  ∀ cam, cam ∈ d → let id := fromStdString (cd_cameraId cam) in id ≠ "" →
  ∃ slot i w u, cameraIdForSlot slot (cameraModel_ (gui y2)) = id ∧
    getWorkerBySlot slot (videoManager_ (gui y2)) = Some i ∧ heap (videoManager_ (gui y2)) !! i = Some w ∧
    cameraId_ w = id ∧ named (omap packet_text (before ++ packet :: after)) (cd_cameraId cam) u ∧
    decodeThread_ (video_ w) = if str_empty u then None else Some u.
Proof.
  intros packet Hb Hd Hp Ha Hr (Hq1 & Hq2 & Hq3) cam Hin id Hne.
  assert (sys_ok y) as Hy by (eapply sys_run_ok; [apply init_ok|exact Hb]).
  assert (sys_ok y1) as Hy1 by (eapply sys_exec_ok; [exact Hy|exact Hp]).
  assert (sys_ok y2) as Hy2 by (eapply sys_run_ok; [exact Hy1|exact Hr]).
  assert (urls_ok (omap packet_text (before ++ packet :: after)) y2) as Hu2.
  { apply (sys_run_urls toBase64 moved_from [] workers _ (Core_init s)); [apply init_ok|apply init_urls|].
    rewrite sys_run_app, Hb. cbn. by rewrite Hp. }
  assert (on_its_way (toStdString (fromStdString body)) d y1) as Hw.
  { left. unfold sys_exec in Hp. destruct (terminated y); [done|]. apply bind_Some in Hp as (y0 & _ & [= <-]).
    cbn. apply elem_of_app. right. by left. }
  apply (sys_run_way toBase64 moved_from workers after y1 y2 _ d Hy1 Ha Hd Hr) in Hw.
  unfold on_its_way in Hw. rewrite Hq1, Hq2, Hq3 in Hw.
  destruct Hw as [Hw|[Hw|[Hw|Hw]]]; [by apply not_elem_of_nil in Hw|by apply Exists_nil in Hw|by apply not_elem_of_nil in Hw|].
  assert (toStdString id = cd_cameraId cam) as E by (by eapply reads_as_text).
  rewrite <-E. apply grid_decodes_url; [done|done|done|by apply Hw].
Qed.
End properties.

(** *** Example: a packet with one camera, on two workers *)

#[local] Existing Instances RefText RefHash RefMap RefVideo RefVariant RefFiles.
#[local] Instance system_qjson : QtJson := RefQtJson [].
#[local] Instance system_parse : QtParse := RefParse [] [] [].
#[local] Instance system_json : Json :=
  RefJson [("cams", JArr [JObj [("ip", JStr "10.0.0.1"); ("is_online", JBool true); ("source_url", JStr "rtsp://10.0.0.1/0/main")]])].

#[local] Instance system_texts : Utf8Texts.
Proof. by split. Qed.

Definition demo_before : list sys_label := [Outside seen 0 (OnSettings (SetDefaultGrid 9))].

Definition demo_packet : sys_label := Callback seen 0 "login" onCameraList "cams".

Definition demo_after : list sys_label :=
  [Take 0; Take 0; Work 1; Work 0; Outside seen 0 (OnSettings Save); Work 0; Work 0; NextEvent seen 0; NextEvent seen 0].

Definition demo_base64 (l : list byte) : string := "".

Definition demo_system (ls : list sys_label) : System :=
  default (Core_init ∅) (sys_run demo_base64 "" 2 ls (Core_init ∅)).

Definition demo_camera : CameraData :=
  match (CameraStore.updateFromJson "cams" true CameraStore0).1 with Ret (Some [c]) => c | _ => CameraData0 end.

(** The only URL the packet gives. *)
Lemma demo_named ls cid u : Forall (λ s, s = "cams") (omap packet_text ls) → named (omap packet_text ls) cid u → u = "rtsp://10.0.0.1/0/main".
Proof.
  intros Hls (s & cam & Hs & (_ & item & Hi & Hp) & _). rewrite Forall_forall in Hls. apply Hls in Hs as ->.
  revert Hi Hp. vm_compute. intros ->%list_elem_of_singleton. vm_compute. by intros [= <- _].
Qed.

Lemma packet_reaches_decoders_witness :
  cd_cameraId demo_camera = "10.0.0.1/0" ∧
  ∃ slot i w, cameraIdForSlot slot (cameraModel_ (gui (demo_system (demo_before ++ demo_packet :: demo_after)))) = "10.0.0.1/0" ∧
    getWorkerBySlot slot (videoManager_ (gui (demo_system (demo_before ++ demo_packet :: demo_after)))) = Some i ∧
    heap (videoManager_ (gui (demo_system (demo_before ++ demo_packet :: demo_after)))) !! i = Some w ∧
    cameraId_ w = "10.0.0.1/0" ∧ decodeThread_ (video_ w) = Some "rtsp://10.0.0.1/0/main".
Proof.
  split; [by vm_compute|].
  destruct (packet_reaches_decoders demo_base64 "" 2 ∅ demo_before demo_after (demo_system demo_before)
    (demo_system (demo_before ++ [demo_packet])) (demo_system (demo_before ++ demo_packet :: demo_after))
    seen 0 "login" "cams" [demo_camera]) with (cam := demo_camera) as (slot & i & w & u & H1 & H2 & H3 & H4 & H5 & H6).
  - vm_compute. reflexivity.
  - intros st. rewrite camera_updateFromJson_result. vm_compute. reflexivity.
  - vm_compute. reflexivity.
  - repeat constructor; done.
  - vm_compute. reflexivity.
  - vm_compute. done.
  - left.
  - by vm_compute.
  - apply demo_named in H5 as ->; [|by repeat constructor]. exists slot, i, w. by split_and!.
Defined.
