(* ===== verification/Application.v ===== *)
(** * The application (src/Core.cpp, src/App.cpp)

    The network service, the bridge and the running system together.  The service's
    thread runs its handlers beside the GUI thread; what it calls back is queued for
    the GUI thread, which runs one callback, event or command at a time.  While the GUI
    thread is in a call on the service it does nothing else: [disconnect] joins the
    service's thread.  A logout begins with such a call ([LoginController::logout]); only
    when it has returned is anything cleared ([Resume]).  A step relation ([app_exec])
    interleaves all of it.

    Two simplifications: other events make their calls on the service in their midst,
    here these follow the rest of the event (a login or a signup that the server
    answered, whose last lines only set the error text and emit signals); and callbacks
    and posted events share one queue in the code, here two, merged in any way. *)

From S2P Require Import Prelude Extern Variant Protocol Crypt CameraStore MessageProcessor UdpSession TcpSession NetworkService CameraModel Settings.
From S2P Require Import NetworkBridge Auth Video VideoWorker VideoManager VideoWiring Core Gui System.

(** ** State *)

(** [main]: the event loop runs, or [aboutToQuit] has called [Core::shutdown], which
    waits for the service and then destroys the objects of layer 1. *)
Inductive phase : Type := Running | Quitting | Destroying.

#[export] Instance phase_eq_dec : EqDecision phase.
Proof. solve_decision. Defined.

Record App (TS DS : Type) : Type := {
  ap_system : System;
  ap_bridge : NetworkBridge;
  ap_net : NetworkService TS DS;
  ap_purpose : QString;                      (* of the connection, captured by its callbacks *)
  ap_queue : list (QString * net_out);       (* callbacks queued for the GUI thread *)
  ap_calls : list svc_call;                  (* calls the GUI thread is in, and still has to make *)
  ap_leaving : bool;                         (* a logout is in its first call *)
  ap_phase : phase;
  ap_aborted : bool                          (* an exception left the service's thread *)
}.
Arguments ap_system {_ _}.
Arguments ap_bridge {_ _}.
Arguments ap_net {_ _}.
Arguments ap_purpose {_ _}.
Arguments ap_queue {_ _}.
Arguments ap_calls {_ _}.
Arguments ap_leaving {_ _}.
Arguments ap_phase {_ _}.
Arguments ap_aborted {_ _}.

(** What QML may invoke on the bridge, and its timer. *)
Inductive bridge_command : Type :=
| ConnectToServer (host port purpose : QString)
| CloseConnection
| SendLogin (id pw : QString)
| SendSignup (id email pw : QString)
| SendDevice (deviceIp motor ir heater : QString)
| SendApprove (targetId : QString)
| SendListPending
| DebounceTimeout.

Inductive app_label : Type :=
| Io (e : net_event)                               (* the service's thread *)
| ResolveFails                                     (* the resolver throws *)
| ServiceCall                                      (* the GUI thread, in a call on the service *)
| NextCallback (th : nat → Threads) (clock : Z)    (* the next callback of the service *)
| Step (l : sys_label)
| Command (c : bridge_command)
| Quit (th : Threads)
| Destroy
| Resume (th : nat → Threads) (clock : Z).         (* the logout whose disconnect has returned *)

(** ** Steps *)
Section app.
Context `{J : Json, T : QtText, H : QtHash, Q : QtMap, V : QtVideo, W : QtVariant, K : QtJson, P : QtParse, F : QtFiles}.
Context (toBase64 : list byte → string) (moved_from : QString) (workers : nat).
Context {TS DS : Type} `{ST : SecureSession TS, SD : SecureSession DS}.
Context (new_tls : option TS) (new_dtls : DS) (getLocalPort : UdpSession DS → Z) (fuel : nat).
Abbreviation app := (App TS DS).
Abbreviation net_handle := (net_handle new_tls new_dtls getLocalPort fuel).

(** The application as [Core::init] leaves it. *)
Definition App_init (s : Store) : app := {|
  ap_system := Core_init s; ap_bridge := NetworkBridge0; ap_net := net_initial; ap_purpose := "";
  ap_queue := []; ap_calls := []; ap_leaving := false; ap_phase := Running; ap_aborted := false
|}.

(** *** Field updates *)

(** What the service has called back since is queued. *)
Definition with_net (n : NetworkService TS DS) (a : app) : app := {|
  ap_system := ap_system a; ap_bridge := ap_bridge a; ap_net := n; ap_purpose := ap_purpose a;
  ap_queue := ap_queue a ++ ((ap_purpose a,.) <$> drop (length (out (ap_net a))) (out n));
  ap_calls := ap_calls a; ap_leaving := ap_leaving a; ap_phase := ap_phase a; ap_aborted := ap_aborted a
|}.

Definition with_calls (purpose : QString) (c : list svc_call) (a : app) : app := {|
  ap_system := ap_system a; ap_bridge := ap_bridge a; ap_net := ap_net a; ap_purpose := purpose;
  ap_queue := ap_queue a; ap_calls := c; ap_leaving := ap_leaving a; ap_phase := ap_phase a; ap_aborted := ap_aborted a
|}.

(** The system has moved on; the calls it made are to be carried out. *)
Definition with_system (y : System) (q : list (QString * net_out)) (a : app) : app := {|
  ap_system := y; ap_bridge := ap_bridge a; ap_net := ap_net a; ap_purpose := ap_purpose a; ap_queue := q;
  ap_calls := ap_calls a ++ drop (length (calls (ap_system a))) (calls y);
  ap_leaving := ap_leaving a; ap_phase := ap_phase a; ap_aborted := ap_aborted a
|}.

Definition with_bridge (r : NetworkBridge * list svc_call) (a : app) : app := {|
  ap_system := ap_system a; ap_bridge := r.1; ap_net := ap_net a; ap_purpose := ap_purpose a;
  ap_queue := ap_queue a; ap_calls := ap_calls a ++ r.2; ap_leaving := ap_leaving a; ap_phase := ap_phase a; ap_aborted := ap_aborted a
|}.

Definition with_phase (p : phase) (ab : bool) (a : app) : app := {|
  ap_system := ap_system a; ap_bridge := ap_bridge a; ap_net := ap_net a; ap_purpose := ap_purpose a;
  ap_queue := ap_queue a; ap_calls := ap_calls a; ap_leaving := ap_leaving a; ap_phase := p; ap_aborted := ab
|}.

(** A logout with a bridge: its first statement is [bridge_->disconnect()]. *)
Definition begins_logout (l : sys_label) (a : app) : bool :=
  match l with Outside _ _ (OnAuth ELogout) => bridge_ (lg_auth (login_ (auth_ (gui (ap_system a))))) | _ => false end.

Definition begin_logout (a : app) : app := {|
  ap_system := ap_system a; ap_bridge := ap_bridge a; ap_net := ap_net a; ap_purpose := ap_purpose a;
  ap_queue := ap_queue a; ap_calls := [SvcDisconnect]; ap_leaving := true; ap_phase := ap_phase a;
  ap_aborted := ap_aborted a
|}.

(** The rest of it, without the call it has made. *)
Definition end_logout (y : System) (a : app) : app := {|
  ap_system := y; ap_bridge := ap_bridge a; ap_net := ap_net a; ap_purpose := ap_purpose a; ap_queue := ap_queue a;
  ap_calls := drop (S (length (calls (ap_system a)))) (calls y); ap_leaving := false; ap_phase := ap_phase a;
  ap_aborted := ap_aborted a
|}.

Definition is_connect_post (p : net_post) : bool := match p with PConnect _ _ => true | _ => false end.

(** *** The GUI thread *)

(** [disconnect] begins, waits for the thread and ends; [connect] disconnects first. *)
Definition service_call (c : svc_call) (rest : list svc_call) (a : app) : option app :=
  let n := ap_net a in
  match c with
  | SvcSend t b => n' ← net_handle n (AppSend t b); Some (with_calls (ap_purpose a) rest (with_net n' a))
  | SvcDisconnect =>
      if io_context_ n then
        n' ← net_handle n (if joining n then JoinReturns else Disconnect); Some (with_net n' a)
      else Some (with_calls (ap_purpose a) rest a)
  | SvcConnect h p purpose =>
      if io_context_ n then
        n' ← net_handle n (if joining n then JoinReturns else Disconnect); Some (with_net n' a)
      else n' ← net_handle n (Connect h p bridge_callbacks); Some (with_calls purpose rest (with_net n' a))
  end.

(** What the queued function of a callback does. *)
Definition callback_label (th : nat → Threads) (clock : Z) (purpose : QString) (o : net_out) : sys_label :=
  match o with
  | CbConnected => Outside th clock (OnAuth (EConnected purpose))
  | CbText k body => Callback th clock purpose k body
  | CbImageData data meta => ImageData data meta
  end.

(** Events that QML, the decode threads and the pool bring about. *)
Definition own_label (connected : bool) (l : sys_label) : bool :=
  match l with
  | Callback _ _ _ _ _ | ImageData _ _ | Outside _ _ (OnAuth (EConnected _)) => false
  | Outside _ _ (OnAuth (ELogin _ _ c)) => Bool.eqb c connected
  | Outside _ _ (OnAuth (ESignup _ _ _ c)) => Bool.eqb c connected
  | _ => true
  end.

Definition on_gui_thread (l : sys_label) : bool :=
  match l with Outside _ _ _ | NextEvent _ _ => true | _ => false end.

Definition run_command (c : bridge_command) (b : NetworkBridge) : option (NetworkBridge * list svc_call) :=
  match c with
  | ConnectToServer host port purpose => Some (b, connectToServer host port purpose)
  | CloseConnection => Some (b, NetworkBridge.disconnect)
  | SendLogin id pw => Some (b, sendLogin id pw)
  | SendSignup id email pw => Some (b, sendSignup id email pw)
  | SendDevice ip motor ir heater => Some (sendDevice ip motor ir heater b)
  | SendApprove id => Some (b, sendApprove id)
  | SendListPending => Some (b, sendListPending)
  | DebounceTimeout => if debounce_active b then Some (processPendingStates b) else None
  end.

(** The event loop is between two events. *)
Definition gui_free (a : app) : bool :=
  bool_decide (ap_calls a = []) && bool_decide (ap_phase a = Running) && negb (ap_leaving a).

Definition sys_step (l : sys_label) (q : list (QString * net_out)) (a : app) : option app :=
  y ← sys_exec toBase64 moved_from workers l (ap_system a); Some (with_system y q a).

Definition app_exec (l : app_label) (a : app) : option app :=
  if ap_aborted a || terminated (ap_system a) || bool_decide (ap_phase a = Destroying) then None
  else match l with
  | Io e => if io_event e then n' ← net_handle (ap_net a) e; Some (with_net n' a) else None
  | ResolveFails =>
      match NetworkService.posts (ap_net a) with
      | p :: _ => if is_connect_post p then Some (with_phase (ap_phase a) true a) else None
      | [] => None
      end
  | ServiceCall => match ap_calls a with c :: rest => service_call c rest a | [] => None end
  | NextCallback th clock =>
      match ap_queue a with
      | (purpose, o) :: q => if gui_free a then sys_step (callback_label th clock purpose o) q a else None
      | [] => None
      end
  | Step l =>
      if own_label (connected_ (ap_net a)) l && (negb (on_gui_thread l) || gui_free a)
      then if begins_logout l a then Some (begin_logout a) else sys_step l (ap_queue a) a
      else None
  | Command c => if gui_free a then r ← run_command c (ap_bridge a); Some (with_bridge r a) else None
  | Quit th =>
      if gui_free a then y ← Core_shutdown th (ap_system a); Some (with_phase Quitting false (with_system y (ap_queue a) a))
      else None
  | Destroy =>
      if bool_decide (ap_phase a = Quitting) && bool_decide (ap_calls a = [])
      then Some (with_phase Destroying false a) else None
  | Resume th clock =>
      if ap_leaving a && bool_decide (ap_calls a = []) && bool_decide (ap_phase a = Running)
      then y ← sys_exec toBase64 moved_from workers (Outside th clock (OnAuth ELogout)) (ap_system a); Some (end_logout y a)
      else None
  end.

Fixpoint app_run (ls : list app_label) (a : app) : option app :=
  match ls with
  | [] => Some a
  | l :: ls' => a' ← app_exec l a; app_run ls' a'
  end.
End app.

(** ** Lemmas *)
Section lemmas.
Context `{J : Json, T : QtText, H : QtHash, Q : QtMap, V : QtVideo, W : QtVariant, K : QtJson, P : QtParse, F : QtFiles}.
Context (toBase64 : list byte → string) (moved_from : QString) (workers : nat).
Context {TS DS : Type} `{ST : SecureSession TS, SD : SecureSession DS}.
Context (new_tls : option TS) (new_dtls : DS) (getLocalPort : UdpSession DS → Z) (fuel : nat).
Abbreviation app := (App TS DS).
Abbreviation net_handle := (net_handle new_tls new_dtls getLocalPort fuel).
Abbreviation net_run := (net_run new_tls new_dtls getLocalPort fuel).
Abbreviation sys_exec := (sys_exec toBase64 moved_from workers).
Abbreviation sys_run := (sys_run toBase64 moved_from workers).
Abbreviation app_exec := (app_exec toBase64 moved_from workers new_tls new_dtls getLocalPort fuel).
Abbreviation app_run := (app_run toBase64 moved_from workers new_tls new_dtls getLocalPort fuel).
Abbreviation service_call := (service_call new_tls new_dtls getLocalPort fuel).

(** What a step may do only in a process that is alive. *)
Definition alive (a : app) : Prop :=
  ap_aborted a = false ∧ terminated (ap_system a) = false ∧ ap_phase a ≠ Destroying.

Lemma app_exec_alive l a a' : app_exec l a = Some a' → alive a.
Proof.
  unfold app_exec, Application.app_exec, alive. destruct (ap_aborted a), (terminated (ap_system a)); try done.
  by case_bool_decide.
Qed.

Lemma alive_guard (a : app) : alive a → ap_aborted a || terminated (ap_system a) || bool_decide (ap_phase a = Destroying) = false.
Proof. intros (-> & -> & ?). by rewrite bool_decide_false. Qed.

Lemma app_run_app ls1 ls2 a : app_run (ls1 ++ ls2) a = a1 ← app_run ls1 a; app_run ls2 a1.
Proof. revert a. induction ls1 as [|l ls1 IH]; intros a; cbn; [done|]. destruct (app_exec l a); cbn; [apply IH|done]. Qed.

Lemma gui_free_spec (a : app) : gui_free a = true ↔ ap_calls a = [] ∧ ap_phase a = Running ∧ ap_leaving a = false.
Proof. unfold gui_free. rewrite !andb_true_iff, !bool_decide_eq_true, negb_true_iff. naive_solver. Qed.

Lemma gui_free_running (a : app) : gui_free a = true → ap_phase a = Running.
Proof. by intros (_ & ? & _)%gui_free_spec. Qed.

(** *** The system within the application *)

(** What a step is to the system. *)
Definition sys_labels (l : app_label) (a : app) : list sys_label :=
  match l with
  | NextCallback th clock =>
      match ap_queue a with (purpose, o) :: _ => [callback_label th clock purpose o] | [] => [] end
  | Step l => if begins_logout l a then [] else [l]
  | Resume th clock => [Outside th clock (OnAuth ELogout)]
  | _ => []
  end.

Lemma service_call_fields c rest (a a' : app) :
  service_call c rest a = Some a' →
  ap_system a' = ap_system a ∧ ap_phase a' = ap_phase a ∧ ap_aborted a' = ap_aborted a.
Proof.
  unfold service_call, Application.service_call. destruct c as [h p purpose| |t b].
  - destruct (io_context_ _); by intros (n' & _ & [= <-])%bind_Some.
  - destruct (io_context_ _); [by intros (n' & _ & [= <-])%bind_Some|by intros [= <-]].
  - by intros (n' & _ & [= <-])%bind_Some.
Qed.

(** A step of the running application is at most one step of the system. *)
Lemma app_exec_system l a a' :
  app_exec l a = Some a' → ap_phase a' = Running → ap_phase a = Running ∧ sys_run (sys_labels l a) (ap_system a) = Some (ap_system a').
Proof.
  intros Hx. pose proof (alive_guard _ (app_exec_alive _ _ _ Hx)) as Hg. revert Hx.
  unfold app_exec, Application.app_exec, sys_labels. rewrite Hg. unfold sys_step.
  destruct l as [e| | |th clock|l|c|th| |th clock].
  - destruct (io_event e); [|done]. by intros (n & _ & [= <-])%bind_Some Hr.
  - destruct (NetworkService.posts _); [done|]. destruct (is_connect_post _); [|done]. by intros [= <-] Hr.
  - destruct (ap_calls a); [done|]. intros (-> & -> & _)%service_call_fields Hr. by split.
  - destruct (ap_queue a) as [|[purpose o] q]; [done|]. destruct (gui_free a) eqn:Hf; [|done].
    apply gui_free_running in Hf. intros (y & Hy & [= <-])%bind_Some _. split; [done|]. cbn. by rewrite Hy.
  - destruct (_ && _); [|done]. destruct (begins_logout l a); [by intros [= <-]|].
    intros (y & Hy & [= <-])%bind_Some Hr. split; [done|]. cbn. by rewrite Hy.
  - destruct (gui_free a) eqn:Hf; [|done]. by intros (r & _ & [= <-])%bind_Some Hr.
  - destruct (gui_free a); [|done]. by intros (y & _ & [= <-])%bind_Some Hr.
  - destruct (_ && _); [|done]. by intros [= <-] Hr.
  - destruct (_ && _); [|done]. intros (y & Hy & [= <-])%bind_Some Hr. split; [done|]. cbn. by rewrite Hy.
Qed.

(** The steps of the system in a run of the application. *)
Fixpoint sys_trace (ls : list app_label) (a : app) : list sys_label :=
  match ls with
  | [] => []
  | l :: ls' => sys_labels l a ++ match app_exec l a with Some a' => sys_trace ls' a' | None => [] end
  end.

Lemma app_run_system ls a a' :
  app_run ls a = Some a' → ap_phase a' = Running →
  ap_phase a = Running ∧ sys_run (sys_trace ls a) (ap_system a) = Some (ap_system a').
Proof.
  revert a. induction ls as [|l ls IH]; intros a; cbn; [by intros [= <-]|].
  intros (a1 & H1 & H2)%bind_Some Hr. rewrite H1. destruct (IH a1 H2 Hr) as [Hr1 Hs].
  destruct (app_exec_system _ _ _ H1 Hr1) as [Hr0 Hs0]. split; [done|]. by rewrite sys_run_app, Hs0.
Qed.
Lemma app_exec_ok l a a' :
  sys_ok (ap_system a) → app_exec l a = Some a' → ap_phase a' = Running → sys_ok (ap_system a').
Proof. intros Hy Hx Hr. destruct (app_exec_system _ _ _ Hx Hr) as [_ Hs]. by eapply sys_run_ok. Qed.

Lemma app_run_ok ls s a : app_run ls (App_init s) = Some a → ap_phase a = Running → sys_ok (ap_system a).
Proof. intros Hr Hp. apply app_run_system in Hr as [_ Hs]; [|done]. eapply sys_run_ok; [apply init_ok|exact Hs]. Qed.

(** *** The service within the application *)

Definition io_of (l : app_label) : option net_event := match l with Io e => Some e | _ => None end.

(** Only its own thread and the calls of the GUI thread touch the service. *)
Lemma app_exec_net l a a' :
  l ≠ ServiceCall → app_exec l a = Some a' →
  match io_of l with
  | Some e => io_event e = true ∧ net_handle (ap_net a) e = Some (ap_net a') ∧ a' = with_net (ap_net a') a
  | None => ap_net a' = ap_net a
  end.
Proof.
  intros Hl Hx. pose proof (alive_guard _ (app_exec_alive _ _ _ Hx)) as Hg. revert Hx.
  unfold app_exec, Application.app_exec. rewrite Hg. unfold sys_step.
  destruct l as [e| | |th clock|l|c|th| |th clock]; cbn [io_of]; [| |done|..].
  - destruct (io_event e); [|done]. by intros (n & Hn & [= <-])%bind_Some.
  - destruct (NetworkService.posts _); [done|]. destruct (is_connect_post _); [|done]. by intros [= <-].
  - destruct (ap_queue a) as [|[purpose o] q]; [done|]. destruct (gui_free a); [|done]. by intros (y & _ & [= <-])%bind_Some.
  - destruct (_ && _); [|done]. destruct (begins_logout l a); [by intros [= <-]|]. by intros (y & _ & [= <-])%bind_Some.
  - destruct (gui_free a); [|done]. by intros (r & _ & [= <-])%bind_Some.
  - destruct (gui_free a); [|done]. by intros (y & _ & [= <-])%bind_Some.
  - destruct (_ && _); [|done]. by intros [= <-].
  - destruct (_ && _); [|done]. by intros (y & _ & [= <-])%bind_Some.
Qed.

Lemma app_exec_grows l a a' : l ≠ ServiceCall → app_exec l a = Some a' → grows (ap_net a) (ap_net a').
Proof.
  intros Hl Hx%app_exec_net; [|done]. destruct (io_of l) as [e|]; [|rewrite Hx; by apply grows_fields].
  destruct Hx as (Hio & Hn & _). by eapply io_event_grows.
Qed.

Lemma app_run_net ls a a' :
  ServiceCall ∉ ls → app_run ls a = Some a' →
  net_run (omap io_of ls) (ap_net a) = Some (ap_net a') ∧ grows (ap_net a) (ap_net a').
Proof.
  revert a. induction ls as [|l ls IH]; intros a Hns; cbn [Application.app_run]; [intros [= <-]; split; [done|by apply grows_fields]|].
  apply not_elem_of_cons in Hns as [Hl Hns]. intros (a1 & H1 & H2)%bind_Some.
  destruct (IH a1 Hns H2) as [Hn Hg]. pose proof (app_exec_grows l a a1 (not_eq_sym Hl) H1) as Hg1.
  split; [|by etrans]. apply app_exec_net in H1; [|done]. cbn [omap list_omap].
  destruct (io_of l) as [e|]; [|by rewrite <-H1]. destruct H1 as (_ & H1 & _). cbn. by rewrite H1.
Qed.

(** The callbacks of a running service are the bridge's. *)
Definition bridge_cbs (n : NetworkService TS DS) : Prop := processor_ n = true → cbs n = bridge_callbacks.

Lemma app_exec_cbs l a a' : bridge_cbs (ap_net a) → app_exec l a = Some a' → bridge_cbs (ap_net a').
Proof.
  intros Hb Hx. assert (l = ServiceCall ∨ l ≠ ServiceCall) as [->|Hl] by (destruct l; first [by left|by right]).
  - unfold app_exec, Application.app_exec in Hx. destruct (_ || _ || _); [done|].
    destruct (ap_calls a) as [|c rest]; [done|]. revert Hx. unfold service_call, Application.service_call.
    assert (∀ n', net_handle (ap_net a) (if joining (ap_net a) then JoinReturns else Disconnect) = Some n' → bridge_cbs n') as Hd.
    { intros n'. destruct (joining (ap_net a)) eqn:Hj; cbn [NetworkService.net_handle]; rewrite Hj.
      - destruct (_ && _); [|done]. by intros [= <-].
      - intros [= <-]. unfold disconnect_begin. by destruct (io_context_ _). }
    destruct c as [h p purpose| |t b]; [destruct (io_context_ (ap_net a)) eqn:Hio..|].
    + intros (n' & Hn & [= <-])%bind_Some. by apply Hd.
    + cbn [NetworkService.net_handle]. rewrite Hio. by intros [= <-].
    + intros (n' & Hn & [= <-])%bind_Some. by apply Hd.
    + by intros [= <-].
    + cbn [NetworkService.net_handle]. intros [= <-]. unfold bridge_cbs. cbn.
      destruct (grows_send t b (ap_net a)) as (_ & E & Hp & _). rewrite E. auto.
  - destruct (app_exec_grows l a a' Hl Hx) as (_ & E & Hp & _). unfold bridge_cbs. rewrite E. auto.
Qed.

Lemma app_run_cbs ls a a' : bridge_cbs (ap_net a) → app_run ls a = Some a' → bridge_cbs (ap_net a').
Proof.
  revert a. induction ls as [|l ls IH]; intros a Hb; cbn; [by intros [= <-]|].
  intros (a1 & H1 & H2)%bind_Some. eapply IH; [|exact H2]. by eapply app_exec_cbs.
Qed.

(** *** Callbacks in order *)

(** The callback of the service a step of the system handles. *)
Definition callback_of (l : sys_label) : option net_out :=
  match l with
  | Callback _ _ _ k body => Some (CbText k body)
  | ImageData data meta => Some (CbImageData data meta)
  | Outside _ _ (OnAuth (EConnected _)) => Some CbConnected
  | _ => None
  end.

(** All callbacks the service has made: those handled, and those queued. *)
Definition accounts (handled : list net_out) (a : app) : Prop := out (ap_net a) = handled ++ (ap_queue a).*2.

Lemma accounts_net handled n a : out (ap_net a) `prefix_of` out n → accounts handled a → accounts handled (with_net n a).
Proof.
  unfold accounts. intros [o E] Ha. cbn. rewrite E, drop_app_length, fmap_app, app_assoc, <-Ha. f_equal.
  clear. induction o as [|x o IH]; [done|]. cbn. by f_equal.
Qed.

Lemma service_call_accounts handled c rest a a' : service_call c rest a = Some a' → accounts handled a → accounts handled a'.
Proof.
  assert (∀ n, net_handle (ap_net a) (if joining (ap_net a) then JoinReturns else Disconnect) = Some n → out n = out (ap_net a)) as Hd.
  { intros n. destruct (joining (ap_net a)) eqn:Hj; cbn [NetworkService.net_handle]; rewrite Hj.
    - destruct (_ && _); [|done]. by intros [= <-].
    - intros [= <-]. unfold disconnect_begin. by destruct (io_context_ _). }
  unfold service_call, Application.service_call.
  destruct c as [h p purpose| |t b]; [destruct (io_context_ (ap_net a)) eqn:Hio..|].
  - intros (n & Hn%Hd & [= <-])%bind_Some. apply accounts_net. by rewrite Hn.
  - cbn [NetworkService.net_handle]. rewrite Hio. cbn [mbind option_bind]. intros [= <-] Ha.
    by apply (accounts_net handled (connect h p bridge_callbacks (ap_net a)) a).
  - intros (n & Hn%Hd & [= <-])%bind_Some. apply accounts_net. by rewrite Hn.
  - by intros [= <-].
  - intros (n & [= <-] & [= <-])%bind_Some Ha. apply (accounts_net handled (send t b (ap_net a)) a); [|done].
    apply (grows_send t b (ap_net a)).
Qed.

Lemma own_no_callback c l : own_label c l = true → callback_of l = None.
Proof. by destruct l as [| |th clock [| | | | | | | | |[]|]| | |]. Qed.

Lemma app_exec_accounts handled l a a' :
  app_exec l a = Some a' → accounts handled a → accounts (handled ++ omap callback_of (sys_labels l a)) a'.
Proof.
  intros Hx. pose proof (alive_guard _ (app_exec_alive _ _ _ Hx)) as Hg. revert Hx.
  unfold app_exec, Application.app_exec, sys_labels. rewrite Hg. unfold sys_step.
  destruct l as [e| | |th clock|l|c|th| |th clock]; cbn [omap list_omap]; rewrite ?app_nil_r.
  - destruct (io_event e) eqn:Hio; [|done]. intros (n & Hn & [= <-])%bind_Some. apply accounts_net.
    by eapply io_event_grows.
  - destruct (NetworkService.posts _); [done|]. destruct (is_connect_post _); [|done]. by intros [= <-].
  - destruct (ap_calls a); [done|]. apply service_call_accounts.
  - destruct (ap_queue a) as [|[purpose o] q] eqn:Hq; [done|]. destruct (gui_free a); [|done].
    intros (y & Hy & [= <-])%bind_Some. unfold accounts. cbn. rewrite Hq. intros ->. cbn.
    assert (callback_of (callback_label th clock purpose o) = Some o) as -> by by destruct o.
    by rewrite <-app_assoc.
  - destruct (own_label (connected_ (ap_net a)) l) eqn:Ho; [|done]. cbn [andb]. destruct (negb (on_gui_thread l) || gui_free a); [|done].
    destruct (begins_logout l a); cbn [omap list_omap]; rewrite ?app_nil_r; [by intros [= <-]|].
    intros (y & Hy & [= <-])%bind_Some. apply own_no_callback in Ho. by rewrite Ho, app_nil_r.
  - destruct (gui_free a); [|done]. by intros (r & _ & [= <-])%bind_Some.
  - destruct (gui_free a); [|done]. by intros (y & _ & [= <-])%bind_Some.
  - destruct (_ && _); [|done]. by intros [= <-].
  - destruct (_ && _); [|done]. by intros (y & _ & [= <-])%bind_Some.
Qed.

Lemma app_run_accounts handled ls a a' :
  app_run ls a = Some a' → accounts handled a → accounts (handled ++ omap callback_of (sys_trace ls a)) a'.
Proof.
  revert a handled. induction ls as [|l ls IH]; intros a handled; cbn; [intros [= <-]; by rewrite app_nil_r|].
  intros (a1 & H1 & H2)%bind_Some Ha. rewrite H1, omap_app, app_assoc. apply (IH a1); [done|].
  by apply app_exec_accounts.
Qed.

(** *** A CAMERA message on its way *)

(** Steps that take no camera out of the grid. *)
Definition stays_in (l : app_label) : Prop := match l with Step l => no_logout l | Resume _ _ => False | _ => True end.

(** The message is a queued callback, or on its way in the system. *)
Definition app_way (s : string) (d : list CameraData) (a : app) : Prop :=
  (∃ purpose body, (purpose, CbText onCameraList body) ∈ ap_queue a ∧ toStdString (fromStdString body) = s) ∨
  on_its_way s d (ap_system a).

Lemma callback_way th clock purpose body y y' d :
  sys_exec (Callback th clock purpose onCameraList body) y = Some y' →
  on_its_way (toStdString (fromStdString body)) d y'.
Proof.
  unfold sys_exec, System.sys_exec. destruct (terminated y); [done|]. intros (y0 & _ & [= <-])%bind_Some.
  left. cbn. apply elem_of_app. right. by left.
Qed.

Lemma callback_label_stays th clock purpose o : no_logout (callback_label th clock purpose o).
Proof. by destruct o. Qed.

Lemma app_exec_way l a a' s d :
  sys_ok (ap_system a) → stays_in l → reads_as s d → app_exec l a = Some a' → ap_phase a' = Running →
  app_way s d a → app_way s d a'.
Proof.
  intros Hy Hl Hr Hx Hp [(purpose & body & Hin & Hs)|Hw].
  2: { right. destruct (app_exec_system _ _ _ Hx Hp) as [_ Hsys]. eapply sys_run_way; [exact Hy| |exact Hr|exact Hsys|exact Hw].
    unfold sys_labels. destruct l; try done; [|by destruct (begins_logout _ _); repeat constructor].
    destruct (ap_queue a) as [|[? ?] ?]; constructor; [apply callback_label_stays|done]. }
  revert Hx. unfold app_exec, Application.app_exec. destruct (_ || _ || _); [done|]. unfold sys_step.
  destruct l as [e| | |th clock|l|c|th| |th clock]; [..|done].
  - destruct (io_event e); [|done]. intros (n & _ & [= <-])%bind_Some. left. exists purpose, body. cbn.
    split; [|done]. apply elem_of_app. by left.
  - destruct (NetworkService.posts _); [done|]. destruct (is_connect_post _); [|done]. intros [= <-]. left. by exists purpose, body.
  - destruct (ap_calls a); [done|]. intros Hc. left. exists purpose, body. split; [|done].
    revert Hc. unfold service_call, Application.service_call. destruct s0.
    + destruct (io_context_ _); intros (n' & _ & [= <-])%bind_Some; cbn; apply elem_of_app; by left.
    + destruct (io_context_ _); [|by intros [= <-]]. intros (n' & _ & [= <-])%bind_Some; cbn; apply elem_of_app; by left.
    + intros (n' & _ & [= <-])%bind_Some; cbn; apply elem_of_app; by left.
  - destruct (ap_queue a) as [|[pu o] q]; [done|]. destruct (gui_free a); [|done].
    intros (y & Hy1 & [= <-])%bind_Some. apply elem_of_cons in Hin as [[= <- <-]|Hin].
    + right. cbn in *. rewrite <-Hs. by eapply callback_way.
    + left. by exists purpose, body.
  - destruct (_ && _); [|done]. destruct (begins_logout l a); [intros [= <-]; left; by exists purpose, body|].
    intros (y & _ & [= <-])%bind_Some. left. by exists purpose, body.
  - destruct (gui_free a); [|done]. intros (r & _ & [= <-])%bind_Some. left. by exists purpose, body.
  - destruct (gui_free a); [|done]. intros (y & _ & [= <-])%bind_Some. left. by exists purpose, body.
  - destruct (_ && _); [|done]. intros [= <-]. left. by exists purpose, body.
Qed.

Lemma app_run_way ls a a' s d :
  sys_ok (ap_system a) → Forall stays_in ls → reads_as s d → app_run ls a = Some a' → ap_phase a' = Running →
  app_way s d a → app_way s d a'.
Proof.
  intros Hy Hls Hr. revert a Hy. induction Hls as [|l ls Hl _ IH]; intros a Hy; cbn; [by intros [= <-]|].
  intros (a1 & H1 & H2)%bind_Some Hp Hw. destruct (app_run_system _ _ _ H2 Hp) as [Hp1 _].
  eapply (IH a1); [by eapply app_exec_ok|done|done|by eapply app_exec_way].
Qed.

(** What the service called back meanwhile is queued or on its way. *)
Lemma called_back_way ls a a' body d :
  sys_ok (ap_system a) → ServiceCall ∉ ls → Forall stays_in ls → reads_as (toStdString (fromStdString body)) d →
  app_run ls a = Some a' → ap_phase a' = Running →
  CbText onCameraList body ∈ drop (length (out (ap_net a))) (out (ap_net a')) →
  app_way (toStdString (fromStdString body)) d a'.
Proof.
  intros Hy Hns Hls Hrd. revert a Hy Hns. induction Hls as [|l ls Hl Hls IH]; intros a Hy Hns Hr Hp.
  { injection Hr as <-. by rewrite drop_all, elem_of_nil. }
  pose proof (app_run_net _ _ _ Hns Hr) as [_ Hgr]. cbn in Hr.
  apply bind_Some in Hr as (a1 & H1 & H2). apply not_elem_of_cons in Hns as [Hsl Hns].
  destruct (app_run_system _ _ _ H2 Hp) as [Hp1 _]. pose proof (app_exec_ok _ _ _ Hy H1 Hp1) as Hy1.
  destruct (app_run_net _ _ _ Hns H2) as [_ [[o2 E2] _]].
  destruct (app_exec_grows l a a1 (not_eq_sym Hsl) H1) as [[o1 E1] _].
  specialize (IH a1 Hy1 Hns H2 Hp). rewrite E2, drop_app_length in IH.
  rewrite E2, E1, <-app_assoc, drop_app_length, elem_of_app. intros [Hin|Hin]; [|by apply IH].
  eapply app_run_way; [exact Hy1|exact Hls|exact Hrd|exact H2|exact Hp|]. left. exists (ap_purpose a), body. split; [|done].
  apply app_exec_net in H1; [|done]. destruct (io_of l) as [e|].
  - destruct H1 as (_ & _ & ->). cbn. rewrite E1, drop_app_length. apply elem_of_app. right.
    by apply list_elem_of_fmap_2.
  - rewrite H1 in E1. rewrite <-(app_nil_r (out (ap_net a))) in E1 at 1. apply app_inv_head in E1.
    rewrite <-E1 in Hin. by apply not_elem_of_nil in Hin.
Qed.

(** *** A call that does not return *)

(** Calls that join the service's thread. *)
Definition joins (c : svc_call) : Prop := match c with SvcSend _ _ => False | _ => True end.

(** Steps of the GUI thread that need it between two events. *)
Definition gui_label (l : app_label) : bool :=
  match l with
  | Io _ | ResolveFails | ServiceCall => false
  | Step l => on_gui_thread l
  | _ => true
  end.

(** A condition of the service under which [run] does not return, as long as the
    events of its thread are [fine]. *)
Section frozen.
Context (stuck : NetworkService TS DS → Prop) (fine : net_event → Prop).
Context (stuck_busy : ∀ n, stuck n → io_context_ n = true ∧ io_idle n = false).
Context (stuck_io : ∀ e n n', stuck n → io_event e = true → fine e → net_handle n e = Some n' → stuck n').
Context (stuck_disconnect : ∀ n, stuck n → joining n = false → stuck (disconnect_begin n)).

(** The GUI thread is in a call that joins the service's thread. *)
Definition frozen (a : app) : Prop := stuck (ap_net a) ∧ ∃ c rest, ap_calls a = c :: rest ∧ joins c.

Lemma frozen_busy a : frozen a → gui_free a = false ∧ ap_calls a ≠ [].
Proof. intros (_ & c & rest & E & _). unfold gui_free. by rewrite E. Qed.

Lemma app_exec_frozen l a a' :
  frozen a → (∀ e, l = Io e → fine e) → app_exec l a = Some a' → frozen a' ∧ gui_label l = false.
Proof.
  intros Hf Hl Hx. pose proof (alive_guard _ (app_exec_alive _ _ _ Hx)) as Hg.
  destruct (frozen_busy a Hf) as [Hbusy _]. destruct Hf as (Hu & c & rest & Ec & Hj).
  destruct (stuck_busy _ Hu) as [Hio Hidle]. revert Hx.
  unfold app_exec, Application.app_exec. rewrite Hg, Hbusy. unfold sys_step.
  destruct l as [e| | |th clock|l|cm|th| |th clock]; cbn [gui_label].
  - destruct (io_event e) eqn:He; [|done]. intros (n & Hn & [= <-])%bind_Some. split; [|done].
    split; [by eapply stuck_io; [exact Hu|exact He|by apply Hl|exact Hn]|by exists c, rest].
  - destruct (NetworkService.posts _); [done|]. destruct (is_connect_post _); [|done]. intros [= <-].
    split; [|done]. split; [done|]. by exists c, rest.
  - rewrite Ec.
    assert (∀ n, net_handle (ap_net a) (if joining (ap_net a) then JoinReturns else Disconnect) = Some n → stuck n) as Hn.
    { intros n. destruct (joining (ap_net a)) eqn:Hjn; cbn [NetworkService.net_handle]; rewrite Hjn; [by rewrite Hidle|].
      intros [= <-]. by apply stuck_disconnect. }
    unfold service_call, Application.service_call.
    destruct c as [h p purpose| |t b]; [| |done]; rewrite Hio; intros (n & Hx%Hn & [= <-])%bind_Some;
      (split; [|done]); (split; [done|]); by eexists _, rest.
  - by destruct (ap_queue a) as [|[pu o] q].
  - destruct (on_gui_thread l) eqn:Hgt; [by rewrite andb_false_r|]. destruct (_ && _); [|done].
    assert (begins_logout l a = false) as -> by (by destruct l). intros (y & Hy & [= <-])%bind_Some. split; [|done]. split; [done|]. cbn. rewrite Ec. by eexists c, _.
  - done.
  - done.
  - rewrite (bool_decide_false (ap_calls a = [])) by (by rewrite Ec). by rewrite andb_false_r.
  - rewrite (bool_decide_false (ap_calls a = [])) by (by rewrite Ec). by rewrite andb_false_r.
Qed.

Lemma app_run_frozen ls a a' :
  frozen a → (∀ e, Io e ∈ ls → fine e) → app_run ls a = Some a' → frozen a' ∧ Forall (λ l, gui_label l = false) ls.
Proof.
  revert a. induction ls as [|l ls IH]; intros a Hf Hn; cbn; [by intros [= <-]|].
  intros (a1 & H1 & H2)%bind_Some.
  destruct (app_exec_frozen l a a1 Hf) as [Hf1 Hg]; [intros e ->; apply Hn; by left|done|].
  destruct (IH a1 Hf1) as [Hf2 Hgs]; [intros e He; apply Hn; by right|done|]. split; [done|by constructor].
Qed.
End frozen.

(** The receive of UDP session [j] is pending. *)
Lemma udp_pending_busy j (n : NetworkService TS DS) : udp_pending j n → io_context_ n = true ∧ io_idle n = false.
Proof. intros Hu. split; [by destruct Hu|by eapply pending_not_idle]. Qed.

Lemma udp_pending_disconnect j (n : NetworkService TS DS) : udp_pending j n → udp_pending j (disconnect_begin n).
Proof. intros [Hio Hu]. unfold disconnect_begin. by rewrite Hio. Qed.

(** Whatever asks the service to disconnect: a logout, or the end of the program. *)
Definition leaves (l : app_label) : Prop :=
  match l with Step (Outside _ _ (OnAuth ELogout)) | Quit _ => True | _ => False end.

Lemma leaves_disconnects l a a' :
  leaves l → app_exec l a = Some a' →
  ap_net a' = ap_net a ∧ alive a' ∧
  ∃ rest, ap_calls a' = SvcDisconnect :: rest ∧ Forall (λ c, c = SvcDisconnect) rest.
Proof.
  intros Hl Hx. pose proof (app_exec_alive _ _ _ Hx) as (Ha & Ht & Hd). pose proof (alive_guard _ (conj Ha (conj Ht Hd))) as Hg.
  revert Hx. unfold app_exec, Application.app_exec. rewrite Hg. unfold sys_step.
  destruct l as [e| | |th clock|l|cm|th| |th clock]; try done.
  - destruct l as [| |th clock [| | | | | | | | |e|] | | |]; try done. destruct e; try done.
    cbn [own_label on_gui_thread negb orb andb]. destruct (gui_free a) eqn:Hf; [|done].
    apply gui_free_spec in Hf as (Ec & Hp & _).
    destruct (begins_logout _ a); [intros [= <-]; split; [done|]; split; [done|]; by exists []|].
    unfold System.sys_exec. rewrite Ht. cbn [from_outside]. unfold gui_step.
    intros (y & ([g c] & Hx & [= <-])%bind_Some & [= <-])%bind_Some. split; [done|]. split; [done|].
    apply logout_calls in Hx as (rest & -> & Hr). exists rest. split; [|done]. cbn. by rewrite Ec, drop_app_length.
  - destruct (gui_free a) eqn:Hf; [|done]. apply gui_free_spec in Hf as (Ec & Hp & _).
    unfold Core_shutdown. intros (y & ([v sg] & _ & [= <-])%bind_Some & [= <-])%bind_Some.
    split; [done|]. split; [by split_and!|]. exists []. split; [|done]. cbn. by rewrite Ec, drop_app_length.
Qed.

(** *** A call that returns *)

(** Only the service has moved. *)
Definition same_but_net (a a' : app) : Prop :=
  ap_system a' = ap_system a ∧ ap_bridge a' = ap_bridge a ∧ ap_phase a' = ap_phase a ∧ ap_aborted a' = ap_aborted a ∧
  ap_leaving a' = ap_leaving a.

#[local] Instance same_but_net_preorder : PreOrder same_but_net.
Proof.
  split; [by intros a|]. intros a1 a2 a3 (E1 & E2 & E3 & E4 & E5) (F1 & F2 & F3 & F4 & F5).
  split_and!; by etrans.
Qed.

Lemma same_alive a a' : same_but_net a a' → alive a → alive a'.
Proof. intros (E1 & _ & E3 & E4 & _). unfold alive. by rewrite E1, E3, E4. Qed.

Lemma io_run es a n :
  alive a → Forall (λ e, io_event e = true) es → net_run es (ap_net a) = Some n →
  ∃ a', app_run (Io <$> es) a = Some a' ∧ ap_net a' = n ∧ ap_calls a' = ap_calls a ∧ same_but_net a a' ∧
    ap_purpose a' = ap_purpose a ∧ ap_queue a' = ap_queue a ++ ((ap_purpose a,.) <$> drop (length (out (ap_net a))) (out n)).
Proof.
  intros Ha Hes. revert a Ha. induction Hes as [|e es He Hes IH]; intros a Ha; cbn.
  - intros [= <-]. exists a. rewrite drop_all. cbn. by rewrite app_nil_r.
  - intros (n1 & H1 & H2)%bind_Some. unfold Application.app_exec. rewrite (alive_guard a Ha), He, H1. cbn.
    destruct (IH (with_net n1 a)) as (a' & Hr & Hn & Hc & Hs & Hp & Hq); [done|done|].
    exists a'. split_and!; [done|done|by rewrite Hc|by etrans; [|exact Hs]|by rewrite Hp|].
    rewrite Hq. cbn [ap_queue ap_net ap_purpose with_net]. rewrite <-app_assoc, <-fmap_app. do 2 f_equal.
    destruct (io_event_grows new_tls new_dtls getLocalPort fuel e _ _ He H1) as [[o1 E1] _].
    assert (out n1 `prefix_of` out n) as [o2 E2].
    { clear -Hes H2. revert n1 H2. induction Hes as [|e es He _ IH]; intros n1; cbn; [by intros [= <-]|].
      intros (n2 & H1 & H2)%bind_Some. etrans; [|by apply (IH n2)]. by apply io_event_grows in H1 as [? _]. }
    by rewrite E2, E1, <-app_assoc, !drop_app_length, app_assoc, drop_app_length.
Qed.

Lemma winds_down_io es : Forall winds_down es → Forall (λ e, io_event e = true) es.
Proof. intros Hes. eapply Forall_impl; [exact Hes|]. intros [] He; try done. cbn in He. by destruct He as [->|[->| ->]]. Qed.

Lemma winds_down_context es n n' : Forall winds_down es → net_run es n = Some n' → io_context_ n' = io_context_ n.
Proof.
  intros Hes. revert n. induction Hes as [|e es He _ IH]; intros n; cbn; [by intros [= <-]|].
  intros (n1 & H1 & H2)%bind_Some. rewrite (IH _ H2).
  apply io_event_grows in H1 as (_ & _ & _ & E); [done|].
  by apply (Forall_singleton (λ e, io_event e = true)), winds_down_io, Forall_singleton.
Qed.

(** Without a context the calls return at once. *)
Lemma calls_pop k a :
  alive a → io_context_ (ap_net a) = false → ap_calls a = replicate k SvcDisconnect →
  ∃ a', app_run (replicate k ServiceCall) a = Some a' ∧ ap_calls a' = [] ∧ ap_net a' = ap_net a ∧ same_but_net a a'.
Proof.
  revert a. induction k as [|k IH]; intros a Ha Hio Hc; [by exists a|].
  destruct (IH (with_calls (ap_purpose a) (replicate k SvcDisconnect) a)) as (a' & Hr & Hc' & Hn & Hs); [done..|].
  exists a'. split_and!; [|done|done|by etrans; [|exact Hs]]. cbn. unfold Application.app_exec. rewrite (alive_guard a Ha), Hc.
  cbn. rewrite Hio. exact Hr.
Qed.

Lemma app_exec_service c rest a : alive a → ap_calls a = c :: rest → app_exec ServiceCall a = service_call c rest a.
Proof. intros Ha Hc. unfold app_exec, Application.app_exec. by rewrite (alive_guard a Ha), Hc. Qed.

Lemma service_disconnect rest a :
  io_context_ (ap_net a) = true →
  service_call SvcDisconnect rest a
  = n' ← net_handle (ap_net a) (if joining (ap_net a) then JoinReturns else Disconnect); Some (with_net n' a).
Proof. intros Hio. unfold service_call, Application.service_call. by rewrite Hio. Qed.

(** Without a UDP session the calls to disconnect return. *)
Lemma calls_return k a :
  alive a → ap_calls a = replicate (S k) SvcDisconnect → io_context_ (ap_net a) = true → joining (ap_net a) = false →
  NetworkService.posts (ap_net a) = [] → forallb udp_idle (udps (ap_net a)) = true →
  ∃ es a', Forall winds_down es ∧
    app_run (ServiceCall :: (Io <$> es) ++ ServiceCall :: replicate (S k) ServiceCall) a = Some a' ∧ ap_calls a' = [] ∧
    io_context_ (ap_net a') = false ∧ same_but_net a a'.
Proof.
  intros Ha Hc Hio Hj Hp Hu.
  destruct (disconnect_returns new_tls new_dtls getLocalPort fuel (ap_net a) Hio Hj Hp Hu) as (es & n' & Hw & Hr & Hio').
  cbn [NetworkService.net_run] in Hr. apply bind_Some in Hr as (n1 & H1 & Hr). rewrite net_run_app in Hr.
  apply bind_Some in Hr as (n2 & H2 & H3).
  destruct (io_run es (with_net n1 a) n2) as (a2 & Hr2 & Hn2 & Hc2 & Hs2 & _); [done|by apply winds_down_io|done|].
  assert (joining n1 = true ∧ io_context_ n1 = true) as [Hj1 Hi1].
  { cbn [NetworkService.net_handle] in H1. rewrite Hj in H1. injection H1 as <-. unfold disconnect_begin. by rewrite Hio. }
  cbn in H3. destruct (joining n2 && io_idle n2) eqn:Hji; [|done]. cbn in H3. injection H3 as H3.
  assert (io_context_ n2 = true) as Hi2 by (by rewrite (winds_down_context es n1 n2)).
  apply andb_true_iff in Hji as [Hj2 Hidle2].
  destruct (calls_pop (S k) (with_net n' a2)) as (a3 & Hr3 & Hc3 & Hn3 & Hs3).
  { by apply (same_alive a2), (same_alive (with_net n1 a)). }
  { done. }
  { cbn. by rewrite Hc2. }
  exists es, a3. split; [done|]. split.
  - cbn [Application.app_run]. rewrite (app_exec_service _ _ a Ha Hc), service_disconnect, Hj, H1 by done.
    cbn [mbind option_bind]. rewrite app_run_app, Hr2. cbn [mbind option_bind Application.app_run].
    rewrite (app_exec_service SvcDisconnect (replicate k SvcDisconnect) a2);
      [|by apply (same_alive (with_net n1 a))|by rewrite Hc2].
    rewrite service_disconnect, Hn2, Hj2 by (by rewrite Hn2).
    cbn [NetworkService.net_handle]. rewrite Hj2, Hidle2. cbn [andb mbind option_bind]. rewrite H3. exact Hr3.
  - split_and!; [done|by rewrite Hn3|]. etrans; [|exact Hs3]. etrans; [|by apply (reflexivity (R:=same_but_net))]. exact Hs2.
Qed.

(** *** What the program can finish by itself *)

(** Steps of the GUI thread and of the workers. *)
Definition internal (l : app_label) : Prop :=
  match l with
  | Step (Take _) | Step (Work _) | Step (NextEvent _ _) | NextCallback _ _ | ServiceCall | Resume _ _ => True
  | _ => False
  end.

(** The GUI thread is in a join with the service's thread, which has handlers left. *)
Definition waits (a : app) : Prop :=
  (∃ c rest, ap_calls a = c :: rest ∧ joins c) ∧ joining (ap_net a) = true ∧ io_idle (ap_net a) = false.

(** The event loop runs, in a state the invariants hold of. *)
Definition steady (a : app) : Prop := alive a ∧ ap_phase a = Running ∧ sys_ok (ap_system a).

(** Only the service and the calls on it have moved. *)
Definition called (a a' : app) : Prop :=
  ap_system a' = ap_system a ∧ ap_phase a' = ap_phase a ∧ ap_aborted a' = ap_aborted a ∧ ap_leaving a' = ap_leaving a ∧
  ap_queue a' = ap_queue a.

#[local] Instance called_preorder : PreOrder called.
Proof.
  split; [by intros a|]. intros a1 a2 a3 (E1 & E2 & E3 & E4 & E5) (F1 & F2 & F3 & F4 & F5). split_and!; by etrans.
Qed.

Lemma called_steady a a' : called a a' → steady a → steady a'.
Proof. intros (E1 & E2 & E3 & _) (Ha & Hp & Hy). unfold steady, alive in *. by rewrite E1, E2, E3. Qed.

Lemma with_net_called n a : out n = out (ap_net a) → called a (with_net n a).
Proof. intros E. unfold called. cbn. by rewrite E, drop_all, app_nil_r. Qed.

Lemma app_run_one l a a1 ls a' : app_exec l a = Some a1 → app_run ls a1 = Some a' → app_run (l :: ls) a = Some a'.
Proof. intros H1 H2. cbn. by rewrite H1. Qed.

(** A join: it returns, or the GUI thread waits in it. *)
Lemma join_settles c rest a :
  alive a → ap_calls a = c :: rest → joins c → io_context_ (ap_net a) = true →
  ∃ k a', app_run (replicate k ServiceCall) a = Some a' ∧ called a a' ∧ ap_calls a' = c :: rest ∧
    (waits a' ∨ io_context_ (ap_net a') = false).
Proof.
  intros Ha Hc Hj Hio.
  assert (∀ a n, ap_calls a = c :: rest → alive a → io_context_ (ap_net a) = true →
    net_handle (ap_net a) (if joining (ap_net a) then JoinReturns else Disconnect) = Some n →
    app_exec ServiceCall a = Some (with_net n a)) as Hcall.
  { intros a0 n Hc0 Ha0 Hio0 Hn. rewrite (app_exec_service c rest a0 Ha0 Hc0). unfold service_call, Application.service_call.
    destruct c; [| |done]; by rewrite Hio0, Hn. }
  assert (∀ a, ap_calls a = c :: rest → alive a → io_context_ (ap_net a) = true → joining (ap_net a) = true →
    ∃ k a', app_run (replicate k ServiceCall) a = Some a' ∧ called a a' ∧ ap_calls a' = c :: rest ∧
      (waits a' ∨ io_context_ (ap_net a') = false)) as Hjoin.
  { intros a0 Hc0 Ha0 Hio0 Hj0. destruct (io_idle (ap_net a0)) eqn:Hidle.
    - exists 1, (with_net (disconnect_end (ap_net a0)) a0). split; [|split; [by apply with_net_called|split; [done|by right]]].
      cbn. rewrite (Hcall a0 (disconnect_end (ap_net a0))); [done..|]. rewrite Hj0. cbn. by rewrite Hj0, Hidle.
    - exists 0, a0. split; [done|]. split; [done|]. split; [done|]. left. split; [by eexists _, _|done]. }
  destruct (joining (ap_net a)) eqn:Hjn; [by apply Hjoin|].
  destruct (Hjoin (with_net (disconnect_begin (ap_net a)) a)) as (k & a' & Hr & Hs & Hc' & Hend);
    [done|done|cbn; unfold disconnect_begin; by rewrite Hio|cbn; unfold disconnect_begin; by rewrite Hio|].
  exists (S k), a'. split; [|split; [etrans; [|exact Hs]; apply with_net_called; unfold disconnect_begin; by rewrite Hio|done]].
  cbn. rewrite (Hcall a (disconnect_begin (ap_net a))); [done..|]. rewrite Hjn. cbn. by rewrite Hjn.
Qed.

(** The calls on the service: all return, or the GUI thread waits in one. *)
Lemma calls_settle a :
  alive a → ∃ k a', app_run (replicate k ServiceCall) a = Some a' ∧ called a a' ∧ (waits a' ∨ ap_calls a' = []).
Proof.
  remember (ap_calls a) as l eqn:Hl. revert a Hl. induction l as [|c rest IH]; intros a Hl Ha.
  { exists 0, a. split; [done|]. split; [done|by right]. }
  assert (∀ a0 a1, alive a0 → ap_calls a0 = c :: rest → service_call c rest a0 = Some a1 → called a0 a1 → ap_calls a1 = rest →
    ∃ k a', app_run (replicate k ServiceCall) a0 = Some a' ∧ called a0 a' ∧ (waits a' ∨ ap_calls a' = [])) as Hpop.
  { intros a0 a1 Ha0 Hc0 H1 Hs1 Hc1. assert (alive a1) as Ha1.
    { destruct Hs1 as (E1 & E2 & E3 & _). unfold alive in *. by rewrite E1, E2, E3. }
    destruct (IH a1 (eq_sym Hc1) Ha1) as (k & a' & Hr & Hs & Hend). exists (S k), a'.
    split; [|split; [by etrans|done]]. cbn. by rewrite (app_exec_service c rest a0 Ha0 Hc0), H1. }
  destruct (decide (io_context_ (ap_net a) = true)) as [Hio|Hio%not_true_is_false].
  - assert (joins c ∨ ∃ t b, c = SvcSend t b) as [Hj|(t & b & ->)] by (destruct c; first [by left|by right; eexists _, _]).
    2: { eapply (Hpop a); [done|done|done| |done]. apply (with_net_called (send t b (ap_net a))). unfold send. by rewrite Hio. }
    destruct (join_settles c rest a Ha (eq_sym Hl) Hj Hio) as (k & a1 & Hr & Hs & Hc1 & [Hw|Hio1]);
      [exists k, a1; by split_and!; [..|left]|].
    assert (alive a1) as Ha1. { destruct Hs as (E1 & E2 & E3 & _). unfold alive in *. by rewrite E1, E2, E3. }
    assert (∃ a2, service_call c rest a1 = Some a2 ∧ called a1 a2 ∧ ap_calls a2 = rest) as (a2 & H2 & Hs2 & Hc2).
    { unfold service_call, Application.service_call. destruct c as [h p pu| |]; [| |done]; rewrite Hio1.
      - cbn [NetworkService.net_handle]. rewrite Hio1. eexists. split; [done|]. split; [|done].
        by apply (with_net_called (connect h p bridge_callbacks (ap_net a1)) a1).
      - eexists. split; [done|]. by split. }
    destruct (Hpop a1 a2 Ha1 Hc1 H2 Hs2 Hc2) as (k2 & a' & Hr2 & Hs' & Hend).
    exists (k + k2), a'. rewrite replicate_add, app_run_app, Hr. split; [done|]. split; [by etrans|done].
  - assert (∃ a2, service_call c rest a = Some a2 ∧ called a a2 ∧ ap_calls a2 = rest) as (a2 & H2 & Hs2 & Hc2).
    { unfold service_call, Application.service_call. destruct c as [h p pu| |t b]; rewrite ?Hio.
      - cbn [NetworkService.net_handle]. rewrite Hio. eexists. split; [done|]. split; [|done].
        by apply (with_net_called (connect h p bridge_callbacks (ap_net a)) a).
      - eexists. split; [done|]. by split.
      - eexists. split; [done|]. split; [|done]. apply (with_net_called (send t b (ap_net a)) a). unfold send. by rewrite Hio. }
    by apply (Hpop a a2).
Qed.

(** The pool's share of the system, in the application. *)
Lemma pool_step l a y :
  steady a → pool_label l → sys_exec l (ap_system a) = Some y → gui y = gui (ap_system a) ∧ calls y = calls (ap_system a) →
  app_exec (Step l) a = Some (with_system y (ap_queue a) a) ∧ ap_calls (with_system y (ap_queue a) a) = ap_calls a.
Proof.
  intros (Ha & _ & _) Hl Hx [_ Hc]. unfold Application.app_exec. rewrite (alive_guard a Ha).
  assert (own_label (connected_ (ap_net a)) l = true ∧ on_gui_thread l = false ∧ begins_logout l a = false) as (-> & -> & ->)
    by (by destruct l).
  cbn [andb negb orb]. unfold sys_step. rewrite Hx. split; [done|]. cbn. by rewrite Hc, drop_all, app_nil_r.
Qed.

Lemma pool_exec_fields l y y' : pool_label l → sys_exec l y = Some y' → gui y' = gui y ∧ calls y' = calls y.
Proof.
  intros Hl. unfold sys_exec, System.sys_exec. destruct (terminated y); [done|]. destruct l as [| | |now|i|]; try done.
  - destruct (tasks y) as [|t q]; [done|]. case_decide; [|done]. intros [= <-]. unfold take_task.
    by destruct (System.run_task _ _ _ _ _) as [[[|? ?]|?] ?].
  - intros (j & ac & rest & _ & _ & [(e & _ & ->)|[_ ->]])%work_cases; [done|]. unfold store_access.
    by destruct (access _ _ _) as [[[? ?]|?] ?].
Qed.

Lemma pool_run ls a y :
  steady a → Forall pool_label ls → sys_run ls (ap_system a) = Some y →
  ∃ a', app_run (Step <$> ls) a = Some a' ∧ ap_system a' = y ∧ ap_calls a' = ap_calls a ∧ ap_net a' = ap_net a ∧
    ap_queue a' = ap_queue a ∧ ap_leaving a' = ap_leaving a ∧ ap_phase a' = ap_phase a ∧ ap_aborted a' = ap_aborted a.
Proof.
  intros Ha Hls. revert a Ha. induction Hls as [|l ls Hl _ IH]; intros a Ha; cbn [System.sys_run fmap list_fmap].
  { intros [= <-]. by exists a. }
  intros (y1 & H1 & H2)%bind_Some.
  destruct (pool_step l a y1 Ha Hl H1 (pool_exec_fields l _ _ Hl H1)) as [Hx Hc].
  destruct ls as [|l2 ls].
  { injection H2 as <-. eexists. split; [by eapply app_run_one|]. by split_and!. }
  assert (terminated y1 = false) as Ht1.
  { cbn [System.sys_run] in H2. apply bind_Some in H2 as (y2 & H2 & _). unfold System.sys_exec in H2. by destruct (terminated y1). }
  destruct (IH (with_system y1 (ap_queue a) a)) as (a' & Hr & Ey & Ec & En & Eq & El & Ep & Eab).
  - destruct Ha as ((? & ? & ?) & ? & ?). split; [by split_and!|]. split; [done|]. by eapply sys_exec_ok.
  - exact H2.
  - exists a'. split; [by eapply app_run_one|]. rewrite Ec, Hc. by split_and!.
Qed.

(** What a stretch of the run leaves of the queues. *)
Definition same_work (a a' : app) : Prop :=
  tasks (ap_system a') = tasks (ap_system a) ∧ running (ap_system a') = running (ap_system a) ∧
  events (ap_system a') = events (ap_system a) ∧ ap_queue a' = ap_queue a.

Lemma called_work a a' : called a a' → same_work a a'.
Proof. intros (E & _ & _ & _ & Eq). unfold same_work. by rewrite E, Eq. Qed.

(** The event that the GUI thread is in ends, or waits in a join. *)
Lemma event_ends a :
  steady a → ∃ ls a', Forall internal ls ∧ app_run ls a = Some a' ∧ steady a' ∧ same_work a a' ∧ (waits a' ∨ gui_free a' = true).
Proof.
  intros Ha. assert (∀ k, Forall internal (replicate k ServiceCall)) as Hk by (intros k; by apply Forall_replicate).
  destruct (calls_settle a) as (k & a1 & Hr & Hs & Hend); [by destruct Ha|].
  pose proof (called_steady _ _ Hs Ha) as Ha1. pose proof (called_work _ _ Hs) as Hw1.
  destruct Hend as [Hw|Hc]; [exists (replicate k ServiceCall), a1; by split_and!; [..|left]|].
  destruct (ap_leaving a1) eqn:Hl.
  2: { exists (replicate k ServiceCall), a1. split_and!; [done|done|done|apply Hw1..|right].
       apply gui_free_spec. split_and!; [done|by destruct Ha1 as (_ & ? & _)|done]. }
  pose proof Ha1 as (Hal & Hp & Hy).
  destruct (gui_step_returns (OnAuth ELogout) (ap_system a1) (so_gui _ Hy)) as (g & c & Hg); [done|].
  assert (sys_exec (Outside seen 0 (OnAuth ELogout)) (ap_system a1) = Some (set_gui g c (ap_system a1))) as Hsx.
  { unfold System.sys_exec. by rewrite (proj1 (proj2 Hal)), Hg. }
  assert (app_exec (Resume seen 0) a1 = Some (end_logout (set_gui g c (ap_system a1)) a1)) as Hx.
  { unfold Application.app_exec. rewrite (alive_guard _ Hal), Hl, !bool_decide_true by done. cbn [andb]. by rewrite Hsx. }
  set (a2 := end_logout (set_gui g c (ap_system a1)) a1) in *.
  assert (steady a2) as Ha2. { split; [done|]. split; [done|]. by eapply sys_exec_ok. }
  destruct (calls_settle a2) as (k2 & a3 & Hr3 & Hs3 & Hend3); [by destruct Ha2|].
  exists (replicate k ServiceCall ++ Resume seen 0 :: replicate k2 ServiceCall), a3.
  pose proof (called_steady _ _ Hs3 Ha2) as Ha3.
  assert (same_work a a3) as Hw3.
  { destruct (called_work _ _ Hs3) as (E1 & E2 & E3 & E4). destruct Hw1 as (F1 & F2 & F3 & F4). by split_and!; etrans. }
  split; [apply Forall_app; by repeat constructor|]. split; [rewrite app_run_app, Hr; cbn; by rewrite Hx|].
  split; [done|]. split; [done|]. destruct Hend3 as [?|Hc3]; [by left|right]. apply gui_free_spec.
  destruct Hs3 as (_ & _ & _ & E & _). split_and!; [done|by destruct Ha3 as (_ & ? & _)|by rewrite E].
Qed.

(** The posted events are run. *)
Lemma events_end a :
  steady a → ∃ ls a', Forall internal ls ∧ app_run ls a = Some a' ∧ steady a' ∧ tasks (ap_system a') = tasks (ap_system a) ∧
    running (ap_system a') = running (ap_system a) ∧ ap_queue a' = ap_queue a ∧
    (waits a' ∨ (gui_free a' = true ∧ events (ap_system a') = [])).
Proof.
  remember (events (ap_system a)) as evs eqn:He. revert a He. induction evs as [|e evs IH]; intros a He Ha;
    destruct (event_ends a Ha) as (ls & a1 & Hi & Hr & Ha1 & (E1 & E2 & E3 & E4) & Hend).
  - exists ls, a1. split_and!; try done. destruct Hend; [by left|right]. split; [done|by rewrite E3].
  - destruct Hend as [Hw|Hf]; [exists ls, a1; by split_and!; [..|left]|].
    pose proof Ha1 as (Hal & Hp & Hy).
    destruct (next_event_returns toBase64 moved_from workers e evs (ap_system a1) Hy) as (y & Hx & F1 & F2 & F3 & F4);
      [by destruct Hal as (_ & ? & _)|by rewrite E3|].
    assert (app_exec (Step (NextEvent seen 0)) a1 = Some (with_system y (ap_queue a1) a1)) as Hs.
    { unfold Application.app_exec. rewrite (alive_guard _ Hal). cbn [own_label on_gui_thread negb orb andb begins_logout].
      rewrite Hf. unfold sys_step. by rewrite Hx. }
    destruct (IH (with_system y (ap_queue a1) a1)) as (ls2 & a2 & Hi2 & Hr2 & Ha2 & G1 & G2 & G3 & Hend).
    + cbn. by rewrite F3.
    + destruct Hal as (? & ? & ?). split; [by split_and!|]. split; [done|]. by eapply sys_exec_ok.
    + exists (ls ++ Step (NextEvent seen 0) :: ls2), a2.
      split; [apply Forall_app; by split; [|constructor]|]. split; [rewrite app_run_app, Hr; cbn; by rewrite Hs|].
      cbn in G1, G2, G3. split_and!; [done|congruence|congruence|congruence|done].
Qed.

(** The next callback is handled. *)
Lemma callback_returns a pu o q :
  steady a → gui_free a = true → ap_queue a = (pu, o) :: q →
  ∃ a', app_exec (NextCallback seen 0) a = Some a' ∧ steady a' ∧ ap_queue a' = q.
Proof.
  intros (Hal & Hp & Hy) Hf Hq.
  assert (∃ y, sys_exec (callback_label seen 0 pu o) (ap_system a) = Some y ∧ terminated y = false) as (y & Hx & Ht).
  { unfold System.sys_exec. rewrite (proj1 (proj2 Hal)).
    destruct o as [|k body|data meta]; cbn [callback_label from_outside].
    - destruct (gui_step_returns (OnAuth (EConnected pu)) (ap_system a) (so_gui _ Hy)) as (g & c & ->); [done|].
      eexists. split; [done|]. apply Hal.
    - destruct (gui_step_returns (OnAuth (ECallback pu k body)) (ap_system a) (so_gui _ Hy)) as (g & c & ->); [done|].
      eexists. split; [done|]. apply Hal.
    - eexists. split; [done|]. apply Hal. }
  exists (with_system y q a). split; [|split; [|done]].
  - unfold Application.app_exec. rewrite (alive_guard _ Hal), Hq, Hf. unfold sys_step. by rewrite Hx.
  - destruct Hal as (? & ? & ?). split; [by split_and!|]. split; [done|]. by eapply sys_exec_ok.
Qed.

Lemma all_ends a :
  0 < workers → steady a →
  ∃ ls a', Forall internal ls ∧ app_run ls a = Some a' ∧
    (terminated (ap_system a') = true ∨
     (tasks (ap_system a') = [] ∧ running (ap_system a') = [] ∧
      (waits a' ∨ (gui_free a' = true ∧ ap_queue a' = [] ∧ events (ap_system a') = [])))).
Proof.
  intros Hw. remember (ap_queue a) as q eqn:Hq. revert a Hq. induction q as [|[pu o] q IH]; intros a Hq Ha.
  all: destruct (pool_drains toBase64 moved_from workers (ap_system a) Hw) as (ls & y & Hi & Hr & Hy & _ & _ & Hor);
    [apply Ha|by destruct Ha as ((_ & ? & _) & _)|].
  all: destruct (pool_run ls a y Ha Hi Hr) as (a1 & Hr1 & Ey & _ & _ & Eq & _ & Ep & Eab).
  all: assert (Forall internal (Step <$> ls)) as Hi1
    by (apply Forall_fmap; eapply Forall_impl; [exact Hi|]; by intros []).
  all: destruct Hor as [Ht|(Ht & Hts & Hrun)]; [exists (Step <$> ls), a1; rewrite Ey; by split_and!; [..|left]|].
  all: assert (steady a1) as Ha1
    by (destruct Ha as ((? & ? & ?) & ? & ?); unfold steady, alive; rewrite Ey, Ep, Eab; by split_and!).
  all: destruct (events_end a1 Ha1) as (ls2 & a2 & Hi2 & Hr2 & Ha2 & E1 & E2 & E3 & Hend).
  all: rewrite Ey in E1, E2.
  all: assert (app_run ((Step <$> ls) ++ ls2) a = Some a2 ∧ Forall internal ((Step <$> ls) ++ ls2)) as [Hr3 Hi3]
    by (split; [rewrite app_run_app, Hr1; exact Hr2|by apply Forall_app]).
  all: destruct Hend as [Hwt|[Hf He]];
    [exists ((Step <$> ls) ++ ls2), a2; split_and!; [done|done|right]; split_and!; [congruence|congruence|by left]|].
  - exists ((Step <$> ls) ++ ls2), a2. split_and!; [done|done|right]. split_and!; [congruence|congruence|right].
    split_and!; [done|congruence|done].
  - destruct (callback_returns a2 pu o q Ha2 Hf) as (a3 & Hx & Ha3 & Hq3); [congruence|].
    destruct (IH a3 (eq_sym Hq3) Ha3) as (ls4 & a4 & Hi4 & Hr4 & Hend4).
    exists (((Step <$> ls) ++ ls2) ++ NextCallback seen 0 :: ls4), a4.
    split; [apply Forall_app; by split; [|constructor]|]. split; [rewrite app_run_app, Hr3; cbn; by rewrite Hx|done].
Qed.

(** The texts of the CAMERA packets the GUI thread has handled are called back. *)
Lemma packets_called_back (ls : list sys_label) t :
  t ∈ omap packet_text ls → ∃ body, CbText onCameraList body ∈ omap callback_of ls ∧ t = toStdString (fromStdString body).
Proof.
  intros (l & Hl & Ht)%list_elem_of_omap. destruct l as [th clock pu k body| | | | |]; try done. destruct k; try done.
  injection Ht as <-. exists body. split; [|done]. apply list_elem_of_omap. by eexists.
Qed.

Lemma app_run_urls `{U : !Utf8Texts} ls s a :
  app_run ls (App_init s) = Some a → ap_phase a = Running →
  ∃ ts, urls_ok ts (ap_system a) ∧
    ∀ t, t ∈ ts → ∃ body, CbText onCameraList body ∈ out (ap_net a) ∧ t = toStdString (fromStdString body).
Proof.
  intros Hr Hp. pose proof (app_run_accounts [] ls _ a Hr eq_refl) as Hacc.
  apply app_run_system in Hr as [_ Hs]; [|done]. exists (omap packet_text (sys_trace ls (App_init s))). split.
  - eapply (sys_run_urls toBase64 moved_from [] workers); [apply init_ok|apply init_urls|exact Hs].
  - intros t (body & Hin & ->)%packets_called_back. exists body. split; [|done]. unfold accounts in Hacc. rewrite Hacc.
    apply elem_of_app. by left.
Qed.

(** A logout that has begun, or was run at once, and whose calls have returned, goes to
    its end. *)
Lemma logout_ends th clock a a1 a2 :
  sys_ok (ap_system a) → app_exec (Step (Outside th clock (OnAuth ELogout))) a = Some a1 → alive a2 →
  ap_system a2 = ap_system a1 → ap_phase a2 = ap_phase a1 → ap_leaving a2 = ap_leaving a1 → ap_calls a2 = [] →
  io_context_ (ap_net a2) = false →
  ∃ ls a3, Forall internal ls ∧ app_run ls a2 = Some a3 ∧ gui_free a3 = true ∧ cameraModel_ (gui (ap_system a3)) = CameraModel0 ∧
    username_ (login_ (auth_ (gui (ap_system a3)))) = "".
Proof.
  intros Hy Hx Hal Es Ep El Hc Hio. pose proof (alive_guard _ (app_exec_alive _ _ _ Hx)) as Hg. revert Hx.
  unfold Application.app_exec. rewrite Hg. cbn [own_label on_gui_thread negb orb andb]. destruct (gui_free a) eqn:Hf; [|done].
  apply gui_free_spec in Hf as (Hca & Hp & Hle). unfold sys_step.
  assert (∀ th clock y y', sys_ok y → sys_exec (Outside th clock (OnAuth ELogout)) y = Some y' →
    cameraModel_ (gui y') = CameraModel0 ∧ username_ (login_ (auth_ (gui y'))) = "") as Hcl.
  { intros th' clock' y y' Hok. unfold System.sys_exec. destruct (terminated y); [done|]. cbn [from_outside]. unfold gui_step.
    intros ([g c] & Hge & [= <-])%bind_Some. apply logout_exec in Hge as (_ & Hcl & _ & Hun & _); [|apply (so_gui _ Hok)].
    split; [apply (cl_cameras _ _ Hcl)|exact Hun]. }
  destruct (begins_logout _ a).
  - intros [= <-]. cbn in Es, Ep, El.
    destruct (gui_step_returns (OnAuth ELogout) (ap_system a2)) as (g & c & Hgs); [rewrite Es; apply (so_gui _ Hy)|done|].
    assert (∀ th' clock' y', sys_exec (Outside th' clock' (OnAuth ELogout)) (ap_system a2) = Some y' →
      ∃ k, drop (S (length (calls (ap_system a2)))) (calls y') = replicate k SvcDisconnect) as Hcalls.
    { intros th' clock' y'. unfold System.sys_exec. destruct (terminated (ap_system a2)); [done|]. cbn [from_outside]. unfold gui_step.
      intros ([g' c'] & Hge & [= <-])%bind_Some. apply logout_calls in Hge as (rest & -> & Hr). exists (length rest). cbn [calls set_gui].
      rewrite drop_app_ge by lia. replace (_ - _) with 1 by lia. cbn. clear -Hr.
      induction Hr as [|x rest -> _ IH]; cbn; by f_equal. }
    set (y := set_gui g c (ap_system a2)) in *.
    assert (sys_exec (Outside seen 0 (OnAuth ELogout)) (ap_system a2) = Some y) as Hsx.
    { unfold System.sys_exec. by rewrite (proj1 (proj2 Hal)), Hgs. }
    assert (app_exec (Resume seen 0) a2 = Some (end_logout y a2)) as Hx.
    { unfold Application.app_exec. rewrite (alive_guard _ Hal), El, !bool_decide_true by congruence. cbn [andb]. by rewrite Hsx. }
    destruct (Hcalls _ _ _ Hsx) as [k Hk].
    destruct (calls_pop k (end_logout y a2)) as (a3 & Hr & Hc3 & _ & E3); [split_and!; [apply Hal|apply Hal|cbn; congruence]|done|done|].
    exists (Resume seen 0 :: replicate k ServiceCall), a3. split; [constructor; [done|by apply Forall_replicate]|].
    split; [by eapply app_run_one|]. destruct E3 as (F1 & _ & F3 & _ & F5). split.
    + apply gui_free_spec. split_and!; [done|rewrite F3; cbn; congruence|by rewrite F5].
    + rewrite F1. apply (Hcl seen 0%Z (ap_system a2)); [by rewrite Es|exact Hsx].
  - intros (y & Hsx & [= <-])%bind_Some. cbn in Es, Ep, El. exists [], a2. split; [constructor|]. split; [done|]. split.
    + apply gui_free_spec. split_and!; congruence.
    + rewrite Es. by eapply Hcl.
Qed.

Lemma leaves_running l a a' :
  leaves l → app_exec l a = Some a' →
  ap_phase a = Running ∧ match l with Quit _ => ap_phase a' = Quitting | _ => ∃ th clock, l = Step (Outside th clock (OnAuth ELogout)) end.
Proof.
  intros Hl. unfold Application.app_exec. destruct (_ || _ || _); [done|].
  destruct l as [e| | |th clock|l|cm|th| |th clock]; try done.
  - destruct l as [| |th clock [| | | | | | | | |e|] | | |]; try done. destruct e; try done.
    cbn [own_label on_gui_thread negb orb andb]. destruct (gui_free a) eqn:Hf; [|done]. intros _.
    split; [by apply gui_free_running|]. by eexists _, _.
  - destruct (gui_free a) eqn:Hf; [|done]. intros (y & _ & [= <-])%bind_Some. split; [by apply gui_free_running|done].
Qed.
End lemmas.

(** ** Properties *)
Section properties.
Context `{J : Json, T : QtText, H : QtHash, Q : QtMap, V : QtVideo, W : QtVariant, K : QtJson, P : QtParse, F : QtFiles}.
Context (toBase64 : list byte → string) (moved_from : QString) (workers : nat).
Context {TS DS : Type} `{ST : SecureSession TS, SD : SecureSession DS}.
Context (new_tls : option TS) (new_dtls : DS) (getLocalPort : UdpSession DS → Z) (fuel : nat).
Abbreviation sys_run := (sys_run toBase64 moved_from workers).
Abbreviation app_exec := (app_exec toBase64 moved_from workers new_tls new_dtls getLocalPort fuel).
Abbreviation app_run := (app_run toBase64 moved_from workers new_tls new_dtls getLocalPort fuel).

(** C1. From the wire to the picture: whatever happened before, when a plain or TLS
    session waits for a header and no handler is posted, and frames of the
    application arrive on it in any chunks, the handlers of the messages they open to
    run, none of them an IMAGE, in any interleaving with the GUI thread, the workers
    and the user short of calls on the service, and anything but a logout or the end
    of the program follows, then once nothing is left to do every camera of every
    CAMERA message among them has a slot in the grid whose worker exists and belongs
    to the camera.  Its URL is one that a CAMERA message called back by the service,
    this one or another, gave for this very camera, and the worker's thread decodes
    that URL, or nothing if the message left it empty. *)
Theorem wire_to_decoders `{U : !Utf8Texts} (s : Store) (before during after : list app_label) (a a2 : App TS DS) (i : nat)
    (sess : TcpSession TS) (rs : list (Z * list byte)) (ms : list Message) (chunks : list (list byte)) (m : Message) (d : list CameraData) :
  app_run before (App_init s) = Some a →
  tcps (ap_net a) !! i = Some sess → TcpSession.ready sess → NetworkService.posts (ap_net a) = [] → processor_ (ap_net a) = true →
  Forall (application_record (has_tls sess)) rs → ms = (open_records (tlsSession_ sess) rs).1 →
  Forall (λ m, msg_type m ≠ mt_value IMAGE) ms → concat chunks = rs ≫= record_frame →
  omap io_of during = ((λ c, TcpEv i (Recv c)) <$> chunks) ++ replicate (length ms) RunPost → ServiceCall ∉ during →
  app_run (during ++ after) a = Some a2 → Forall stays_in (during ++ after) → ap_phase a2 = Running →
  ap_queue a2 = [] → System.quiet (ap_system a2) →
  m ∈ ms → msg_type m = mt_value CAMERA → msg_payload m ≠ [] →
  reads_as (toStdString (fromStdString (payload_string (msg_payload m)))) d →
  ∀ cam, cam ∈ d → let id := fromStdString (cd_cameraId cam) in id ≠ "" →
  ∃ slot j w u, cameraIdForSlot slot (cameraModel_ (gui (ap_system a2))) = id ∧
    getWorkerBySlot slot (videoManager_ (gui (ap_system a2))) = Some j ∧
    heap (videoManager_ (gui (ap_system a2))) !! j = Some w ∧ cameraId_ w = id ∧
    (∃ body cam', CbText onCameraList body ∈ out (ap_net a2) ∧ lists (toStdString (fromStdString body)) u cam' ∧
       cd_cameraId cam' = cd_cameraId cam) ∧
    decodeThread_ (video_ w) = if str_empty u then None else Some u.
Proof.
  intros Hb Hs Hready Hposts Hproc Hrs Hms Hty Hch Hio Hns Hr Hstay Hp2 Hq Hquiet Hm Hcam Hpl Hrd cam Hin id Hne.
  destruct (app_run_urls toBase64 moved_from workers new_tls new_dtls getLocalPort fuel (before ++ during ++ after) s a2)
    as (ts & Hu & Hts); [by rewrite app_run_app, Hb|done|].
  rewrite app_run_app in Hr. apply bind_Some in Hr as (a1 & H1 & H2). apply Forall_app in Hstay as [Hst1 Hst2].
  destruct (app_run_system _ _ _ _ _ _ _ _ _ _ H2 Hp2) as [Hp1 _].
  destruct (app_run_system _ _ _ _ _ _ _ _ _ _ H1 Hp1) as [Hp _].
  pose proof (app_run_ok _ _ _ _ _ _ _ _ _ _ Hb Hp) as Hy.
  assert (cbs (ap_net a) = bridge_callbacks) as Hcbs by (by eapply app_run_cbs; [|exact Hb|exact Hproc]).
  destruct (app_run_net _ _ _ _ _ _ _ _ _ _ Hns H1) as [Hn _]. rewrite Hio in Hn.
  destruct (net_receives new_tls new_dtls getLocalPort fuel i sess rs ms chunks (ap_net a)) as (n' & s' & Hn' & Ho & _); [done..|].
  rewrite Hn in Hn'. injection Hn' as Hn'. rewrite <-Hn', Hcbs in Ho.
  assert (app_way (toStdString (fromStdString (payload_string (msg_payload m)))) d a1) as Hw.
  { eapply called_back_way; [exact Hy|exact Hns|exact Hst1|exact Hrd|exact H1|exact Hp1|]. rewrite Ho, drop_app_length.
    apply list_elem_of_bind. exists m. split; [|exact Hm]. apply list_elem_of_fmap.
    exists (onCameraList, payload_string (msg_payload m)). split; [done|].
    unfold processMessage. rewrite Hcam, mt_of_value_value.
    change ((onCameraList, payload_string (msg_payload m)) ∈ forward bridge_callbacks onCameraList m). unfold forward.
    rewrite (bool_decide_true (msg_payload m ≠ [])) by done. by left. }
  assert (sys_ok (ap_system a1)) as Hy1 by (destruct (app_run_system _ _ _ _ _ _ _ _ _ _ H1 Hp1) as [_ Hsr]; by eapply sys_run_ok).
  assert (sys_ok (ap_system a2)) as Hy2 by (destruct (app_run_system _ _ _ _ _ _ _ _ _ _ H2 Hp2) as [_ Hsr]; by eapply sys_run_ok).
  eapply app_run_way in Hw; [|exact Hy1|exact Hst2|exact Hrd|exact H2|exact Hp2].
  destruct Hw as [(pu & body & Hx & _)|Hw]; [by rewrite Hq in Hx; apply not_elem_of_nil in Hx|].
  destruct Hquiet as (Q1 & Q2 & Q3). unfold on_its_way in Hw. rewrite Q1, Q2, Q3 in Hw.
  destruct Hw as [Hw|[Hw|[Hw|Hw]]]; [by apply not_elem_of_nil in Hw|by apply Exists_nil in Hw|by apply not_elem_of_nil in Hw|].
  destruct (grid_decodes_url ts (ap_system a2) id Hy2 Hu Hne (Hw cam Hin Hne))
    as (slot & j & w & u & G1 & G2 & G3 & G4 & (t & cam' & Ht & Hl & Hc') & G6).
  exists slot, j, w, u. split_and!; try done. destruct (Hts t Ht) as (body & Hbody & ->). exists body, cam'.
  split_and!; [done|done|]. rewrite Hc'. by eapply reads_as_text.
Qed.

(** C2. A logout after an image freezes the program: once a UDP session has its receive
    pending, a logout, or the end of the program, leaves the GUI thread in
    [disconnect] for good.  Whatever the peer, the service's thread and the workers do
    afterwards, the GUI thread handles no event, callback or command any more, and
    the objects of the program are never destroyed, as long as that receive does not
    fail. *)
Theorem logout_freezes (s : Store) (before ls : list app_label) (l : app_label) (a a1 a2 : App TS DS) (j : nat) :
  app_run before (App_init s) = Some a → udp_pending j (ap_net a) → leaves l → app_exec l a = Some a1 →
  Io (UdpEv j ReceiveError) ∉ ls → app_run ls a1 = Some a2 →
  gui_free a2 = false ∧ ap_calls a2 ≠ [] ∧ udp_pending j (ap_net a2) ∧ Forall (λ l, gui_label l = false) ls.
Proof.
  intros _ Hu Hl H1 Hn H2. destruct (leaves_disconnects _ _ _ _ _ _ _ _ _ _ Hl H1) as (Hnet & _ & rest & Hc & _).
  assert (frozen (udp_pending j) a1) as Hf by (split; [by rewrite Hnet|by exists SvcDisconnect, rest]).
  destruct (app_run_frozen toBase64 moved_from workers new_tls new_dtls getLocalPort fuel (udp_pending j) (λ e, e ≠ UdpEv j ReceiveError))
    with (ls := ls) (a := a1) (a' := a2) as [Hf2 Hg]; [apply udp_pending_busy| | |done| |done|].
  - intros e n n' Hp Hio Hne Hx. by eapply io_event_pending.
  - intros n Hp _. by apply udp_pending_disconnect.
  - by intros e He ->.
  - destruct (frozen_busy _ a2 Hf2) as [Hb Hne]. split_and!; [done|done|by destruct Hf2|done].
Qed.

(** C12. Without a UDP session a logout returns: when no handler is posted, the service is
    connected, connecting or idle in its loop and no UDP session waits, then the calls
    of a logout, or of the end of the program, come back without anything from the
    peer: the pending operations only fail or end.  The context is gone then, and the
    GUI thread goes on by itself: the logout comes to its end, with the grid empty and
    the user forgotten, and the next event can run; at the end of the program the
    objects are destroyed. *)
Theorem logout_returns (s : Store) (before : list app_label) (l : app_label) (a a1 : App TS DS) :
  app_run before (App_init s) = Some a → io_context_ (ap_net a) = true → joining (ap_net a) = false →
  NetworkService.posts (ap_net a) = [] → forallb udp_idle (udps (ap_net a)) = true → leaves l → app_exec l a = Some a1 →
  ∃ k es a2, Forall winds_down es ∧
    app_run (ServiceCall :: (Io <$> es) ++ replicate k ServiceCall) a1 = Some a2 ∧ ap_calls a2 = [] ∧
    io_context_ (ap_net a2) = false ∧ ap_system a2 = ap_system a1 ∧ ap_phase a2 = ap_phase a1 ∧
    match l with
    | Quit _ => is_Some (app_exec Destroy a2)
    | _ => ∃ ls a3, Forall internal ls ∧ app_run ls a2 = Some a3 ∧ gui_free a3 = true ∧
        cameraModel_ (gui (ap_system a3)) = CameraModel0 ∧ username_ (login_ (auth_ (gui (ap_system a3)))) = ""
    end.
Proof.
  intros Hb Hio Hj Hp Hu Hl H1. destruct (leaves_disconnects _ _ _ _ _ _ _ _ _ _ Hl H1) as (Hnet & Ha & rest & Hc & Hr).
  assert (ap_calls a1 = replicate (S (length rest)) SvcDisconnect) as Hc'.
  { rewrite Hc. cbn. f_equal. clear -Hr. induction Hr as [|c rest -> _ IH]; cbn; by f_equal. }
  destruct (calls_return toBase64 moved_from workers new_tls new_dtls getLocalPort fuel _ a1 Ha Hc')
    as (es & a2 & Hw & Hrun & Hc2 & Hio2 & Hsame); [by rewrite Hnet..|].
  pose proof (same_alive _ _ Hsame Ha) as Ha2. destruct Hsame as (Hs & _ & Hph & _ & Hle).
  exists (S (S (length rest))), es, a2. split_and!; try done.
  destruct (leaves_running _ _ _ _ _ _ _ _ _ _ Hl H1) as [Hp0 Hend].
  pose proof (app_run_ok _ _ _ _ _ _ _ _ _ _ Hb Hp0) as Hy.
  destruct l as [e| | |th clock|l|cm|th| |th clock]; try by destruct Hend as (? & ? & ?).
  - destruct Hend as (th & clock & [= ->]). by eapply logout_ends.
  - unfold Application.app_exec. rewrite (alive_guard _ Ha2), !bool_decide_true by congruence. by eexists.
Qed.

(** C18. The application is the running system with a service under it: as long as it has
    not been told to quit, every run of it is a run of the system of [System.v] from
    its initial state, in which the GUI thread has handled the callbacks of the
    service in the order they were made, each once; the others are still queued, in
    that order. *)
Theorem app_refines_system (s : Store) (ls : list app_label) (a : App TS DS) :
  app_run ls (App_init s) = Some a → ap_phase a = Running →
  ∃ ls', sys_run ls' (Core_init s) = Some (ap_system a) ∧ out (ap_net a) = omap callback_of ls' ++ (ap_queue a).*2 ∧
    sys_ok (ap_system a) ∧ bridge_cbs (ap_net a).
Proof.
  intros Hr Hp. pose proof (app_run_ok _ _ _ _ _ _ _ _ _ _ Hr Hp) as Hok.
  assert (bridge_cbs (ap_net a)) as Hcb by (by eapply app_run_cbs; [|exact Hr]).
  pose proof (app_run_accounts toBase64 moved_from workers new_tls new_dtls getLocalPort fuel [] ls _ a Hr eq_refl) as Hacc.
  apply app_run_system in Hr as [_ Hs]; [|done]. eexists. by split_and!.
Qed.

(** C28. Nothing gets stuck but in a call on the service: from any reachable state whose
    event loop runs and that no exception has ended, with at least one worker, the GUI
    thread and the workers can by themselves, without a packet, the user or the
    service's thread, finish every task and every update and then either run every
    callback and every posted event and be free for the next, or come to a
    [disconnect] that joins the service's thread while that has handlers left; unless
    a task throws on the way.  The decode threads that are joined on the way see their
    stop flag. *)
Theorem app_drains (s : Store) (ls : list app_label) (a : App TS DS) :
  0 < workers → app_run ls (App_init s) = Some a → ap_phase a = Running → ap_aborted a = false →
  terminated (ap_system a) = false →
  ∃ ls' a', Forall internal ls' ∧ app_run ls' a = Some a' ∧
    (terminated (ap_system a') = true ∨
     (tasks (ap_system a') = [] ∧ running (ap_system a') = [] ∧
      (waits a' ∨ (gui_free a' = true ∧ ap_queue a' = [] ∧ events (ap_system a') = [])))).
Proof.
  intros Hw Hr Hp Hab Ht. apply all_ends; [done|]. split; [|split; [done|by eapply app_run_ok]].
  split_and!; [done|done|by rewrite Hp].
Qed.
End properties.

(** *** Example: a login, a CAMERA message in two chunks, an image and a logout *)

#[local] Existing Instances RefText RefHash RefMap RefVideo RefVariant RefFiles.
#[local] Existing Instances system_qjson system_parse system_json system_texts.

Abbreviation demo_run := (app_run demo_base64 "" 2 (None : option (TLS.Session (O := RefSSL)))
  (MediaDTLS.Session_ctor (O := RefSSL) None false) (λ _, 5000%Z) 10).

Definition demo_app0 : App (TLS.Session (O := RefSSL)) (MediaDTLS.Session (O := RefSSL)) := App_init ∅.

Definition demo_app_before : list app_label :=
  [Step (Outside seen 0 (OnAuth (ELogin "u" "p" false))); ServiceCall; Io RunPost; Io (ConnectDone true); Io RunPost;
   NextCallback seen 0; ServiceCall; Io RunPost; Io (TcpEv 0 RunPosted); Io (TcpEv 0 (WireWrite 0 40))].

Definition demo_app (ls : list app_label) : App (TLS.Session (O := RefSSL)) (MediaDTLS.Session (O := RefSSL)) :=
  default demo_app0 (demo_run ls demo_app0).

Definition demo_cams : Message := send_message (mt_value CAMERA) "cams".

Definition demo_during : list app_label :=
  [Io (TcpEv 0 (Recv (take 3 (message_frame demo_cams)))); Step (Outside seen 0 (OnSettings Save));
   Io (TcpEv 0 (Recv (drop 3 (message_frame demo_cams)))); Command SendListPending; Io RunPost].

Definition demo_rest : list app_label :=
  [ServiceCall; NextCallback seen 0; Step (Take 0); Step (Take 0); Step (Work 1); Step (Work 0);
   Step (Work 0); Step (Work 0); Step (NextEvent seen 0); Step (NextEvent seen 0)].

Definition demo_image : list app_label :=
  [Io (TcpEv 0 (Recv (message_frame (send_message (mt_value IMAGE) "{}")))); Io RunPost; Io RunPost; Io RunPost].

Lemma wire_to_decoders_witness :
  ∃ slot j w, cameraIdForSlot slot (cameraModel_ (gui (ap_system (demo_app (demo_app_before ++ demo_during ++ demo_rest))))) = "10.0.0.1/0" ∧
    getWorkerBySlot slot (videoManager_ (gui (ap_system (demo_app (demo_app_before ++ demo_during ++ demo_rest))))) = Some j ∧
    heap (videoManager_ (gui (ap_system (demo_app (demo_app_before ++ demo_during ++ demo_rest))))) !! j = Some w ∧
    cameraId_ w = "10.0.0.1/0" ∧ decodeThread_ (video_ w) = Some "rtsp://10.0.0.1/0/main".
Proof.
  destruct (wire_to_decoders demo_base64 "" 2 (None : option (TLS.Session (O := RefSSL)))
    (MediaDTLS.Session_ctor (O := RefSSL) None false) (λ _, 5000%Z) 10 ∅ demo_app_before demo_during demo_rest
    (demo_app demo_app_before) (demo_app (demo_app_before ++ demo_during ++ demo_rest)) 0
    (default (TcpSession_ctor None true true true) (tcps (ap_net (demo_app demo_app_before)) !! 0))
    [message_record demo_cams] [demo_cams] [take 3 (message_frame demo_cams); drop 3 (message_frame demo_cams)] demo_cams [demo_camera])
    with (cam := demo_camera) as (slot & j & w & u & H1 & H2 & H3 & H4 & (body & cam' & H5 & (_ & item & Hi & Hp) & _) & H6).
  - vm_compute. reflexivity.
  - vm_compute. reflexivity.
  - unfold TcpSession.ready. split_and!; vm_compute; reflexivity.
  - vm_compute. reflexivity.
  - vm_compute. reflexivity.
  - apply Forall_singleton. apply (message_application demo_cams). apply send_message_wf. vm_compute. reflexivity.
  - vm_compute. reflexivity.
  - by apply Forall_singleton.
  - vm_compute. reflexivity.
  - vm_compute. reflexivity.
  - unfold demo_during. rewrite !not_elem_of_cons. split_and!; [done..|apply not_elem_of_nil].
  - vm_compute. reflexivity.
  - repeat constructor; done.
  - vm_compute. reflexivity.
  - vm_compute. reflexivity.
  - vm_compute. done.
  - by left.
  - reflexivity.
  - vm_compute. done.
  - intros st. rewrite camera_updateFromJson_result. vm_compute. reflexivity.
  - by left.
  - vm_compute. done.
  - assert (out (ap_net (demo_app (demo_app_before ++ demo_during ++ demo_rest))) = [CbConnected; CbText onCameraList "cams"]) as Ho
      by (vm_compute; reflexivity).
    rewrite Ho in H5. apply elem_of_cons in H5 as [[=]|[= ->]%list_elem_of_singleton]. exists slot, j, w. split_and!; [done|done|done|done|].
    rewrite H6. clear -Hi Hp. revert Hi Hp. vm_compute. intros ->%list_elem_of_singleton. vm_compute. by intros [= <- _].
Defined.

Lemma logout_freezes_witness :
  let a2 := demo_app (demo_app_before ++ demo_image ++ [Step (Outside seen 0 (OnAuth ELogout)); ServiceCall; Io RunPost; Io (TcpEv 0 ReadError); Io RunPost]) in
  gui_free a2 = false ∧ ap_calls a2 ≠ [].
Proof.
  intros a2.
  destruct (logout_freezes demo_base64 "" 2 (None : option (TLS.Session (O := RefSSL)))
    (MediaDTLS.Session_ctor (O := RefSSL) None false) (λ _, 5000%Z) 10 ∅ (demo_app_before ++ demo_image)
    [ServiceCall; Io RunPost; Io (TcpEv 0 ReadError); Io RunPost] (Step (Outside seen 0 (OnAuth ELogout)))
    (demo_app (demo_app_before ++ demo_image)) (demo_app (demo_app_before ++ demo_image ++ [Step (Outside seen 0 (OnAuth ELogout))])) a2 0)
    as (H1 & H2 & _).
  - vm_compute. reflexivity.
  - split; [vm_compute; reflexivity|]. eexists. split; vm_compute; reflexivity.
  - done.
  - vm_compute. reflexivity.
  - rewrite !not_elem_of_cons. split_and!; [done..|apply not_elem_of_nil].
  - vm_compute. reflexivity.
  - by split.
Defined.

Lemma logout_returns_witness :
  ∃ k es a2, Forall winds_down es ∧
    demo_run (ServiceCall :: (Io <$> es) ++ replicate k ServiceCall) (demo_app (demo_app_before ++ [Step (Outside seen 0 (OnAuth ELogout))])) = Some a2 ∧
    ap_calls a2 = [] ∧ io_context_ (ap_net a2) = false.
Proof.
  destruct (logout_returns demo_base64 "" 2 (None : option (TLS.Session (O := RefSSL)))
    (MediaDTLS.Session_ctor (O := RefSSL) None false) (λ _, 5000%Z) 10 ∅ demo_app_before (Step (Outside seen 0 (OnAuth ELogout)))
    (demo_app demo_app_before) (demo_app (demo_app_before ++ [Step (Outside seen 0 (OnAuth ELogout))])))
    as (k & es & a2 & Hw & Hr & Hc & Hio & _).
  - vm_compute. reflexivity.
  - vm_compute. reflexivity.
  - vm_compute. reflexivity.
  - vm_compute. reflexivity.
  - vm_compute. reflexivity.
  - done.
  - vm_compute. reflexivity.
  - exists k, es, a2. split; [exact Hw|]. split; [exact Hr|]. split; [exact Hc|exact Hio].
Defined.

Lemma app_refines_system_witness :
  ∃ ls', System.sys_run demo_base64 "" 2 ls' (Core_init ∅) = Some (ap_system (demo_app (demo_app_before ++ demo_during))) ∧
    out (ap_net (demo_app (demo_app_before ++ demo_during))) = [CbConnected; CbText onCameraList "cams"] ∧
    omap callback_of ls' = [CbConnected].
Proof.
  destruct (app_refines_system demo_base64 "" 2 (None : option (TLS.Session (O := RefSSL)))
    (MediaDTLS.Session_ctor (O := RefSSL) None false) (λ _, 5000%Z) 10 ∅ (demo_app_before ++ demo_during)
    (demo_app (demo_app_before ++ demo_during))) as (ls' & Hr & Ho & _).
  - vm_compute. reflexivity.
  - vm_compute. reflexivity.
  - exists ls'. split; [exact Hr|]. split; [vm_compute; reflexivity|].
    apply (app_inj_2 _ [CbConnected] (ap_queue (demo_app (demo_app_before ++ demo_during))).*2 [CbText onCameraList "cams"]); [reflexivity|].
    rewrite <-Ho. vm_compute. reflexivity.
Defined.

Lemma app_drains_witness :
  ∃ ls' a', Forall internal ls' ∧ demo_run ls' (demo_app (demo_app_before ++ demo_during)) = Some a' ∧
    (terminated (ap_system a') = true ∨
     (tasks (ap_system a') = [] ∧ running (ap_system a') = [] ∧
      (waits a' ∨ (gui_free a' = true ∧ ap_queue a' = [] ∧ events (ap_system a') = [])))).
Proof.
  apply (app_drains demo_base64 "" 2 (None : option (TLS.Session (O := RefSSL)))
    (MediaDTLS.Session_ctor (O := RefSSL) None false) (λ _, 5000%Z) 10 ∅ (demo_app_before ++ demo_during)).
  - lia.
  - vm_compute. reflexivity.
  - vm_compute. reflexivity.
  - vm_compute. reflexivity.
  - vm_compute. reflexivity.
Defined.
