(* ===== verification/Failures.v ===== *)
(** * What ends the process (Core.cpp, ThreadPool.cpp, NetworkService.cpp, the stores)

    The tasks that update the stores catch nothing, and neither does the worker that runs
    them or the service's handler that resolves a host name: an exception there ends the
    process.  The file gives the packets whose tasks throw as a test on the JSON text
    ([packet_ok]) and accounts for every such packet in a run of the application. *)

From S2P Require Import Prelude Extern Variant Protocol Crypt CameraStore DeviceStore ServerStatusStore Alarm MessageProcessor UdpSession TcpSession NetworkService Settings.
From S2P Require Import NetworkBridge Auth Video VideoWorker VideoManager VideoWiring Core Gui System Application.

(** ** The fields a packet needs *)
Section fields.
Context `{J : Json}.

Definition reads {A} (o : outcome exn A) : bool := match o with Ret _ => true | Throw _ => false end.

(** The members have the types they are read with, or are absent. *)
Definition usage_fields (item : json) : bool :=
  reads (value_double item "cpu" d_zero) && reads (value_double item "memory" d_zero) &&
  reads (value_double item "temp" d_zero) && reads (value_int item "uptime" 0).

Definition camera_fields (item : json) : bool :=
  negb (is_object item) ||
  reads (value_string item "ip" "") && reads (value_string item "source_url" "") &&
  reads (value_string item "type" "") && reads (value_bool item "is_online" false).

Definition status_fields (item : json) : bool :=
  reads (value_string item "ip" "") && usage_fields item && reads (value_int item "pending_events" 0).

Definition devices_of (parsed : json) : list json :=
  if contains parsed "devices" && is_array (member parsed "devices") then elements (member parsed "devices") else [].

(** The texts of a callback whose tasks do not throw. *)
Definition packet_ok (k : callback) (s : string) : bool :=
  let parsed := json_parse s in
  match k with
  | onCameraList => negb (is_array parsed) || forallb camera_fields (elements parsed)
  | onDeviceStatus =>
      negb (is_object parsed) || forallb status_fields (devices_of parsed) &&
      (negb (contains parsed "server" && is_object (member parsed "server")) || usage_fields (member parsed "server"))
  | _ => true
  end.

(** *** The parsers read exactly these *)

Lemma reads_bind {A B} (o : outcome exn A) (f : A → outcome exn B) :
  reads (o ≫= f) = match o with Ret a => reads (f a) | Throw _ => false end.
Proof. by destruct o. Qed.

Lemma outcome_fold_reads {A B} (body : A → B → outcome exn B) (ok : A → bool) l acc :
  (∀ x acc, reads (body x acc) = ok x) → reads (outcome_fold body l acc) = forallb ok l.
Proof.
  intros Hb. revert acc. induction l as [|x l IH]; intros acc; [done|]. cbn [outcome_fold forallb].
  rewrite reads_bind, <-(Hb x acc). destruct (body x acc); [apply IH|done].
Qed.

(** A body that reads more items than [ok] says. *)
Lemma outcome_fold_ok {A B} (body : A → B → outcome exn B) (ok : A → bool) l acc :
  (∀ x acc, ok x = true → reads (body x acc) = true) → forallb ok l = true → reads (outcome_fold body l acc) = true.
Proof.
  intros Hb. revert acc. induction l as [|x l IH]; intros acc; [done|]. cbn [outcome_fold forallb].
  rewrite andb_true_iff. intros [Hx Hl]. rewrite reads_bind. specialize (Hb x acc Hx).
  destruct (body x acc); [by apply IH|done].
Qed.

Ltac read_fields :=
  repeat first
    [ match goal with |- context [reads (value_string ?i ?k ?d)] => destruct (value_string i k d) end
    | match goal with |- context [reads (value_bool ?i ?k ?d)] => destruct (value_bool i k d) end
    | match goal with |- context [reads (value_double ?i ?k ?d)] => destruct (value_double i k d) end
    | match goal with |- context [reads (value_int ?i ?k ?d)] => destruct (value_int i k d) end];
  cbn; try done.

Lemma parse_item_reads item : reads (parse_item item) = camera_fields item.
Proof.
  unfold parse_item, camera_fields. destruct (is_object item); [|done]. cbn [negb orb].
  rewrite !reads_bind. read_fields.
Qed.

Lemma parse_items_reads items : bool_decide ((parse_items items).2 = None) = forallb camera_fields items.
Proof.
  induction items as [|i items IH]; [done|]. cbn [parse_items forallb]. rewrite <-IH, <-parse_item_reads.
  by destruct (parse_item i).
Qed.

Lemma camera_item_reads devices item merged :
  camera_fields item = true → reads (camera_item devices item merged) = true.
Proof.
  unfold camera_item, camera_fields. destruct (is_object item); [|done]. cbn [negb orb].
  destruct (value_string item "ip" "") as [a|]; [|done]. cbn. destruct (str_empty a); [done|]. read_fields.
Qed.

Lemma status_item_reads item devices : reads (status_item item devices) = status_fields item.
Proof. unfold status_item, status_fields, usage_fields. rewrite !reads_bind. read_fields. Qed.

Lemma parse_sample_reads now item : status_fields item = true → reads (parse_sample now item) = true.
Proof.
  unfold parse_sample, status_fields, usage_fields. destruct (is_object item); [|done].
  destruct (value_string item "ip" "") as [a|]; [|done]. cbn. destruct (str_empty a); [done|]. read_fields.
Qed.

Lemma parse_samples_reads now items : forallb status_fields items = true → reads (parse_samples now items) = true.
Proof.
  induction items as [|i items IH]; [done|]. cbn [parse_samples forallb]. rewrite andb_true_iff. intros [Hi Hl].
  rewrite reads_bind. apply (parse_sample_reads now) in Hi. destruct (parse_sample now i); [|done].
  rewrite reads_bind. specialize (IH Hl). by destruct (parse_samples now items).
Qed.

Lemma parse_status_reads now parsed :
  reads (parse_status now parsed) = forallb status_fields (devices_of parsed) &&
    (negb (contains parsed "server" && is_object (member parsed "server")) || usage_fields (member parsed "server")).
Proof.
  unfold parse_status. rewrite reads_bind.
  assert (reads (if contains parsed "devices" && is_array (member parsed "devices")
                 then outcome_fold status_item (elements (member parsed "devices")) [] else mret [])
          = forallb status_fields (devices_of parsed)) as <-.
  { unfold devices_of. destruct (_ && _); [|done]. apply outcome_fold_reads, status_item_reads. }
  destruct (if _ && _ then _ else _); [|done]. cbn. destruct (_ && _); [|done].
  unfold usage_fields. rewrite !reads_bind. read_fields.
Qed.
End fields.

(** ** Tasks *)
Section tasks.
Context `{J : Json, T : QtText, H : QtHash, Q : QtMap, V : QtVideo, W : QtVariant, K : QtJson, P : QtParse, F : QtFiles}.
Context (toBase64 : list byte → string) (moved_from : QString).
Abbreviation run_task := (run_task toBase64 moved_from).
Abbreviation sys_exec := (sys_exec toBase64 moved_from).

(** The tasks whose exceptions are not caught come from two callbacks. *)
Definition task_packet (t : task) : option (callback * string) :=
  match t with
  | CameraTask s | IntegratedTask s => Some (onCameraList, s)
  | AvailableTask s | StatusTask s => Some (onDeviceStatus, s)
  | _ => None
  end.

Definition task_ok (t : task) : bool := match task_packet t with Some (k, s) => packet_ok k s | None => true end.

(** The task that reads all a packet needs. *)
Definition deciding_task (k : callback) (s : string) : option task :=
  match k with onCameraList => Some (CameraTask s) | onDeviceStatus => Some (StatusTask s) | _ => None end.

Lemma posts_reads {A} (f : A → gui_event) r : reads (posts f r) = reads r.
Proof. by destruct r as [[]|]. Qed.

Lemma status_reads now s st : reads (run_task now (StatusTask s) st).1 = packet_ok onDeviceStatus s.
Proof.
  unfold packet_ok. cbn. rewrite status_updateFromJson_result, <-(parse_status_reads now). destruct (is_object _); [|done].
  by destruct (parse_status _ _).
Qed.

Lemma task_ok_reads now t st : task_ok t = true → reads (run_task now t st).1 = true.
Proof.
  unfold task_ok. destruct t as [s|s|s|s|s|s|s|data s]; cbn [task_packet]; intros Hok.
  - done.
  - cbn in Hok |- *. rewrite updateFromCameraJson_result. destruct (is_array _); [|done].
    pose proof (outcome_fold_ok (camera_item (devices_ (deviceStore_ st))) camera_fields (elements (json_parse s)) []
      (λ x acc, camera_item_reads _ x acc) Hok) as Hf.
    by destruct (outcome_fold _ _ _).
  - cbn in Hok |- *. unfold updateFromAvailableJson. destruct (is_object _); [|done].
    apply andb_true_iff in Hok as [Hok _]. apply (parse_samples_reads now) in Hok. unfold devices_of in Hok.
    destruct (_ && _); [|done]. cbn [negb orb] in Hok.
    pose proof (available_items_ok now (elements (member (json_parse s) "devices")) (deviceStore_ st)) as Hi.
    unfold mbind, SE_bind. destruct (parse_samples _ _); [|done]. by rewrite Hi.
  - by rewrite (status_reads now s).
  - done.
  - cbn. by destruct (Alarm.dispatch_task _) as [[]|].
  - done.
  - done.
Qed.

(** *** What a step of the system does to the tasks *)

(** The tasks that a callback becomes. *)
Definition callback_tasks (o : net_out) : list task :=
  match o with
  | CbText k body => concat (route <$> on_callback "" k body)
  | CbImageData data meta => concat (route <$> on_image_data data meta)
  | CbConnected => []
  end.

Lemma callback_routes purpose k body : concat (route <$> on_callback purpose k body) = callback_tasks (CbText k body).
Proof.
  destruct k; try done. unfold callback_tasks, on_callback, login_fail. by repeat case_decide.
Qed.

Lemma sys_exec_tasks workers l y y' :
  sys_exec workers l y = Some y' →
  (∃ now t q, l = Take now ∧ tasks y = t :: q ∧ y' = take_task toBase64 moved_from now t q y) ∨
  (∃ i, l = Work i ∧ work i y = Some y') ∨
  (tasks y' = tasks y ++ default [] (callback_tasks <$> callback_of l) ∧ running y' = running y ∧ terminated y' = false).
Proof.
  unfold System.sys_exec. destruct (terminated y) eqn:Ht; [done|].
  assert (∀ th clock e y1, gui_step th clock e y = Some y1 → tasks y1 = tasks y ∧ running y1 = running y ∧ terminated y1 = false) as Hg.
  { intros th clock e y1 (E & E1 & _ & E2 & _)%gui_step_fields. by rewrite E, E1, E2. }
  destruct l as [th clock purpose k body|data meta|th clock e|now|i|th clock]; cbn [callback_of fmap option_fmap option_map default].
  - intros (y1 & (H1 & H2 & H3)%Hg & [= <-])%bind_Some. right; right. cbn [emit tasks running terminated].
    by rewrite callback_routes, H1, H2, H3.
  - intros [= <-]. right; right. by cbn.
  - destruct (from_outside e); [|done]. intros (H1 & H2 & H3)%Hg. right; right. rewrite H1, H2, H3. split; [|done].
    destruct e as [| | | | | | | | |[]|]; cbn; by rewrite app_nil_r.
  - destruct (tasks y) as [|t q] eqn:Hq; [done|]. case_decide; [|done]. intros [= <-]. left. by exists now, t, q.
  - intros Hw. right; left. by exists i.
  - destruct (events y) as [|e evs]; [done|]. intros (E & E1 & _ & E2 & _)%gui_step_fields. right; right.
    by rewrite app_nil_r, E, E1, E2.
Qed.

(** *** Workers in the loop over a CAMERA packet *)

(** The worker has read the first items of the text without an exception. *)
Definition reading (s : string) (j : job) : Prop :=
  ∃ k, todo j = (StoreItem s <$> seq k (length (drop k (elements (json_parse s))))) ++ [StoreList] ∧
    forallb camera_fields (take k (elements (json_parse s))) = true.

Lemma work_reading s i y y' :
  work i y = Some y' → terminated y' = false → Exists (reading s) (running y) →
  packet_ok onCameraList s = true ∨ Exists (reading s) (running y').
Proof.
  intros (j & a & rest & Hj & Ht & Hcase)%work_cases Hterm Hr.
  assert (reading s j → a = StoreList ∧ packet_ok onCameraList s = true ∨
    ∃ k item, a = StoreItem s k ∧ elements (json_parse s) !! k = Some item ∧
      forallb camera_fields (take k (elements (json_parse s))) = true ∧
      rest = (StoreItem s <$> seq (S k) (length (drop (S k) (elements (json_parse s))))) ++ [StoreList]) as Hread.
  { intros (k & Htodo & Hok). rewrite Ht in Htodo. destruct (drop k (elements (json_parse s))) as [|item items] eqn:Hd.
    - left. injection Htodo as -> _. split; [done|]. unfold packet_ok. rewrite <-(take_drop k (elements (json_parse s))), Hd, app_nil_r, Hok.
      by rewrite orb_true_r.
    - right. apply lookup_drop_cons in Hd as [Hl Hd]. injection Htodo as -> ->. exists k, item. by rewrite Hd. }
  destruct Hcase as [(e & -> & ->)|[_ ->]].
  - cbn. eapply put_job_Exists; [exact Hj|exact Hr|]. intros [[[=] _]|(? & ? & [=] & _)]%Hread.
  - revert Hterm. unfold store_access. destruct (access a (newData j) (cameraStore_ (stores y))) as [[[nd evs]|ex] c] eqn:Hx; cbn; [|done].
    intros _. eapply put_job_Exists; [exact Hj|exact Hr|]. intros [[_ Hp]|(k & item & -> & Hl & Hok & ->)]%Hread; [by left|right].
    cbn in Hx. rewrite Hl, update_item_parse in Hx. destruct (parse_item item) as [o|e] eqn:Hp; [|done]. injection Hx as _ <- _.
    cbn [fmap list_fmap app todo]. split; [by destruct (StoreItem s <$> _)|]. exists (S k). split; [done|].
    rewrite (take_S_r _ _ _ Hl), forallb_app, Hok. cbn. by rewrite <-parse_item_reads, Hp.
Qed.

(** A worker that runs into an exception is at an item with a field of the wrong type. *)
Lemma work_throws i y y' :
  work i y = Some y' → terminated y = false → terminated y' = true →
  ∃ j s k, j ∈ running y ∧ StoreItem s k ∈ todo j ∧
    ∃ item, item ∈ elements (json_parse s) ∧ camera_fields item = false.
Proof.
  intros (j & a & rest & Hj & Ht & Hcase)%work_cases Hy. destruct Hcase as [(e & -> & ->)|[_ ->]]; [cbn; congruence|].
  unfold store_access. destruct (access a (newData j) (cameraStore_ (stores y))) as [[[nd evs]|ex] c] eqn:Hx; cbn; [done|].
  intros _. destruct a as [s k| |id info|id info|e]; try done. exists j, s, k. split; [by eapply list_elem_of_lookup_2|].
  split; [rewrite Ht; by left|]. cbn in Hx. destruct (elements (json_parse s) !! k) as [item|] eqn:Hl; [|done].
  rewrite update_item_parse in Hx. destruct (parse_item item) as [o|e] eqn:Hp; [done|].
  exists item. split; [by eapply list_elem_of_lookup_2|]. by rewrite <-parse_item_reads, Hp.
Qed.

(** No worker gets items it had not. *)
Lemma work_items (X : string → Prop) i y y' :
  work i y = Some y' → Forall (λ j, ∀ s k, StoreItem s k ∈ todo j → X s) (running y) →
  Forall (λ j, ∀ s k, StoreItem s k ∈ todo j → X s) (running y').
Proof.
  intros (j & a & rest & Hj & Ht & Hcase)%work_cases Hr. pose proof (Forall_lookup_1 _ _ _ _ Hr Hj) as Hx. cbn in Hx. rewrite Ht in Hx.
  destruct Hcase as [(e & -> & ->)|[_ ->]]; cbn.
  - apply put_job_Forall; [done|]. cbn. intros _ s k Hin. eapply Hx. by right.
  - unfold store_access. destruct (access a (newData j) (cameraStore_ (stores y))) as [[[nd evs]|ex] c]; cbn; [|done].
    apply put_job_Forall; [done|]. cbn. intros _ s k [(e & ? & _)%list_elem_of_fmap|Hin]%elem_of_app; [done|]. eapply Hx. by right.
Qed.

Lemma work_tasks i y y' : work i y = Some y' → tasks y' = tasks y.
Proof.
  intros (j & a & rest & _ & _ & [(e & _ & ->)|[_ ->]])%work_cases; [done|]. unfold store_access.
  by destruct (access _ _ _) as [[[? ?]|?] ?].
Qed.
End tasks.

(** ** Runs of the application *)
Section app.
Context `{J : Json, T : QtText, H : QtHash, Q : QtMap, V : QtVideo, W : QtVariant, K : QtJson, P : QtParse, F : QtFiles}.
Context (toBase64 : list byte → string) (moved_from : QString) (workers : nat).
Context {TS DS : Type} `{ST : SecureSession TS, SD : SecureSession DS}.
Context (new_tls : option TS) (new_dtls : DS) (getLocalPort : UdpSession DS → Z) (fuel : nat).
Abbreviation app := (App TS DS).
Abbreviation sys_exec := (sys_exec toBase64 moved_from workers).
Abbreviation app_exec := (app_exec toBase64 moved_from workers new_tls new_dtls getLocalPort fuel).
Abbreviation app_run := (app_run toBase64 moved_from workers new_tls new_dtls getLocalPort fuel).

(** The process has ended by an exception that nothing caught. *)
Definition crashed (a : app) : bool := ap_aborted a || terminated (ap_system a).

(** The text of a callback as its tasks get it, through a [QString] and back. *)
Definition as_text (body : string) : string := toStdString (fromStdString body).

(** The task is one of a callback in [os], if its exceptions are not caught. *)
Definition from_service (os : list net_out) (t : task) : Prop :=
  match task_packet t with Some (k, s) => ∃ body, CbText k body ∈ os ∧ s = as_text body | None => True end.

(** The packet is in order, or the task that finds out is queued or on a worker. *)
Definition settled (ts : list task) (r : list job) (o : net_out) : Prop :=
  match o with
  | CbText k body =>
      packet_ok k (as_text body) = true ∨ (∃ t, deciding_task k (as_text body) = Some t ∧ t ∈ ts) ∨
      (k = onCameraList ∧ Exists (reading (as_text body)) r)
  | _ => True
  end.

(** The items a worker still has to read are those of a packet. *)
Definition items_from (os : list net_out) (j : job) : Prop :=
  ∀ s k, StoreItem s k ∈ todo j → is_array (json_parse s) = true ∧ ∃ body, CbText onCameraList body ∈ os ∧ s = as_text body.

Record sys_tracked (handled : list net_out) (y : System) : Prop := {
  tk_tasks : Forall (from_service handled) (tasks y);
  tk_items : Forall (items_from handled) (running y);
  tk_settled : Forall (settled (tasks y) (running y)) handled
}.

Record tracked (handled : list net_out) (a : app) : Prop := {
  tk_accounts : accounts handled a;
  tk_system : sys_tracked handled (ap_system a)
}.

Lemma from_service_sub os os' t : os ⊆ os' → from_service os t → from_service os' t.
Proof. unfold from_service. destruct (task_packet t) as [[k s]|]; [|done]. intros Hs (body & ? & ?). exists body. auto. Qed.

Lemma items_from_sub os os' j : os ⊆ os' → items_from os j → items_from os' j.
Proof. intros Hs Hj s k Hin. destruct (Hj s k Hin) as (? & body & ? & ?). split; [done|]. exists body. auto. Qed.

Lemma settled_sub ts ts' r o : ts ⊆ ts' → settled ts r o → settled ts' r o.
Proof. destruct o; try done. intros Hs [?|[(t & ? & ?)|?]]; [by left|right; left|by right; right]. exists t. auto. Qed.

Lemma callback_tasks_from o : Forall (from_service [o]) (callback_tasks o).
Proof.
  destruct o as [|k body|data meta]; [done| |by repeat constructor].
  assert (∀ k, CbText k body ∈ [CbText k body]) as Hin by (intros; by left).
  destruct k; cbn -[fromStdString toStdString login_result login_fail]; try (by repeat constructor).
  - unfold login_result. destruct (qjson_object _); [|constructor]. destruct (q_bool _ _); by constructor.
  - unfold login_fail. by repeat case_decide.
  - by repeat (constructor; [by exists body|]).
  - by repeat (constructor; [by exists body|]).
Qed.

Lemma callback_tasks_settled r o : settled (callback_tasks o) r o.
Proof. destruct o as [|[] body|]; try done; cbn; try (by left); right; left; eexists; (split; [done|]); set_solver. Qed.

(** A task that a worker takes: it throws for a packet that is not in order, or the
    worker goes on with it. *)
Lemma take_tracked handled now t q y :
  tasks y = t :: q → sys_tracked handled y →
  let y' := take_task toBase64 moved_from now t q y in
  (terminated y' = false ∧ sys_tracked handled y') ∨
  (terminated y' = true ∧ ∃ k body, CbText k body ∈ handled ∧ packet_ok k (as_text body) = false).
Proof.
  intros Hq [Hts Hit Hst]. cbn zeta. rewrite Hq in Hts, Hst. apply Forall_cons in Hts as [Ht Hts].
  unfold take_task. pose proof (task_ok_reads toBase64 moved_from now t (stores y)) as Hok.
  destruct (run_task toBase64 moved_from now t (stores y)) as [[acts|e] st] eqn:Hx; cbn in Hok.
  2: { right. split; [done|]. assert (task_ok t ≠ true) as Hk by (intros Hk; by specialize (Hok Hk)).
       apply not_true_is_false in Hk. unfold task_ok, from_service in *. destruct (task_packet t) as [[k s]|]; [|done].
       destruct Ht as (body & Hin & ->). by exists k, body. }
  left. set (new := {| newData := []; todo := acts |}).
  assert (items_from handled new) as Hnew.
  { intros s k Hin. cbn in Hin. assert (t = CameraTask s ∧ is_array (json_parse s) = true) as [-> Ha].
    { assert (∀ A (f : A → gui_event) r, posts f r = Ret acts → False) as Hp.
      { intros A f [[x|]|e]; cbn; intros [= <-]; [|by apply elem_of_nil in Hin]. by apply list_elem_of_singleton in Hin. }
      destruct t as [s'|s'|s'|s'|s'|s'|s'|d s']; cbn in Hx.
      - injection Hx as <- _. apply camera_actions_elem in Hin as [Ha [(k' & _ & [= -> _])|?]]; [|done]. done.
      - exfalso. destruct (updateFromCameraJson _ _ _) as [r d]. injection Hx as Hx _. by eapply Hp.
      - exfalso. destruct (updateFromAvailableJson _ _ _ _) as [r d]. injection Hx as Hx _. by eapply Hp.
      - exfalso. destruct (ServerStatusStore.updateFromJson _ _ _ _) as [r d]. injection Hx as Hx _. by eapply Hp.
      - exfalso. injection Hx as <- _. by apply meta_actions_elem in Hin as (id & info & _ & [?|?]).
      - exfalso. destruct (Alarm.dispatch_task _) as [[]|]; injection Hx as <- _;
          [by apply list_elem_of_singleton in Hin|by apply elem_of_nil in Hin..].
      - exfalso. injection Hx as <- _. by apply ai_actions_elem in Hin as (id & info & _ & ?).
      - exfalso. injection Hx as <- _. by apply list_elem_of_fmap in Hin as (? & ? & _). }
    split; [done|]. destruct Ht as (body & ? & ?). by exists body. }
  assert (∀ r, (acts = [] ∧ r = running y) ∨ r = running y ++ [new] → Forall (settled q r) handled) as Hsettled.
  { intros r Hr. eapply Forall_impl; [exact Hst|]. intros [|k body|]; try done. cbn.
    intros [?|[(t' & Ht' & [->|Hin]%elem_of_cons)|[-> He]]]; [by left| |right; left; by exists t'|].
    - destruct k; try done; injection Ht' as <-.
      + cbn in Hx. injection Hx as <- <-. destruct (is_array (json_parse (as_text body))) eqn:Ha;
          [|left; unfold packet_ok; by rewrite Ha].
        right; right. split; [done|]. destruct Hr as [[Hn _]| ->].
        * unfold camera_actions in Hn. rewrite Ha in Hn. by destruct (StoreItem _ <$> _).
        * apply Exists_app. right. constructor. exists 0. cbn [todo new]. unfold camera_actions. by rewrite Ha, drop_0.
      + left. by rewrite <-(status_reads toBase64 moved_from now _ (stores y)), Hx.
    - right; right. split; [done|]. destruct Hr as [[_ ->]| ->]; [done|]. apply Exists_app. by left. }
  destruct acts as [|ac acts].
  - split; [done|]. split; cbn; [done|done|]. apply Hsettled. by left.
  - split; [done|]. split; cbn; [done|by apply Forall_app_2, Forall_singleton|]. apply Hsettled. by right.
Qed.

Lemma work_tracked handled i y y' :
  terminated y = false → work i y = Some y' → sys_tracked handled y →
  (terminated y' = false ∧ sys_tracked handled y') ∨
  (terminated y' = true ∧ ∃ k body, CbText k body ∈ handled ∧ packet_ok k (as_text body) = false).
Proof.
  intros Ht Hw [Hts Hit Hst]. destruct (terminated y') eqn:Ht'; [right|left]; (split; [done|]).
  - destruct (work_throws i y y' Hw Ht Ht') as (j & s & k & Hj & Hin & item & Hi & Hf). rewrite Forall_forall in Hit.
    destruct (Hit j Hj s k Hin) as (Ha & body & Hb & ->). exists onCameraList, body. split; [done|]. unfold packet_ok. rewrite Ha.
    cbn [negb orb]. apply not_true_is_false. intros Hall. rewrite forallb_forall in Hall.
    specialize (Hall item (proj1 (list_elem_of_In _ _) Hi)). congruence.
  - split; rewrite ?(work_tasks i y y' Hw); [done| |].
    + by apply (work_items (λ s, is_array (json_parse s) = true ∧ ∃ body, CbText onCameraList body ∈ handled ∧ s = as_text body) i y y' Hw).
    + eapply Forall_impl; [exact Hst|]. intros [|k body|]; try done. cbn. intros [?|[?|[-> He]]]; [by left|by right; left|].
      destruct (work_reading _ i y y' Hw Ht' He); [by left|by right; right].
Qed.

(** What a step does to the tasks, to the flags, and to the callbacks handled. *)
Lemma app_exec_tasks l a a' :
  app_exec l a = Some a' →
  (∃ sl, sys_labels l a = [sl] ∧ sys_exec sl (ap_system a) = Some (ap_system a') ∧ ap_aborted a' = false) ∨
  (sys_labels l a = [] ∧ (tasks (ap_system a') = tasks (ap_system a) ∧ running (ap_system a') = running (ap_system a)) ∧
   terminated (ap_system a') = false ∧ (ap_aborted a' = true → l = ResolveFails)).
Proof.
  intros Hx. destruct (app_exec_alive _ _ _ _ _ _ _ _ _ _ Hx) as (Ha & Ht & _).
  pose proof (alive_guard _ (app_exec_alive _ _ _ _ _ _ _ _ _ _ Hx)) as Hg. revert Hx.
  unfold Application.app_exec, sys_labels. rewrite Hg. unfold sys_step.
  destruct l as [e| | |th clock|l|c|th| |th clock].
  - destruct (io_event e); [|done]. intros (n & _ & [= <-])%bind_Some. right. cbn. by rewrite Ha.
  - destruct (NetworkService.posts _); [done|]. destruct (is_connect_post _); [|done]. intros [= <-]. by right.
  - destruct (ap_calls a); [done|]. intros (-> & _ & ->)%service_call_fields. right. by rewrite Ha.
  - destruct (ap_queue a) as [|[purpose o] q]; [done|]. destruct (gui_free a); [|done].
    intros (y & Hy & [= <-])%bind_Some. left. by eexists.
  - destruct (_ && _); [|done]. destruct (begins_logout l a); [intros [= <-]; right; cbn; by rewrite Ha|].
    intros (y & Hy & [= <-])%bind_Some. left. by exists l.
  - destruct (gui_free a); [|done]. intros (r & _ & [= <-])%bind_Some. right. cbn. by rewrite Ha.
  - destruct (gui_free a); [|done]. intros (y & Hy & [= <-])%bind_Some. right.
    unfold Core_shutdown in Hy. apply bind_Some in Hy as ([v s] & _ & [= <-]). by cbn.
  - destruct (_ && _); [|done]. intros [= <-]. by right.
  - destruct (_ && _); [|done]. intros (y & Hy & [= <-])%bind_Some. left. by eexists.
Qed.

(** A callback that the GUI thread handles. *)
Lemma callback_tracked handled sl y y' :
  tasks y' = tasks y ++ default [] (callback_tasks <$> callback_of sl) → running y' = running y →
  sys_tracked handled y → sys_tracked (handled ++ option_list (callback_of sl)) y'.
Proof.
  intros Et Er [Hts Hit Hst]. split; rewrite ?Et, ?Er.
  - apply Forall_app. split; [eapply Forall_impl; [exact Hts|]; intros t; apply from_service_sub; set_solver|].
    destruct (callback_of sl) as [o|]; [|constructor].
    eapply Forall_impl; [apply callback_tasks_from|]. intros t. apply from_service_sub. cbn. set_solver.
  - eapply Forall_impl; [exact Hit|]. intros j. apply items_from_sub. set_solver.
  - apply Forall_app. split; [eapply Forall_impl; [exact Hst|]; intros o; apply settled_sub; set_solver|].
    destruct (callback_of sl) as [o|]; [|constructor]. cbn. constructor; [|constructor].
    eapply settled_sub; [|apply callback_tasks_settled]. set_solver.
Qed.

Lemma app_exec_tracked handled l a a' :
  tracked handled a → app_exec l a = Some a' →
  let handled' := handled ++ omap callback_of (sys_labels l a) in
  (crashed a' = false ∧ tracked handled' a') ∨
  (crashed a' = true ∧ (l = ResolveFails ∨
     ∃ k body, CbText k body ∈ out (ap_net a') ∧ packet_ok k (as_text body) = false)).
Proof.
  intros [Hacc Hsys] Hx. cbn zeta.
  pose proof (app_exec_accounts _ _ _ _ _ _ _ _ _ _ _ Hx Hacc) as Hacc'. unfold crashed.
  assert (∀ k body, CbText k body ∈ handled → CbText k body ∈ out (ap_net a')) as Hout.
  { intros k body Hin. unfold accounts in Hacc'. rewrite Hacc'. apply elem_of_app. left. apply elem_of_app. by left. }
  pose proof (app_exec_alive _ _ _ _ _ _ _ _ _ _ Hx) as (_ & Hal & _).
  destruct (app_exec_tasks l a a' Hx) as [(sl & El & Hy & ->)|(El & Et & -> & Hl)]; rewrite El in *.
  2: { cbn in *. rewrite app_nil_r in *. destruct (ap_aborted a'); [right; auto|left]. split; [done|]. split; [done|].
       destruct Et as [Et Er]. destruct Hsys. split; by rewrite ?Et, ?Er. }
  cbn [orb]. assert (omap callback_of [sl] = option_list (callback_of sl)) as Eo by (cbn; by destruct (callback_of sl)).
  rewrite Eo in *. destruct (sys_exec_tasks _ _ _ _ _ _ Hy) as [(now & t & q & -> & Hq & Ey)|[(i & -> & Hw)|(Et & Er & ->)]].
  - cbn in Hacc' |- *. rewrite app_nil_r in *.
    destruct (take_tracked handled now t q _ Hq Hsys) as [[Ht Hs]|[Ht (k & body & Hin & Hp)]]; rewrite <-Ey in *;
      [left; by split|right; split; [done|right]]. exists k, body. split; [by apply Hout|done].
  - cbn in Hacc' |- *. rewrite app_nil_r in *.
    destruct (work_tracked handled i _ _ Hal Hw Hsys) as [[Ht Hs]|[Ht (k & body & Hin & Hp)]];
      [left; by split|right; split; [done|right]]. exists k, body. split; [by apply Hout|done].
  - left. split; [done|]. split; [done|]. by eapply callback_tracked.
Qed.

(** Nothing follows a crash, so the run up to it was tracked. *)
Lemma app_run_tracked handled ls a a' :
  tracked handled a → crashed a = false → app_run ls a = Some a' →
  (crashed a' = false ∧ ∃ handled', tracked handled' a') ∨
  (crashed a' = true ∧ (last ls = Some ResolveFails ∨
     ∃ k body, CbText k body ∈ out (ap_net a') ∧ packet_ok k (as_text body) = false)).
Proof.
  revert handled a. induction ls as [|l ls IH]; intros handled a Ht Hc; cbn [Application.app_run].
  { intros [= <-]. left. split; [done|by exists handled]. }
  intros (a1 & H1 & H2)%bind_Some. destruct (app_exec_tracked handled l a a1 Ht H1) as [[Hc1 Ht1]|[Hc1 Hwhy]].
  - destruct (IH _ _ Ht1 Hc1 H2) as [?|[? [?|?]]]; [by left|right; split; [done|left]|by right; split; [|right]].
    by destruct ls.
  - right. destruct ls as [|l2 ls].
    + injection H2 as <-. split; [done|]. destruct Hwhy as [->|?]; [by left|by right].
    + cbn [Application.app_run] in H2. apply bind_Some in H2 as (a2 & H2 & _). apply app_exec_alive in H2 as (E1 & E2 & _).
      unfold crashed in Hc1. by rewrite E1, E2 in Hc1.
Qed.
End app.

(** ** Properties *)

(** C15. What ends the process, exactly: in a run of the application, if an exception has
    ended the process, the last step was a host name that did not resolve, or one of
    the texts the service called back is a packet whose JSON has a listed field of
    the wrong type; and conversely, as long as the process lives and once all callbacks
    are handled, no task is queued and no worker is in the midst of a camera list, every
    packet called back so far was in order.
    No other packet, event, command or order of steps brings the process down. *)
Theorem crashes_accounted `{J : Json, T : QtText, H : QtHash, Q : QtMap, V : QtVideo, W : QtVariant, K : QtJson, P : QtParse, F : QtFiles}
    (toBase64 : list byte → string) (moved_from : QString) (workers : nat)
    {TS DS : Type} `{ST : SecureSession TS, SD : SecureSession DS}
    (new_tls : option TS) (new_dtls : DS) (getLocalPort : UdpSession DS → Z) (fuel : nat)
    (s : Store) (ls : list app_label) (a : App TS DS) :
  app_run toBase64 moved_from workers new_tls new_dtls getLocalPort fuel ls (App_init s) = Some a →
  (crashed a = true →
     last ls = Some ResolveFails ∨ ∃ k body, CbText k body ∈ out (ap_net a) ∧ packet_ok k (as_text body) = false) ∧
  (crashed a = false → ap_queue a = [] → tasks (ap_system a) = [] → Forall (λ j, StoreList ∉ todo j) (running (ap_system a)) →
     ∀ k body, CbText k body ∈ out (ap_net a) → packet_ok k (as_text body) = true).
Proof.
  intros Hr. assert (tracked [] (App_init s : App TS DS)) as Ht by by split.
  destruct (app_run_tracked _ _ _ _ _ _ _ _ ls _ a Ht eq_refl Hr) as [[-> (handled & [Hacc [_ _ Hst]])]|[-> Hwhy]]; [|by split].
  split; [done|]. intros _ Hq Hts Hrun k body Hin. unfold accounts in Hacc. rewrite Hq, app_nil_r in Hacc. rewrite Hacc in Hin.
  rewrite Forall_forall in Hst. specialize (Hst _ Hin). rewrite Hts in Hst.
  destruct Hst as [?|[(t & _ & Hn)|[_ (j & Hj & k' & Htodo & _)%Exists_exists]]]; [done|by apply not_elem_of_nil in Hn|].
  rewrite Forall_forall in Hrun. destruct (Hrun j Hj). rewrite Htodo. apply elem_of_app. right. by left.
Qed.

(** *** Example: a camera whose address is a number *)

#[local] Existing Instances RefText RefHash RefMap RefVideo RefVariant RefFiles.
#[local] Existing Instances system_qjson system_parse.
#[local] Instance failing_json : Json := RefJson [("bad", JArr [JObj [("ip", JInt 5)]])].

Abbreviation failing_run := (app_run demo_base64 "" 2 (None : option (TLS.Session (O := RefSSL)))
  (MediaDTLS.Session_ctor (O := RefSSL) None false) (λ _, 5000%Z) 10).

Definition failing_labels : list app_label :=
  demo_app_before ++
  [Io (TcpEv 0 (Recv (message_frame (send_message (mt_value CAMERA) "bad")))); Io RunPost; NextCallback seen 0; Step (Take 0); Step (Work 0)].

Definition failing_app : App (TLS.Session (O := RefSSL)) (MediaDTLS.Session (O := RefSSL)) :=
  default (App_init ∅) (failing_run failing_labels (App_init ∅)).

Lemma crashes_accounted_witness :
  crashed failing_app = true ∧
  ∃ k body, CbText k body ∈ out (ap_net failing_app) ∧ packet_ok k (as_text body) = false.
Proof.
  assert (crashed failing_app = true) as Hc by (vm_compute; reflexivity). split; [exact Hc|].
  destruct (crashes_accounted demo_base64 "" 2 (None : option (TLS.Session (O := RefSSL)))
    (MediaDTLS.Session_ctor (O := RefSSL) None false) (λ _, 5000%Z) 10 ∅ failing_labels failing_app) as [Hwhy _].
  - vm_compute. reflexivity.
  - destruct (Hwhy Hc) as [Hl|Hp]; [discriminate Hl|exact Hp].
Defined.
