(* ===== verification/Connection.v ===== *)
(** * Connections (src/Core.cpp, AuthController.cpp, NetworkService.cpp)

    What becomes of a connection the user asks for, in the whole of [Application.v]:
    where it goes, how a login reaches the wire through it, and what happens when the
    attempt fails, or succeeds after the user has left. *)

From S2P Require Import Prelude Extern Variant Protocol Crypt MessageProcessor UdpSession TcpSession NetworkService Settings.
From S2P Require Import NetworkBridge Auth Video VideoWorker VideoManager VideoWiring Core Gui System Application.

(** ** Lemmas: where connections go *)
Section config.
Context `{T : QtText, Q : QtJson}.

(** The bridge, the host and the port of a controller, which nothing changes. *)
Definition config (a : AuthController) : bool * QString * QString := (bridge_ a, host_ a, port_ a).

Definition configs (c : Controllers) : bool * QString * QString * (bool * QString * QString) :=
  (config (lg_auth (login_ c)), config (sg_auth (signup_ c))).

(** Outputs that connect only where the controller is configured to. *)
Definition connects_to (a : AuthController) (o : auth_out) : Prop :=
  match o with
  | Call (SvcConnect h p purpose) =>
      h = toStdString (host_ a) ∧ p = toStdString (port_ a) ∧ (purpose = "login" ∨ purpose = "signup")
  | _ => True
  end.

(** A step of a controller keeps its configuration and connects where it says. *)
Definition faithful (a : AuthController) (r : AuthController * list auth_out) : Prop :=
  config r.1 = config a ∧ Forall (connects_to a) r.2.

Lemma connects_config a a' o : config a = config a' → connects_to a o → connects_to a' o.
Proof. unfold config. intros [= _ Hh Hp]. unfold connects_to. by rewrite Hh, Hp. Qed.

Lemma faithful_loading v a : faithful a (setLoading v a).
Proof. unfold setLoading. destruct (Bool.eqb _ _); (split; [done|]); [done|by constructor]. Qed.

Lemma faithful_error msg a : faithful a (setError msg a).
Proof. by repeat constructor. Qed.

Lemma faithful_begin a : faithful a (begin_request a).
Proof.
  unfold begin_request. cbn. pose proof (faithful_loading true (clearError a).1) as [Hc Hf].
  cbn in Hc, Hf. destruct (setLoading _ _) as [a' o]. cbn in *. split; [done|]. repeat constructor. exact Hf.
Qed.

Lemma faithful_bridge a calls :
  Forall (λ c, connects_to a (Call c)) calls → Forall (connects_to a) (on_bridge a calls).
Proof. intros H. unfold on_bridge. destruct (bridge_ a); [by apply Forall_fmap|done]. Qed.

Lemma disconnect_connects a : Forall (connects_to a) (on_bridge a disconnect).
Proof. apply faithful_bridge. by constructor. Qed.

Lemma sends_connect a t b : connects_to a (Call (SvcSend t b)).
Proof. done. Qed.

Lemma lg_connected_faithful l :
  config (lg_auth (lg_onConnected l).1) = config (lg_auth l) ∧ Forall (connects_to (lg_auth l)) (lg_onConnected l).2.
Proof. unfold lg_onConnected. destruct (_ && _); (split; [done|]); by repeat constructor. Qed.

Lemma sg_connected_faithful c :
  config (sg_auth (sg_onConnected c).1) = config (sg_auth c) ∧ Forall (connects_to (sg_auth c)) (sg_onConnected c).2.
Proof. unfold sg_onConnected. destruct (_ && _); (split; [done|]); by repeat constructor. Qed.

Lemma login_faithful id pw conn l :
  config (lg_auth (login id pw conn l).1) = config (lg_auth l) ∧ Forall (connects_to (lg_auth l)) (login id pw conn l).2.
Proof.
  unfold login. destruct (_ || _); [split; [done|]; by repeat constructor|].
  destruct (faithful_begin (lg_auth l)) as [Hc Hf]. destruct (begin_request (lg_auth l)) as [a o]. cbn in Hc, Hf.
  destruct (bridge_ a); [|by split]. destruct conn.
  - match goal with |- context [lg_onConnected ?l'] => destruct (lg_connected_faithful l') as [H1 H2] end.
    destruct (lg_onConnected _) as [l1 o1]. cbn in *. split; [congruence|]. apply Forall_app. split; [done|].
    eapply Forall_impl; [exact H2|]. intros x. by apply connects_config.
  - split; [done|]. apply Forall_app. split; [done|]. constructor; [|done]. unfold connects_to, config in *.
    injection Hc as _ -> ->. by split_and!; [..|left].
Qed.

Lemma signup_faithful id em pw conn c :
  config (sg_auth (signup id em pw conn c).1) = config (sg_auth c) ∧ Forall (connects_to (sg_auth c)) (signup id em pw conn c).2.
Proof.
  unfold signup. destruct (_ || _); [split; [done|]; by repeat constructor|].
  destruct (faithful_begin (sg_auth c)) as [Hc Hf]. destruct (begin_request (sg_auth c)) as [a o]. cbn in Hc, Hf.
  destruct (bridge_ a); [|by split]. destruct conn.
  - match goal with |- context [sg_onConnected ?l'] => destruct (sg_connected_faithful l') as [H1 H2] end.
    destruct (sg_onConnected _) as [l1 o1]. cbn in *. split; [congruence|]. apply Forall_app. split; [done|].
    eapply Forall_impl; [exact H2|]. intros x. by apply connects_config.
  - split; [done|]. apply Forall_app. split; [done|]. constructor; [|done]. unfold connects_to, config in *.
    injection Hc as _ -> ->. by split_and!; [..|right].
Qed.

(** A connection where one of the controllers is configured to. *)
Definition to_configured (c : Controllers) (o : auth_out) : Prop :=
  connects_to (lg_auth (login_ c)) o ∨ connects_to (sg_auth (signup_ c)) o.

Lemma login_configured c o : Forall (connects_to (lg_auth (login_ c))) o → Forall (to_configured c) o.
Proof. intros H. eapply Forall_impl; [exact H|]. by left. Qed.

Lemma signup_configured c o : Forall (connects_to (sg_auth (signup_ c))) o → Forall (to_configured c) o.
Proof. intros H. eapply Forall_impl; [exact H|]. by right. Qed.

(** [setLoading(false)], and what else the handlers of a result do. *)
Lemma loading_faithful v a o : Forall (connects_to a) o → Forall (connects_to a) ((setLoading v a).2 ++ o).
Proof. intros H. apply Forall_app. split; [apply faithful_loading|done]. Qed.

Lemma on_signal_faithful sig c : configs (on_signal sig c).1 = configs c ∧ Forall (to_configured c) (on_signal sig c).2.
Proof.
  pose proof (λ l, proj1 (faithful_loading false (lg_auth l))) as Hl.
  pose proof (λ l, proj1 (faithful_loading false (sg_auth l))) as Hs.
  pose proof (λ l o, loading_faithful false (lg_auth l) o) as Ll. pose proof (λ l o, loading_faithful false (sg_auth l) o) as Ls.
  unfold configs. destruct sig; cbn [on_signal set_login set_signup login_ signup_ fst snd]; try by split.
  - destruct (lg_connected_faithful (login_ c)) as [-> H]. split; [done|by apply login_configured].
  - destruct (sg_connected_faithful (signup_ c)) as [-> H]. split; [done|by apply signup_configured].
  - specialize (Hl (login_ c)). specialize (Ll (login_ c)). unfold handleLoginSuccess. destruct (setLoading _ _). cbn in *.
    split; [by rewrite Hl|]. apply login_configured, Ll. by repeat constructor.
  - specialize (Hl (login_ c)). specialize (Ll (login_ c)). unfold handleLoginFailed. destruct (setLoading _ _). cbn in *.
    split; [by rewrite <-Hl|]. apply login_configured, Ll. apply Forall_app. split; [apply disconnect_connects|by repeat constructor].
  - specialize (Hs (signup_ c)). specialize (Ls (signup_ c)). unfold handleSignupSuccess. destruct (setLoading _ _). cbn in *.
    split; [by rewrite Hs|]. apply signup_configured, Ls. apply Forall_app. split; [apply disconnect_connects|by repeat constructor].
  - specialize (Hs (signup_ c)). specialize (Ls (signup_ c)). unfold handleSignupFailed. destruct (setLoading _ _). cbn in *.
    split; [by rewrite <-Hs|]. apply signup_configured, Ls. apply Forall_app. split; [apply disconnect_connects|by repeat constructor].
Qed.

Lemma to_configured_same c c' o : configs c = configs c' → to_configured c o → to_configured c' o.
Proof.
  intros Hc. pose proof (f_equal fst Hc) as H1. pose proof (f_equal snd Hc) as H2.
  intros [H|H]; [left|right]; eapply connects_config; [exact H1|exact H|exact H2|exact H].
Qed.

Lemma on_signals_faithful sigs c : configs (on_signals sigs c).1 = configs c ∧ Forall (to_configured c) (on_signals sigs c).2.
Proof.
  unfold on_signals. set (acc := (c, @nil auth_out)).
  assert (configs acc.1 = configs c ∧ Forall (to_configured c) acc.2) as H0 by done.
  revert H0. generalize acc. clear acc. induction sigs as [|sig sigs IH]; intros acc [H1 H2]; [done|]. cbn. apply IH.
  destruct (on_signal_faithful sig acc.1) as [H3 H4]. destruct (on_signal sig acc.1) as [c1 o1]. cbn in *.
  split; [congruence|]. apply Forall_app. split; [done|]. eapply Forall_impl; [exact H4|]. intros o. by apply to_configured_same.
Qed.

Lemma logout_faithful l :
  config (lg_auth (logout l).1) = config (lg_auth l) ∧ Forall (connects_to (lg_auth l)) (logout l).2.
Proof.
  unfold logout. destruct (faithful_loading false (lg_auth l)) as [Hc Hf]. destruct (setLoading _ _) as [a o]. cbn in *.
  split; [done|]. repeat first [apply disconnect_connects|done|apply Forall_app; split|constructor].
Qed.

Lemma auth_handle_faithful e c : configs (auth_handle e c).1 = configs c ∧ Forall (to_configured c) (auth_handle e c).2.
Proof.
  unfold configs. destruct e; cbn [auth_handle set_login set_signup login_ signup_ fst snd].
  - destruct (login_faithful id password isConnected (login_ c)) as [-> H]. split; [done|by apply login_configured].
  - destruct (signup_faithful id email password isConnected (signup_ c)) as [-> H]. split; [done|by apply signup_configured].
  - destruct (logout_faithful (login_ c)) as [-> H]. split; [done|by apply login_configured].
  - apply on_signals_faithful.
  - apply on_signals_faithful.
Qed.
End config.

Section events.
Context `{J : Json, T : QtText, H : QtHash, Q : QtMap, V : QtVideo, W : QtVariant, K : QtJson, P : QtParse, F : QtFiles}.

Lemma cameras_changed_auth n r g g' : cameras_changed n r g = Some g' → auth_ g' = auth_ g.
Proof. unfold cameras_changed. by intros ([v s] & _ & [= <-])%bind_Some. Qed.

Lemma logout_requested_auth n g g' c : logout_requested n g = Some (g', c) → auth_ g' = auth_ g ∧ c = NetworkBridge.disconnect.
Proof.
  unfold logout_requested. intros ([v s] & _ & (g3 & H3 & [= <- <-])%bind_Some)%bind_Some.
  by apply cameras_changed_auth in H3.
Qed.

Lemma auth_outputs_auth n outs g g' c :
  auth_outputs n outs g = Some (g', c) →
  auth_ g' = auth_ g ∧ Forall (λ x, Call x ∈ outs ∨ x = SvcDisconnect) c.
Proof.
  assert (∀ outs o c, Forall (λ x, Call x ∈ outs ∨ x = SvcDisconnect) c → Forall (λ x, Call x ∈ o :: outs ∨ x = SvcDisconnect) c) as Hm.
  { intros outs0 o c0 Hc. eapply Forall_impl; [exact Hc|]. intros x [Hx|Hx]; [left; by right|by right]. }
  revert g g' c. induction outs as [|o outs IH]; intros g g' c; cbn [auth_outputs]; [by intros [= <- <-]|].
  destruct o; try by intros [Ha Hc]%IH; split; [done|apply Hm].
  - intros ([g2 c2] & [H1 H2]%IH & [= <- <-])%bind_Some. split; [done|]. constructor; [left; by left|by apply Hm].
  - intros ([g1 c1] & [H1 ->]%logout_requested_auth & ([g2 c2] & [H2 H3]%IH & [= <- <-])%bind_Some)%bind_Some.
    split; [congruence|]. constructor; [by right|by apply Hm].
Qed.

(** Any other event leaves the controllers, and the service, alone. *)
Lemma gui_exec_auth n e g g' c :
  gui_exec n e g = Some (g', c) → (∀ a, e ≠ OnAuth a) → auth_ g' = auth_ g ∧ c = [].
Proof.
  intros Hx He. destruct e as [op|snap|d|json|[cid info|cid dev tr fr tot ts img]|ev|id| |op|e|i p]; cbn [gui_exec] in Hx.
  - apply bind_Some in Hx as (g1 & H1%cameras_changed_auth & [= <- <-]). done.
  - by apply bind_Some in Hx as ([d s] & _ & [= <- <-]).
  - by injection Hx as <- <-.
  - by injection Hx as <- <-.
  - apply bind_Some in Hx as (g1 & H1%cameras_changed_auth & [= <- <-]). done.
  - by injection Hx as <- <-.
  - by injection Hx as <- <-.
  - by injection Hx as <- <-.
  - by injection Hx as <- <-.
  - destruct (settings_exec op (settingsController_ g, qsettings g)) as [[cs st] sigs].
    apply bind_Some in Hx as (g1 & H1 & [= <- <-]). split; [|done].
    change (auth_ g) with (auth_ (set_settings cs st g)). revert H1. generalize (set_settings cs st g). clear.
    induction sigs as [|sig sigs IH]; intros g; cbn; [by intros [= <-]|].
    destruct sig; try apply IH. by intros ([v s] & _ & ->%IH)%bind_Some.
  - by destruct (He e).
  - by apply bind_Some in Hx as ([v s] & _ & [= <- <-]).
Qed.

Lemma gui_exec_configs n e g g' c :
  gui_exec n e g = Some (g', c) →
  configs (auth_ g') = configs (auth_ g) ∧ Forall (λ x, to_configured (auth_ g) (Call x)) c.
Proof.
  intros Hx. assert ((∃ a, e = OnAuth a) ∨ ∀ a, e ≠ OnAuth a) as [[a ->]|He] by (destruct e; first [by left; eexists|by right]).
  - cbn [gui_exec] in Hx. destruct (auth_handle_faithful a (auth_ g)) as [H1 H2].
    destruct (auth_handle a (auth_ g)) as [cs outs]. cbn in *.
    apply auth_outputs_auth in Hx as [-> H3]. split; [done|]. eapply Forall_impl; [exact H3|].
    intros x [Hin| ->]; [|by left]. rewrite Forall_forall in H2. by apply H2.
  - apply gui_exec_auth in Hx as [-> ->]; [|done]. by split.
Qed.
End events.

(** ** Lemmas: the application *)
Section lemmas.
Context `{J : Json, T : QtText, H : QtHash, Q : QtMap, V : QtVideo, W : QtVariant, K : QtJson, P : QtParse, F : QtFiles}.
Context (toBase64 : list byte → string) (moved_from : QString) (workers : nat).
Context {TS DS : Type} `{ST : SecureSession TS, SD : SecureSession DS}.
Context (new_tls : option TS) (new_dtls : DS) (getLocalPort : UdpSession DS → Z) (fuel : nat).
Abbreviation app := (App TS DS).
Abbreviation net_handle := (net_handle new_tls new_dtls getLocalPort fuel).
Abbreviation net_run := (net_run new_tls new_dtls getLocalPort fuel).
Abbreviation sys_exec := (sys_exec toBase64 moved_from workers).
Abbreviation app_exec := (app_exec toBase64 moved_from workers new_tls new_dtls getLocalPort fuel).
Abbreviation app_run := (app_run toBase64 moved_from workers new_tls new_dtls getLocalPort fuel).
Abbreviation service_call := (service_call new_tls new_dtls getLocalPort fuel).

(** *** Where the application connects *)

(** The controllers of a system. *)
Definition auth_of (y : System) : Controllers := auth_ (gui y).

Definition configured (c : Controllers) (l : list svc_call) : Prop := Forall (λ x, to_configured c (Call x)) l.

(** Configured as [c], with calls that connect there. *)
Definition sys_configured (c : Controllers) (y : System) : Prop :=
  configs (auth_of y) = configs c ∧ configured c (calls y).

Lemma gui_step_configured c th clock e y y' :
  sys_configured c y → gui_step th clock e y = Some y' → sys_configured c y'.
Proof.
  intros [H1 H2]. unfold gui_step. intros ([g cs] & [H3 H4]%gui_exec_configs & [= <-])%bind_Some.
  unfold sys_configured, auth_of in *. cbn. split; [congruence|]. apply Forall_app. split; [done|]. eapply Forall_impl; [exact H4|].
  intros x. by apply to_configured_same.
Qed.

Lemma sys_exec_configured c l y y' : sys_configured c y → sys_exec l y = Some y' → sys_configured c y'.
Proof.
  intros Hy. unfold sys_exec, System.sys_exec. destruct (terminated y); [done|].
  destruct l as [th clock purpose k body|data meta|th clock e|now|i|th clock].
  - intros (y1 & H1 & [= <-])%bind_Some. by eapply (gui_step_configured c) in H1.
  - by intros [= <-].
  - destruct (from_outside e); [|done]. by apply gui_step_configured.
  - destruct (tasks y) as [|t q]; [done|]. case_decide; [|done]. intros [= <-]. unfold take_task.
    by destruct (run_task _ _ _ _ _) as [[[|? ?]|?] ?].
  - intros (j & ac & rest & _ & _ & [(e & _ & ->)|[_ ->]])%work_cases; [done|]. unfold store_access.
    by destruct (access _ _ _) as [[[? ?]|?] ?].
  - destruct (events y) as [|e evs]; [done|]. by apply gui_step_configured.
Qed.

Lemma shutdown_configured c th y y' : sys_configured c y → Core_shutdown th y = Some y' → sys_configured c y'.
Proof.
  intros [H1 H2]. unfold Core_shutdown. intros ([v sg] & _ & [= <-])%bind_Some. split; [done|].
  apply Forall_app. split; [done|]. constructor; [by left|done].
Qed.

Definition app_configured (c : Controllers) (a : app) : Prop :=
  sys_configured c (ap_system a) ∧ configured c (ap_calls a).

Definition is_send (c : svc_call) : Prop := match c with SvcSend _ _ => True | _ => False end.

(** What a command asks of the service. *)
Lemma run_command_calls cm b r :
  run_command cm b = Some r →
  match cm with
  | ConnectToServer _ _ _ => True
  | CloseConnection => r.2 = [SvcDisconnect]
  | _ => Forall is_send r.2
  end.
Proof.
  destruct cm; cbn; try (intros [= <-]; first [done|by repeat constructor]).
  - intros [= <-]. unfold sendDevice. destruct (str_empty _); [done|].
    destruct (update_pending _ _ _ _). destruct (is_action _ _ _); [by constructor|done].
  - destruct (debounce_active _); [|done]. intros [= <-]. cbn. apply Forall_fmap, Forall_forall. done.
Qed.

(** QML does not connect by itself. *)
Definition no_connect (l : app_label) : Prop := match l with Command (ConnectToServer _ _ _) => False | _ => True end.

Lemma with_system_configured c y q a :
  app_configured c a → sys_configured c y → app_configured c (with_system y q a).
Proof.
  intros [_ H2] Hy. split; [done|]. apply Forall_app. split; [done|]. apply Forall_drop. by destruct Hy.
Qed.

Lemma app_exec_configured c l a a' : app_configured c a → no_connect l → app_exec l a = Some a' → app_configured c a'.
Proof.
  intros Ha Hl. unfold app_exec, Application.app_exec. destruct (_ || _ || _); [done|]. unfold sys_step.
  destruct l as [e| | |th clock|l|cm|th| |th clock].
  - destruct (io_event e); [|done]. by intros (n & _ & [= <-])%bind_Some.
  - destruct (NetworkService.posts _); [done|]. destruct (is_connect_post _); [|done]. by intros [= <-].
  - destruct Ha as [Hs Hc]. destruct (ap_calls a) as [|x rest] eqn:Hx; [done|]. apply Forall_cons in Hc as [Hc Hr].
    assert (configured c (x :: rest)) as Hxr by by constructor.
    unfold Application.service_call. destruct x as [h p purpose| |t b]; [destruct (io_context_ _)..|].
    all: first [intros (n & _ & [= <-])%bind_Some|intros [= <-]]; split; cbn; try done; by rewrite Hx.
  - destruct (ap_queue a) as [|[pu o] q]; [done|]. destruct (gui_free a); [|done].
    intros (y & Hy & [= <-])%bind_Some. apply with_system_configured; [done|]. eapply sys_exec_configured; [|exact Hy]. by destruct Ha.
  - destruct (_ && _); [|done]. destruct (begins_logout l a).
    { intros [= <-]. destruct Ha as [Hs _]. split; [done|]. constructor; [by left|done]. }
    intros (y & Hy & [= <-])%bind_Some. apply with_system_configured; [done|]. eapply sys_exec_configured; [|exact Hy]. by destruct Ha.
  - destruct (gui_free a); [|done]. intros (r & Hr & [= <-])%bind_Some. destruct Ha as [Hs Hc]. split; [done|].
    apply Forall_app. split; [done|]. apply run_command_calls in Hr. destruct cm; try done; cbn in Hr.
    1: { rewrite Hr. constructor; [by left|done]. }
    all: eapply Forall_impl; [exact Hr|]; intros [] ?; try done; by left.
  - destruct (gui_free a); [|done]. intros (y & Hy & [= <-])%bind_Some.
    apply (with_system_configured c y (ap_queue a) a Ha). eapply shutdown_configured; [|exact Hy]. by destruct Ha.
  - destruct (_ && _); [|done]. by intros [= <-].
  - destruct (_ && _); [|done]. intros (y & Hy & [= <-])%bind_Some. apply sys_exec_configured with (c := c) in Hy; [|by destruct Ha].
    split; [done|]. apply Forall_drop. by destruct Hy.
Qed.

Lemma app_run_configured c ls a a' : app_configured c a → Forall no_connect ls → app_run ls a = Some a' → app_configured c a'.
Proof.
  intros Ha Hls. revert a Ha. induction Hls as [|l ls Hl _ IH]; intros a Ha; cbn; [by intros [= <-]|].
  intros (a1 & H1 & H2)%bind_Some. eapply IH; [|exact H2]. by eapply app_exec_configured.
Qed.

Lemma init_configured s : app_configured (auth_ (constructLayer2 s)) (App_init s).
Proof. split; [split; [done|constructor]|constructor]. Qed.

(** *** An attempt that fails *)

Definition is_send_post (p : net_post) : Prop := match p with PSend _ _ => True | _ => False end.

(** A context in which nothing is left to happen but sending in vain. *)
Definition dead (n : NetworkService TS DS) : Prop :=
  tcps n = [] ∧ udps n = [] ∧ connecting n = false ∧ Forall is_send_post (NetworkService.posts n).

Lemma dead_io e n n' : dead n → io_event e = true → net_handle n e = Some n' → dead n' ∧ out n' = out n.
Proof.
  intros (Ht & Hu & Hc & Hp) Hio. destruct e as [h q c|ok| |i e|k e|t b| |]; try done; cbn [NetworkService.net_handle].
  - by rewrite Hc.
  - destruct (NetworkService.posts n) as [|p rest] eqn:E; [done|]. apply Forall_cons in Hp as [Hp Hr]. intros [= <-].
    destruct p; try done. cbn. unfold run_send. cbn. destruct (session_ n); [|done]. destruct (connected_ n); [|done].
    cbn. rewrite Ht. done.
  - by rewrite Ht.
  - by rewrite Hu.
Qed.

Lemma dead_send t b n : dead n → dead (send t b n) ∧ out (send t b n) = out n.
Proof.
  intros (Ht & Hu & Hc & Hp). unfold send. destruct (io_context_ n); [|done]. split; [|done].
  split_and!; try done. apply Forall_app. split; [done|by constructor].
Qed.

(** Waiting for an answer that does not come. *)
Definition waiting (c : Controllers) (a : app) : Prop :=
  auth_of (ap_system a) = c ∧ ap_queue a = [] ∧ Forall is_send (ap_calls a) ∧ dead (ap_net a) ∧ sys_ok (ap_system a).

(** Steps that are neither a command to the controllers or the connection, nor the
    end of the program. *)
Definition patient (l : app_label) : Prop :=
  match l with
  | Step (Outside _ _ (OnAuth _)) | Command (ConnectToServer _ _ _) | Command CloseConnection | Quit _ | Destroy | Resume _ _ => False
  | _ => True
  end.

Lemma gui_step_auth th clock e y y' :
  gui_step th clock e y = Some y' → (∀ a, e ≠ OnAuth a) → auth_of y' = auth_of y ∧ calls y' = calls y.
Proof.
  unfold gui_step. intros ([g c] & Hx & [= <-])%bind_Some He. apply gui_exec_auth in Hx as [Ha ->]; [|done].
  cbn. by rewrite app_nil_r.
Qed.

Lemma sys_exec_auth l y y' :
  sys_ok y → match l with Callback _ _ _ _ _ | ImageData _ _ | Outside _ _ (OnAuth _) => False | _ => True end →
  sys_exec l y = Some y' → auth_of y' = auth_of y ∧ calls y' = calls y.
Proof.
  intros Hy Hl. unfold sys_exec, System.sys_exec. destruct (terminated y); [done|].
  destruct l as [th clock purpose k body|data meta|th clock e|now|i|th clock]; try done.
  - destruct (from_outside e); [|done]. intros Hx. eapply gui_step_auth; [exact Hx|]. by intros a ->.
  - destruct (tasks y) as [|t q]; [done|]. case_decide; [|done]. intros [= <-]. unfold take_task.
    by destruct (run_task _ _ _ _ _) as [[[|? ?]|?] ?].
  - intros (j & ac & rest & _ & _ & [(e & _ & ->)|[_ ->]])%work_cases; [done|]. unfold store_access.
    by destruct (access _ _ _) as [[[? ?]|?] ?].
  - pose proof (so_events _ Hy) as He. destruct (events y) as [|e evs]; [done|].
    apply Forall_cons in He as [(_ & _ & He) _]. intros Hx. eapply gui_step_auth in Hx; done.
Qed.

Lemma waiting_net c n a : waiting c a → dead n → out n = out (ap_net a) → waiting c (with_net n a).
Proof.
  intros (Ha & Hq & Hc & _ & Hy) Hn Ho. split_and!; try done. cbn. by rewrite Ho, drop_all, Hq.
Qed.

Lemma app_exec_waiting c l a a' :
  waiting c a → patient l → app_exec l a = Some a' → waiting c a' ∧ ap_phase a' = ap_phase a.
Proof.
  intros Hw Hl. pose proof Hw as (Ha & Hq & Hc & Hn & Hy).
  unfold app_exec, Application.app_exec. destruct (_ || _ || _); [done|]. unfold sys_step.
  destruct l as [e| | |th clock|l|cm|th| |th clock]; try done.
  - destruct (io_event e) eqn:He; [|done]. intros (n & Hx & [= <-])%bind_Some.
    destruct (dead_io _ _ _ Hn He Hx). split; [|done]. by apply waiting_net.
  - destruct Hn as (_ & _ & _ & Hp). destruct (NetworkService.posts _) as [|p ps]; [done|].
    apply Forall_cons in Hp as [Hp _]. by destruct p.
  - destruct (ap_calls a) as [|x rest] eqn:Hx; [done|]. apply Forall_cons in Hc as [Hs Hr]. destruct x; try done.
    unfold Application.service_call. cbn [NetworkService.net_handle mbind option_bind]. intros [= <-]. split; [|done].
    destruct (dead_send messageType body _ Hn) as [H1 H2].
    destruct (waiting_net c _ a Hw H1 H2) as (? & ? & _ & ? & ?). by split_and!.
  - by rewrite Hq.
  - destruct (own_label _ l) eqn:Ho; [|done]. destruct (_ || _); [|done].
    assert (begins_logout l a = false) as -> by (destruct l as [| |th clock []| | |]; try done). intros (y & Hx & [= <-])%bind_Some. split; [|done].
    pose proof (sys_exec_ok _ _ _ _ _ _ Hy Hx) as Hy'.
    apply sys_exec_auth in Hx as [H1 H2]; [|done|by destruct l as [| |th clock []| | |]].
    split_and!; try done; cbn; [congruence|]. by rewrite H2, drop_all, app_nil_r.
  - destruct (gui_free a); [|done]. intros (r & Hr & [= <-])%bind_Some. split; [|done]. split_and!; try done. cbn.
    apply Forall_app. split; [done|]. apply run_command_calls in Hr. by destruct cm.
Qed.

Lemma app_run_waiting c ls a a' :
  waiting c a → Forall patient ls → app_run ls a = Some a' → waiting c a' ∧ ap_phase a' = ap_phase a.
Proof.
  intros Hw Hls. revert a Hw. induction Hls as [|l ls Hl _ IH]; intros a Hw; cbn; [by intros [= <-]|].
  intros (a1 & H1 & H2)%bind_Some. destruct (app_exec_waiting c l a a1 Hw Hl H1) as [Hw1 E1].
  destruct (IH a1 Hw1 H2) as [Hw2 E2]. split; [done|congruence].
Qed.

(** *** An attempt that succeeds too late *)

(** A session that reads and that no one has closed. *)
Definition reading (s : TcpSession TS) : Prop := is_Some (pending s) ∧ CloseSocket ∉ TcpSession.trace s.

Lemma open_emit o (s : TcpSession TS) :
  o ≠ CloseSocket → CloseSocket ∉ TcpSession.trace s → CloseSocket ∉ TcpSession.trace (TcpSession.emit o s).
Proof. intros Ho Hs. cbn. rewrite not_elem_of_app, list_elem_of_singleton. split; [done|congruence]. Qed.

Lemma open_deliver (s : TcpSession TS) :
  CloseSocket ∉ TcpSession.trace s → CloseSocket ∉ TcpSession.trace (TcpSession.deliver s).
Proof. unfold TcpSession.deliver. destruct (has_messageHandler s); [by apply open_emit|done]. Qed.

Lemma reading_header hdr (s : TcpSession TS) : reading s → reading (header_read hdr s).
Proof.
  intros [Hp Ht]. unfold header_read. destruct (read_packet_header hdr) as [[t len]|]; [|done].
  case_decide; (split; [by eexists|]); [exact Ht|]. cbn [TcpSession.trace readHeader set_read].
  case_match; [by rewrite tls_output_trace|by apply open_deliver].
Qed.

Lemma reading_body body (s : TcpSession TS) : reading s → reading (body_read body s).
Proof.
  intros [Hp Ht]. unfold body_read. destruct (if decide (0 < msg_length (currentMessage_ s))%Z then tlsSession_ s else None) as [d|].
  - destruct (sec_decrypt d body) as [plain d']. cbn zeta. set (s1 := set_message _ _).
    assert (CloseSocket ∉ TcpSession.trace (handleTlsOutput s1)) as Hs by (by rewrite tls_output_trace).
    destruct (is_handshake_type _); (split; [by eexists|]); cbn [TcpSession.trace readHeader set_read].
    + case_match; [|exact Hs]. destruct (has_connectedHandler _); [|exact Hs]. by apply open_emit.
    + case_decide; [by apply open_deliver|exact Hs].
  - split; [by eexists|]. cbn [TcpSession.trace readHeader set_read]. case_decide; [by apply open_deliver|exact Ht].
Qed.

Lemma reading_bytes bs (s : TcpSession TS) : reading s → reading (foldl recv_byte s bs).
Proof.
  revert s. induction bs as [|b bs IH]; intros s Hs; [done|]. cbn. apply IH. unfold recv_byte.
  destruct (pending s) as [op|] eqn:Hp; [|done]. case_match.
  - destruct op; [by apply reading_header|by apply reading_body].
  - split; [by eexists|by destruct Hs].
Qed.

(** What may happen to a session that reads, short of an error. *)
Definition no_error (e : tcp_event) : Prop := match e with ReadError | WriteError _ | Close => False | _ => True end.

Lemma reading_event e (s : TcpSession TS) : no_error e → reading s → reading (tcp_handle s e).
Proof.
  intros He Hs. destruct e as [chunk| | |k m|k|m|]; cbn [tcp_handle]; try done.
  - by apply reading_bytes.
  - destruct (strand s) as [|[m|buf] rest]; [done| |done]. destruct Hs as [Hp Ht].
    unfold TcpSession.run_send. cbn [tlsSession_ set_output]. destruct (tlsSession_ s) as [d|]; [|done].
    case_decide; [|done]. by destruct (sec_encrypt _ _).
  - by destruct (writes s !! k).
Qed.

(** The context runs on, nobody shuts it down, and sessions that read go on. *)
Definition carries (n n' : NetworkService TS DS) : Prop :=
  io_context_ n' = io_context_ n ∧ joining n' = joining n ∧
  (PShutdown ∉ NetworkService.posts n → PShutdown ∉ NetworkService.posts n') ∧
  ∀ i s, tcps n !! i = Some s → reading s → ∃ s', tcps n' !! i = Some s' ∧ reading s'.

#[local] Instance carries_preorder : PreOrder carries.
Proof.
  split; [intros n; split_and!; [done..|by eauto]|].
  intros n1 n2 n3 (I1 & J1 & P1 & S1) (I2 & J2 & P2 & S2). split_and!; [congruence|congruence|auto|].
  intros i s Hs Hr. destruct (S1 i s Hs Hr) as (s' & Hs' & Hr'). eauto.
Qed.

Lemma carries_fields n n' :
  io_context_ n' = io_context_ n → joining n' = joining n → NetworkService.posts n' = NetworkService.posts n →
  tcps n' = tcps n → carries n n'.
Proof. intros Hi Hj Hp Ht. split_and!; [done|done|by rewrite Hp|rewrite Ht; eauto]. Qed.

Lemma carries_posts l n : PShutdown ∉ l → carries n (post_all l n).
Proof. intros Hl. split_and!; [done|done| |cbn; eauto]. cbn. rewrite not_elem_of_app. tauto. Qed.

Lemma carries_send t b n : carries n (send t b n).
Proof. unfold send. destruct (io_context_ n); [|done]. apply carries_posts. by intros ?%list_elem_of_singleton. Qed.

Lemma carries_callbacks cs n : carries n (foldl (λ n c, run_callback c n) n cs).
Proof.
  revert n. induction cs as [|[c b] cs IH]; intros n; [done|]. cbn. etrans; [|apply IH].
  destruct c; try by apply carries_fields. apply carries_posts. by intros ?%list_elem_of_singleton.
Qed.

Lemma carries_udp_outs os n : carries n (foldl (λ n o, run_udp_out o n) n os).
Proof.
  revert n. induction os as [|o os IH]; intros n; [done|]. cbn. etrans; [|apply IH].
  destruct o; [done|by apply carries_fields|apply carries_send].
Qed.

Lemma carries_image_meta json n : carries n (run_image_meta new_dtls getLocalPort json n).
Proof.
  unfold run_image_meta.
  set (p := match udpSession_ n with Some u => (u, n) | None => _ end).
  assert (carries n p.2) as Hp by (unfold p; destruct (udpSession_ n); [done|by apply carries_fields]).
  destruct p as [u n1]. cbn [snd] in Hp. etrans; [exact Hp|]. cbn zeta.
  set (n2 := set_udps _ n1). assert (carries n1 n2) as H2 by by apply carries_fields. etrans; [exact H2|].
  etrans; [apply carries_send|]. case_match; [by apply carries_fields|done].
Qed.

Lemma carries_post p n : p ≠ PShutdown → carries n (run_post new_dtls getLocalPort p n).
Proof.
  intros Hne. destruct p as [h q|m| | |json|t b|]; cbn [run_post].
  - by apply carries_fields.
  - destruct (processor_ n); [apply carries_callbacks|done].
  - by apply carries_fields.
  - cbn. destruct (has_onConnected _); by apply carries_fields.
  - apply carries_image_meta.
  - unfold run_send. destruct (session_ n) as [k|]; [|done]. destruct (connected_ n); [|done]. split_and!; [done..|].
    cbn. intros i s Hs Hr. destruct (decide (k = i)) as [->|Hki].
    + exists (sendMessage (send_message t b) s). by rewrite list_lookup_alter_eq, Hs.
    + exists s. by rewrite list_lookup_alter_ne.
  - done.
Qed.

Lemma tcp_posts_no_shutdown l : PShutdown ∉ l ≫= of_tcp_out.
Proof. intros (o & Ho & _)%list_elem_of_bind. destruct o; set_solver. Qed.

(** A session that came after the shutdown: no handler of it is left. *)
Definition late (i : nat) (n : NetworkService TS DS) : Prop :=
  io_context_ n = true ∧ joining n = true ∧ PShutdown ∉ NetworkService.posts n ∧
  ∃ s, tcps n !! i = Some s ∧ reading s.

(** Events that are no error of session [i]. *)
Definition spares (i : nat) (e : net_event) : Prop := ∀ e', e = TcpEv i e' → no_error e'.

Lemma late_carries i n n' : late i n → carries n n' → late i n'.
Proof.
  intros (Hi & Hj & Hp & s & Hs & Hr) (Ei & Ej & Ep & Es). split_and!; [congruence|congruence|auto|]. by eapply Es.
Qed.

Lemma late_io i e n n' : late i n → io_event e = true → spares i e → net_handle n e = Some n' → late i n'.
Proof.
  intros Hl Hio Hsp Hx. pose proof Hl as (Hi & Hj & Hp & s & Hs & Hr).
  destruct e as [h q c|ok| |k e|k e|t b| |]; try done; cbn [NetworkService.net_handle] in Hx.
  - destruct (connecting n); [|done]. injection Hx as <-. eapply late_carries; [exact Hl|].
    destruct ok; [|by apply carries_fields]. unfold on_connected. etrans; [|apply carries_posts, tcp_posts_no_shutdown].
    split_and!; [done..|]. cbn. intros i0 s0 Hs0 Hr0. exists s0. split; [by apply lookup_app_l_Some|done].
  - destruct (NetworkService.posts n) as [|p rest] eqn:E; [done|]. injection Hx as <-.
    apply not_elem_of_cons in Hp as [Hne Hrest]. eapply (late_carries i (set_posts rest n)); [|by apply carries_post].
    split_and!; [done..|by exists s].
  - destruct (tcps n !! k) as [s0|] eqn:Hk; [|done]. injection Hx as <-.
    eapply (late_carries i (set_tcps (<[k := tcp_handle s0 e]> (tcps n)) n)); [|apply carries_posts, tcp_posts_no_shutdown].
    split_and!; [done..|]. cbn. destruct (decide (k = i)) as [->|Hki].
    + exists (tcp_handle s0 e). rewrite list_lookup_insert_eq by (by eapply lookup_lt_Some). split; [done|].
      apply reading_event; [by apply Hsp|]. congruence.
    + exists s. by rewrite list_lookup_insert_ne.
  - destruct (udps n !! k) as [s0|] eqn:Hk; [|done]. apply bind_Some in Hx as (s' & _ & [= <-]).
    eapply late_carries; [exact Hl|]. etrans; [|apply carries_udp_outs]. by apply carries_fields.
Qed.

Lemma late_busy i n : late i n → io_context_ n = true ∧ io_idle n = false.
Proof.
  intros (Hi & _ & _ & s & Hs & [op Hop] & _). split; [done|]. unfold io_idle. apply andb_false_iff. left.
  apply andb_false_iff. right. apply not_true_iff_false. rewrite forallb_forall. intros Hf.
  specialize (Hf s (proj1 (list_elem_of_In _ _) (list_elem_of_lookup_2 _ _ _ Hs))).
  unfold tcp_idle in Hf. by rewrite Hop in Hf.
Qed.

(** The connection is made although the service has been shut down. *)
Lemma late_starts n n' :
  io_context_ n = true → joining n = true → PShutdown ∉ NetworkService.posts n →
  net_handle n (ConnectDone true) = Some n' → late (length (tcps n)) n'.
Proof.
  intros Hi Hj Hp. cbn. destruct (connecting n); [|done]. intros [= <-].
  set (s := TcpSession.start (TcpSession_ctor new_tls true true true) : TcpSession TS). assert (reading s) as Hs.
  { split; [by eexists|]. unfold s, TcpSession.start. destruct new_tls as [d|]; cbn.
    - destruct (sec_handshake d []) as [r d']. by case_decide; apply not_elem_of_nil.
    - by intros ?%list_elem_of_singleton. }
  unfold on_connected. fold s. eapply (late_carries _ (set_tcps (tcps n ++ [s]) n)).
  - split_and!; [done..|]. exists s. split; [by apply list_lookup_middle|done].
  - etrans; [|apply carries_posts, tcp_posts_no_shutdown]. by apply carries_fields.
Qed.

(** *** A login, from the button to the wire *)

(** The events [es] of the service's thread bring a connection about, through the TCP
    session [s], and the callback that reports it. *)
Definition connects_by (es : list net_event) (s : TcpSession TS) : Prop :=
  ∀ h p (n : NetworkService TS DS), io_context_ n = false →
  ∃ n1 n2, net_handle n (Connect h p bridge_callbacks) = Some n1 ∧ out n1 = out n ∧
    net_run es n1 = Some n2 ∧ out n2 = out n ++ [CbConnected] ∧ io_context_ n2 = true ∧ connected_ n2 = true ∧
    session_ n2 = Some 0 ∧ NetworkService.posts n2 = [] ∧ tcps n2 = [s].

(** When the server accepts a plain connection. *)
Definition plain_connect : list net_event := [RunPost; ConnectDone true; RunPost].

Lemma connect_runs : new_tls = None → connects_by plain_connect (TcpSession.start (TcpSession_ctor None true true true)).
Proof.
  intros Ht h p n Hio. eexists _, _. cbn [NetworkService.net_handle]. rewrite Hio. split; [reflexivity|].
  split; [done|]. rewrite Ht. split; [reflexivity|]. by split_and!.
Qed.

(** A message of the application, from the service to the write of [k] bytes. *)
Definition write_events (k : nat) : list net_event := RunPost :: (TcpEv 0 <$> [RunPosted; WireWrite 0 k]).

Lemma send_runs t b k (n : NetworkService TS DS) s :
  io_context_ n = true → connected_ n = true → session_ n = Some 0 → NetworkService.posts n = [] → tcps n = [s] →
  ∃ n', net_run (write_events k) (send t b n) = Some n' ∧
        tcps n' = [tcp_run [Send (send_message t b); RunPosted; WireWrite 0 k] s].
Proof.
  intros Hio Hc Hs Hp Ht. unfold send. rewrite Hio. set (m := send_message t b).
  change (tcp_run [Send m; RunPosted; WireWrite 0 k] s) with (tcp_run [RunPosted; WireWrite 0 k] (sendMessage m s)).
  assert (net_handle (post_all [PSend t b] n) RunPost = Some (set_tcps [sendMessage m s] (set_posts [] n))) as E.
  { cbn. rewrite Hp. cbn. unfold run_send. cbn. rewrite Hs, Hc, Ht. done. }
  unfold write_events. cbn [NetworkService.net_run]. rewrite E. cbn [mbind option_bind].
  rewrite (run_tcp_events new_tls new_dtls getLocalPort fuel 0 _ _ (sendMessage m s)) by done. by eexists.
Qed.

(** The login controller the application has. *)
Definition login_of (a : app) : LoginController := login_ (auth_ (gui (ap_system a))).

(** An event of the controllers that is no logout changes them and makes their calls. *)
Lemma auth_step th clock e (y : System) :
  terminated y = false → e ≠ ELogout → (∀ p k b, e ≠ ECallback p k b) →
  sys_exec (Outside th clock (OnAuth e)) y
  = Some (set_gui (set_auth (auth_handle e (auth_ (gui y))).1 (gui y)) (omap call_of (auth_handle e (auth_ (gui y))).2) y).
Proof.
  intros Ht He Hk. unfold sys_exec, System.sys_exec. rewrite Ht.
  assert (from_outside (OnAuth e) = true) as -> by (destruct e; try done; by destruct (Hk purpose k body)).
  unfold gui_step. cbn [gui_exec]. pose proof (auth_stays e (auth_ (gui y)) He) as Hs.
  destruct (auth_handle e (auth_ (gui y))) as [c outs]. cbn [fst snd] in *. by rewrite auth_outputs_omap.
Qed.

Lemma login_step th clock id pw a :
  alive a → gui_free a = true → connected_ (ap_net a) = false → bridge_ (lg_auth (login_of a)) = true → id ≠ "" → pw ≠ "" →
  ∃ a1, app_exec (Step (Outside th clock (OnAuth (ELogin id pw false)))) a = Some a1 ∧ alive a1 ∧ ap_phase a1 = Running ∧
    ap_net a1 = ap_net a ∧ ap_queue a1 = ap_queue a ∧
    ap_calls a1 = connectToServer (host_ (lg_auth (login_of a))) (port_ (lg_auth (login_of a))) "login" ∧
    bridge_ (lg_auth (login_of a1)) = true ∧ lg_pendingId_ (login_of a1) = id ∧ lg_pendingPassword_ (login_of a1) = pw ∧
    ap_leaving a1 = false.
Proof.
  intros Ha Hf Hc Hb Hi Hp. destruct (login_calls id pw (login_of a) Hb Hi Hp) as (E1 & E2 & E3 & E4).
  unfold app_exec, Application.app_exec. rewrite (alive_guard a Ha), Hc, Hf. cbn [own_label Bool.eqb on_gui_thread negb orb andb begins_logout].
  unfold sys_step. rewrite auth_step by (try done; by destruct Ha as (_ & ? & _)). eexists. split; [reflexivity|].
  apply gui_free_spec in Hf as (Hca & Hr & Hle). destruct Ha as (? & ? & ?).
  split_and!; try done. cbn. rewrite Hca, drop_app_length. exact E1.
Qed.

Lemma connected_step th clock id pw a :
  alive a → gui_free a = true → ap_queue a = [("login", CbConnected)] → bridge_ (lg_auth (login_of a)) = true →
  lg_pendingId_ (login_of a) = id → lg_pendingPassword_ (login_of a) = pw → id ≠ "" →
  ∃ a1, app_exec (NextCallback th clock) a = Some a1 ∧ alive a1 ∧ ap_net a1 = ap_net a ∧ ap_calls a1 = sendLogin id pw.
Proof.
  intros Ha Hf Hq Hb Hi Hp Hne. unfold app_exec, Application.app_exec. rewrite (alive_guard a Ha), Hq, Hf.
  unfold sys_step. cbn [callback_label]. rewrite auth_step by (try done; by destruct Ha as (_ & ? & _)).
  eexists. split; [reflexivity|]. apply gui_free_spec in Hf as (Hca & Hr & Hle). destruct Ha as (? & ? & ?).
  split_and!; try done. cbn [with_system ap_calls]. rewrite Hca.
  assert (omap call_of (auth_handle (EConnected "login") (auth_ (gui (ap_system a)))).2 = sendLogin id pw) as ->.
  { unfold login_of in *. change (auth_handle (EConnected "login") (auth_ (gui (ap_system a))))
      with (on_signals [connectedForLogin] (auth_ (gui (ap_system a)))). unfold on_signals.
    cbn [foldl on_signal fst snd]. unfold lg_onConnected. rewrite Hb, Hi, (proj2 (str_empty_false id)) by done.
    cbn [negb andb set_login fst snd Datatypes.app]. by rewrite Hp, omap_call_calls. }
  cbn [Datatypes.app]. cbn [calls set_gui]. by rewrite drop_app_length.
Qed.

(** What happens between the button and the wire: [es] brings the connection about and
    [es'] the message to the wire. *)
Definition login_labels (th : nat → Threads) (clock : Z) (id pw : QString) (es es' : list net_event) : list app_label :=
  [Step (Outside th clock (OnAuth (ELogin id pw false))); ServiceCall] ++ (Io <$> es) ++
  [NextCallback th clock; ServiceCall] ++ (Io <$> es').

Lemma login_runs th clock id pw es s k a :
  connects_by es s → Forall (λ e, io_event e = true) es →
  alive a → gui_free a = true → ap_queue a = [] → io_context_ (ap_net a) = false →
  connected_ (ap_net a) = false → bridge_ (lg_auth (login_of a)) = true → id ≠ "" → pw ≠ "" →
  let m := send_message (mt_value LOGIN) (buildJson [("id", toStdString id); ("pw", toStdString pw)]) in
  ∃ a', app_run (login_labels th clock id pw es (write_events k)) a = Some a' ∧
        tcps (ap_net a') = [tcp_run [Send m; RunPosted; WireWrite 0 k] s].
Proof.
  intros Hes Hev Ha Hf Hq Hio Hc Hb Hi Hp m.
  destruct (login_step th clock id pw a Ha Hf Hc Hb Hi Hp) as (a1 & R1 & A1 & P1 & N1 & Q1 & C1 & B1 & I1 & W1 & L1).
  destruct (Hes (toStdString (host_ (lg_auth (login_of a)))) (toStdString (port_ (lg_auth (login_of a)))) (ap_net a1))
    as (n1 & n2 & H1 & O1 & H2 & O2 & Hio2 & Hc2 & Hs2 & Hp2 & Ht2); [by rewrite N1|].
  set (a2 := with_calls "login" [] (with_net n1 a1)).
  assert (app_exec ServiceCall a1 = Some a2) as R2.
  { rewrite (app_exec_service _ _ _ _ _ _ _ _ _ a1 A1 C1). unfold service_call, Application.service_call. by rewrite N1, Hio, <-N1, H1. }
  destruct (io_run toBase64 moved_from workers new_tls new_dtls getLocalPort fuel es a2 n2) as (a3 & R3 & N3 & C3 & S3 & _ & Q3); [done..|].
  assert (ap_queue a3 = [("login", CbConnected)]) as Q3'.
  { rewrite Q3. cbn. rewrite Q1, Hq, O1, O2, drop_all, drop_app_length. done. }
  destruct S3 as (Y3 & _ & P3 & E3 & L3).
  assert (alive a3) as A3 by (unfold alive; by rewrite Y3, P3, E3).
  destruct (connected_step th clock id pw a3) as (a4 & R4 & A4 & N4 & C4);
    [done|by apply gui_free_spec; rewrite C3, P3, L3|done|unfold login_of; by rewrite Y3..|done|].
  set (body := buildJson [("id", toStdString id); ("pw", toStdString pw)]) in *.
  set (a5 := with_calls (ap_purpose a4) [] (with_net (send (mt_value LOGIN) body n2) a4)).
  assert (app_exec ServiceCall a4 = Some a5) as R5.
  { rewrite (app_exec_service _ _ _ _ _ _ _ _ _ a4 A4 C4). unfold service_call, Application.service_call. by rewrite N4, N3. }
  destruct (send_runs (mt_value LOGIN) body k n2 s Hio2 Hc2 Hs2 Hp2 Ht2) as (n6 & H6 & T6).
  destruct (io_run toBase64 moved_from workers new_tls new_dtls getLocalPort fuel (write_events k) a5 n6)
    as (a6 & R6 & N6 & _); [done|by repeat constructor|exact H6|].
  exists a6. split; [|by rewrite N6]. unfold login_labels.
  rewrite app_run_app. cbn [Application.app_run]. rewrite R1. cbn [mbind option_bind]. rewrite R2. cbn [mbind option_bind].
  rewrite app_run_app, R3. cbn [mbind option_bind]. rewrite app_run_app. cbn [Application.app_run]. rewrite R4.
  cbn [mbind option_bind]. rewrite R5. exact R6.
Qed.
End lemmas.

(** ** Properties *)
Section properties.
Context `{J : Json, T : QtText, H : QtHash, Q : QtMap, V : QtVideo, W : QtVariant, K : QtJson, P : QtParse, F : QtFiles}.
Context (toBase64 : list byte → string) (moved_from : QString) (workers : nat).
Context {TS DS : Type} `{ST : SecureSession TS, SD : SecureSession DS}.
Context (new_tls : option TS) (new_dtls : DS) (getLocalPort : UdpSession DS → Z) (fuel : nat).
Abbreviation app_exec := (app_exec toBase64 moved_from workers new_tls new_dtls getLocalPort fuel).
Abbreviation app_run := (app_run toBase64 moved_from workers new_tls new_dtls getLocalPort fuel).

(** A login reaches the server: from any reachable state without a connection, when the user
    logs in and the server accepts a plain connection, the steps that follow by
    themselves (connecting, the callback, the message, its write) put exactly one
    frame on the wire; a peer of this protocol that waits for a message receives it
    as a LOGIN message, and its text reads back as the id and the password, if these
    need no escaping. *)
Theorem login_reaches_server (th : nat → Threads) (clock : Z) (id pw : QString) (s : Store) (before : list app_label)
    (a : App TS DS) :
  new_tls = None → app_run before (App_init s) = Some a → Forall no_connect before → alive a → gui_free a = true → ap_queue a = [] → io_context_ (ap_net a) = false →
  connected_ (ap_net a) = false → id ≠ "" → pw ≠ "" →
  let body := buildJson [("id", toStdString id); ("pw", toStdString pw)] in
  let m := send_message (mt_value LOGIN) body in
  (Z.of_nat (String.length body) < 2 ^ 32)%Z →
  ∃ a' sess, app_run (login_labels th clock id pw plain_connect (write_events (5 + length (msg_payload m)))) a = Some a' ∧
    tcps (ap_net a') = [sess] ∧
    (∀ (chunks : list (list byte)) (peer : TcpSession TS), TcpSession.idle peer → concat chunks = wire sess →
       TcpSession.trace (tcp_run (Recv <$> chunks) peer) = TcpSession.trace peer ++ [OnMessage m]) ∧
    msg_type m = mt_value LOGIN ∧
    (plain (toStdString id) = true → plain (toStdString pw) = true → toStdString id ≠ "" → toStdString pw ≠ "" →
       read_object (payload_string (msg_payload m)) = Some [("id", toStdString id); ("pw", toStdString pw)]).
Proof.
  intros Ht Hrun Hncon Ha Hf Hq Hio Hc Hi Hp body m Hlen.
  assert (bridge_ (lg_auth (login_of a)) = true) as Hb.
  { eapply app_run_configured in Hrun as [[Hcf _] _]; [|apply init_configured|done].
    by injection Hcf. }
  destruct (login_runs toBase64 moved_from workers new_tls new_dtls getLocalPort fuel th clock id pw plain_connect
              (TcpSession.start (TcpSession_ctor None true true true)) (5 + length (msg_payload m)) a) as (a' & Hr & Hs);
    [by apply connect_runs|by repeat constructor|done..|].
  pose proof (serial_sends [m] (TcpSession.start (TcpSession_ctor None true true true) : TcpSession TS) eq_refl eq_refl eq_refl) as Hw.
  cbn [mbind list_bind Datatypes.app] in Hw. rewrite !app_nil_r in Hw.
  exists a', (tcp_run (serial_send m) (TcpSession.start (TcpSession_ctor None true true true))). split; [exact Hr|]. split; [done|]. split; [|split; [done|]].
  - intros chunks peer Hidle Hch.
    assert (wf_message m) as Hwf by (apply send_message_wf; exact Hlen).
    destruct (recv_frames [m] peer Hidle) as [_ Htr]; [by constructor|].
    rewrite recv_chunks, Hch, Hw. cbn [mbind list_bind] in Htr. rewrite app_nil_r in Htr. exact Htr.
  - intros P1 P2 N1 N2. cbn [m send_message msg_payload]. rewrite payload_string_bytes. unfold body.
    rewrite read_buildJson; unfold written; rewrite !filter_cons, filter_nil, !decide_True by done; [done|].
    by repeat constructor.
Qed.

(** C14. Connections go to the configured server only: unless QML itself connects the
    bridge, every connection the program asks the service for, and every one it has
    still to ask for, has the address that was in the settings when it started, the
    port of [Config.hpp] and the purpose of a login or a sign-up, whatever the user,
    the server and the network do. *)
Theorem connects_to_settings (s : Store) (ls : list app_label) (a : App TS DS) :
  app_run ls (App_init s) = Some a → Forall no_connect ls →
  ∀ h p purpose, SvcConnect h p purpose ∈ calls (ap_system a) ++ ap_calls a →
    h = toStdString (serverIp_ (SettingsController_ctor s)) ∧ p = toStdString (fromStdString SERVER_PORT) ∧
    (purpose = "login" ∨ purpose = "signup").
Proof.
  intros Hr Hls h p purpose Hin.
  eapply app_run_configured in Hr as [[_ H1] H2]; [|apply init_configured|done].
  assert (configured (auth_ (constructLayer2 s)) (calls (ap_system a) ++ ap_calls a)) as Hc by by apply Forall_app.
  unfold configured in Hc. rewrite Forall_forall in Hc. apply Hc in Hin. by destruct Hin.
Qed.

(** C16. A failed attempt is never reported: when the connection a login or a sign-up asked
    for fails, then whatever follows, short of a new command to the controllers or
    the connection and the end of the program, no callback comes, and the controllers
    stay as they were; what was loading keeps loading, without an error. *)
Theorem failed_attempt_waits (s : Store) (before ls : list app_label) (a a1 a2 : App TS DS) :
  app_run before (App_init s) = Some a → ap_phase a = Running →
  tcps (ap_net a) = [] → udps (ap_net a) = [] → Forall is_send_post (NetworkService.posts (ap_net a)) →
  ap_queue a = [] → Forall is_send (ap_calls a) →
  app_exec (Io (ConnectDone false)) a = Some a1 → Forall patient ls → app_run ls a1 = Some a2 →
  auth_of (ap_system a2) = auth_of (ap_system a) ∧ ap_queue a2 = [] ∧ ap_phase a2 = Running ∧
  (isLoading_ (lg_auth (login_of a)) = true → isLoading_ (lg_auth (login_of a2)) = true ∧
     isError_ (lg_auth (login_of a2)) = isError_ (lg_auth (login_of a))).
Proof.
  intros Hb Hp Ht Hu Hpo Hq Hc H1 Hls H2. pose proof (app_run_ok _ _ _ _ _ _ _ _ _ _ Hb Hp) as Hy.
  assert (waiting (auth_of (ap_system a)) a1 ∧ ap_phase a1 = Running) as [Hw Hp1].
  { apply app_exec_net in H1; [|done]. destruct H1 as (_ & Hn & ->). cbn in Hn.
    destruct (connecting (ap_net a)); [|done]. injection Hn as Hn.
    assert (dead (ap_net a1) ∧ out (ap_net a1) = out (ap_net a)) as [Hd Ho] by (rewrite <-Hn; by split_and!).
    split; [|done]. split_and!; try done. cbn. by rewrite Ho, drop_all, Hq. }
  destruct (app_run_waiting _ _ _ _ _ _ _ _ _ _ _ Hw Hls H2) as [(E & Hq2 & _) Ep].
  split_and!; [done|done|congruence|]. unfold login_of, auth_of in *. rewrite E. done.
Qed.

(** C17. A connection that comes too late hangs the program: when the user leaves during a
    connection attempt, [disconnect] closes the sessions there are, but not the one
    the attempt makes when it succeeds afterwards; the GUI thread then stays in
    [disconnect], and the program never closes that session, as long as the server
    keeps it open. *)
Theorem late_connection_hangs (s : Store) (before ls : list app_label) (a a1 a2 : App TS DS) (c : svc_call)
    (rest : list svc_call) :
  app_run before (App_init s) = Some a → ap_calls a = c :: rest → joins c →
  io_context_ (ap_net a) = true → joining (ap_net a) = true → PShutdown ∉ NetworkService.posts (ap_net a) →
  app_exec (Io (ConnectDone true)) a = Some a1 → (∀ e, Io e ∈ ls → spares (length (tcps (ap_net a))) e) →
  app_run ls a1 = Some a2 →
  gui_free a2 = false ∧ Forall (λ l, gui_label l = false) ls ∧ late (length (tcps (ap_net a))) (ap_net a2).
Proof.
  intros _ Hc Hj Hio Hjn Hps H1 Hsp H2.
  apply app_exec_net in H1; [|done]. destruct H1 as (_ & Hn & E1).
  pose proof (late_starts new_tls new_dtls getLocalPort fuel _ _ Hio Hjn Hps Hn) as Hl.
  assert (frozen (late (length (tcps (ap_net a)))) a1) as Hf by (split; [done|rewrite E1; by exists c, rest]).
  destruct (app_run_frozen toBase64 moved_from workers new_tls new_dtls getLocalPort fuel
    (late (length (tcps (ap_net a)))) (spares (length (tcps (ap_net a)))))
    with (ls := ls) (a := a1) (a' := a2) as [Hf2 Hg]; [apply late_busy| | |done|done|done|].
  - intros e n n' Hx He Hs Hh. by eapply late_io.
  - intros n (_ & Hx & _) Hx'. congruence.
  - destruct (frozen_busy _ a2 Hf2) as [Hb _]. split_and!; [done|done|by destruct Hf2].
Qed.
End properties.

(** *** Example: a login that succeeds, one that fails, and one left too early *)

#[local] Existing Instances RefText RefHash RefMap RefVideo RefVariant RefFiles.
#[local] Existing Instances system_qjson system_parse system_json.

Definition demo_login : Message := send_message (mt_value LOGIN) (buildJson [("id", "u"); ("pw", "p")]).

Lemma login_reaches_server_witness :
  ∃ a' sess, demo_run (login_labels seen 0 "u" "p" plain_connect (write_events (5 + length (msg_payload demo_login)))) demo_app0 = Some a' ∧
    tcps (ap_net a') = [sess] ∧
    read_object (payload_string (msg_payload demo_login)) = Some [("id", "u"); ("pw", "p")].
Proof.
  destruct (login_reaches_server demo_base64 "" 2 (None : option (TLS.Session (O := RefSSL)))
    (MediaDTLS.Session_ctor (O := RefSSL) None false) (λ _, 5000%Z) 10 seen 0 "u" "p" ∅ [] demo_app0)
    as (a' & sess & Hr & Hs & _ & _ & Hread).
  - reflexivity.
  - reflexivity.
  - done.
  - by split_and!.
  - reflexivity.
  - reflexivity.
  - reflexivity.
  - reflexivity.
  - done.
  - done.
  - vm_compute. reflexivity.
  - exists a', sess. split; [exact Hr|]. split; [exact Hs|]. by apply Hread.
Defined.

Definition demo_attempt : list app_label :=
  [Step (Outside seen 0 (OnAuth (ELogin "u" "p" false))); ServiceCall; Io RunPost].

Lemma connects_to_settings_witness : ap_calls (demo_app (take 1 demo_attempt)) = [SvcConnect "192.168.0.58" "20000" "login"] ∧
  "192.168.0.58" = toStdString (serverIp_ (SettingsController_ctor ∅)).
Proof.
  split; [vm_compute; reflexivity|].
  destruct (connects_to_settings demo_base64 "" 2 (None : option (TLS.Session (O := RefSSL)))
    (MediaDTLS.Session_ctor (O := RefSSL) None false) (λ _, 5000%Z) 10 ∅ (take 1 demo_attempt) (demo_app (take 1 demo_attempt)))
    with (h := "192.168.0.58") (p := "20000") (purpose := "login") as [Hh _].
  - vm_compute. reflexivity.
  - repeat constructor.
  - vm_compute. by left.
  - exact Hh.
Defined.

Lemma failed_attempt_waits_witness :
  isLoading_ (lg_auth (login_of (demo_app (demo_attempt ++ [Io (ConnectDone false); Step (Outside seen 0 (OnSettings Save))])))) = true.
Proof.
  destruct (failed_attempt_waits demo_base64 "" 2 (None : option (TLS.Session (O := RefSSL)))
    (MediaDTLS.Session_ctor (O := RefSSL) None false) (λ _, 5000%Z) 10 ∅ demo_attempt [Step (Outside seen 0 (OnSettings Save))]
    (demo_app demo_attempt) (demo_app (demo_attempt ++ [Io (ConnectDone false)]))
    (demo_app (demo_attempt ++ [Io (ConnectDone false); Step (Outside seen 0 (OnSettings Save))]))) as (_ & _ & _ & Hl).
  - vm_compute. reflexivity.
  - vm_compute. reflexivity.
  - vm_compute. reflexivity.
  - vm_compute. reflexivity.
  - vm_compute. constructor.
  - vm_compute. reflexivity.
  - vm_compute. constructor.
  - vm_compute. reflexivity.
  - by repeat constructor.
  - vm_compute. reflexivity.
  - destruct Hl as [Hl _]; [vm_compute; reflexivity|exact Hl].
Defined.

Definition demo_leaving : list app_label :=
  demo_attempt ++ [Step (Outside seen 0 (OnAuth ELogout)); ServiceCall; Io RunPost].

Lemma late_connection_hangs_witness :
  gui_free (demo_app (demo_leaving ++ [Io (ConnectDone true); Io RunPost; Io (TcpEv 0 (Recv []))])) = false.
Proof.
  destruct (late_connection_hangs demo_base64 "" 2 (None : option (TLS.Session (O := RefSSL)))
    (MediaDTLS.Session_ctor (O := RefSSL) None false) (λ _, 5000%Z) 10 ∅ demo_leaving [Io RunPost; Io (TcpEv 0 (Recv []))]
    (demo_app demo_leaving) (demo_app (demo_leaving ++ [Io (ConnectDone true)]))
    (demo_app (demo_leaving ++ [Io (ConnectDone true); Io RunPost; Io (TcpEv 0 (Recv []))])) SvcDisconnect []) as (Hf & _).
  - vm_compute. reflexivity.
  - vm_compute. reflexivity.
  - done.
  - vm_compute. reflexivity.
  - vm_compute. reflexivity.
  - vm_compute. by intros ?%not_elem_of_nil.
  - vm_compute. reflexivity.
  - intros e He e' ->. apply elem_of_cons in He as [?|He]; [done|]. apply list_elem_of_singleton in He. by injection He as ->.
  - vm_compute. reflexivity.
  - exact Hf.
Defined.
