(* ===== verification/SecureLogin.v ===== *)
(** * A login over TLS (NetworkService.cpp, TcpSession.hpp, TLS.hpp, AuthController.cpp)

    [NetworkService] gives every connection a TLS context, so the connection a login
    asks for is reported only when the handshake has ended.  The file runs a login
    through [Application.v] with such a connection: the handshake of [Handshake.v], the
    callback, and the message through the channel of [SecureChannel.v]. *)

From S2P Require Import Prelude Extern Variant Protocol Crypt MessageProcessor UdpSession TcpSession SecureChannel Handshake.
From S2P Require Import NetworkService Settings NetworkBridge Auth Video VideoWorker VideoManager VideoWiring Core Gui System.
From S2P Require Import Application Connection.

(** When the server accepts and answers the handshake with the frames [bodies]. *)
Definition tls_connect {TS : Type} `{ST : SecureSession TS} (d0 : TS) (bodies : list (list byte)) : list net_event :=
  [RunPost; ConnectDone true] ++ (TcpEv 0 <$> client_events d0 bodies) ++ [RunPost].

Section lemmas.
Context {TS DS : Type} `{ST : SecureSession TS, SD : SecureSession DS}.
Context (new_tls : option TS) (new_dtls : DS) (getLocalPort : UdpSession DS → Z) (fuel : nat).
Abbreviation net_handle := (net_handle new_tls new_dtls getLocalPort fuel).
Abbreviation net_run := (net_run new_tls new_dtls getLocalPort fuel).

Lemma client_session_silent (d0 : TS) : TcpSession.trace (client_session d0) = [].
Proof.
  unfold client_session, TcpSession.start, handleTlsOutput. cbn.
  destruct (sec_handshake d0 []) as [hello d1]. by case_decide.
Qed.

Lemma handshake_events_io (d : TS) (bodies : list (list byte)) : Forall (λ e, io_event (TcpEv 0 e) = true) (handshake_events d bodies).
Proof. revert d. induction bodies as [|b bodies IH]; intros d; [done|]. cbn [handshake_events].
  rewrite Forall_cons, Forall_app. split_and!; [done|by unfold write_answer; rewrite !Forall_cons|apply IH]. Qed.

Lemma tls_connect_io (d0 : TS) bodies : Forall (λ e, io_event e = true) (tls_connect d0 bodies).
Proof.
  unfold tls_connect, client_events. rewrite !Forall_app. split_and!; [by repeat constructor| |by repeat constructor].
  rewrite Forall_fmap, Forall_app. split; [by unfold write_answer; rewrite !Forall_cons|exact (handshake_events_io _ bodies)].
Qed.

(** The connection is reported after the last frame of the handshake. *)
Lemma tls_connects (d0 : TS) bodies :
  new_tls = Some d0 → completes (sec_handshake d0 []).2 bodies →
  Forall (λ b, b ≠ [] ∧ is_u32 (Z.of_nat (length b))) bodies →
  connects_by new_tls new_dtls getLocalPort fuel (tls_connect d0 bodies)
    (tcp_run (client_events d0 bodies) (client_session d0)).
Proof.
  intros Ht Hc Hbs h p n Hio. destruct (client_runs d0 bodies Hc Hbs) as (Hrest & Htr & _).
  set (s := tcp_run (client_events d0 bodies) (client_session d0)) in *.
  set (n1 := connect h p bridge_callbacks n).
  set (n2 := on_connected new_tls (set_connecting true (set_posts [] n1))).
  assert (net_run [RunPost; ConnectDone true] n1 = Some n2) as H2 by done.
  assert (tcps n2 = [client_session d0]) as Ht2 by (unfold n2, on_connected; cbn; by rewrite Ht).
  assert (NetworkService.posts n2 = []) as Hp2.
  { unfold n2, on_connected. rewrite Ht. fold (client_session d0). by rewrite client_session_silent. }
  assert (new_posts (client_session d0) s = [PConnected]) as Hnp.
  { unfold new_posts. by rewrite client_session_silent, Htr. }
  set (n3 := post_all [PConnected] (set_tcps [s] n2)).
  assert (net_run (TcpEv 0 <$> client_events d0 bodies) n2 = Some n3) as H3.
  { rewrite (run_tcp_events new_tls new_dtls getLocalPort fuel 0 _ n2 (client_session d0)) by by rewrite Ht2.
    fold s. by rewrite Hnp, Ht2. }
  assert (NetworkService.posts n3 = [PConnected]) as Hp3.
  { change (NetworkService.posts n3) with (NetworkService.posts n2 ++ [PConnected]). by rewrite Hp2. }
  exists n1, (run_post new_dtls getLocalPort PConnected (set_posts [] n3)).
  split; [cbn [NetworkService.net_handle]; by rewrite Hio|]. split; [done|]. split.
  - unfold tls_connect. rewrite net_run_app, H2. cbn [mbind option_bind]. rewrite net_run_app, H3.
    cbn [mbind option_bind NetworkService.net_run NetworkService.net_handle]. by rewrite Hp3.
  - split_and!; done.
Qed.
End lemmas.

(** ** Properties *)

(** C13. A login reaches the server over TLS: from any reachable state without a connection,
    when the user logs in, the server accepts and its handshake frames finish the
    handshake, then the steps that follow by themselves (connecting, the answers, the
    callback, the encryption, the writes) put on the wire the frames of the handshake
    and one frame after them; the session at the other end of the channel, once it has
    read the handshake, receives that frame, in any chunks, as a LOGIN message, and
    its text reads back as the id and the password, if these need no escaping. *)
Theorem login_over_tls `{J : Json, T : QtText, H : QtHash, Q : QtMap, V : QtVideo, W : QtVariant, K : QtJson, P : QtParse, F : QtFiles}
    (toBase64 : list byte → string) (moved_from : QString) (workers : nat)
    {TS DS : Type} `{ST : SecureSession TS, SD : SecureSession DS, C : !SecureChannel TS}
    (new_dtls : DS) (getLocalPort : UdpSession DS → Z) (fuel : nat)
    (th : nat → Threads) (clock : Z) (id pw : QString) (s : Store) (before : list app_label) (a : App TS DS)
    (d0 e : TS) (bodies : list (list byte)) :
  let app_run := app_run toBase64 moved_from workers (Some d0) new_dtls getLocalPort fuel in
  app_run before (App_init s) = Some a → Forall no_connect before → alive a → gui_free a = true → ap_queue a = [] →
  io_context_ (ap_net a) = false → connected_ (ap_net a) = false → id ≠ "" → pw ≠ "" →
  completes (sec_handshake d0 []).2 bodies → Forall (λ b, b ≠ [] ∧ is_u32 (Z.of_nat (length b))) bodies →
  channel (after_handshake (sec_handshake d0 []).2 bodies) [] e →
  let body := buildJson [("id", toStdString id); ("pw", toStdString pw)] in
  let m := send_message (mt_value LOGIN) body in
  (300 + 2 * Z.of_nat (String.length body) < 2 ^ 32)%Z →
  ∃ a' sess r,
    app_run (login_labels th clock id pw (tls_connect d0 bodies)
               (write_events (5 + sealed_bound (length (msg_payload m))))) a = Some a' ∧
    tcps (ap_net a') = [sess] ∧ wire sess = client_wire d0 bodies ++ record_frame r ∧
    (∀ (chunks : list (list byte)) (peer : TcpSession TS), ready peer → tlsSession_ peer = Some e →
       concat chunks = record_frame r →
       TcpSession.trace (tcp_run (Recv <$> chunks) peer) = TcpSession.trace peer ++ [OnMessage m]) ∧
    msg_type m = mt_value LOGIN ∧
    (plain (toStdString id) = true → plain (toStdString pw) = true → toStdString id ≠ "" → toStdString pw ≠ "" →
       read_object (payload_string (msg_payload m)) = Some [("id", toStdString id); ("pw", toStdString pw)]).
Proof.
  intros app_run Hrun Hncon Ha Hf Hq Hio Hc Hi Hp Hcm Hbs Hch body m Hlen.
  assert (bridge_ (lg_auth (login_of a)) = true) as Hb.
  { eapply app_run_configured in Hrun as [[Hcf _] _]; [|apply init_configured|done]. by injection Hcf. }
  destruct (client_runs d0 bodies Hcm Hbs) as ((_ & He & Hst & Hw & _) & _ & Hwire).
  set (s0 := tcp_run (client_events d0 bodies) (client_session d0)) in *. injection He as Htls _.
  assert (wf_message m) as Hwf by (apply send_message_wf; fold body; lia).
  assert (Z.of_nat (length (msg_payload m)) = Z.of_nat (String.length body)) as Hpl
    by (cbn; by rewrite string_bytes_length).
  assert (sealable m) as Hsl.
  { split_and!; [apply Hwf..|done|]. destruct Hwf as (_ & _ & Hml). by rewrite Hml, Hpl. }
  destruct (send_seals m s0 _ e [] Htls Hst Hw Hch Hsl) as (r & fl & d' & Hseal & Hch' & Hsend).
  destruct (login_runs toBase64 moved_from workers (Some d0) new_dtls getLocalPort fuel th clock id pw (tls_connect d0 bodies) s0
              (5 + sealed_bound (length (msg_payload m))) a) as (a' & Hr & Hs);
    [by apply tls_connects|apply tls_connect_io|done..|].
  exists a', (tcp_run (sealed_send m) s0), r. split; [exact Hr|]. split; [exact Hs|]. split; [|split; [|split; [done|]]].
  - rewrite Hsend. cbn [wire set_output]. by rewrite Hwire.
  - intros chunks peer Hready Hpe Hcc. rewrite recv_chunks, Hcc.
    pose proof (seals_cons m [] r [] fl [] Hseal seals_nil) as Hall.
    pose proof (seals_application _ _ _ Hall ltac:(by apply Forall_singleton)) as Happ. rewrite Forall_singleton in Happ.
    assert (has_tls peer = true) as Hpt by (unfold has_tls; rewrite Hpe; by apply bool_decide_true).
    destruct (recv_record r peer Hready) as (_ & _ & Htr); [by rewrite Hpt|].
    destruct (open_seals _ _ _ Hall ltac:(by apply Forall_singleton) d' e []) as (e' & Ho & _); [by rewrite !app_nil_r in *|].
    cbn [open_records] in Ho. rewrite Hpe in Htr. destruct (open_record (Some e) r) as [om t]. cbn [fst snd] in *.
    injection Ho as Ho _. rewrite ?app_nil_r in Ho. by rewrite Htr, Ho.
  - intros P1 P2 N1 N2. cbn [m send_message msg_payload]. rewrite payload_string_bytes. unfold body.
    rewrite read_buildJson; unfold written; rewrite !filter_cons, filter_nil, !decide_True by done; [done|].
    by repeat constructor.
Qed.

(** *** Example: the server answers the handshake with one frame *)

#[local] Existing Instances RefText RefHash RefMap RefVideo RefVariant RefFiles.
#[local] Existing Instances system_qjson system_parse system_json.

Definition demo_end (finished : bool) : TLS.Session (O := RefSSL) :=
  {| TLS.ssl := Some ({| rs_fin := finished; rs_in := []; rs_out := [] |} : @SSL RefSSL) |}.

Definition demo_flight : list (list byte) := [[x05]].

Lemma login_over_tls_witness :
  ∃ a' sess r, app_run demo_base64 "" 2 (Some (demo_end false)) (MediaDTLS.Session_ctor (O := RefSSL) None false) (λ _, 5000%Z) 10
      (login_labels seen 0 "u" "p" (tls_connect (demo_end false) demo_flight)
         (write_events (5 + sealed_bound (length (msg_payload demo_login))))) demo_app0 = Some a' ∧
    tcps (ap_net a') = [sess] ∧ wire sess = [x0b; x01; x00; x00; x00; x01] ++ record_frame r.
Proof.
  destruct (login_over_tls demo_base64 "" 2 (MediaDTLS.Session_ctor (O := RefSSL) None false) (λ _, 5000%Z) 10 seen 0 "u" "p"
    ∅ [] demo_app0 (demo_end false) (demo_end true) demo_flight) as (a' & sess & r & Hr & Hs & Hw & _).
  - reflexivity.
  - done.
  - by split_and!.
  - reflexivity.
  - reflexivity.
  - reflexivity.
  - reflexivity.
  - done.
  - done.
  - vm_compute. reflexivity.
  - by repeat constructor.
  - eexists _, _. split_and!; reflexivity || by split_and!.
  - vm_compute. reflexivity.
  - exists a', sess, r. split; [exact Hr|]. split; [exact Hs|exact Hw].
Defined.
