(* ===== verification/SessionEngine.v ===== *)
(** * The session engine (src/Src/Network/SessionEngine.hpp, src/Src/Config.hpp)

    An earlier session manager, in the source but out of the build.  It runs on an
    [io_context] of its own: outstanding asynchronous operations are a list, and a
    handler runs only inside [io_context::run], which returns, and stops the context,
    once no operation is outstanding.  Buffers are shared between handlers and tasks,
    so they are kept in a heap and named by their positions.  [Config.hpp] has the
    application state the engine reads and a value that announces its changes. *)

From S2P Require Import Prelude Extern Protocol.

(** ** Config.hpp *)

Inductive User : Type := LogOut | Admin | Normal.

#[export] Instance User_eq_dec : EqDecision User.
Proof. solve_decision. Defined.

Section observable.
Context {A : Type} `{!EqDecision A}.

(** [Observable]: the value, and what [on_changed] has been emitted with. *)
Record Observable : Type := { t_ : A; on_changed : list A }.

Definition assign (t : A) (o : Observable) : Observable :=
  if decide (t_ o = t) then o else {| t_ := t; on_changed := on_changed o ++ [t] |}.
End observable.
Arguments Observable : clear implicits.

(** ** State *)

Inductive async_op : Type :=
| AsyncConnect
| AsyncRead (buf : nat) (After : bool)     (* with the handler of [ServerConnect::Read], or none *)
| AsyncWrite (data : list byte).

Inductive engine_task : Type := TSuccess (body : nat) | TFail | TAvailable | TCamera | TAI | TImage.

Record ServerConnect : Type := {
  ops : list async_op;              (* outstanding on [io_] *)
  stopped : bool;                   (* [io_.run()] has returned *)
  buffers : list (list byte);       (* the shared vectors *)
  submitted : list engine_task;     (* to [pool_], in order *)
  User_ : User                      (* of [AppState] *)
}.

Definition set_ops (l : list async_op) (s : ServerConnect) : ServerConnect := {|
  ops := l; stopped := stopped s; buffers := buffers s; submitted := submitted s; User_ := User_ s
|}.
Definition set_buffers (b : list (list byte)) (s : ServerConnect) : ServerConnect := {|
  ops := ops s; stopped := stopped s; buffers := b; submitted := submitted s; User_ := User_ s
|}.
Definition set_tasks (l : list engine_task) (u : User) (s : ServerConnect) : ServerConnect := {|
  ops := ops s; stopped := stopped s; buffers := buffers s; submitted := l; User_ := u
|}.
Definition stop (s : ServerConnect) : ServerConnect := {|
  ops := ops s; stopped := true; buffers := buffers s; submitted := submitted s; User_ := User_ s
|}.

(** ** [Session<Protocol::TCP>] *)

Definition Session_Connect (s : ServerConnect) : ServerConnect := set_ops (ops s ++ [AsyncConnect]) s.

Definition Session_Read (data : nat) (After : bool) (s : ServerConnect) : ServerConnect :=
  set_ops (ops s ++ [AsyncRead data After]) s.

Definition Session_Write (data : list byte) (s : ServerConnect) : ServerConnect :=
  set_ops (ops s ++ [AsyncWrite data]) s.

(** [std::make_shared<std::vector<uint8_t>>(n)]: zeros. *)
Definition zeros (n : nat) : list byte := replicate n (byte_of_Z 0).

Definition make_shared (n : nat) (s : ServerConnect) : nat * ServerConnect :=
  (length (buffers s), set_buffers (buffers s ++ [zeros n]) s).

(** ** [ServerConnect] *)

Definition ReadPacket (s : ServerConnect) : ServerConnect :=
  let '(header, s) := make_shared 5 s in Session_Read header true s.

(** The switch on the type of a header: what is submitted. *)
Definition tasks_for (t : option MessageType) (u : User) (body : nat) : list engine_task :=
  match t with
  | Some SUCCESS => if decide (u = LogOut) then [TSuccess body] else []
  | Some FAIL => if decide (u = LogOut) then [TFail] else []
  | Some AVAILABLE => if decide (u = LogOut) then [] else [TAvailable]
  | Some CAMERA => if decide (u = LogOut) then [] else [TCamera]
  | Some AI => if decide (u = LogOut) then [] else [TAI]
  | Some META => if decide (u = LogOut) then [] else [TAvailable]
  | Some IMAGE => if decide (u = LogOut) then [] else [TImage]
  | _ => []
  end.

(** The handler [Read] passes, on its header buffer. *)
Definition header_handler (hdr : list byte) (s : ServerConnect) : ServerConnect :=
  match read_packet_header hdr with
  | None => s
  | Some (t, len) =>
      let '(body, s) := make_shared (Z.to_nat len) s in
      let s := Session_Read body false s in
      let s := set_tasks (submitted s ++ tasks_for (mt_of_value t) (User_ s) body) (User_ s) s in
      ReadPacket s
  end.

(** Operation [k] completes having moved [bytes]; no handler looks at the error code. *)
Definition run_handler (k : nat) (bytes : list byte) (s : ServerConnect) : option ServerConnect :=
  match ops s !! k with
  | None => None
  | Some op =>
      let s := set_ops (delete k (ops s)) s in
      match op with
      | AsyncConnect | AsyncWrite _ => Some s
      | AsyncRead b After =>
          buf ← buffers s !! b;
          if decide (length bytes ≤ length buf) then
            let buf := bytes ++ drop (length bytes) buf in
            let s := set_buffers (<[b := buf]> (buffers s)) s in
            Some (if After then header_handler buf s else s)
          else None
      end
  end.

(** [io_.run()] with the completions that come: [None] while it still waits. *)
Fixpoint io_run (cs : list (nat * list byte)) (s : ServerConnect) : option ServerConnect :=
  match ops s with
  | [] => Some (stop s)
  | _ :: _ => match cs with [] => None | (k, b) :: cs' => s' ← run_handler k b s; io_run cs' s' end
  end.

(** The constructor: connect, and run the context. *)
Definition ServerConnect_ctor (u : User) (cs : list (nat * list byte)) : option ServerConnect :=
  io_run cs (Session_Connect {| ops := []; stopped := false; buffers := []; submitted := []; User_ := u |}).

(** [json_["state"] == "admin"] on a value that is not const: an absent member is
    made null, and what is neither an object nor null throws. *)
Class JsonIndex (J : Json) : Type := { index_is : json → string → string → outcome exn bool }.

Section success.
Context `{J : Json, I : !JsonIndex J}.

(** [Success]; [std::string(begin, end)] of the body. *)
Definition Success (body : list byte) (u : User) : outcome exn unit * User :=
  match json_parse_throw (String.string_of_list_byte body) with
  | Throw e => (Throw e, u)
  | Ret j =>
      match index_is j "state" "admin" with
      | Throw e => (Throw e, u)
      | Ret true => (Ret tt, Admin)
      | Ret false => (Ret tt, Normal)
      end
  end.

(** What happens to an engine: calls from outside, handlers, and the pool running
    the first task (an exception stays in the task's future; the other handlers are
    declared and not defined). *)
Inductive engine_label : Type := CallRead | Handler (k : nat) (bytes : list byte) | RunTask.

Definition engine_exec (l : engine_label) (s : ServerConnect) : option ServerConnect :=
  match l with
  | CallRead => Some (ReadPacket s)
  | Handler k bytes => if stopped s then None else run_handler k bytes s
  | RunTask =>
      match submitted s with
      | TSuccess b :: rest => body ← buffers s !! b; Some (set_tasks rest (Success body (User_ s)).2 s)
      | _ => None
      end
  end.

Fixpoint engine_run (ls : list engine_label) (s : ServerConnect) : option ServerConnect :=
  match ls with
  | [] => Some s
  | l :: ls' => s' ← engine_exec l s; engine_run ls' s'
  end.
End success.

(** ** Lemmas *)

Definition is_call (l : engine_label) : bool := match l with CallRead => true | _ => false end.

Lemma ctor_shape u cs s :
  ServerConnect_ctor u cs = Some s → ops s = [] ∧ stopped s = true ∧ submitted s = [] ∧ User_ s = u.
Proof.
  unfold ServerConnect_ctor. destruct cs as [|[k b] cs]; [done|]. cbn.
  destruct k as [|k]; cbn; [|done]. destruct cs; by intros [= <-].
Qed.

Lemma stopped_step `{J : Json, I : !JsonIndex J} l s s' :
  stopped s = true → submitted s = [] → engine_exec l s = Some s' →
  l = CallRead ∧ stopped s' = true ∧ submitted s' = [] ∧ User_ s' = User_ s ∧ length (ops s') = S (length (ops s)).
Proof.
  intros Hs Hq. destruct l as [|k b|]; cbn; rewrite ?Hs, ?Hq; [|done|done].
  intros [= <-]. cbn. rewrite length_app. split_and!; [done..|cbn; lia].
Qed.

(** ** Properties *)

(** The engine never reads: its constructor runs its [io_context] until the connection
    attempt is over and returns with the context stopped, and nothing runs it again;
    so however often [Read] is called afterwards, no handler runs, nothing is
    submitted and the user stays logged out, while the reads pile up. *)
Theorem engine_never_reads `{J : Json, I : !JsonIndex J} (u : User) (cs : list (nat * list byte)) (s s' : ServerConnect)
    (ls : list engine_label) :
  ServerConnect_ctor u cs = Some s → engine_run ls s = Some s' →
  Forall (λ l, l = CallRead) ls ∧ submitted s' = [] ∧ User_ s' = u ∧ length (ops s') = length ls.
Proof.
  intros (Ho & Hs & Hq & Hu)%ctor_shape.
  assert (∀ ls s, stopped s = true → submitted s = [] → engine_run ls s = Some s' →
    Forall (λ l, l = CallRead) ls ∧ submitted s' = [] ∧ User_ s' = User_ s ∧ length (ops s') = length (ops s) + length ls) as H.
  { clear. induction ls as [|l ls IH]; intros s Hs Hq; cbn; [intros [= <-]; split_and!; [done..|lia]|].
    intros (s1 & H1 & H2)%bind_Some. apply stopped_step in H1 as (-> & Hs1 & Hq1 & Hu1 & Hl1); [|done..].
    destruct (IH s1 Hs1 Hq1 H2) as (Hf & Hq2 & Hu2 & Hl2). split_and!; [by constructor|done|congruence|lia]. }
  intros Hr. destruct (H ls s Hs Hq Hr) as (Hf & Hq' & Hu' & Hl). rewrite Ho in Hl. split_and!; [done|done|congruence|done].
Qed.

(** The engine's dispatch, as it is written: for the header of a message with [len]
    bytes of body, the handler submits the task of the message's type when the user
    is in the state it belongs to (SUCCESS and FAIL before a login, the others after
    it, and META the task of AVAILABLE); it submits it with a body of zeros, since the
    read of the body has only been started, and it starts the read of the next header
    beside it, so that two reads of one stream are outstanding.  [Success] on such
    a body throws whenever the parser rejects zeros. *)
Theorem engine_dispatch `{J : Json, I : !JsonIndex J} (t : MessageType) (len : Z) (s : ServerConnect) :
  is_u32 len →
  let s' := header_handler (packet_header (mt_value t) len) s in
  let body := length (buffers s) in
  submitted s' = submitted s ++
    (match t, decide (User_ s = LogOut) with
     | SUCCESS, left _ => [TSuccess body]
     | FAIL, left _ => [TFail]
     | AVAILABLE, right _ | META, right _ => [TAvailable]
     | CAMERA, right _ => [TCamera]
     | AI, right _ => [TAI]
     | IMAGE, right _ => [TImage]
     | _, _ => []
     end) ∧
  ops s' = ops s ++ [AsyncRead body false; AsyncRead (S body) true] ∧
  buffers s' = buffers s ++ [zeros (Z.to_nat len); zeros 5] ∧ User_ s' = User_ s ∧
  (∀ e, json_parse_throw (String.string_of_list_byte (zeros (Z.to_nat len))) = Throw e →
     Success (zeros (Z.to_nat len)) (User_ s) = (Throw e, User_ s)).
Proof.
  intros Hlen s' body. unfold s', header_handler.
  rewrite <-(app_nil_r (packet_header _ _)), read_packet_header_app, wrap32_id by done.
  rewrite wrap8_id by (unfold is_u8; destruct t; cbn; lia).
  cbn. rewrite mt_of_value_value, length_app, Nat.add_1_r, <-!app_assoc. split_and!; [|done..|].
  - by destruct t; cbn; destruct (decide (User_ s = LogOut)).
  - intros e He. unfold Success. by rewrite He.
Qed.

(** An observable announces each change, and nothing else: assigning any values, what
    is announced are the assigned values without those equal to the one before. *)
Theorem observable_changes {A : Type} `{!EqDecision A} (ts : list A) (t : A) (o : Observable A) :
  let o' := foldl (λ o t, assign t o) o ts in
  t_ (assign t o') = t ∧ on_changed o `prefix_of` on_changed o' ∧
  on_changed (assign t o') = on_changed o' ++ (if decide (t_ o' = t) then [] else [t]).
Proof.
  cbn zeta. split_and!.
  - unfold assign. by case_decide.
  - revert o. induction ts as [|x ts IH]; intros o; [done|]. cbn. etrans; [|apply IH].
    unfold assign. case_decide; [done|]. by eexists.
  - unfold assign. case_decide; [by rewrite app_nil_r|done].
Qed.

(** *** Example: a connection, and two calls of [Read] *)

#[local] Instance engine_json : Json := RefJson [].
#[local] Instance engine_index : JsonIndex engine_json := {|
  index_is j k v :=
    match j with
    | JObj l => Ret (match jfind k l with Some (JStr w) => bool_decide (w = v) | _ => false end)
    | JNull => Ret false
    | _ => Throw json_type_error
    end
|}.

Definition demo_engine : ServerConnect :=
  default {| ops := []; stopped := true; buffers := []; submitted := []; User_ := LogOut |} (ServerConnect_ctor LogOut [(0, [])]).

Lemma engine_never_reads_witness :
  submitted (ReadPacket (ReadPacket demo_engine)) = [] ∧ length (ops (ReadPacket (ReadPacket demo_engine))) = 2.
Proof.
  destruct (engine_never_reads LogOut [(0, [])] demo_engine (ReadPacket (ReadPacket demo_engine)) [CallRead; CallRead])
    as (_ & Hq & _ & Hl); [reflexivity|reflexivity|]. by split.
Defined.

Lemma engine_dispatch_witness :
  submitted (header_handler (packet_header (mt_value META) 7) (set_tasks [] Admin demo_engine)) = [TAvailable].
Proof.
  destruct (engine_dispatch META 7 (set_tasks [] Admin demo_engine)) as [H _]; [unfold is_u32; lia|]. exact H.
Defined.
