(* ===== verification/EntryPoint.v ===== *)
(** * The entry point (src/App.cpp)

    The URL interceptor [main] gives to the QML engine, which rewrites a directory
    name of another case.  The rest of [main] is the construction of [Core], whose
    state is [App_init] of [Application.v], and the connection of [aboutToQuit], which
    is [Quit] there. *)

From S2P Require Import Prelude Extern.

(** ** [QString::contains] and [QString::replace] *)

Fixpoint contains_text (p s : string) : bool :=
  starts_with s p || match s with EmptyString => false | String _ s' => contains_text p s' end.

(** Occurrences are replaced from the left and do not overlap: [skip] characters
    belong to one that has been replaced already. *)
Fixpoint replace_from (before after : string) (skip : nat) (s : string) : string :=
  match s with
  | EmptyString => EmptyString
  | String c s' =>
      match skip with
      | S k => replace_from before after k s'
      | 0 =>
          if starts_with s before then after +:+ replace_from before after (String.length before - 1) s'
          else String c (replace_from before after 0 s')
      end
  end.

Definition replace (before after s : string) : string :=
  if str_empty before then s else replace_from before after 0 s.

Definition Pages : string := "/Pages/".
Definition pages : string := "/pages/".

(** The text of the URL, as [intercept] changes it. *)
Definition intercept_text (s : QString) : QString := if contains_text Pages s then replace Pages pages s else s.

(** [PathCaseInterceptor::intercept]; [QUrl]'s conversions are Qt's. *)
Definition intercept {QUrl : Type} (toString : QUrl → QString) (ofString : QString → QUrl) (path : QUrl) : QUrl :=
  ofString (intercept_text (toString path)).

(** ** Lemmas *)

(** A character, and the one it may be changed to. *)
Definition lowers (a b : Ascii.ascii) : Prop := a = b ∨ (a = "P"%char ∧ b = "p"%char).

Fixpoint lowered (s t : string) : Prop :=
  match s, t with
  | EmptyString, EmptyString => True
  | String a s', String b t' => lowers a b ∧ lowered s' t'
  | _, _ => False
  end.

Lemma starts_contains p s : starts_with s p = true → contains_text p s = true.
Proof. intros H. destruct s; cbn [contains_text]; by rewrite H. Qed.

(** Replacing an occurrence and going on after it. *)
Lemma replace_here r : replace_from Pages pages 0 (Pages +:+ r) = pages +:+ replace_from Pages pages 0 r.
Proof. by destruct r. Qed.

Lemma replace_next c s :
  starts_with (String c s) Pages = false →
  replace_from Pages pages 0 (String c s) = String c (replace_from Pages pages 0 s).
Proof. intros H. cbn [replace_from]. by rewrite H. Qed.

(** Induction on the text along the replacements. *)
Lemma replace_ind (R : string → Prop) :
  R "" → (∀ r, R r → R (Pages +:+ r)) → (∀ c s, starts_with (String c s) Pages = false → R s → R (String c s)) →
  ∀ s, R s.
Proof.
  intros H0 H1 H2 s. remember (String.length s) as n eqn:Hn. revert s Hn.
  induction (lt_wf n) as [n _ IH]. intros s Hn. destruct (starts_with s Pages) eqn:Hs.
  - apply starts_with_iff in Hs as [r ->]. apply H1. apply (IH (String.length r)); [|done].
    rewrite Hn, app_string_length. cbn. lia.
  - destruct s as [|c s]; [done|]. apply H2; [done|]. apply (IH (String.length s)); [|done]. rewrite Hn. cbn. lia.
Qed.

Lemma lowered_refl s : lowered s s.
Proof. induction s as [|c s IH]; [done|]. by split; [left|]. Qed.

Lemma lowered_replace s : lowered s (replace_from Pages pages 0 s).
Proof.
  induction s as [|r IH|c s Hs IH] using replace_ind; [done| |].
  - rewrite replace_here. unfold Pages, pages. rewrite !app_string_cons, !app_string_nil_l. unfold lowered; fold lowered.
    repeat (split; [first [by left|by right]|]). exact IH.
  - rewrite replace_next by done. by split; [left|].
Qed.

Lemma replace_absent s : contains_text Pages s = false → replace_from Pages pages 0 s = s.
Proof.
  induction s as [|c s IH]; [done|]. cbn [contains_text]. intros [H1 H2]%orb_false_iff.
  by rewrite replace_next, IH.
Qed.

(** Text without a small p is in the original where it is in the result. *)
Lemma lowered_starts p s t :
  contains_text "p" p = false → lowered s t → starts_with t p = true → starts_with s p = true.
Proof.
  revert s t. induction p as [|a p IH]; intros s t Hp Hl Ht; [by destruct s|].
  cbn [contains_text] in Hp. apply orb_false_iff in Hp as [Hb Hp].
  apply starts_with_iff in Ht as [r ->]. rewrite app_string_cons in Hl.
  destruct s as [|c s]; [done|]. destruct Hl as [Hc Hl].
  assert (starts_with s p = true) as Hs by (apply (IH s (p +:+ r)); [done|done|apply starts_with_iff; by exists r]).
  destruct Hc as [->|[_ ->]].
  - unfold starts_with in *. cbn. by destruct (Ascii.ascii_dec a a).
  - exfalso. clear -Hb. unfold starts_with in Hb. cbn in Hb. by destruct p.
Qed.

Lemma contains_suffix p q s : contains_text p (q +:+ s) = false → contains_text p s = false.
Proof.
  induction q as [|c q IH]; [done|]. rewrite app_string_cons. cbn. intros [_ H]%orb_false_iff. by apply IH.
Qed.

Definition overlapping : string := "/Pages/Pages/".

Lemma replaced_contains s :
  contains_text overlapping s = false → contains_text Pages (replace_from Pages pages 0 s) = false.
Proof.
  induction s as [|r IH|c s Hs IH] using replace_ind; intros Ho; [done| |].
  - rewrite replace_here.
    change (starts_with (replace_from Pages pages 0 r) "Pages/" || contains_text Pages (replace_from Pages pages 0 r) = false).
    rewrite (IH (contains_suffix _ Pages r Ho)), orb_false_r. apply not_true_iff_false. intros Hp.
    apply (lowered_starts "Pages/" r) in Hp; [|done|apply lowered_replace].
    apply starts_with_iff in Hp as [r' ->].
    assert (starts_with (Pages +:+ ("Pages/" +:+ r')) overlapping = true) as Hc by (apply starts_with_iff; by exists r').
    apply starts_contains in Hc. by rewrite Ho in Hc.
  - rewrite replace_next by done. cbn [contains_text] in *. apply orb_false_iff in Ho as [_ Ho]. rewrite (IH Ho), orb_false_r.
    apply not_true_iff_false. intros Hp. apply (lowered_starts Pages (String c s)) in Hp; [by rewrite Hs in Hp|done|].
    split; [by left|apply lowered_replace].
Qed.

(** ** Properties *)

(** The interceptor lowers the directory's name and nothing else: the text keeps its
    length and changes only capital Ps to small ones; without the name it is left as
    it is; and no occurrence of the name is left, unless two of them share a slash,
    of which the second is kept: then the result still has a name the file system
    may not find. *)
Theorem intercept_lowers (s : QString) :
  lowered s (intercept_text s) ∧
  (contains_text Pages s = false → intercept_text s = s) ∧
  (contains_text overlapping s = false → contains_text Pages (intercept_text s) = false) ∧
  intercept_text "qrc:/Pages/Pages/Main.qml" = "qrc:/pages/Pages/Main.qml".
Proof.
  unfold intercept_text. split_and!.
  - destruct (contains_text Pages s); [apply lowered_replace|apply lowered_refl].
  - by intros ->.
  - intros Ho. destruct (contains_text Pages s) eqn:Hc; [by apply replaced_contains|done].
  - vm_compute. reflexivity.
Qed.
